(** * Split-Simplify: a shallow embedding of [simplify_markdown.py] and
      [split_markdown.py], and the properties of their line-rewriting
      pipeline and section splitter.

    A Python [str] is a sequence of Unicode code points; it is modelled as a
    list of code points.  The [re] module is modelled by a small backtracking
    matcher whose patterns are written constructor by constructor after the
    pattern strings of the source. *)

From Stdlib Require Import String Ascii.
From Stdlib Require Import List NArith Arith Bool Lia.
From Stdlib Require DecimalNat DecimalFacts Finite.
Import ListNotations.

(** ** Characters and strings *)

Definition char := N.
Definition str := list char.

(** An ASCII literal of the source, as a list of code points. *)
Definition lit (s : string) : str :=
  map N_of_ascii (list_ascii_of_string s).

Definition ch (a : ascii) : char := N_of_ascii a.

(** ** Unicode properties used by [str] methods and by [re]
    (Unicode 14.0, the tables of CPython 3.11). *)
Module Unicode.
Local Open Scope N_scope.

Definition in_ranges (tbl : list (N * N)) (c : char) : bool :=
  existsb (fun r => (fst r <=? c) && (c <=? snd r)) tbl.

(** [str.isspace], which is also the class [\s] of [re]. *)
Definition space_ranges : list (N * N) :=
  [(9, 13); (28, 32); (133, 133); (160, 160); (5760, 5760); (8192, 8202);
   (8232, 8233); (8239, 8239); (8287, 8287); (12288, 12288)].

Definition is_space : char -> bool := in_ranges space_ranges.

(** The class [\d]: decimal digits (general category Nd). *)
Definition digit_ranges : list (N * N) :=
  [
   (48, 57); (1632, 1641); (1776, 1785); (1984, 1993); (2406, 2415); (2534, 2543);
   (2662, 2671); (2790, 2799); (2918, 2927); (3046, 3055); (3174, 3183); (3302, 3311);
   (3430, 3439); (3558, 3567); (3664, 3673); (3792, 3801); (3872, 3881); (4160, 4169);
   (4240, 4249); (6112, 6121); (6160, 6169); (6470, 6479); (6608, 6617); (6784, 6793);
   (6800, 6809); (6992, 7001); (7088, 7097); (7232, 7241); (7248, 7257); (42528, 42537);
   (43216, 43225); (43264, 43273); (43472, 43481); (43504, 43513); (43600, 43609); (44016, 44025);
   (65296, 65305); (66720, 66729); (68912, 68921); (69734, 69743); (69872, 69881); (69942, 69951);
   (70096, 70105); (70384, 70393); (70736, 70745); (70864, 70873); (71248, 71257); (71360, 71369);
   (71472, 71481); (71904, 71913); (72016, 72025); (72784, 72793); (73040, 73049); (73120, 73129);
   (92768, 92777); (92864, 92873); (93008, 93017); (120782, 120831); (123200, 123209); (123632, 123641);
   (125264, 125273); (130032, 130041)  ].

Definition is_digit : char -> bool := in_ranges digit_ranges.

(** The class [\w]: alphanumeric characters and the underscore. *)
Definition word_ranges : list (N * N) :=
  [
   (48, 57); (65, 90); (95, 95); (97, 122); (170, 170); (178, 179);
   (181, 181); (185, 186); (188, 190); (192, 214); (216, 246); (248, 705);
   (710, 721); (736, 740); (748, 748); (750, 750); (880, 884); (886, 887);
   (890, 893); (895, 895); (902, 902); (904, 906); (908, 908); (910, 929);
   (931, 1013); (1015, 1153); (1162, 1327); (1329, 1366); (1369, 1369); (1376, 1416);
   (1488, 1514); (1519, 1522); (1568, 1610); (1632, 1641); (1646, 1647); (1649, 1747);
   (1749, 1749); (1765, 1766); (1774, 1788); (1791, 1791); (1808, 1808); (1810, 1839);
   (1869, 1957); (1969, 1969); (1984, 2026); (2036, 2037); (2042, 2042); (2048, 2069);
   (2074, 2074); (2084, 2084); (2088, 2088); (2112, 2136); (2144, 2154); (2160, 2183);
   (2185, 2190); (2208, 2249); (2308, 2361); (2365, 2365); (2384, 2384); (2392, 2401);
   (2406, 2415); (2417, 2432); (2437, 2444); (2447, 2448); (2451, 2472); (2474, 2480);
   (2482, 2482); (2486, 2489); (2493, 2493); (2510, 2510); (2524, 2525); (2527, 2529);
   (2534, 2545); (2548, 2553); (2556, 2556); (2565, 2570); (2575, 2576); (2579, 2600);
   (2602, 2608); (2610, 2611); (2613, 2614); (2616, 2617); (2649, 2652); (2654, 2654);
   (2662, 2671); (2674, 2676); (2693, 2701); (2703, 2705); (2707, 2728); (2730, 2736);
   (2738, 2739); (2741, 2745); (2749, 2749); (2768, 2768); (2784, 2785); (2790, 2799);
   (2809, 2809); (2821, 2828); (2831, 2832); (2835, 2856); (2858, 2864); (2866, 2867);
   (2869, 2873); (2877, 2877); (2908, 2909); (2911, 2913); (2918, 2927); (2929, 2935);
   (2947, 2947); (2949, 2954); (2958, 2960); (2962, 2965); (2969, 2970); (2972, 2972);
   (2974, 2975); (2979, 2980); (2984, 2986); (2990, 3001); (3024, 3024); (3046, 3058);
   (3077, 3084); (3086, 3088); (3090, 3112); (3114, 3129); (3133, 3133); (3160, 3162);
   (3165, 3165); (3168, 3169); (3174, 3183); (3192, 3198); (3200, 3200); (3205, 3212);
   (3214, 3216); (3218, 3240); (3242, 3251); (3253, 3257); (3261, 3261); (3293, 3294);
   (3296, 3297); (3302, 3311); (3313, 3314); (3332, 3340); (3342, 3344); (3346, 3386);
   (3389, 3389); (3406, 3406); (3412, 3414); (3416, 3425); (3430, 3448); (3450, 3455);
   (3461, 3478); (3482, 3505); (3507, 3515); (3517, 3517); (3520, 3526); (3558, 3567);
   (3585, 3632); (3634, 3635); (3648, 3654); (3664, 3673); (3713, 3714); (3716, 3716);
   (3718, 3722); (3724, 3747); (3749, 3749); (3751, 3760); (3762, 3763); (3773, 3773);
   (3776, 3780); (3782, 3782); (3792, 3801); (3804, 3807); (3840, 3840); (3872, 3891);
   (3904, 3911); (3913, 3948); (3976, 3980); (4096, 4138); (4159, 4169); (4176, 4181);
   (4186, 4189); (4193, 4193); (4197, 4198); (4206, 4208); (4213, 4225); (4238, 4238);
   (4240, 4249); (4256, 4293); (4295, 4295); (4301, 4301); (4304, 4346); (4348, 4680);
   (4682, 4685); (4688, 4694); (4696, 4696); (4698, 4701); (4704, 4744); (4746, 4749);
   (4752, 4784); (4786, 4789); (4792, 4798); (4800, 4800); (4802, 4805); (4808, 4822);
   (4824, 4880); (4882, 4885); (4888, 4954); (4969, 4988); (4992, 5007); (5024, 5109);
   (5112, 5117); (5121, 5740); (5743, 5759); (5761, 5786); (5792, 5866); (5870, 5880);
   (5888, 5905); (5919, 5937); (5952, 5969); (5984, 5996); (5998, 6000); (6016, 6067);
   (6103, 6103); (6108, 6108); (6112, 6121); (6128, 6137); (6160, 6169); (6176, 6264);
   (6272, 6276); (6279, 6312); (6314, 6314); (6320, 6389); (6400, 6430); (6470, 6509);
   (6512, 6516); (6528, 6571); (6576, 6601); (6608, 6618); (6656, 6678); (6688, 6740);
   (6784, 6793); (6800, 6809); (6823, 6823); (6917, 6963); (6981, 6988); (6992, 7001);
   (7043, 7072); (7086, 7141); (7168, 7203); (7232, 7241); (7245, 7293); (7296, 7304);
   (7312, 7354); (7357, 7359); (7401, 7404); (7406, 7411); (7413, 7414); (7418, 7418);
   (7424, 7615); (7680, 7957); (7960, 7965); (7968, 8005); (8008, 8013); (8016, 8023);
   (8025, 8025); (8027, 8027); (8029, 8029); (8031, 8061); (8064, 8116); (8118, 8124);
   (8126, 8126); (8130, 8132); (8134, 8140); (8144, 8147); (8150, 8155); (8160, 8172);
   (8178, 8180); (8182, 8188); (8304, 8305); (8308, 8313); (8319, 8329); (8336, 8348);
   (8450, 8450); (8455, 8455); (8458, 8467); (8469, 8469); (8473, 8477); (8484, 8484);
   (8486, 8486); (8488, 8488); (8490, 8493); (8495, 8505); (8508, 8511); (8517, 8521);
   (8526, 8526); (8528, 8585); (9312, 9371); (9450, 9471); (10102, 10131); (11264, 11492);
   (11499, 11502); (11506, 11507); (11517, 11517); (11520, 11557); (11559, 11559); (11565, 11565);
   (11568, 11623); (11631, 11631); (11648, 11670); (11680, 11686); (11688, 11694); (11696, 11702);
   (11704, 11710); (11712, 11718); (11720, 11726); (11728, 11734); (11736, 11742); (11823, 11823);
   (12293, 12295); (12321, 12329); (12337, 12341); (12344, 12348); (12353, 12438); (12445, 12447);
   (12449, 12538); (12540, 12543); (12549, 12591); (12593, 12686); (12690, 12693); (12704, 12735);
   (12784, 12799); (12832, 12841); (12872, 12879); (12881, 12895); (12928, 12937); (12977, 12991);
   (13312, 19903); (19968, 42124); (42192, 42237); (42240, 42508); (42512, 42539); (42560, 42606);
   (42623, 42653); (42656, 42735); (42775, 42783); (42786, 42888); (42891, 42954); (42960, 42961);
   (42963, 42963); (42965, 42969); (42994, 43009); (43011, 43013); (43015, 43018); (43020, 43042);
   (43056, 43061); (43072, 43123); (43138, 43187); (43216, 43225); (43250, 43255); (43259, 43259);
   (43261, 43262); (43264, 43301); (43312, 43334); (43360, 43388); (43396, 43442); (43471, 43481);
   (43488, 43492); (43494, 43518); (43520, 43560); (43584, 43586); (43588, 43595); (43600, 43609);
   (43616, 43638); (43642, 43642); (43646, 43695); (43697, 43697); (43701, 43702); (43705, 43709);
   (43712, 43712); (43714, 43714); (43739, 43741); (43744, 43754); (43762, 43764); (43777, 43782);
   (43785, 43790); (43793, 43798); (43808, 43814); (43816, 43822); (43824, 43866); (43868, 43881);
   (43888, 44002); (44016, 44025); (44032, 55203); (55216, 55238); (55243, 55291); (63744, 64109);
   (64112, 64217); (64256, 64262); (64275, 64279); (64285, 64285); (64287, 64296); (64298, 64310);
   (64312, 64316); (64318, 64318); (64320, 64321); (64323, 64324); (64326, 64433); (64467, 64829);
   (64848, 64911); (64914, 64967); (65008, 65019); (65136, 65140); (65142, 65276); (65296, 65305);
   (65313, 65338); (65345, 65370); (65382, 65470); (65474, 65479); (65482, 65487); (65490, 65495);
   (65498, 65500); (65536, 65547); (65549, 65574); (65576, 65594); (65596, 65597); (65599, 65613);
   (65616, 65629); (65664, 65786); (65799, 65843); (65856, 65912); (65930, 65931); (66176, 66204);
   (66208, 66256); (66273, 66299); (66304, 66339); (66349, 66378); (66384, 66421); (66432, 66461);
   (66464, 66499); (66504, 66511); (66513, 66517); (66560, 66717); (66720, 66729); (66736, 66771);
   (66776, 66811); (66816, 66855); (66864, 66915); (66928, 66938); (66940, 66954); (66956, 66962);
   (66964, 66965); (66967, 66977); (66979, 66993); (66995, 67001); (67003, 67004); (67072, 67382);
   (67392, 67413); (67424, 67431); (67456, 67461); (67463, 67504); (67506, 67514); (67584, 67589);
   (67592, 67592); (67594, 67637); (67639, 67640); (67644, 67644); (67647, 67669); (67672, 67702);
   (67705, 67742); (67751, 67759); (67808, 67826); (67828, 67829); (67835, 67867); (67872, 67897);
   (67968, 68023); (68028, 68047); (68050, 68096); (68112, 68115); (68117, 68119); (68121, 68149);
   (68160, 68168); (68192, 68222); (68224, 68255); (68288, 68295); (68297, 68324); (68331, 68335);
   (68352, 68405); (68416, 68437); (68440, 68466); (68472, 68497); (68521, 68527); (68608, 68680);
   (68736, 68786); (68800, 68850); (68858, 68899); (68912, 68921); (69216, 69246); (69248, 69289);
   (69296, 69297); (69376, 69415); (69424, 69445); (69457, 69460); (69488, 69505); (69552, 69579);
   (69600, 69622); (69635, 69687); (69714, 69743); (69745, 69746); (69749, 69749); (69763, 69807);
   (69840, 69864); (69872, 69881); (69891, 69926); (69942, 69951); (69956, 69956); (69959, 69959);
   (69968, 70002); (70006, 70006); (70019, 70066); (70081, 70084); (70096, 70106); (70108, 70108);
   (70113, 70132); (70144, 70161); (70163, 70187); (70272, 70278); (70280, 70280); (70282, 70285);
   (70287, 70301); (70303, 70312); (70320, 70366); (70384, 70393); (70405, 70412); (70415, 70416);
   (70419, 70440); (70442, 70448); (70450, 70451); (70453, 70457); (70461, 70461); (70480, 70480);
   (70493, 70497); (70656, 70708); (70727, 70730); (70736, 70745); (70751, 70753); (70784, 70831);
   (70852, 70853); (70855, 70855); (70864, 70873); (71040, 71086); (71128, 71131); (71168, 71215);
   (71236, 71236); (71248, 71257); (71296, 71338); (71352, 71352); (71360, 71369); (71424, 71450);
   (71472, 71483); (71488, 71494); (71680, 71723); (71840, 71922); (71935, 71942); (71945, 71945);
   (71948, 71955); (71957, 71958); (71960, 71983); (71999, 71999); (72001, 72001); (72016, 72025);
   (72096, 72103); (72106, 72144); (72161, 72161); (72163, 72163); (72192, 72192); (72203, 72242);
   (72250, 72250); (72272, 72272); (72284, 72329); (72349, 72349); (72368, 72440); (72704, 72712);
   (72714, 72750); (72768, 72768); (72784, 72812); (72818, 72847); (72960, 72966); (72968, 72969);
   (72971, 73008); (73030, 73030); (73040, 73049); (73056, 73061); (73063, 73064); (73066, 73097);
   (73112, 73112); (73120, 73129); (73440, 73458); (73648, 73648); (73664, 73684); (73728, 74649);
   (74752, 74862); (74880, 75075); (77712, 77808); (77824, 78894); (82944, 83526); (92160, 92728);
   (92736, 92766); (92768, 92777); (92784, 92862); (92864, 92873); (92880, 92909); (92928, 92975);
   (92992, 92995); (93008, 93017); (93019, 93025); (93027, 93047); (93053, 93071); (93760, 93846);
   (93952, 94026); (94032, 94032); (94099, 94111); (94176, 94177); (94179, 94179); (94208, 100343);
   (100352, 101589); (101632, 101640); (110576, 110579); (110581, 110587); (110589, 110590); (110592, 110882);
   (110928, 110930); (110948, 110951); (110960, 111355); (113664, 113770); (113776, 113788); (113792, 113800);
   (113808, 113817); (119520, 119539); (119648, 119672); (119808, 119892); (119894, 119964); (119966, 119967);
   (119970, 119970); (119973, 119974); (119977, 119980); (119982, 119993); (119995, 119995); (119997, 120003);
   (120005, 120069); (120071, 120074); (120077, 120084); (120086, 120092); (120094, 120121); (120123, 120126);
   (120128, 120132); (120134, 120134); (120138, 120144); (120146, 120485); (120488, 120512); (120514, 120538);
   (120540, 120570); (120572, 120596); (120598, 120628); (120630, 120654); (120656, 120686); (120688, 120712);
   (120714, 120744); (120746, 120770); (120772, 120779); (120782, 120831); (122624, 122654); (123136, 123180);
   (123191, 123197); (123200, 123209); (123214, 123214); (123536, 123565); (123584, 123627); (123632, 123641);
   (124896, 124902); (124904, 124907); (124909, 124910); (124912, 124926); (124928, 125124); (125127, 125135);
   (125184, 125251); (125259, 125259); (125264, 125273); (126065, 126123); (126125, 126127); (126129, 126132);
   (126209, 126253); (126255, 126269); (126464, 126467); (126469, 126495); (126497, 126498); (126500, 126500);
   (126503, 126503); (126505, 126514); (126516, 126519); (126521, 126521); (126523, 126523); (126530, 126530);
   (126535, 126535); (126537, 126537); (126539, 126539); (126541, 126543); (126545, 126546); (126548, 126548);
   (126551, 126551); (126553, 126553); (126555, 126555); (126557, 126557); (126559, 126559); (126561, 126562);
   (126564, 126564); (126567, 126570); (126572, 126578); (126580, 126583); (126585, 126588); (126590, 126590);
   (126592, 126601); (126603, 126619); (126625, 126627); (126629, 126633); (126635, 126651); (127232, 127244);
   (130032, 130041); (131072, 173791); (173824, 177976); (177984, 178205); (178208, 183969); (183984, 191456);
   (194560, 195101); (196608, 201546)  ].

Definition is_word : char -> bool := in_ranges word_ranges.

(** Simple lower-case mapping, as runs [(first, last, step, image of first)]:
    every [step]-th code point of [first..last] maps to the code point at the
    same distance from the image of [first]. *)
Definition lower_runs : list (N * N * N * N) :=
  [
   (65, 90, 1, 97); (192, 214, 1, 224); (216, 222, 1, 248); (256, 302, 2, 257);
   (304, 304, 1, 105); (306, 310, 2, 307); (313, 327, 2, 314); (330, 374, 2, 331);
   (376, 376, 1, 255); (377, 381, 2, 378); (385, 385, 1, 595); (386, 388, 2, 387);
   (390, 390, 1, 596); (391, 391, 1, 392); (393, 394, 1, 598); (395, 395, 1, 396);
   (398, 398, 1, 477); (399, 399, 1, 601); (400, 400, 1, 603); (401, 401, 1, 402);
   (403, 403, 1, 608); (404, 404, 1, 611); (406, 406, 1, 617); (407, 407, 1, 616);
   (408, 408, 1, 409); (412, 412, 1, 623); (413, 413, 1, 626); (415, 415, 1, 629);
   (416, 420, 2, 417); (422, 422, 1, 640); (423, 423, 1, 424); (425, 425, 1, 643);
   (428, 428, 1, 429); (430, 430, 1, 648); (431, 431, 1, 432); (433, 434, 1, 650);
   (435, 437, 2, 436); (439, 439, 1, 658); (440, 440, 1, 441); (444, 444, 1, 445);
   (452, 452, 1, 454); (453, 453, 1, 454); (455, 455, 1, 457); (456, 456, 1, 457);
   (458, 458, 1, 460); (459, 475, 2, 460); (478, 494, 2, 479); (497, 497, 1, 499);
   (498, 500, 2, 499); (502, 502, 1, 405); (503, 503, 1, 447); (504, 542, 2, 505);
   (544, 544, 1, 414); (546, 562, 2, 547); (570, 570, 1, 11365); (571, 571, 1, 572);
   (573, 573, 1, 410); (574, 574, 1, 11366); (577, 577, 1, 578); (579, 579, 1, 384);
   (580, 580, 1, 649); (581, 581, 1, 652); (582, 590, 2, 583); (880, 882, 2, 881);
   (886, 886, 1, 887); (895, 895, 1, 1011); (902, 902, 1, 940); (904, 906, 1, 941);
   (908, 908, 1, 972); (910, 911, 1, 973); (913, 929, 1, 945); (931, 939, 1, 963);
   (975, 975, 1, 983); (984, 1006, 2, 985); (1012, 1012, 1, 952); (1015, 1015, 1, 1016);
   (1017, 1017, 1, 1010); (1018, 1018, 1, 1019); (1021, 1023, 1, 891); (1024, 1039, 1, 1104);
   (1040, 1071, 1, 1072); (1120, 1152, 2, 1121); (1162, 1214, 2, 1163); (1216, 1216, 1, 1231);
   (1217, 1229, 2, 1218); (1232, 1326, 2, 1233); (1329, 1366, 1, 1377); (4256, 4293, 1, 11520);
   (4295, 4295, 1, 11559); (4301, 4301, 1, 11565); (5024, 5103, 1, 43888); (5104, 5109, 1, 5112);
   (7312, 7354, 1, 4304); (7357, 7359, 1, 4349); (7680, 7828, 2, 7681); (7838, 7838, 1, 223);
   (7840, 7934, 2, 7841); (7944, 7951, 1, 7936); (7960, 7965, 1, 7952); (7976, 7983, 1, 7968);
   (7992, 7999, 1, 7984); (8008, 8013, 1, 8000); (8025, 8031, 2, 8017); (8040, 8047, 1, 8032);
   (8072, 8079, 1, 8064); (8088, 8095, 1, 8080); (8104, 8111, 1, 8096); (8120, 8121, 1, 8112);
   (8122, 8123, 1, 8048); (8124, 8124, 1, 8115); (8136, 8139, 1, 8050); (8140, 8140, 1, 8131);
   (8152, 8153, 1, 8144); (8154, 8155, 1, 8054); (8168, 8169, 1, 8160); (8170, 8171, 1, 8058);
   (8172, 8172, 1, 8165); (8184, 8185, 1, 8056); (8186, 8187, 1, 8060); (8188, 8188, 1, 8179);
   (8486, 8486, 1, 969); (8490, 8490, 1, 107); (8491, 8491, 1, 229); (8498, 8498, 1, 8526);
   (8544, 8559, 1, 8560); (8579, 8579, 1, 8580); (9398, 9423, 1, 9424); (11264, 11311, 1, 11312);
   (11360, 11360, 1, 11361); (11362, 11362, 1, 619); (11363, 11363, 1, 7549); (11364, 11364, 1, 637);
   (11367, 11371, 2, 11368); (11373, 11373, 1, 593); (11374, 11374, 1, 625); (11375, 11375, 1, 592);
   (11376, 11376, 1, 594); (11378, 11378, 1, 11379); (11381, 11381, 1, 11382); (11390, 11391, 1, 575);
   (11392, 11490, 2, 11393); (11499, 11501, 2, 11500); (11506, 11506, 1, 11507); (42560, 42604, 2, 42561);
   (42624, 42650, 2, 42625); (42786, 42798, 2, 42787); (42802, 42862, 2, 42803); (42873, 42875, 2, 42874);
   (42877, 42877, 1, 7545); (42878, 42886, 2, 42879); (42891, 42891, 1, 42892); (42893, 42893, 1, 613);
   (42896, 42898, 2, 42897); (42902, 42920, 2, 42903); (42922, 42922, 1, 614); (42923, 42923, 1, 604);
   (42924, 42924, 1, 609); (42925, 42925, 1, 620); (42926, 42926, 1, 618); (42928, 42928, 1, 670);
   (42929, 42929, 1, 647); (42930, 42930, 1, 669); (42931, 42931, 1, 43859); (42932, 42946, 2, 42933);
   (42948, 42948, 1, 42900); (42949, 42949, 1, 642); (42950, 42950, 1, 7566); (42951, 42953, 2, 42952);
   (42960, 42960, 1, 42961); (42966, 42968, 2, 42967); (42997, 42997, 1, 42998); (65313, 65338, 1, 65345);
   (66560, 66599, 1, 66600); (66736, 66771, 1, 66776); (66928, 66938, 1, 66967); (66940, 66954, 1, 66979);
   (66956, 66962, 1, 66995); (66964, 66965, 1, 67003); (68736, 68786, 1, 68800); (71840, 71871, 1, 71872);
   (93760, 93791, 1, 93792); (125184, 125217, 1, 125218)  ].

Definition in_run (c : char) (r : N * N * N * N) : bool :=
  let '(lo, hi, step, _) := r in
  (lo <=? c) && (c <=? hi) && ((c - lo) mod step =? 0).

Definition tolower (c : char) : char :=
  match find (in_run c) lower_runs with
  | Some (lo, _, _, img) => img + (c - lo)
  | None => c
  end.

(** Lower-cased characters that share their upper case with other lower-cased
    characters ([re._casefix._EXTRA_CASES]). *)
Definition extra_cases_table : list (N * list N) :=
  [
   (105, [305]); (115, [383]); (181, [956]); (305, [105]);
   (383, [115]); (837, [953; 8126]); (912, [8147]); (944, [8163]);
   (946, [976]); (949, [1013]); (952, [977]); (953, [837; 8126]);
   (954, [1008]); (956, [181]); (960, [982]); (961, [1009]);
   (962, [963]); (963, [962]); (966, [981]); (976, [946]);
   (977, [952]); (981, [966]); (982, [960]); (1008, [954]);
   (1009, [961]); (1013, [949]); (1074, [7296]); (1076, [7297]);
   (1086, [7298]); (1089, [7299]); (1090, [7300; 7301]); (1098, [7302]);
   (1123, [7303]); (7296, [1074]); (7297, [1076]); (7298, [1086]);
   (7299, [1089]); (7300, [1090; 7301]); (7301, [1090; 7300]); (7302, [1098]);
   (7303, [1123]); (7304, [42571]); (7777, [7835]); (7835, [7777]);
   (8126, [837; 953]); (8147, [912]); (8163, [944]); (42571, [7304]);
   (64261, [64262]); (64262, [64261])  ].

Definition extra_cases (lo : char) : list char :=
  match find (fun e => fst e =? lo) extra_cases_table with
  | Some e => snd e
  | None => []
  end.

(** A cased literal of a pattern compiled with [re.IGNORECASE]. *)
Definition ci_lit (p c : char) : bool :=
  let l := tolower c in
  let lo := tolower p in
  (l =? lo) || existsb (N.eqb l) (extra_cases lo).

(** A range [[a-z]] of a pattern compiled with [re.IGNORECASE]
    (for a range of lower-case letters). *)
Definition ci_range (a z : char) (c : char) : bool :=
  let l := tolower c in
  ((a <=? l) && (l <=? z))
  || existsb (fun e => (a <=? fst e) && (fst e <=? z) && existsb (N.eqb l) (snd e))
       extra_cases_table.

(** [str.lower] on one character: the simple mapping, except U+0130 whose
    lower case is two code points.  (The contextual final-sigma rule of
    [str.lower] is left out: it chooses between two non-ASCII letters, and
    every use below compares the result with ASCII text.) *)
Definition lower_full (c : char) : str :=
  if c =? 304 then [105; 775] else [tolower c].

End Unicode.

Import Unicode.

(** ** Methods of [str] *)

Fixpoint str_eqb (a b : str) : bool :=
  match a, b with
  | [], [] => true
  | x :: a', y :: b' => N.eqb x y && str_eqb a' b'
  | _, _ => false
  end.

(** [s.lstrip(chars)], [s.rstrip(chars)] for a set of characters. *)
Fixpoint lstrip_with (p : char -> bool) (s : str) : str :=
  match s with
  | [] => []
  | c :: r => if p c then lstrip_with p r else s
  end.

Definition rstrip_with (p : char -> bool) (s : str) : str :=
  rev (lstrip_with p (rev s)).

Definition lstrip : str -> str := lstrip_with is_space.
Definition rstrip : str -> str := rstrip_with is_space.
Definition strip (s : str) : str := rstrip (lstrip s).

Fixpoint startswith (pre s : str) : bool :=
  match pre, s with
  | [], _ => true
  | p :: pre', c :: s' => N.eqb p c && startswith pre' s'
  | _ :: _, [] => false
  end.

Definition endswith (suf s : str) : bool := startswith (rev suf) (rev s).

(** [needle in s] *)
Fixpoint contains (needle s : str) : bool :=
  startswith needle s ||
  match s with
  | [] => false
  | _ :: s' => contains needle s'
  end.

Definition lower (s : str) : str := flat_map lower_full s.

(** [sep.join(parts)] *)
Fixpoint join (sep : str) (parts : list str) : str :=
  match parts with
  | [] => []
  | [p] => p
  | p :: rest => p ++ sep ++ join sep rest
  end.

(** [s[a:b]] for [0 <= a] *)
Definition slice (s : str) (a b : nat) : str := firstn (b - a) (skipn a s).

(** [str(n)] for a non-negative integer. *)
Fixpoint uint_chars (d : Decimal.uint) : str :=
  match d with
  | Decimal.Nil => []
  | Decimal.D0 d => 48%N :: uint_chars d
  | Decimal.D1 d => 49%N :: uint_chars d
  | Decimal.D2 d => 50%N :: uint_chars d
  | Decimal.D3 d => 51%N :: uint_chars d
  | Decimal.D4 d => 52%N :: uint_chars d
  | Decimal.D5 d => 53%N :: uint_chars d
  | Decimal.D6 d => 54%N :: uint_chars d
  | Decimal.D7 d => 55%N :: uint_chars d
  | Decimal.D8 d => 56%N :: uint_chars d
  | Decimal.D9 d => 57%N :: uint_chars d
  end.

Definition str_of_nat (n : nat) : str := uint_chars (Nat.to_uint n).

(** The format [{n:02d}]: decimal, padded with zeros to two digits. *)
Definition format_02d (n : nat) : str :=
  let d := str_of_nat n in
  repeat 48%N (2 - length d) ++ d.

(** ** Text files

    [open(path, 'r').readlines()] reads in universal-newlines mode: each of
    ["\r\n"], ["\r"] and ["\n"] ends a line and is handed over as ["\n"]. *)

Definition LF : char := 10%N.
Definition CR : char := 13%N.

Fixpoint translate_newlines (s : str) : str :=
  match s with
  | [] => []
  | c :: r =>
      if N.eqb c CR then
        match r with
        | c' :: r' => if N.eqb c' LF then LF :: translate_newlines r'
                      else LF :: translate_newlines r
        | [] => LF :: translate_newlines r
        end
      else c :: translate_newlines r
  end.

(** Lines with their terminator kept; [cur] is the current line, reversed. *)
Fixpoint split_keepends (cur : str) (s : str) : list str :=
  match s with
  | [] => match cur with [] => [] | _ => [rev cur] end
  | c :: r =>
      if N.eqb c LF then rev (c :: cur) :: split_keepends [] r
      else split_keepends (c :: cur) r
  end.

Definition readlines (content : str) : list str :=
  split_keepends [] (translate_newlines content).

(** ** The [re] module *)
Module Re.

(** Patterns.  [Cls p] is one character satisfying [p]; the other forms of the
    pattern syntax are derived below. *)
Inductive re : Type :=
| Eps
| Cls (p : char -> bool)
| Seq (a b : re)
| Alt (a b : re)
| Star (a : re)                      (* greedy [a*] *)
| Grp (n : nat) (a : re)             (* the [n]-th capturing group *)
| Bol                                (* [^] *)
| Eol                                (* [$] *)
| WordB                              (* [\b] *)
| NotBehind (p : char -> bool)       (* [(?<![...])] on one character *)
| NotAhead (p : char -> bool)        (* [(?![...])] on one character *)
| Backref (ignorecase : bool) (n : nat).

Definition Chr (c : char) : re := Cls (N.eqb c).
Definition ChrI (c : char) : re := Cls (ci_lit c).
Definition Dot : re := Cls (fun c => negb (N.eqb c LF)).
Definition Plus (a : re) : re := Seq a (Star a).
Definition Opt (a : re) : re := Alt a Eps.

Fixpoint Times (n : nat) (a : re) : re :=
  match n with
  | 0 => Eps
  | S n' => Seq a (Times n' a)
  end.

Fixpoint UpTo (n : nat) (a : re) : re :=
  match n with
  | 0 => Eps
  | S n' => Opt (Seq a (UpTo n' a))
  end.

(** [a{lo,hi}] and [a{lo,}] *)
Definition Rep (lo hi : nat) (a : re) : re := Seq (Times lo a) (UpTo (hi - lo) a).
Definition AtLeast (lo : nat) (a : re) : re := Seq (Times lo a) (Star a).

(** A literal text, and a literal text under [re.IGNORECASE]. *)
Fixpoint Lit (s : str) : re :=
  match s with
  | [] => Eps
  | c :: s' => Seq (Chr c) (Lit s')
  end.

Fixpoint LitI (s : str) : re :=
  match s with
  | [] => Eps
  | c :: s' => Seq (ChrI c) (LitI s')
  end.

Fixpoint Cat (rs : list re) : re :=
  match rs with
  | [] => Eps
  | [r] => r
  | r :: rs' => Seq r (Cat rs')
  end.

(** Matcher state: [pos] characters of the subject are consumed, [before] is
    the consumed part (last character first), [after] the rest, [caps] the
    spans of the groups closed so far (latest first). *)
Record mstate : Type := MState {
  pos : nat;
  before : str;
  after : str;
  caps : list (nat * (nat * nat))
}.

Definition state_at (subject : str) (i : nat) : mstate :=
  MState i (rev (firstn i subject)) (skipn i subject) [].

Fixpoint lookup (n : nat) (cs : list (nat * (nat * nat))) : option (nat * nat) :=
  match cs with
  | [] => None
  | (k, sp) :: cs' => if Nat.eqb k n then Some sp else lookup n cs'
  end.

Definition is_word_opt (c : option char) : bool :=
  match c with
  | Some c => is_word c
  | None => false
  end.

(** Consume [text] from the state, comparing characters with [eq]. *)
Fixpoint eat (eq : char -> char -> bool) (text : str) (st : mstate) : option mstate :=
  match text with
  | [] => Some st
  | t :: text' =>
      match after st with
      | c :: rest =>
          if eq t c then eat eq text' (MState (S (pos st)) (c :: before st) rest (caps st))
          else None
      | [] => None
      end
  end.

(** The iterations of a greedy repetition whose body is matched by [body]:
    one more iteration is tried first, and the continuation [k] only when that
    fails.  An iteration has to consume something, so [fuel] above the number
    of remaining characters is never used up. *)
Fixpoint star_loop (body : mstate -> (mstate -> option mstate) -> option mstate)
  (k : mstate -> option mstate) (fuel : nat) (st : mstate) {struct fuel}
  : option mstate :=
  match fuel with
  | 0 => k st
  | S fuel' =>
      match body st (fun st' => if pos st <? pos st' then star_loop body k fuel' st'
                                else None) with
      | Some res => Some res
      | None => k st
      end
  end.

(** Backtracking matcher in continuation-passing style: [m subject r st k]
    matches [r] at [st] and hands every way of doing so to [k], in the order of
    preference of [re] (greedy repetition, leftmost alternative), until [k]
    accepts one. *)
Fixpoint m (subject : str) (r : re) (st : mstate) (k : mstate -> option mstate)
  {struct r} : option mstate :=
  match r with
  | Eps => k st
  | Cls p =>
      match after st with
      | c :: rest =>
          if p c then k (MState (S (pos st)) (c :: before st) rest (caps st)) else None
      | [] => None
      end
  | Seq a b => m subject a st (fun st' => m subject b st' k)
  | Alt a b =>
      match m subject a st k with
      | Some res => Some res
      | None => m subject b st k
      end
  | Star a => star_loop (m subject a) k (S (length (after st))) st
  | Grp n a =>
      m subject a st
        (fun st' => k (MState (pos st') (before st') (after st')
                         ((n, (pos st, pos st')) :: caps st')))
  | Bol => if Nat.eqb (pos st) 0 then k st else None
  | Eol =>
      match after st with
      | [] => k st
      | [c] => if N.eqb c LF then k st else None
      | _ => None
      end
  | WordB =>
      if xorb (is_word_opt (hd_error (before st))) (is_word_opt (hd_error (after st)))
      then k st else None
  | NotBehind p =>
      match before st with
      | c :: _ => if p c then None else k st
      | [] => k st
      end
  | NotAhead p =>
      match after st with
      | c :: _ => if p c then None else k st
      | [] => k st
      end
  | Backref ic n =>
      match lookup n (caps st) with
      | Some (a, b) =>
          match eat (if ic then fun x y => N.eqb (tolower x) (tolower y) else N.eqb)
                    (slice subject a b) st with
          | Some st' => k st'
          | None => None
          end
      | None => None
      end
  end.

(** The pattern matched at position [i] of the subject. *)
Definition match_at (r : re) (subject : str) (i : nat) : option mstate :=
  m subject r (state_at subject i) Some.

(** [match.group(n)] of a match that started at [i] and ended in [st]; a
    group that took no part in the match gives the empty text, as it does in a
    replacement template. *)
Definition group (subject : str) (i : nat) (st : mstate) (n : nat) : str :=
  match n with
  | 0 => slice subject i (pos st)
  | _ => match lookup n (caps st) with
         | Some (a, b) => slice subject a b
         | None => []
         end
  end.

(** [re.match(r, subject)]: the groups of the match at position 0. *)
Definition re_match (r : re) (subject : str) : option (nat -> str) :=
  option_map (group subject 0) (match_at r subject 0).

(** [re.search(r, subject)] *)
Fixpoint search_from (r : re) (subject : str) (fuel i : nat) : option (nat -> str) :=
  match match_at r subject i with
  | Some st => Some (group subject i st)
  | None =>
      match fuel with
      | 0 => None
      | S fuel' => search_from r subject fuel' (S i)
      end
  end.

Definition re_search (r : re) (subject : str) : option (nat -> str) :=
  search_from r subject (length subject) 0.

(** [re.sub(r, repl, subject)]: the matches are found from left to right,
    each search starting where the previous match ended; the text between
    matches is copied.  After an empty match one character is copied. *)
Fixpoint sub_from (r : re) (repl : (nat -> str) -> str) (subject : str)
  (fuel i : nat) : str :=
  match fuel with
  | 0 => skipn i subject
  | S fuel' =>
      let copy_one :=
        match nth_error subject i with
        | Some c => c :: sub_from r repl subject fuel' (S i)
        | None => []
        end in
      match match_at r subject i with
      | Some st =>
          repl (group subject i st) ++
          (if i <? pos st then sub_from r repl subject fuel' (pos st) else copy_one)
      | None => copy_one
      end
  end.

Definition re_sub (r : re) (repl : (nat -> str) -> str) (subject : str) : str :=
  sub_from r repl subject (S (length subject)) 0.

End Re.

Import Re.

(** ** Character sets and pattern fragments shared by the rules *)

Definition one_of (set : str) (c : char) : bool := existsb (N.eqb c) set.
Definition none_of (set : str) (c : char) : bool := negb (one_of set c).

Definition backtick : char := ch "`".
Definition star : char := ch "*".
Definition emdash : char := 0x2014%N.
Definition dquote : char := 34%N.

Definition ws_star : re := Star (Cls is_space).            (* [\s*] *)
Definition ws_plus : re := Plus (Cls is_space).            (* [\s+] *)
Definition digits : re := Plus (Cls is_digit).             (* [\d+] *)
Definition marker : re := Alt (Chr (ch "-")) (Seq digits (Chr (ch "."))).   (* [-|\d+\.] *)
Definition list_prefix : re := Cat [ws_star; marker; ws_plus].   (* [\s*(?:-|\d+\.)\s+] *)
Definition rest_of_line : re := Plus Dot.                  (* [.+] *)

Definition fence : str := Eval vm_compute in lit "```".

(** * simplify_markdown.py *)
Module Simplify.

(** [r'^(#{1,6})\s+(.+)$'] *)
Definition header_re : re :=
  Cat [Bol; Grp 1 (Rep 1 6 (Chr (ch "#"))); ws_plus; Grp 2 rest_of_line; Eol].

Definition normalize_headers (line : str) : str :=
  match re_match header_re line with
  | Some g => lit "### " ++ g 2
  | None => line
  end.

(** [r'^(\s*-)\s*\[([ xX])\]\s*'] *)
Definition checklist_re : re :=
  Cat [Bol; Grp 1 (Seq ws_star (Chr (ch "-"))); ws_star; Chr (ch "[");
       Grp 2 (Cls (one_of (lit " xX"))); Chr (ch "]"); ws_star].

Definition remove_checklists (line : str) : str :=
  re_sub checklist_re (fun g => g 1 ++ lit " ") line.

(** [r'^(\s*(?:-|\d+\.)\s+)\*\*([^*]+):\*\*\s*(.+)$'] *)
Definition bold_colon_inside_re : re :=
  Cat [Bol; Grp 1 list_prefix; Lit (lit "**"); Grp 2 (Plus (Cls (none_of [star])));
       Chr (ch ":"); Lit (lit "**"); ws_star; Grp 3 rest_of_line; Eol].

(** [r'^(\s*(?:-|\d+\.)\s+)\*\*([^*]+)\*\*:\s*(.+)$'] *)
Definition bold_colon_outside_re : re :=
  Cat [Bol; Grp 1 list_prefix; Lit (lit "**"); Grp 2 (Plus (Cls (none_of [star])));
       Lit (lit "**"); Chr (ch ":"); ws_star; Grp 3 rest_of_line; Eol].

Definition fix_bold_colon_in_lists (line : str) : str :=
  let tmpl := fun g : nat -> str => g 1 ++ g 2 ++ lit ": " ++ g 3 in
  match re_match bold_colon_inside_re line with
  | Some _ => re_sub bold_colon_inside_re tmpl line
  | None =>
      match re_match bold_colon_outside_re line with
      | Some _ => re_sub bold_colon_outside_re tmpl line
      | None => line
      end
  end.

(** [r'^(\s*(?:-|\d+\.)\s+)`([^`]+)`\s*SEP\s*(.+)$'] for a separator [SEP] *)
Definition code_sep_re (sep : char) : re :=
  Cat [Bol; Grp 1 list_prefix; Chr backtick; Grp 2 (Plus (Cls (none_of [backtick])));
       Chr backtick; ws_star; Chr sep; ws_star; Grp 3 rest_of_line; Eol].

Definition pattern_dash : re := code_sep_re emdash.
Definition pattern_colon : re := code_sep_re (ch ":").
Definition pattern_hyphen : re := code_sep_re (ch "-").

Definition fix_code_with_dash_in_lists (line : str) : str :=
  match re_match pattern_dash line with
  | Some _ =>
      re_sub pattern_dash (fun g => g 1 ++ g 2 ++ [ch " "; emdash; ch " "] ++ g 3) line
  | None =>
      match re_match pattern_colon line with
      | Some _ => re_sub pattern_colon (fun g => g 1 ++ g 2 ++ lit ": " ++ g 3) line
      | None =>
          match re_match pattern_hyphen line with
          | Some _ => re_sub pattern_hyphen (fun g => g 1 ++ g 2 ++ lit " - " ++ g 3) line
          | None => line
          end
      end
  end.

(** [r'^\s*(-|\d+\.)\s+']: the line is a bulleted or numbered list item. *)
Definition list_item_re : re := Cat [Bol; ws_star; Grp 1 marker; ws_plus].

Definition is_list_item (line : str) : bool :=
  match re_match list_item_re line with Some _ => true | None => false end.

(** [r'\*\*([^*]+)\*\*'] *)
Definition bold_re : re :=
  Cat [Lit (lit "**"); Grp 1 (Plus (Cls (none_of [star]))); Lit (lit "**")].

(** [r'`([^`]+)`'] *)
Definition code_re : re :=
  Cat [Chr backtick; Grp 1 (Plus (Cls (none_of [backtick]))); Chr backtick].

Definition remove_bold_in_lists (line : str) : str :=
  if is_list_item line then re_sub bold_re (fun g => g 1) line else line.

Definition remove_code_in_lists (line : str) : str :=
  if is_list_item line then re_sub code_re (fun g => g 1) line else line.

(** ** Nested lists *)

Inductive list_type : Type := numbered | bullet.

(** The loop variables of [unify_nested_list_types]. *)
Record list_context : Type := ListContext {
  parent_type : option list_type;
  parent_indent : nat;
  nested_counter : nat
}.

Definition initial_context : list_context := ListContext None 0 1.

(** [r'^\d+\.\s+'] and [r'^-\s+'] *)
Definition numbered_re : re := Cat [Bol; digits; Chr (ch "."); ws_plus].
Definition bullet_re : re := Cat [Bol; Chr (ch "-"); ws_plus].

Definition is_some {A : Type} (o : option A) : bool :=
  match o with Some _ => true | None => false end.

(** One iteration of the loop: the new loop variables and the line appended
    to [result]. *)
Definition unify_step (ctx : list_context) (line : str) : list_context * str :=
  let stripped := lstrip line in
  let current_indent := length line - length stripped in
  let is_numbered := is_some (re_match numbered_re stripped) in
  let is_bullet := is_some (re_match bullet_re stripped) in
  if negb is_numbered && negb is_bullet then
    (if current_indent <=? parent_indent ctx then initial_context else ctx, line)
  else if Nat.eqb current_indent 0 || (current_indent <=? parent_indent ctx) then
    (ListContext (if is_numbered then Some numbered else Some bullet) current_indent 1, line)
  else
    match parent_type ctx with
    | None => (ctx, line)
    | Some pt =>
        let text :=
          if is_numbered then re_sub numbered_re (fun _ => []) stripped
          else re_sub bullet_re (fun _ => []) stripped in
        let indent_spaces := repeat (ch " ") current_indent in
        match pt with
        | numbered =>
            (ListContext (parent_type ctx) (parent_indent ctx) (S (nested_counter ctx)),
             indent_spaces ++ str_of_nat (nested_counter ctx) ++ lit ". " ++ text)
        | bullet => (ctx, indent_spaces ++ lit "- " ++ text)
        end
    end.

Fixpoint unify_from (ctx : list_context) (lines : list str) : list str :=
  match lines with
  | [] => []
  | line :: rest =>
      let (ctx', out) := unify_step ctx line in
      out :: unify_from ctx' rest
  end.

Definition unify_nested_list_types (lines : list str) : list str :=
  unify_from initial_context lines.

(** [r'^\s*\d+\.\s+'] *)
Definition numbered_item_re : re := Cat [Bol; ws_star; digits; Chr (ch "."); ws_plus].

(** [r'(?<!A)A(?!A)([^*]+)A(?!A)'], where [A] stands for the escaped
    asterisk of the source *)
Definition italic_re : re :=
  Cat [NotBehind (one_of [star]); Chr star; NotAhead (one_of [star]);
       Grp 1 (Plus (Cls (none_of [star]))); Chr star; NotAhead (one_of [star])].

Definition remove_italic_in_lists (line : str) : str :=
  if is_some (re_match numbered_item_re line)
  then re_sub italic_re (fun g => g 1) line
  else line.

Definition remove_inline_code_everywhere (line : str) : str :=
  if startswith fence (strip line) then line
  else re_sub code_re (fun g => [star] ++ g 1 ++ [star]) line.

(** [simplify_mixed_formatting]; the call of this rule in
    [simplify_markdown_file] is commented out.  [r'AA[^A]+AA'], where [A]
    stands for the escaped asterisk, is the pattern of its first test. *)
Definition bold_span_re : re :=
  Cat [Lit (lit "**"); Plus (Cls (none_of [star])); Lit (lit "**")].

Definition simplify_mixed_formatting (line : str) : str :=
  let has_bold := is_some (re_search bold_span_re line) in
  let has_italic := is_some (re_search italic_re line) in
  if has_bold && has_italic then
    let line := re_sub bold_re (fun g => g 1) line in
    re_sub italic_re (fun g => g 1) line
  else line.

(** ** Technical terms *)

Definition az (c : char) : bool := (ch "a" <=? c)%N && (c <=? ch "z")%N.
Definition az09 (c : char) : bool := az c || ((ch "0" <=? c)%N && (c <=? ch "9")%N).

(** [r'(?<![*])\b([a-z][a-z0-9]*(?:_[a-z0-9]+)+)\b(?![*])'] *)
Definition snake_case_re : re :=
  Cat [NotBehind (one_of [star]); WordB;
       Grp 1 (Cat [Cls az; Star (Cls az09); Plus (Seq (Chr (ch "_")) (Plus (Cls az09)))]);
       WordB; NotAhead (one_of [star])].

(** [r'(?<![-*])\b([a-z]{4,})\b(?![*])'] *)
Definition tech_term_re : re :=
  Cat [NotBehind (one_of [ch "-"; star]); WordB; Grp 1 (AtLeast 4 (Cls az));
       WordB; NotAhead (one_of [star])].

Definition common_words : list str := Eval vm_compute in map lit
  ["is"; "are"; "was"; "were"; "be"; "been"; "being";
   "and"; "or"; "not"; "but"; "if"; "the"; "a"; "an";
   "in"; "on"; "at"; "to"; "for"; "of"; "with"; "by";
   "as"; "it"; "this"; "that"; "from"; "all"; "can";
   "will"; "would"; "should"; "could"; "may"; "might";
   "do"; "does"; "did"; "have"; "has"; "had";
   "get"; "set"; "use"; "make"; "take"; "go"; "see";
   "new"; "old"; "first"; "last"; "next"; "one"; "two";
   "when"; "where"; "why"; "how"; "what"; "which";
   "some"; "any"; "many"; "much"; "few"; "more"; "most";
   "only"; "just"; "also"; "even"; "well"; "way"; "back";
   "time"; "year"; "work"; "part"; "case"; "over"; "than";
   "able"; "data"; "into"; "then"; "them"; "each"; "such"]%string.

Definition replace_tech_term (g : nat -> str) : str :=
  let word := g 1 in
  if existsb (str_eqb (lower word)) common_words then word
  else [star] ++ word ++ [star].

Definition wrap_technical_terms_in_italic (line : str) : str :=
  if startswith fence (strip line) then line
  else if startswith (lit "|") (strip line) || (2 <? count_occ N.eq_dec line (ch "|")) then line
  else if startswith (lit "#") (strip line) || str_eqb (strip line) (lit "---") then line
  else if is_list_item line then line
  else
    let line := re_sub snake_case_re (fun g => [star] ++ g 1 ++ [star]) line in
    re_sub tech_term_re replace_tech_term line.

(** [r'(!\[[^\]]+\]\()([^\)]+)(\))'] *)
Definition image_re : re :=
  Cat [Grp 1 (Cat [Chr (ch "!"); Chr (ch "["); Plus (Cls (none_of [ch "]"]));
                   Chr (ch "]"); Chr (ch "(")]);
       Grp 2 (Plus (Cls (none_of [ch ")"])));
       Grp 3 (Chr (ch ")"))].

Definition wrap_technical_terms_in_italic_except_images (line : str) : str :=
  match re_search image_re line with
  | Some _ =>
      re_sub image_re
        (fun g => wrap_technical_terms_in_italic (g 1) ++ g 2
                  ++ wrap_technical_terms_in_italic (g 3)) line
  | None => wrap_technical_terms_in_italic line
  end.

(** ** Emoji at the start of a list item *)

Definition is_emoji : char -> bool :=
  in_ranges [(0x1F300, 0x1F9FF); (0x1F600, 0x1F64F); (0x1F680, 0x1F6FF);
             (0x2600, 0x27BF); (0x1F1E0, 0x1F1FF); (0x1F900, 0x1F9FF);
             (0x1FA70, 0x1FAFF)]%N.

Definition emoji_pattern : re :=
  Cat [Bol; Grp 1 list_prefix; Grp 2 (Seq (Cls is_emoji) (Opt (Chr 0xFE0F%N)));
       ws_plus; Grp 3 rest_of_line; Eol].

Definition fix_emoji_at_list_start (line : str) : str :=
  match re_match emoji_pattern line with
  | Some g => g 1 ++ g 2 ++ lit ": " ++ g 3
  | None => line
  end.

(** ** Collapsible blocks *)

(** The loop variables of [process_details_blocks]. *)
Record details_state : Type := DetailsState {
  in_details : bool;
  in_summary : bool;
  summary_content : str
}.

Definition details_step (st : details_state) (line : str) : details_state * list str :=
  if contains (lit "<details>") (lower line) then
    let clean_line := re_sub (LitI (lit "<details>")) (fun _ => []) line in
    (DetailsState true (in_summary st) (summary_content st),
     match strip clean_line with [] => [] | _ => [clean_line] end)
  else if contains (lit "<summary>") (lower line) then
    let clean_line := re_sub (LitI (lit "<summary>")) (fun _ => []) line in
    let clean_line := re_sub (LitI (lit "</summary>")) (fun _ => []) clean_line in
    (DetailsState (in_details st) true (strip clean_line), [])
  else if contains (lit "</summary>") (lower line) then
    (DetailsState (in_details st) false [], [])
  else if contains (lit "</details>") (lower line) then
    (DetailsState false (in_summary st) (summary_content st), [])
  else (st, [line]).

Fixpoint details_from (st : details_state) (lines : list str) : list str :=
  match lines with
  | [] => []
  | line :: rest =>
      let (st', out) := details_step st line in
      out ++ details_from st' rest
  end.

Definition process_details_blocks (lines : list str) : list str :=
  details_from (DetailsState false false []) lines.

(** ** Reveal labels *)

Definition eye : char := 0x1F441%N.
Definition variation_selector : char := 0xFE0F%N.

(** [r'^[EYE VS \s]*Pokazat\s+(otvet|reshenie|rezultat)'] with [re.IGNORECASE],
    the three words being written in Cyrillic in the source. *)
Definition show_answer_re : re :=
  Cat [Bol; Star (Cls (fun c => one_of [eye; variation_selector] c || is_space c));
       LitI [0x41F; 0x43E; 0x43A; 0x430; 0x437; 0x430; 0x442; 0x44C]%N;
       ws_plus;
       Grp 1 (Alt (LitI [0x43E; 0x442; 0x432; 0x435; 0x442]%N)
             (Alt (LitI [0x440; 0x435; 0x448; 0x435; 0x43D; 0x438; 0x435]%N)
                  (LitI [0x440; 0x435; 0x437; 0x443; 0x43B; 0x44C; 0x442; 0x430; 0x442]%N)))].

(** [None] is Python's [None]: the line is to be removed. *)
Definition remove_show_answer_headers (line : str) : option str :=
  let stripped := strip line in
  match stripped with
  | [] => Some line
  | _ =>
      let clean := re_sub bold_re (fun g => g 1) stripped in
      if is_some (re_match show_answer_re clean) then None else Some line
  end.

(** ** Links and URLs *)

Definition image_extensions : list str := Eval vm_compute in map lit
  [".png"; ".jpg"; ".jpeg"; ".gif"; ".svg"; ".webp"; ".bmp"]%string.

(** [r'https?://'] *)
Definition protocol : re := Cat [Lit (lit "http"); Opt (Chr (ch "s")); Lit (lit "://")].

(** [r'(!?)\[([^\]]+)\]\(([^)]+)\)'] *)
Definition link_re : re :=
  Cat [Grp 1 (Opt (Chr (ch "!"))); Chr (ch "["); Grp 2 (Plus (Cls (none_of [ch "]"])));
       Chr (ch "]"); Chr (ch "("); Grp 3 (Plus (Cls (none_of [ch ")"]))); Chr (ch ")")].

Definition replace_link (g : nat -> str) : str :=
  let full_match := g 0 in
  let optional_bang := g 1 in
  let text := g 2 in
  let url := g 3 in
  let is_image := str_eqb optional_bang (lit "!") in
  let is_image_path := existsb (fun ext => endswith ext (lower url)) image_extensions in
  if is_image || is_image_path then full_match
  else
    let url_clean := re_sub (Seq Bol protocol) (fun _ => []) url in
    [star] ++ text ++ lit " (" ++ url_clean ++ lit ")" ++ [star].

Definition convert_markdown_links (line : str) : str :=
  re_sub link_re replace_link line.

(** [r'https?://([^\s)]+)'] *)
Definition bare_url_re : re :=
  Seq protocol (Grp 1 (Plus (Cls (fun c => negb (is_space c) && negb (N.eqb c (ch ")")))))).

Definition remove_bare_urls (line : str) : str :=
  re_sub bare_url_re (fun g => g 1) line.

(** ** Operators *)

(** [->], [->>], [@>], [\?], [<=], [>=], [!=] *)
Definition operators : list str := Eval vm_compute in map lit
  ["->"; "->>"; "@>"; "?"; "<="; ">="; "!="]%string.

(** [r'(\s|^)(OP)(\s*EMDASH\s*|\s+)'] *)
Definition operator_re (op : str) : re :=
  Cat [Grp 1 (Alt (Cls is_space) Bol); Grp 2 (Lit op);
       Grp 3 (Alt (Cat [ws_star; Chr emdash; ws_star]) ws_plus)].

(** [r'^\s*>\s+'] *)
Definition quote_line_re : re := Cat [Bol; ws_star; Chr (ch ">"); ws_plus].

Definition quote_operators_in_lists (line : str) : str :=
  if startswith fence (strip line) then line
  else if is_some (re_match quote_line_re line) then line
  else
    fold_left
      (fun line op =>
         re_sub (operator_re op) (fun g => g 1 ++ [dquote] ++ g 2 ++ [dquote] ++ g 3) line)
      operators line.

(** [r'^(\s*>\s+)+'] *)
Definition blockquote_re : re :=
  Seq Bol (Plus (Grp 1 (Cat [ws_star; Chr (ch ">"); ws_plus]))).

Definition remove_blockquotes (line : str) : str :=
  re_sub blockquote_re (fun _ => []) line.

(** ** HTML tags *)

(** [r'<TAG>([^<]+)</TAG>'] with [re.IGNORECASE] *)
Definition tag_re (tag : str) : re :=
  Cat [Chr (ch "<"); LitI tag; Chr (ch ">"); Grp 1 (Plus (Cls (none_of [ch "<"])));
       Lit (lit "</"); LitI tag; Chr (ch ">")].

(** [r'<([a-z]+)>([^<]+)</\1>'] with [re.IGNORECASE] *)
Definition any_tag_re : re :=
  Cat [Chr (ch "<"); Grp 1 (Plus (Cls (ci_range (ch "a") (ch "z")))); Chr (ch ">");
       Grp 2 (Plus (Cls (none_of [ch "<"])));
       Lit (lit "</"); Backref true 1; Chr (ch ">")].

Definition remove_html_tags (line : str) : str :=
  let bold := fun g : nat -> str => lit "**" ++ g 1 ++ lit "**" in
  let italic := fun g : nat -> str => [star] ++ g 1 ++ [star] in
  let line := re_sub (tag_re (lit "b")) bold line in
  let line := re_sub (tag_re (lit "i")) italic line in
  let line := re_sub (tag_re (lit "strong")) bold line in
  let line := re_sub (tag_re (lit "em")) italic line in
  re_sub any_tag_re (fun g => g 2) line.

(** ** The file *)

(** The rules applied to a line that [remove_show_answer_headers] kept, in
    the order of [simplify_markdown_file]. *)
Definition apply_rules (line : str) : str :=
  let line := normalize_headers line in
  let line := remove_checklists line in
  let line := fix_bold_colon_in_lists line in
  let line := fix_code_with_dash_in_lists line in
  let line := remove_bold_in_lists line in
  let line := remove_code_in_lists line in
  let line := fix_emoji_at_list_start line in
  let line := remove_html_tags line in
  let line := remove_blockquotes line in
  let line := remove_bare_urls line in
  let line := convert_markdown_links line in
  let line := quote_operators_in_lists line in
  let line := remove_inline_code_everywhere line in
  let line := wrap_technical_terms_in_italic_except_images line in
  remove_italic_in_lists line.

(** The line-by-line loop: [in_code_block] is its flag, the result is
    [processed_lines]. *)
Fixpoint process_lines (in_code_block : bool) (lines : list str) : list str :=
  match lines with
  | [] => []
  | line :: rest =>
      if startswith fence (strip line) then
        line :: process_lines (negb in_code_block) rest
      else if in_code_block then
        line :: process_lines in_code_block rest
      else
        match remove_show_answer_headers line with
        | None => process_lines in_code_block rest
        | Some line => apply_rules line :: process_lines in_code_block rest
        end
  end.

(** The lines of the document after both document-level passes and the
    line-by-line loop. *)
Definition simplify_lines (lines : list str) : list str :=
  process_lines false (unify_nested_list_types (process_details_blocks lines)).

(** [simplify_markdown_file]: from the text of the input file to the text
    written to the output file. *)
Definition simplify_markdown_file (content : str) : str :=
  let lines := readlines content in
  let lines := map (rstrip_with (one_of [LF; CR])) lines in
  join [LF] (simplify_lines lines).

End Simplify.

(** * split_markdown.py *)
Module Split.

(** ** Sections *)

(** The test on a line that flips [in_code_block]. *)
Definition is_fence_line (line : str) : bool :=
  startswith fence (strip line) || startswith (lit "~~~") (strip line).

(** A heading of the second level. *)
Definition is_section_heading (line : str) : bool :=
  startswith (lit "## ") (strip line) && negb (startswith (lit "### ") (strip line)).

(** [current_section and any(l.strip() for l in current_section)] *)
Definition has_content (section : list str) : bool :=
  match section with
  | [] => false
  | _ => existsb (fun l => match strip l with [] => false | _ => true end) section
  end.

(** The loop variables of [parse_markdown_file]. *)
Record parser_state : Type := ParserState {
  sections : list (list str);
  current_section : list str;
  in_code_block : bool
}.

Definition parse_step (st : parser_state) (line : str) : parser_state :=
  if is_fence_line line then
    ParserState (sections st) (current_section st ++ [line]) (negb (in_code_block st))
  else if in_code_block st then
    ParserState (sections st) (current_section st ++ [line]) (in_code_block st)
  else if is_section_heading line then
    ParserState
      (if has_content (current_section st)
       then sections st ++ [current_section st] else sections st)
      [line] (in_code_block st)
  else
    ParserState (sections st) (current_section st ++ [line]) (in_code_block st).

Definition parse_lines (lines : list str) : list (list str) :=
  let st := fold_left parse_step lines (ParserState [] [] false) in
  if has_content (current_section st)
  then sections st ++ [current_section st] else sections st.

(** [parse_markdown_file], from the text of the file. *)
Definition parse_markdown_file (content : str) : list (list str) :=
  parse_lines (readlines content).

(** ** File names *)

(** The index of the last occurrence of [c], [s.rfind(c)]. *)
Fixpoint rfind_from (c : char) (s : str) (i : nat) (found : option nat) : option nat :=
  match s with
  | [] => found
  | x :: s' => rfind_from c s' (S i) (if N.eqb x c then Some i else found)
  end.

(** [Path(name).stem] for a bare file name. *)
Definition stem (name : str) : str :=
  match rfind_from (ch ".") name 0 None with
  | Some i => if (0 <? i) && (i <? length name - 1) then firstn i name else name
  | None => name
  end.

(** [r'^(\d+)'] *)
Definition prefix_re : re := Seq Bol (Grp 1 digits).

Definition extract_file_prefix (filename : str) : str :=
  let name_without_ext := stem filename in
  match re_match prefix_re name_without_ext with
  | Some g => g 1
  | None => firstn 2 name_without_ext
  end.

(** [calculate_path_adjustment], from the parts of the two resolved paths. *)
Fixpoint parts_eqb (a b : list str) : bool :=
  match a, b with
  | [], [] => true
  | x :: a', y :: b' => str_eqb x y && parts_eqb a' b'
  | _, _ => false
  end.

Definition calculate_path_adjustment (source_parts target_parts : list str) : nat :=
  if (length source_parts <? length target_parts)
     && parts_eqb (firstn (length source_parts) target_parts) source_parts
  then length target_parts - length source_parts
  else 0.

(** ** Relative paths *)

Definition image_extensions : list str := Eval vm_compute in map lit
  [".png"; ".jpg"; ".jpeg"; ".gif"; ".svg"; ".webp"; ".bmp"]%string.

Definition is_image_path (path : str) : bool :=
  let path_lower := lower path in
  existsb (fun ext => endswith ext path_lower) image_extensions.

(** [r'(!?)\[(T)\]\(([^\)]+)\)'], where [T] is the class [[^\]]] repeated zero or
    more times (compiled with [re.IGNORECASE], which changes nothing for a
    pattern without letters) *)
Definition markdown_link_pattern : re :=
  Cat [Grp 1 (Opt (Chr (ch "!"))); Chr (ch "["); Grp 2 (Star (Cls (none_of [ch "]"])));
       Chr (ch "]"); Chr (ch "("); Grp 3 (Plus (Cls (none_of [ch ")"]))); Chr (ch ")")].

(** [levels_up] copies of the parent-directory prefix. *)
Definition parents (levels_up : nat) : str := concat (repeat (lit "../") levels_up).

Definition replace_link (levels_up : nat) (g : nat -> str) : str :=
  let is_image := str_eqb (g 1) (lit "!") in
  let alt_or_text := g 2 in
  let old_path := strip (g 3) in
  if startswith (lit "http://") old_path || startswith (lit "https://") old_path then g 0
  else if startswith (lit "/") old_path then g 0
  else if is_image || is_image_path old_path then
    if startswith (lit "./") old_path then
      let file_path := skipn 2 old_path in
      let new_path := parents levels_up ++ file_path in
      g 1 ++ lit "[" ++ alt_or_text ++ lit "](" ++ new_path ++ lit ")"
    else if startswith (lit "../") old_path then g 0
    else
      let new_path := parents levels_up ++ old_path in
      g 1 ++ lit "[" ++ alt_or_text ++ lit "](" ++ new_path ++ lit ")"
  else if startswith (lit "../") old_path then g 0
  else if startswith (lit "./") old_path then g 0
  else g 0.

Definition adjust_relative_path (line : str) (levels_up : nat) : str :=
  match levels_up with
  | 0 => line
  | _ => re_sub markdown_link_pattern (replace_link levels_up) line
  end.

(** ** Writing the sections *)

(** The files written by [save_sections], in order: name and text.  The
    sections are numbered from [idx]. *)
Fixpoint save_from (idx : nat) (sections : list (list str)) (file_prefix : str)
  (levels_up : nat) : list (str * str) :=
  match sections with
  | [] => []
  | section :: rest =>
      let filename := file_prefix ++ lit "_" ++ format_02d idx ++ lit ".md" in
      let adjusted_section := map (fun line => adjust_relative_path line levels_up) section in
      (filename, concat adjusted_section) :: save_from (S idx) rest file_prefix levels_up
  end.

Definition save_sections (sections : list (list str)) (file_prefix : str)
  (levels_up : nat) : list (str * str) :=
  save_from 1 sections file_prefix levels_up.

(** One file of [process_directory]: parsed, and saved unless it has no
    section. *)
Definition split_file (filename content : str) (levels_up : nat) : list (str * str) :=
  let sections := parse_markdown_file content in
  match sections with
  | [] => []
  | _ => save_sections sections (extract_file_prefix filename) levels_up
  end.

End Split.

(** * Scenarios and predicates of the statements *)

(** A line of a text file, with its terminator. *)
Definition nl (s : string) : str := lit s ++ [LF].

(** The document of the section-split scenario. *)
Definition scenario_doc : str :=
  concat [nl "# Title"; nl ""; nl "Intro"; nl ""; nl "## A"; nl "body A"; nl "";
          nl "## B"; nl "body B"].

(** The text ends with a newline character. *)
Definition ends_with_newline (s : str) : Prop := exists s', s = s' ++ [LF].

(** Every character of the text satisfies [P]. *)
Definition all_chars (P : char -> bool) (s : str) : Prop := forallb P s = true.

(** The characters that the replacement texts of the two scripts can add to a
    line. *)
Definition template_chars : str :=
  lit "# :-*().[]/0123456789" ++ [emdash; dquote].

Definition not_char (c x : char) : bool := negb (N.eqb x c).

(** The lines joined and written by [simplify_markdown_file]. *)
Definition processed_lines (content : str) : list str :=
  Simplify.simplify_lines (map (rstrip_with (one_of [LF; CR])) (readlines content)).

(** The two fence tokens of the splitter. *)
Definition tildes : str := Eval vm_compute in lit "~~~".

Definition starts_with_fence_token (line : str) : Prop :=
  startswith fence (strip line) = true \/ startswith tildes (strip line) = true.

(** The ways a greedy repetition of a one-character class can end, tried in
    this order: after all of [run], the characters of the class that follow,
    then after each shorter part of it. *)
Fixpoint greedy (k : mstate -> option mstate) (i : nat) (bef run rest : str)
  (cps : list (nat * (nat * nat))) : option mstate :=
  match run with
  | [] => k (MState i bef rest cps)
  | c :: run' =>
      match greedy k (S i) (c :: bef) run' rest cps with
      | Some res => Some res
      | None => k (MState i bef (run ++ rest) cps)
      end
  end.

(** The text does not begin with a character of the class [p]. *)
Definition stops (p : char -> bool) (rest : str) : Prop :=
  match rest with
  | [] => True
  | c :: _ => p c = false
  end.

(** Markers in well-formed pairs: plain text without the marker character
    [x], between spans that the marker [d] opens and the next [d] closes, each
    span holding at least one character and none equal to [x]. *)
Inductive paired (d : str) (x : char) : str -> Prop :=
| paired_plain (t : str) :
    all_chars (none_of [x]) t -> paired d x t
| paired_span (t c rest : str) :
    all_chars (none_of [x]) t ->
    all_chars (none_of [x]) c -> c <> [] ->
    paired d x rest ->
    paired d x (t ++ d ++ c ++ d ++ rest).

(** Inline-code markers in well-formed pairs. *)
Definition code_paired : str -> Prop := paired [backtick] backtick.

(** Bold markers in well-formed pairs, in a text whose only asterisks are
    those of the markers. *)
Definition bold_paired : str -> Prop := paired [star; star] star.

(** The text without the occurrences of a character. *)
Definition without (c : char) (s : str) : str := filter (none_of [c]) s.

(** The rules that follow the removal of bold and of code markers in list
    items, in the order of [simplify_markdown_file]. *)
Definition late_rules (line : str) : str :=
  let line := Simplify.fix_emoji_at_list_start line in
  let line := Simplify.remove_html_tags line in
  let line := Simplify.remove_blockquotes line in
  let line := Simplify.remove_bare_urls line in
  let line := Simplify.convert_markdown_links line in
  let line := Simplify.quote_operators_in_lists line in
  let line := Simplify.remove_inline_code_everywhere line in
  let line := Simplify.wrap_technical_terms_in_italic_except_images line in
  Simplify.remove_italic_in_lists line.

(** The marker of a list item and its kind: a dash, or digits and a dot. *)
Inductive item_marker : str -> Simplify.list_type -> Prop :=
| marker_bullet : item_marker [ch "-"] Simplify.bullet
| marker_numbered (ds : str) :
    ds <> [] -> all_chars is_digit ds ->
    item_marker (ds ++ [ch "."]) Simplify.numbered.

(** The code points of a range. *)
Definition enum_range (r : N * N) : list N :=
  map N.of_nat (seq (N.to_nat (fst r)) (S (N.to_nat (snd r) - N.to_nat (fst r)))).

(** A reference [bang[text](path)], with [bang] empty or the image marker. *)
Definition reference (bang text path : str) : str :=
  bang ++ lit "[" ++ text ++ lit "](" ++ path ++ lit ")".

(** The groups of a match of the link patterns on a reference. *)
Definition reference_groups (bang text path : str) (k : nat) : str :=
  match k with
  | 0 => reference bang text path
  | 1 => bang
  | 2 => text
  | 3 => path
  | _ => []
  end.

(** The adjustment of one reference, case by case: a reference whose path,
    stripped of blanks, is an http(s) URL or absolute is kept; otherwise, when
    it carries the image marker or its path has an image extension, a path
    with the current-directory prefix has the prefix replaced by [levels_up]
    parent-directory prefixes, a path with the parent-directory prefix is
    kept, any other path gains [levels_up] parent-directory prefixes; a link
    without the marker and without an image extension is kept. *)
Definition adjusted_reference (levels_up : nat) (bang text path : str) : str :=
  let p := strip path in
  if startswith (lit "http://") p || startswith (lit "https://") p
     || startswith (lit "/") p
  then reference bang text path
  else if str_eqb bang (lit "!") || Split.is_image_path p then
    if startswith (lit "./") p
    then reference bang text (Split.parents levels_up ++ skipn 2 p)
    else if startswith (lit "../") p then reference bang text path
    else reference bang text (Split.parents levels_up ++ p)
  else reference bang text path.

(** A line cut at its references, and the line with every reference
    adjusted: text without bracket or exclamation mark comes before each
    reference, text without opening bracket after the last. *)
Inductive adjusts (levels_up : nat) : str -> str -> Prop :=
| adjusts_tail (t : str) :
    all_chars (none_of [ch "["]) t -> adjusts levels_up t t
| adjusts_reference (pre bang text path rest rest' : str) :
    all_chars (none_of (lit "[!")) pre ->
    bang = [] \/ bang = lit "!" ->
    all_chars (none_of [ch "]"]) text ->
    path <> [] -> all_chars (none_of [ch ")"]) path ->
    adjusts levels_up rest rest' ->
    adjusts levels_up (pre ++ reference bang text path ++ rest)
                      (pre ++ adjusted_reference levels_up bang text path ++ rest').

(** The longest prefix made of characters of the class [p]; what follows it
    is [lstrip_with p]. *)
Fixpoint take_while (p : char -> bool) (s : str) : str :=
  match s with
  | [] => []
  | c :: r => if p c then c :: take_while p r else []
  end.

(** The text of a heading, read off the line: one to six hash signs, blanks,
    and the rest of the line; when nothing follows the blanks, the last of at
    least two blanks is the text.  For a line without newline this is group 2
    of [header_re] (lemma [normalize_headers_text]). *)
Definition header_text (line : str) : option str :=
  let hashes := take_while (N.eqb (ch "#")) line in
  if (1 <=? length hashes) && (length hashes <=? 6) then
    match lstrip_with (N.eqb (ch "#")) line with
    | c :: r =>
        if is_space c then
          match lstrip_with is_space r with
          | _ :: _ => Some (lstrip_with is_space r)
          | [] =>
              match rev (take_while is_space r) with
              | w :: _ => Some [w]
              | [] => None
              end
          end
        else None
    | [] => None
    end
  else None.

(** The matcher went from [st] to [st'] by consuming characters. *)
Definition reach (st st' : mstate) : Prop :=
  exists run, after st = run ++ after st' /\ pos st' = pos st + length run.

(** The line is blank: nothing is left of it once stripped. *)
Definition blank (line : str) : Prop := strip line = [].

(** What the loop of [parse_markdown_file] has read is, in order, blank lines
    it gave up, the sections it closed and the section it is filling; it gave
    up nothing as long as the section it is filling has no content. *)
Definition parsed (st : Split.parser_state) (consumed : list str) : Prop :=
  exists blanks,
    Forall blank blanks
    /\ consumed = blanks ++ concat (Split.sections st) ++ Split.current_section st
    /\ (Split.has_content (Split.current_section st) = false ->
        Split.sections st = [] /\ blanks = []).

(** The section begins with a heading of the second level. *)
Definition headed (section : list str) : Prop :=
  exists h t, section = h :: t /\ Split.is_section_heading h = true.

(** The name of the file written for the section of index [idx]. *)
Definition section_file_name (file_prefix : str) (idx : nat) : str :=
  file_prefix ++ lit "_" ++ format_02d idx ++ lit ".md".

(** [tag in line.lower()] *)
Definition mentions (tag : string) (line : str) : bool := contains (lit tag) (lower line).

(** The line is a list item for [unify_nested_list_types]: after its
    indentation comes a numbered or a bulleted marker. *)
Definition is_item (line : str) : bool :=
  Simplify.is_some (re_match Simplify.numbered_re (lstrip line))
  || Simplify.is_some (re_match Simplify.bullet_re (lstrip line)).

(** [drops p s t]: the text [t] is the text [s] with some of its characters
    of the class [p] deleted, and nothing else changed. *)
Inductive drops (p : char -> bool) : str -> str -> Prop :=
| drops_nil : drops p [] []
| drops_keep (c : char) (s t : str) : drops p s t -> drops p (c :: s) (c :: t)
| drops_drop (c : char) (s t : str) : p c = true -> drops p s t -> drops p (c :: s) t.

(** A backtick may have become an asterisk; any other character is kept. *)
Definition backtick_to_star (a b : char) : Prop :=
  a = b \/ (a = backtick /\ b = star).

(** [cuts ts s t]: the text [t] is the text [s] with some occurrences of
    texts of [ts] cut out, and nothing else changed. *)
Inductive cuts (ts : list str) : str -> str -> Prop :=
| cuts_nil : cuts ts [] []
| cuts_keep (c : char) (s t : str) : cuts ts s t -> cuts ts (c :: s) (c :: t)
| cuts_cut (x s t : str) : In x ts -> cuts ts s t -> cuts ts (x ++ s) t.

(** [refuses q r]: read off the pattern, a part that every match of [r] has
    to go through and that takes no character of the class [q]. *)
Fixpoint refuses (q : char -> bool) (r : re) : Prop :=
  match r with
  | Cls p => forall c, q c = true -> p c = false
  | Seq a b => refuses q a \/ refuses q b
  | Alt a b => refuses q a /\ refuses q b
  | Grp _ a => refuses q a
  | _ => False
  end.

(** The characters that start nothing in the rules applied to a line: all
    but the marks [# [ * ` < > ? =], the lower-case letters [a] to [z] and
    the emoji of [fix_emoji_at_list_start]. *)
Definition plain (c : char) : bool :=
  none_of (lit "#[*`<>?=") c && negb (Simplify.az c) && negb (Simplify.is_emoji c).

(** [blankb line] is [not line.strip()]. *)
Definition blankb (line : str) : bool :=
  match strip line with [] => true | _ => false end.

(** [subseq a b]: the list [a] is the list [b] with some of its elements left
    out. *)
Inductive subseq {A : Type} : list A -> list A -> Prop :=
| subseq_nil (b : list A) : subseq [] b
| subseq_keep (x : A) (a b : list A) : subseq a b -> subseq (x :: a) (x :: b)
| subseq_skip (x : A) (a b : list A) : subseq a b -> subseq a (x :: b).

(** What [fix_code_with_dash_in_lists] writes for each of its three
    separators. *)
Definition code_separator (sep : char) : str :=
  if N.eqb sep emdash then [ch " "; emdash; ch " "]
  else if N.eqb sep (ch ":") then lit ": "
  else lit " - ".

(** The pattern of one quote marker, the group of [blockquote_re]. *)
Definition quote_marker_re : re := Grp 1 (Cat [ws_star; Chr (ch ">"); ws_plus]).

(** The text does not begin with a quote marker: it begins with no blank,
    and with no [>] that a blank follows. *)
Definition quote_free (rest : str) : Prop :=
  stops is_space rest /\ (forall r, rest = ch ">" :: r -> stops is_space r).

(** Quote markers one after the other, each followed by the blanks [ws]. *)
Definition quote_markers (wss : list str) : str :=
  concat (map (fun ws => ch ">" :: ws) wss).

(** The URL without its protocol, [re.sub(r'^https?://', '', url)]. *)
Definition strip_protocol (url : str) : str :=
  if startswith (lit "https://") url then skipn 8 url
  else if startswith (lit "http://") url then skipn 7 url
  else url.

(** What [convert_markdown_links] writes for one reference: an image (by its
    marker or by the extension of its target) is kept; a link becomes its
    text and, in brackets, its URL without protocol, the whole in italics. *)
Definition converted_reference (bang text url : str) : str :=
  if str_eqb bang (lit "!")
     || existsb (fun ext => endswith ext (lower url)) Simplify.image_extensions
  then reference bang text url
  else [star] ++ text ++ lit " (" ++ strip_protocol url ++ lit ")" ++ [star].

(** A line cut at its references, and the line with every reference
    converted: text without bracket or exclamation mark comes before each
    reference, text without opening bracket after the last. *)
Inductive converts : str -> str -> Prop :=
| converts_tail (t : str) :
    all_chars (none_of [ch "["]) t -> converts t t
| converts_reference (pre bang text url rest rest' : str) :
    all_chars (none_of (lit "[!")) pre ->
    bang = [] \/ bang = lit "!" ->
    text <> [] -> all_chars (none_of [ch "]"]) text ->
    url <> [] -> all_chars (none_of [ch ")"]) url ->
    converts rest rest' ->
    converts (pre ++ reference bang text url ++ rest)
             (pre ++ converted_reference bang text url ++ rest').

(** [ci_text p s]: the text [s] is the literal [p] but for the case of its
    letters, as a pattern compiled with [re.IGNORECASE] reads it. *)
Fixpoint ci_text (p s : str) : bool :=
  match p, s with
  | [], [] => true
  | a :: p', c :: s' => ci_lit a c && ci_text p' s'
  | _, _ => false
  end.

(** The class that opens the pattern of [remove_show_answer_headers]. *)
Definition eye_or_space (c : char) : bool :=
  one_of [Simplify.eye; Simplify.variation_selector] c || is_space c.

(** The verb and the three nouns of a reveal label, in Cyrillic as in the
    pattern. *)
Definition show_verb : str :=
  [0x41F; 0x43E; 0x43A; 0x430; 0x437; 0x430; 0x442; 0x44C]%N.

Definition show_nouns : list str :=
  [[0x43E; 0x442; 0x432; 0x435; 0x442];
   [0x440; 0x435; 0x448; 0x435; 0x43D; 0x438; 0x435];
   [0x440; 0x435; 0x437; 0x443; 0x43B; 0x44C; 0x442; 0x430; 0x442]]%N.

(** [consumes s a]: a match of the pattern [a] takes a piece of the text
    that is left and touches nothing else of the state. *)
Definition consumes (s : str) (a : re) : Prop :=
  forall (st : mstate) (k : mstate -> option mstate) (res : mstate),
    m s a st k = Some res ->
    exists g r,
      after st = g ++ r
      /\ k (MState (pos st + length g) (rev g ++ before st) r (caps st)) = Some res.


(** [bare_name filename]: the name has no directory or drive part, as the
    names that [process_directory] passes ([md_file.name]): no separator, no
    colon, and it is not the current directory. *)
Definition bare_name (filename : str) : bool :=
  forallb (none_of [ch "/"; 92%N; ch ":"]) filename && negb (str_eqb filename (lit ".")).
(** The text begins with a reference as [adjust_relative_path] reads them:
    an exclamation mark or nothing, a text in square brackets that holds no
    closing square bracket, and a path in round brackets that is not empty
    and holds no closing round bracket. *)
Definition reference_parts (bang text path : str) : Prop :=
  (bang = [] \/ bang = lit "!")
  /\ all_chars (none_of [ch "]"]) text
  /\ path <> [] /\ all_chars (none_of [ch ")"]) path.

Definition begins_with_reference (s : str) : Prop :=
  exists bang text path rest,
    reference_parts bang text path /\ s = reference bang text path ++ rest.

(** A line read from left to right, and the line that
    [adjust_relative_path] returns: where a reference begins, the reference
    is adjusted and the reading goes on after it; a character where no
    reference begins is copied. *)
Inductive adjusted_line (levels_up : nat) : str -> str -> Prop :=
| adjusted_end : adjusted_line levels_up [] []
| adjusted_reference_here (bang text path rest rest' : str) :
    reference_parts bang text path ->
    adjusted_line levels_up rest rest' ->
    adjusted_line levels_up (reference bang text path ++ rest)
                  (adjusted_reference levels_up bang text path ++ rest')
| adjusted_character (c : char) (s s' : str) :
    ~ begins_with_reference (c :: s) ->
    adjusted_line levels_up s s' ->
    adjusted_line levels_up (c :: s) (c :: s').

(** A list item as [unify_nested_list_types] reads it: an indentation, a
    marker of one of the two kinds, blanks, and a text. *)
Record list_item : Type := ListItem {
  item_indent : str;
  item_mark : str;
  item_kind : Simplify.list_type;
  item_blanks : str;
  item_content : str
}.

Definition item_line (it : list_item) : str :=
  item_indent it ++ item_mark it ++ item_blanks it ++ item_content it.

Definition well_formed_item (it : list_item) : Prop :=
  all_chars is_space (item_indent it)
  /\ item_marker (item_mark it) (item_kind it)
  /\ item_blanks it <> [] /\ all_chars is_space (item_blanks it)
  /\ stops is_space (item_content it).

(** A list item without indentation. *)
Definition top_item (it : list_item) : Prop :=
  well_formed_item it /\ item_indent it = [].

(** The line begins with white space. *)
Definition indented (line : str) : Prop :=
  match line with
  | [] => False
  | c :: _ => is_space c = true
  end.

(** An indented line of a document: a list item, or a line that is not a
    list item. *)
Inductive indented_line : Type :=
| Nested (it : list_item)
| Other (line : str).

Definition line_of (e : indented_line) : str :=
  match e with
  | Nested it => item_line it
  | Other line => line
  end.

Definition well_indented (e : indented_line) : Prop :=
  match e with
  | Nested it => well_formed_item it /\ item_indent it <> []
  | Other line => is_item line = false /\ indented line
  end.

(** The indented lines under one parent as they are written again: a list
    item becomes as many spaces as it had characters of indentation, the
    marker of the parent's kind (the ordinals counted from [ordinal]) and its
    text; another line is kept and takes no ordinal. *)
Fixpoint renumbered (kind : Simplify.list_type) (ordinal : nat) (es : list indented_line)
  : list str :=
  match es with
  | [] => []
  | Nested it :: rest =>
      (repeat (ch " ") (length (item_indent it))
       ++ match kind with
          | Simplify.numbered => str_of_nat ordinal ++ lit ". "
          | Simplify.bullet => lit "- "
          end
       ++ item_content it)
      :: renumbered kind (S ordinal) rest
  | Other line :: rest => line :: renumbered kind ordinal rest
  end.

(** The first line, if there is one, does not begin with white space. *)
Definition starts_unindented (lines : list str) : Prop :=
  match lines with
  | [] => True
  | l :: _ => stops is_space l
  end.

(** The splitter is inside a fence after [lines] when an odd number of them
    start with one of its two fence tokens; the rewrite pipeline counts the
    lines that start with a triple backtick only. *)
Definition fence_open (lines : list str) : bool :=
  Nat.odd (length (filter Split.is_fence_line lines)).

Definition backtick_fence_open (lines : list str) : bool :=
  Nat.odd (length (filter (fun l => startswith fence (strip l)) lines)).

(** ** The rules with their failures

    The rules read the groups of a match in two ways.  In a replacement
    template a group that took no part in the match stands for the empty
    text.  Through the match object it is Python's [None]: written in a
    formatted string it gives the text [None], used as a text (a method
    call, a concatenation, the argument of a rule) it raises an exception.
    Nothing else in the body of a rule can fail. *)

Inductive outcome : Type :=
| Line (line : str)
| Removal
| Raised.

Definition and_then (o : outcome) (f : str -> outcome) : outcome :=
  match o with
  | Line s => f s
  | Removal => Removal
  | Raised => Raised
  end.

(** [match.group(n)], [None] included. *)
Definition group_opt (subject : str) (i : nat) (st : mstate) (n : nat) : option str :=
  match n with
  | 0 => Some (slice subject i (pos st))
  | _ => match lookup n (caps st) with
         | Some (a, b) => Some (slice subject a b)
         | None => None
         end
  end.

(** A value in a formatted string, a value used as a text, and the value
    returned by a replacement function ([re.sub] adds nothing for [None]). *)
Definition formatted (v : option str) : str :=
  match v with Some s => s | None => lit "None" end.

Definition text_of (v : option str) : outcome :=
  match v with Some s => Line s | None => Raised end.

Definition returned (v : option str) : outcome :=
  match v with Some s => Line s | None => Line [] end.

(** [re.sub] with a replacement function that can raise. *)
Fixpoint sub_from_checked (r : re) (repl : (nat -> option str) -> outcome) (subject : str)
  (fuel i : nat) : outcome :=
  match fuel with
  | 0 => Line (skipn i subject)
  | S fuel' =>
      let copy_one :=
        match nth_error subject i with
        | Some c =>
            and_then (sub_from_checked r repl subject fuel' (S i)) (fun t => Line (c :: t))
        | None => Line []
        end in
      match match_at r subject i with
      | Some st =>
          and_then (repl (group_opt subject i st)) (fun out =>
          and_then (if i <? pos st then sub_from_checked r repl subject fuel' (pos st)
                    else copy_one)
                   (fun t => Line (out ++ t)))
      | None => copy_one
      end
  end.

Definition re_sub_checked (r : re) (repl : (nat -> option str) -> outcome) (subject : str)
  : outcome :=
  sub_from_checked r repl subject (S (length subject)) 0.

Definition normalize_headers_checked (line : str) : outcome :=
  match match_at Simplify.header_re line 0 with
  | Some header_match => Line (lit "### " ++ formatted (group_opt line 0 header_match 2))
  | None => Line line
  end.

Definition fix_emoji_at_list_start_checked (line : str) : outcome :=
  match match_at Simplify.emoji_pattern line 0 with
  | Some st =>
      let g := group_opt line 0 st in
      Line (formatted (g 1) ++ formatted (g 2) ++ lit ": " ++ formatted (g 3))
  | None => Line line
  end.

Definition replace_link_checked (g : nat -> option str) : outcome :=
  let full_match := g 0 in
  let optional_bang := g 1 in
  let text := g 2 in
  let url := g 3 in
  let is_image :=
    match optional_bang with Some b => str_eqb b (lit "!") | None => false end in
  and_then (text_of url) (fun u =>
    let is_image_path :=
      existsb (fun ext => endswith ext (lower u)) Simplify.image_extensions in
    if is_image || is_image_path then returned full_match
    else
      let url_clean := re_sub (Seq Bol Simplify.protocol) (fun _ => []) u in
      Line ([star] ++ formatted text ++ lit " (" ++ url_clean ++ lit ")" ++ [star])).

Definition convert_markdown_links_checked (line : str) : outcome :=
  re_sub_checked Simplify.link_re replace_link_checked line.

Definition wrap_snake_case_checked (g : nat -> option str) : outcome :=
  let word := g 1 in
  Line ([star] ++ formatted word ++ [star]).

Definition replace_tech_term_checked (g : nat -> option str) : outcome :=
  and_then (text_of (g 1)) (fun word =>
    if existsb (str_eqb (lower word)) Simplify.common_words then Line word
    else Line ([star] ++ word ++ [star])).

Definition wrap_technical_terms_in_italic_checked (line : str) : outcome :=
  if startswith fence (strip line) then Line line
  else if startswith (lit "|") (strip line) || (2 <? count_occ N.eq_dec line (ch "|"))
  then Line line
  else if startswith (lit "#") (strip line) || str_eqb (strip line) (lit "---")
  then Line line
  else if Simplify.is_list_item line then Line line
  else
    and_then (re_sub_checked Simplify.snake_case_re wrap_snake_case_checked line) (fun line =>
    re_sub_checked Simplify.tech_term_re replace_tech_term_checked line).

Definition process_without_image_path_checked (g : nat -> option str) : outcome :=
  let before_path := g 1 in
  let path := g 2 in
  let after_path := g 3 in
  and_then (and_then (text_of before_path) wrap_technical_terms_in_italic_checked)
    (fun before_processed =>
  and_then (and_then (text_of after_path) wrap_technical_terms_in_italic_checked)
    (fun after_processed =>
  and_then (text_of path) (fun path =>
  Line (before_processed ++ path ++ after_processed)))).

Definition wrap_technical_terms_in_italic_except_images_checked (line : str) : outcome :=
  match re_search Simplify.image_re line with
  | Some _ => re_sub_checked Simplify.image_re process_without_image_path_checked line
  | None => wrap_technical_terms_in_italic_checked line
  end.

(** A rule whose body reads no group through a match object. *)
Definition total (rule : str -> str) (line : str) : outcome := Line (rule line).

Definition remove_show_answer_headers_checked (line : str) : outcome :=
  match Simplify.remove_show_answer_headers line with
  | Some line => Line line
  | None => Removal
  end.

(** The rules that the loop applies after [remove_show_answer_headers], in
    its order: as embedded, and with their failures. *)
Definition later_rules : list (str -> str) :=
  [Simplify.normalize_headers; Simplify.remove_checklists;
   Simplify.fix_bold_colon_in_lists; Simplify.fix_code_with_dash_in_lists;
   Simplify.remove_bold_in_lists; Simplify.remove_code_in_lists;
   Simplify.fix_emoji_at_list_start; Simplify.remove_html_tags;
   Simplify.remove_blockquotes; Simplify.remove_bare_urls;
   Simplify.convert_markdown_links; Simplify.quote_operators_in_lists;
   Simplify.remove_inline_code_everywhere;
   Simplify.wrap_technical_terms_in_italic_except_images;
   Simplify.remove_italic_in_lists].

Definition later_rules_checked : list (str -> outcome) :=
  [normalize_headers_checked; total Simplify.remove_checklists;
   total Simplify.fix_bold_colon_in_lists; total Simplify.fix_code_with_dash_in_lists;
   total Simplify.remove_bold_in_lists; total Simplify.remove_code_in_lists;
   fix_emoji_at_list_start_checked; total Simplify.remove_html_tags;
   total Simplify.remove_blockquotes; total Simplify.remove_bare_urls;
   convert_markdown_links_checked; total Simplify.quote_operators_in_lists;
   total Simplify.remove_inline_code_everywhere;
   wrap_technical_terms_in_italic_except_images_checked;
   total Simplify.remove_italic_in_lists].

(** [binds n r]: read off the pattern, every match of [r] goes through the
    group [n]. *)
Fixpoint binds (n : nat) (r : re) : Prop :=
  match r with
  | Grp k a => k = n \/ binds n a
  | Seq a b => binds n a \/ binds n b
  | Alt a b => binds n a /\ binds n b
  | _ => False
  end.

(** * Properties *)

Import Simplify.

(** ** Characters of a text

    A substitution copies characters of its subject and adds the literal
    characters of its replacement text: a property of characters that holds
    of the subject and of the literals holds of the result. *)

Section Preservation.

Variable P : char -> bool.

Lemma all_chars_app (s t : str) :
  all_chars P (s ++ t) <-> all_chars P s /\ all_chars P t.
Proof.
  unfold all_chars. rewrite forallb_app. apply andb_true_iff.
Qed.

Lemma all_chars_cons (c : char) (s : str) :
  all_chars P (c :: s) <-> P c = true /\ all_chars P s.
Proof. unfold all_chars. simpl. apply andb_true_iff. Qed.

Lemma all_chars_nil : all_chars P [].
Proof. reflexivity. Qed.

Lemma all_chars_In (s : str) :
  all_chars P s <-> forall c, In c s -> P c = true.
Proof. unfold all_chars. apply forallb_forall. Qed.

Lemma all_chars_incl (s t : str) :
  incl t s -> all_chars P s -> all_chars P t.
Proof.
  intros Hincl Hs. apply all_chars_In. intros c Hc.
  apply (proj1 (all_chars_In s) Hs). apply Hincl. exact Hc.
Qed.

Lemma incl_firstn (n : nat) (s : str) : incl (firstn n s) s.
Proof.
  intros c Hc. rewrite <- (firstn_skipn n s). apply in_or_app. left. exact Hc.
Qed.

Lemma incl_skipn (n : nat) (s : str) : incl (skipn n s) s.
Proof.
  intros c Hc. rewrite <- (firstn_skipn n s). apply in_or_app. right. exact Hc.
Qed.

Lemma incl_slice (s : str) (a b : nat) : incl (slice s a b) s.
Proof.
  unfold slice. intros c Hc. apply (incl_skipn a). apply (incl_firstn _ _ _ Hc).
Qed.

Lemma incl_lstrip_with (p : char -> bool) (s : str) : incl (lstrip_with p s) s.
Proof.
  induction s as [|c s IH]; simpl.
  - apply incl_refl.
  - destruct (p c).
    + apply incl_tl. exact IH.
    + apply incl_refl.
Qed.

Lemma incl_rstrip_with (p : char -> bool) (s : str) : incl (rstrip_with p s) s.
Proof.
  unfold rstrip_with. intros c Hc. apply in_rev in Hc.
  apply incl_lstrip_with in Hc. apply in_rev. exact Hc.
Qed.

Lemma incl_strip (s : str) : incl (strip s) s.
Proof.
  unfold strip, rstrip, lstrip. intros c Hc.
  apply incl_rstrip_with in Hc. apply (incl_lstrip_with _ _ _ Hc).
Qed.

Lemma all_chars_group (s : str) (i : nat) (st : mstate) (n : nat) :
  all_chars P s -> all_chars P (group s i st n).
Proof.
  intros Hs. unfold group. destruct n as [|n].
  - apply (all_chars_incl _ _ (incl_slice s i (pos st)) Hs).
  - destruct (lookup (S n) (caps st)) as [[a b]|].
    + apply (all_chars_incl _ _ (incl_slice s a b) Hs).
    + apply all_chars_nil.
Qed.

Lemma all_chars_re_match (r : re) (s : str) (g : nat -> str) :
  all_chars P s -> re_match r s = Some g -> forall n, all_chars P (g n).
Proof.
  intros Hs Hm n. unfold re_match in Hm.
  destruct (match_at r s 0) as [st|]; simpl in Hm; [|discriminate].
  injection Hm as <-. apply all_chars_group. exact Hs.
Qed.

Lemma all_chars_sub_from (r : re) (repl : (nat -> str) -> str) (s : str) :
  all_chars P s ->
  (forall g, (forall n, all_chars P (g n)) -> all_chars P (repl g)) ->
  forall fuel i, all_chars P (sub_from r repl s fuel i).
Proof.
  intros Hs Hrepl. induction fuel as [|fuel IH]; intros i; simpl.
  - apply (all_chars_incl _ _ (incl_skipn i s) Hs).
  - assert (Hcopy : all_chars P
                      match nth_error s i with
                      | Some c => c :: sub_from r repl s fuel (S i)
                      | None => []
                      end).
    { destruct (nth_error s i) as [c|] eqn:Hc.
      - apply all_chars_cons. split.
        + apply (proj1 (all_chars_In s) Hs). apply (nth_error_In _ _ Hc).
        + apply IH.
      - apply all_chars_nil. }
    destruct (match_at r s i) as [st|].
    + apply all_chars_app. split.
      * apply Hrepl. intros n. apply all_chars_group. exact Hs.
      * destruct (i <? pos st); [apply IH | exact Hcopy].
    + exact Hcopy.
Qed.

Lemma all_chars_re_sub (r : re) (repl : (nat -> str) -> str) (s : str) :
  all_chars P s ->
  (forall g, (forall n, all_chars P (g n)) -> all_chars P (repl g)) ->
  all_chars P (re_sub r repl s).
Proof. intros Hs Hrepl. apply all_chars_sub_from; assumption. Qed.

(** The replacement texts use characters of [template_chars] only. *)
Hypothesis P_templates : all_chars P template_chars.

Lemma P_template (c : char) : In c template_chars -> P c = true.
Proof. apply (proj1 (all_chars_In template_chars) P_templates). Qed.

Lemma all_chars_uint (d : Decimal.uint) : all_chars P (uint_chars d).
Proof.
  induction d; simpl; try apply all_chars_nil;
    (apply all_chars_cons; split; [apply P_template; vm_compute; tauto | assumption]).
Qed.

Lemma all_chars_repeat (c : char) (n : nat) :
  P c = true -> all_chars P (repeat c n).
Proof.
  intros Hc. induction n as [|n IH]; simpl.
  - apply all_chars_nil.
  - apply all_chars_cons. split; assumption.
Qed.

End Preservation.

Lemma all_chars_not_In (c : char) (s : str) :
  all_chars (not_char c) s -> ~ In c s.
Proof.
  intros H Hin. apply (proj1 (all_chars_In _ s) H) in Hin.
  unfold not_char in Hin. rewrite N.eqb_refl in Hin. discriminate.
Qed.

Lemma all_chars_rev (P : char -> bool) (s : str) :
  all_chars P s -> all_chars P (rev s).
Proof.
  intros H. apply (all_chars_incl P s (rev s)); [|exact H].
  intros c Hc. apply in_rev. exact Hc.
Qed.

Lemma not_char_of_all (c : char) (s : str) :
  ~ In c s -> all_chars (not_char c) s.
Proof.
  intros H. apply all_chars_In. intros x Hx. unfold not_char.
  apply negb_true_iff. apply N.eqb_neq. intros ->. contradiction.
Qed.

Lemma none_of_single (x c : char) : none_of [x] c = true -> N.eqb x c = false.
Proof.
  unfold none_of, one_of. simpl. rewrite orb_false_r, N.eqb_sym.
  apply negb_true_iff.
Qed.

Lemma none_of_not_In (x : char) (s : str) : all_chars (none_of [x]) s -> ~ In x s.
Proof.
  intros H Hin. apply (proj1 (all_chars_In _ s) H) in Hin.
  unfold none_of, one_of in Hin. simpl in Hin. rewrite N.eqb_refl in Hin. discriminate.
Qed.

Lemma without_app (x : char) (s t : str) :
  without x (s ++ t) = without x s ++ without x t.
Proof. apply filter_app. Qed.

Lemma without_hit (x : char) (s : str) : without x (x :: s) = without x s.
Proof.
  unfold without, none_of, one_of. simpl. rewrite N.eqb_refl. reflexivity.
Qed.

Lemma without_clean (x : char) (s : str) :
  all_chars (none_of [x]) s -> without x s = s.
Proof. apply forallb_filter_id. Qed.

Lemma without_not_In (x : char) (s : str) : ~ In x (without x s).
Proof.
  unfold without. intros Hin. apply filter_In in Hin. destruct Hin as [_ Hx].
  unfold none_of, one_of in Hx. simpl in Hx. rewrite N.eqb_refl in Hx. discriminate.
Qed.

Lemma all_chars_without (x : char) (s : str) : all_chars (none_of [x]) (without x s).
Proof.
  apply all_chars_In. intros c Hc. unfold without in Hc.
  apply filter_In in Hc. apply Hc.
Qed.

(** ** Lists and texts *)

Lemma snoc_cases {A : Type} (l : list A) :
  l = [] \/ exists l' a, l = l' ++ [a].
Proof.
  destruct l as [|x l]; [left; reflexivity|right].
  destruct (@exists_last A (x :: l)) as [l' [a Hl]]; [discriminate|].
  exists l', a. exact Hl.
Qed.

Lemma join_snoc (sep : str) (parts : list str) (p : str) :
  parts <> [] -> join sep (parts ++ [p]) = join sep parts ++ sep ++ p.
Proof.
  induction parts as [|q rest IH]; intros Hne; [contradiction|].
  destruct rest as [|q' rest'].
  - reflexivity.
  - change (join sep ((q :: q' :: rest') ++ [p]))
      with (q ++ sep ++ join sep ((q' :: rest') ++ [p])).
    rewrite IH by discriminate.
    change (join sep (q :: q' :: rest')) with (q ++ sep ++ join sep (q' :: rest')).
    rewrite <- !app_assoc. reflexivity.
Qed.

Lemma rstrip_with_snoc (p : char -> bool) (body : str) (c : char) :
  p c = true -> rstrip_with p (body ++ [c]) = rstrip_with p body.
Proof.
  intros Hc. unfold rstrip_with. rewrite rev_app_distr. simpl. rewrite Hc. reflexivity.
Qed.

Lemma lstrip_with_app (p : char -> bool) (ind rest : str) :
  all_chars p ind -> stops p rest -> lstrip_with p (ind ++ rest) = rest.
Proof.
  intros Hind Hrest. induction ind as [|c ind IH]; simpl.
  - destruct rest as [|c rest]; [reflexivity|]. simpl in Hrest. simpl. rewrite Hrest. reflexivity.
  - apply all_chars_cons in Hind. destruct Hind as [Hc Hind].
    rewrite Hc. apply IH. exact Hind.
Qed.

Lemma lstrip_with_stops (p : char -> bool) (s : str) : stops p (lstrip_with p s).
Proof.
  induction s as [|c s IH]; simpl; [exact I|].
  destruct (p c) eqn:Hc; [exact IH | exact Hc].
Qed.

Lemma take_while_lstrip (p : char -> bool) (s : str) :
  take_while p s ++ lstrip_with p s = s.
Proof.
  induction s as [|c s IH]; simpl; [reflexivity|].
  destruct (p c); simpl; [rewrite IH|]; reflexivity.
Qed.

Lemma take_while_all (p : char -> bool) (s : str) : all_chars p (take_while p s).
Proof.
  induction s as [|c s IH]; simpl; [reflexivity|].
  destruct (p c) eqn:Hc; [|reflexivity].
  apply all_chars_cons. split; assumption.
Qed.

Lemma take_while_app (p : char -> bool) (run rest : str) :
  all_chars p run -> stops p rest -> take_while p (run ++ rest) = run.
Proof.
  intros Hrun Hrest. induction run as [|c run IH]; simpl.
  - destruct rest as [|c rest]; [reflexivity|]. simpl in Hrest. simpl. rewrite Hrest. reflexivity.
  - apply all_chars_cons in Hrun. destruct Hrun as [Hc Hrun].
    rewrite Hc, IH by exact Hrun. reflexivity.
Qed.

Lemma skipn_nth_error (s : str) (i : nat) (c : char) :
  nth_error s i = Some c -> skipn i s = c :: skipn (S i) s.
Proof.
  revert i. induction s as [|x s IH]; intros i H.
  - destruct i; discriminate.
  - destruct i as [|i]; simpl in *.
    + injection H as ->. reflexivity.
    + apply IH. exact H.
Qed.

Lemma nth_error_middle (pre suf : str) (c : char) :
  nth_error (pre ++ c :: suf) (length pre) = Some c.
Proof. rewrite nth_error_app2, Nat.sub_diag by lia. reflexivity. Qed.

Lemma slice_middle (x y z : str) :
  slice (x ++ y ++ z) (length x) (length x + length y) = y.
Proof.
  unfold slice. rewrite skipn_app, Nat.sub_diag, skipn_all. simpl.
  replace (length x + length y - length x) with (length y) by lia.
  rewrite firstn_app, Nat.sub_diag, firstn_all. simpl. apply app_nil_r.
Qed.

Lemma slice_at (s x y z : str) (a b : nat) :
  s = x ++ y ++ z -> a = length x -> b = length x + length y -> slice s a b = y.
Proof. intros -> -> ->. apply slice_middle. Qed.

Lemma str_eqb_eq (a b : str) : str_eqb a b = true <-> a = b.
Proof.
  revert b. induction a as [|x a IH]; intros [|y b]; simpl; split; intros H;
    try reflexivity; try discriminate H.
  - apply andb_true_iff in H. destruct H as [Hxy Hab].
    apply N.eqb_eq in Hxy. apply IH in Hab. subst. reflexivity.
  - injection H as -> ->. rewrite N.eqb_refl. apply IH. reflexivity.
Qed.

Lemma startswith_parent_not_current (p : str) :
  startswith (lit "../") p = true -> startswith (lit "./") p = false.
Proof.
  change (lit "../") with [ch "."; ch "."; ch "/"]. change (lit "./") with [ch "."; ch "/"].
  destruct p as [|a [|b p]]; cbn [startswith]; intros H;
    [discriminate H | rewrite andb_false_r in H; discriminate H |].
  apply andb_true_iff in H. destruct H as [_ H].
  apply andb_true_iff in H. destruct H as [Hb _].
  apply N.eqb_eq in Hb. subst b. rewrite andb_false_r. reflexivity.
Qed.

Lemma tildes_not_fence (line : str) :
  startswith tildes (strip line) = true -> startswith fence (strip line) = false.
Proof.
  destruct (strip line) as [|c s]; [discriminate|].
  intros H. unfold tildes in H. cbn [startswith] in H.
  apply andb_true_iff in H. destruct H as [Hc _].
  apply N.eqb_eq in Hc. subst c. reflexivity.
Qed.

Lemma in_ranges_enum (tbl : list (N * N)) (c : char) :
  in_ranges tbl c = true -> In c (flat_map enum_range tbl).
Proof.
  unfold in_ranges. intros H. apply existsb_exists in H.
  destruct H as [[a b] [Hin Hc]]. simpl in Hc.
  apply andb_true_iff in Hc. destruct Hc as [Ha Hb].
  apply N.leb_le in Ha. apply N.leb_le in Hb.
  apply in_flat_map. exists (a, b). split; [exact Hin|].
  unfold enum_range. cbn [fst snd]. apply in_map_iff. exists (N.to_nat c).
  split; [apply N2Nat.id | apply in_seq; lia].
Qed.

Lemma space_not_digit (c : char) : is_space c = true -> is_digit c = false.
Proof.
  intros H. apply in_ranges_enum in H.
  assert (Hall : forallb (fun x => negb (is_digit x)) (flat_map enum_range space_ranges) = true)
    by (vm_compute; reflexivity).
  apply (proj1 (forallb_forall _ _) Hall) in H. apply negb_true_iff. exact H.
Qed.

Lemma digit_not_space (c : char) : is_digit c = true -> is_space c = false.
Proof.
  intros H. destruct (is_space c) eqn:Hs; [|reflexivity].
  apply space_not_digit in Hs. congruence.
Qed.

(** ** The matcher, step by step *)

Lemma m_Eps (s : str) (st : mstate) (k : mstate -> option mstate) :
  m s Eps st k = k st.
Proof. reflexivity. Qed.

Lemma m_Seq (s : str) (a b : re) (st : mstate) (k : mstate -> option mstate) :
  m s (Seq a b) st k = m s a st (fun st' => m s b st' k).
Proof. reflexivity. Qed.

Lemma m_Alt (s : str) (a b : re) (st : mstate) (k : mstate -> option mstate) :
  m s (Alt a b) st k =
    match m s a st k with Some res => Some res | None => m s b st k end.
Proof. reflexivity. Qed.

Lemma m_Grp (s : str) (n : nat) (a : re) (st : mstate) (k : mstate -> option mstate) :
  m s (Grp n a) st k =
    m s a st (fun st' => k (MState (pos st') (before st') (after st')
                              ((n, (pos st, pos st')) :: caps st'))).
Proof. reflexivity. Qed.

Lemma m_Cls_cons (s : str) (p : char -> bool) (i : nat) (bef : str) (c : char)
  (rest : str) cps (k : mstate -> option mstate) :
  m s (Cls p) (MState i bef (c :: rest) cps) k =
    if p c then k (MState (S i) (c :: bef) rest cps) else None.
Proof. reflexivity. Qed.

Lemma m_Cls_nil (s : str) (p : char -> bool) (i : nat) (bef : str) cps
  (k : mstate -> option mstate) :
  m s (Cls p) (MState i bef [] cps) k = None.
Proof. reflexivity. Qed.

Lemma m_Bol (s : str) (st : mstate) (k : mstate -> option mstate) :
  m s Bol st k = if Nat.eqb (pos st) 0 then k st else None.
Proof. reflexivity. Qed.

Lemma m_Eol_nil (s : str) (i : nat) (bef : str) cps (k : mstate -> option mstate) :
  m s Eol (MState i bef [] cps) k = k (MState i bef [] cps).
Proof. reflexivity. Qed.

Lemma m_Star (s : str) (a : re) (st : mstate) (k : mstate -> option mstate) :
  m s (Star a) st k = star_loop (m s a) k (S (length (after st))) st.
Proof. reflexivity. Qed.

(** One step of the matcher on a pattern whose head is known. *)
Ltac mstep :=
  repeat (rewrite ?m_Seq, ?m_Grp, ?m_Eps, ?m_Cls_cons, ?m_Cls_nil, ?N.eqb_refl;
          cbv beta; cbn [pos before after caps]).

Lemma first_choice (x y : option mstate) (st : mstate) :
  x = Some st -> match x with Some res => Some res | None => y end = Some st.
Proof. intros ->. reflexivity. Qed.

Lemma state_at_app (pre suf : str) :
  state_at (pre ++ suf) (length pre) = MState (length pre) (rev pre) suf [].
Proof.
  unfold state_at. rewrite firstn_app, Nat.sub_diag, firstn_all. simpl.
  rewrite app_nil_r, skipn_app, Nat.sub_diag, skipn_all. reflexivity.
Qed.

Lemma re_match_at_start (r : re) (s : str) :
  re_match r s = option_map (group s 0) (m s r (MState 0 [] s []) Some).
Proof. reflexivity. Qed.

Lemma re_match_from_state (r : re) (s : str) (st : mstate) :
  m s r (MState 0 [] s []) Some = Some st ->
  is_some (re_match r s) = true.
Proof.
  intros Hm. unfold re_match, match_at.
  change (state_at s 0) with (MState 0 [] s []). rewrite Hm. reflexivity.
Qed.

(** ** The matcher on repetitions *)

Lemma star_loop_cls (s : str) (p : char -> bool) (k : mstate -> option mstate) :
  forall (run rest : str) (i : nat) (bef : str) cps (fuel : nat),
    all_chars p run -> stops p rest -> length run < fuel ->
    star_loop (m s (Cls p)) k fuel (MState i bef (run ++ rest) cps)
    = greedy k i bef run rest cps.
Proof.
  induction run as [|c run IH]; intros rest i bef cps fuel Hrun Hrest Hfuel.
  - destruct fuel as [|fuel]; [simpl in Hfuel; lia|].
    simpl. destruct rest as [|c rest]; [reflexivity|].
    simpl in Hrest. rewrite Hrest. reflexivity.
  - destruct fuel as [|fuel]; [simpl in Hfuel; lia|].
    apply all_chars_cons in Hrun. destruct Hrun as [Hc Hrun].
    cbn [star_loop]. cbn [m app after pos before caps]. rewrite Hc.
    assert (Hlt : (i <? S i) = true) by (apply Nat.ltb_lt; lia).
    rewrite Hlt. rewrite IH by (try assumption; simpl in Hfuel; lia).
    reflexivity.
Qed.

Lemma m_star_cls (s : str) (p : char -> bool) (k : mstate -> option mstate)
  (run rest : str) (i : nat) (bef : str) cps :
  all_chars p run -> stops p rest ->
  m s (Star (Cls p)) (MState i bef (run ++ rest) cps) k = greedy k i bef run rest cps.
Proof.
  intros Hrun Hrest. rewrite m_Star. apply star_loop_cls; try assumption.
  cbn [after]. rewrite length_app. lia.
Qed.

Lemma greedy_all (k : mstate -> option mstate) (res : mstate) :
  forall (run rest : str) (i : nat) (bef : str) cps,
    k (MState (i + length run) (rev run ++ bef) rest cps) = Some res ->
    greedy k i bef run rest cps = Some res.
Proof.
  induction run as [|c run IH]; intros rest i bef cps Hk; simpl.
  - simpl in Hk. rewrite Nat.add_0_r in Hk. exact Hk.
  - rewrite IH; [reflexivity|].
    simpl in Hk. rewrite <- app_assoc in Hk. simpl in Hk.
    rewrite Nat.add_succ_r in Hk. exact Hk.
Qed.

Lemma greedy_back1 (k : mstate -> option mstate) (res : mstate) (w : char) :
  forall (run : str) (i : nat) (bef : str) cps,
    k (MState (S (i + length run)) (w :: rev run ++ bef) [] cps) = None ->
    k (MState (i + length run) (rev run ++ bef) [w] cps) = Some res ->
    greedy k i bef (run ++ [w]) [] cps = Some res.
Proof.
  induction run as [|c run IH]; intros i bef cps Hnone Hsome.
  - simpl in *. rewrite Nat.add_0_r in Hnone, Hsome. rewrite Hnone. exact Hsome.
  - cbn [app greedy]. rewrite (IH (S i) (c :: bef) cps); [reflexivity | |].
    + simpl in Hnone. rewrite <- app_assoc in Hnone. simpl in Hnone.
      rewrite Nat.add_succ_r in Hnone. exact Hnone.
    + simpl in Hsome. rewrite <- app_assoc in Hsome. simpl in Hsome.
      rewrite Nat.add_succ_r in Hsome. exact Hsome.
Qed.

(** A bounded repetition of one character, before a continuation that
    refuses to start at that character: all the occurrences are taken. *)
Lemma upto_chr (s : str) (x : char) (k : mstate -> option mstate) :
  (forall i bef rest cps, k (MState i bef (x :: rest) cps) = None) ->
  forall (n : nat) (h r1 : str) (i : nat) (bef : str) cps,
    all_chars (N.eqb x) h -> stops (N.eqb x) r1 ->
    m s (UpTo n (Chr x)) (MState i bef (h ++ r1) cps) k
    = if length h <=? n then k (MState (i + length h) (rev h ++ bef) r1 cps) else None.
Proof.
  intros Hk. induction n as [|n IH]; intros h r1 i bef cps Hh Hr1.
  - cbn [UpTo]. rewrite m_Eps. destruct h as [|c h].
    + simpl. rewrite Nat.add_0_r. reflexivity.
    + apply all_chars_cons in Hh. destruct Hh as [Hc _].
      apply N.eqb_eq in Hc. subst c. simpl. apply Hk.
  - cbn [UpTo]. unfold Opt, Chr. rewrite m_Alt, m_Seq. destruct h as [|c h].
    + cbn [app length Nat.leb rev]. rewrite Nat.add_0_r.
      destruct r1 as [|c r1].
      * rewrite m_Cls_nil, m_Eps. reflexivity.
      * simpl in Hr1. rewrite m_Cls_cons, Hr1, m_Eps. reflexivity.
    + apply all_chars_cons in Hh. destruct Hh as [Hc Hh].
      cbn [app]. rewrite m_Cls_cons, Hc.
      apply N.eqb_eq in Hc. subst c.
      fold (Chr x). rewrite (IH h r1 (S i) (x :: bef) cps Hh Hr1).
      rewrite m_Eps, Hk. cbn [length Nat.leb rev].
      rewrite <- app_assoc. cbn [app]. rewrite Nat.add_succ_r.
      destruct (length h <=? n); [|reflexivity].
      destruct (k _); reflexivity.
Qed.

(** ** Substitution over text that cannot start a match *)

Section Copy.

Variables (r : re) (repl : (nat -> str) -> str) (p : char -> bool).

Hypothesis no_match_at : forall s i bef c rest,
  p c = true -> m s r (MState i bef (c :: rest) []) Some = None.

Lemma sub_from_copy (t : str) :
  all_chars p t ->
  forall (pre suf : str) (fuel : nat),
    sub_from r repl (pre ++ t ++ suf) (length t + fuel) (length pre)
    = t ++ sub_from r repl (pre ++ t ++ suf) fuel (length (pre ++ t)).
Proof.
  induction t as [|c t IH]; intros Ht pre suf fuel.
  - simpl. rewrite app_nil_r. reflexivity.
  - apply all_chars_cons in Ht. destruct Ht as [Hc Ht].
    cbn [length Nat.add sub_from]. unfold match_at.
    change (pre ++ (c :: t) ++ suf) with (pre ++ c :: t ++ suf).
    rewrite state_at_app, no_match_at by exact Hc.
    rewrite nth_error_middle. cbn [app]. f_equal.
    replace (pre ++ c :: t ++ suf) with ((pre ++ [c]) ++ t ++ suf)
      by (rewrite <- app_assoc; reflexivity).
    replace (S (length pre)) with (length (pre ++ [c]))
      by (rewrite length_app; simpl; lia).
    rewrite IH by exact Ht.
    rewrite <- !app_assoc. reflexivity.
Qed.

End Copy.

Lemma sub_from_copy_tail (r : re) (repl : (nat -> str) -> str) (p : char -> bool) :
  (forall s i bef t, all_chars p t -> m s r (MState i bef t []) Some = None) ->
  forall (fuel : nat) (t pre : str),
    all_chars p t -> sub_from r repl (pre ++ t) fuel (length pre) = t.
Proof.
  intros Hno. induction fuel as [|fuel IH]; intros t pre Ht.
  - cbn [sub_from]. rewrite skipn_app, Nat.sub_diag, skipn_all. reflexivity.
  - cbn [sub_from]. unfold match_at. rewrite state_at_app, Hno by exact Ht.
    destruct t as [|c t].
    + rewrite app_nil_r. rewrite (proj2 (nth_error_None pre (length pre))) by lia.
      reflexivity.
    + rewrite nth_error_middle. f_equal.
      apply all_chars_cons in Ht. destruct Ht as [_ Ht].
      replace (pre ++ c :: t) with ((pre ++ [c]) ++ t) by (rewrite <- app_assoc; reflexivity).
      replace (S (length pre)) with (length (pre ++ [c])) by (rewrite length_app; simpl; lia).
      apply IH. exact Ht.
Qed.

(** After position 0 a pattern that starts with [^] matches nowhere: the
    rest of the subject is copied. *)
Lemma sub_from_anchored (r : re) (repl : (nat -> str) -> str) (s : str) :
  forall fuel i, 0 < i -> sub_from (Seq Bol r) repl s fuel i = skipn i s.
Proof.
  induction fuel as [|fuel IH]; intros i Hi; [reflexivity|].
  cbn [sub_from]. unfold match_at. rewrite m_Seq, m_Bol. unfold state_at at 1. cbn [pos].
  destruct i as [|i]; [lia|]. cbn [Nat.eqb].
  destruct (nth_error s (S i)) as [c|] eqn:Hc.
  - rewrite IH by lia. symmetry. apply skipn_nth_error. exact Hc.
  - symmetry. apply skipn_all2. apply nth_error_None. exact Hc.
Qed.

(** A match at position 0 of a pattern that starts with [^], replaced by the
    empty text: what follows the match is left. *)
Lemma re_sub_anchored_prefix (r : re) (s : str) (st : mstate) :
  m s (Seq Bol r) (MState 0 [] s []) Some = Some st ->
  0 < pos st ->
  re_sub (Seq Bol r) (fun _ => []) s = skipn (pos st) s.
Proof.
  intros Hm Hpos. unfold re_sub. cbn [sub_from]. unfold match_at.
  change (state_at s 0) with (MState 0 [] s []). rewrite Hm.
  assert (Hlt : (0 <? pos st) = true) by (apply Nat.ltb_lt; exact Hpos).
  rewrite Hlt. apply sub_from_anchored. exact Hpos.
Qed.

(** ** The fuel of the matcher is never used up *)

Lemma reach_refl (st : mstate) : reach st st.
Proof. exists []. split; [reflexivity | simpl; lia]. Qed.

Lemma reach_trans (st1 st2 st3 : mstate) :
  reach st1 st2 -> reach st2 st3 -> reach st1 st3.
Proof.
  intros [r1 [Ha1 Hp1]] [r2 [Ha2 Hp2]]. exists (r1 ++ r2). split.
  - rewrite Ha1, Ha2, app_assoc. reflexivity.
  - rewrite Hp2, Hp1, length_app. lia.
Qed.

Lemma reach_caps (st st' : mstate) cps :
  reach st st' -> reach st (MState (pos st') (before st') (after st') cps).
Proof. intros [run H]. exists run. exact H. Qed.

Lemma reach_length (st st' : mstate) :
  reach st st' -> length (after st') <= length (after st).
Proof. intros [run [Ha _]]. rewrite Ha, length_app. lia. Qed.

Lemma reach_progress (st st' : mstate) :
  reach st st' -> pos st < pos st' -> length (after st') < length (after st).
Proof.
  intros [run [Ha Hp]] Hlt. rewrite Ha, length_app.
  destruct run; simpl in *; lia.
Qed.

Lemma eat_reach (eq : char -> char -> bool) (text : str) :
  forall st st', eat eq text st = Some st' -> reach st st'.
Proof.
  induction text as [|t text IH]; intros st st' H; simpl in H.
  - injection H as <-. apply reach_refl.
  - destruct (after st) as [|c rest] eqn:Ha; [discriminate|].
    destruct (eq t c); [|discriminate].
    apply IH in H. destruct H as [run [Hr Hp]]. simpl in Hr, Hp.
    exists (c :: run). split.
    + rewrite Ha, Hr. reflexivity.
    + rewrite Hp. simpl. lia.
Qed.

(** The matcher calls its continuation on states it reached only: two
    continuations that agree on them give the same result. *)
Lemma m_ext (s : str) (r : re) :
  forall st k1 k2,
    (forall st', reach st st' -> k1 st' = k2 st') ->
    m s r st k1 = m s r st k2.
Proof.
  induction r as [|p|a IHa b IHb|a IHa b IHb|a IHa|n a IHa| | | |p|p|ic n];
    intros st k1 k2 Hk.
  - apply Hk, reach_refl.
  - cbn [m]. destruct (after st) as [|c rest] eqn:Ha; [reflexivity|].
    destruct (p c); [|reflexivity]. apply Hk.
    exists [c]. split; [exact Ha | simpl; lia].
  - rewrite !m_Seq. apply IHa. intros st' Hst'. apply IHb.
    intros st'' Hst''. apply Hk. apply (reach_trans _ _ _ Hst' Hst'').
  - rewrite !m_Alt. rewrite (IHa st k1 k2 Hk), (IHb st k1 k2 Hk). reflexivity.
  - rewrite !m_Star. generalize (S (length (after st))) as fuel. intros fuel.
    revert st Hk. induction fuel as [|fuel IHf]; intros st Hk.
    + apply Hk, reach_refl.
    + cbn [star_loop].
      rewrite (IHa st _ (fun st' => if pos st <? pos st'
                                     then star_loop (m s a) k2 fuel st' else None)).
      * rewrite (Hk st (reach_refl st)). reflexivity.
      * intros st' Hst'. destruct (pos st <? pos st'); [|reflexivity].
        apply IHf. intros st'' Hst''. apply Hk. apply (reach_trans _ _ _ Hst' Hst'').
  - rewrite !m_Grp. apply IHa. intros st' Hst'. apply Hk. apply reach_caps. exact Hst'.
  - rewrite !m_Bol. destruct (Nat.eqb (pos st) 0); [apply Hk, reach_refl | reflexivity].
  - cbn [m]. destruct (after st) as [|c [|c' rest]];
      [apply Hk, reach_refl | | reflexivity].
    destruct (N.eqb c LF); [apply Hk, reach_refl | reflexivity].
  - cbn [m]. destruct (xorb _ _); [apply Hk, reach_refl | reflexivity].
  - cbn [m]. destruct (before st) as [|c rest]; [apply Hk, reach_refl|].
    destruct (p c); [reflexivity | apply Hk, reach_refl].
  - cbn [m]. destruct (after st) as [|c rest]; [apply Hk, reach_refl|].
    destruct (p c); [reflexivity | apply Hk, reach_refl].
  - cbn [m]. destruct (lookup n (caps st)) as [[a b]|]; [|reflexivity].
    destruct (eat _ _ st) as [st'|] eqn:He; [|reflexivity].
    apply Hk. apply (eat_reach _ _ _ _ He).
Qed.

(** A match ends in a state that the matcher reached. *)
Lemma m_reach (s : str) (r : re) :
  forall st k res,
    m s r st k = Some res -> exists st', reach st st' /\ k st' = Some res.
Proof.
  induction r as [|p|a IHa b IHb|a IHa b IHb|a IHa|n a IHa| | | |p|p|ic n];
    intros st k res H.
  - exists st. split; [apply reach_refl | exact H].
  - cbn [m] in H. destruct (after st) as [|c rest] eqn:Ha; [discriminate|].
    destruct (p c); [|discriminate]. eexists. split; [|exact H].
    exists [c]. split; [exact Ha | simpl; lia].
  - rewrite m_Seq in H. apply IHa in H. destruct H as [st1 [H1 H]].
    apply IHb in H. destruct H as [st2 [H2 H]].
    exists st2. split; [apply (reach_trans _ _ _ H1 H2) | exact H].
  - rewrite m_Alt in H. destruct (m s a st k) eqn:Ha.
    + injection H as ->. apply IHa. exact Ha.
    + apply IHb. exact H.
  - rewrite m_Star in H. revert H. generalize (S (length (after st))) as fuel.
    intros fuel. revert st. induction fuel as [|fuel IHf]; intros st H.
    + exists st. split; [apply reach_refl | exact H].
    + cbn [star_loop] in H.
      destruct (m s a st _) eqn:Hbody.
      * injection H as ->. apply IHa in Hbody. destruct Hbody as [st1 [H1 Hbody]].
        destruct (pos st <? pos st1); [|discriminate].
        apply IHf in Hbody. destruct Hbody as [st2 [H2 Hbody]].
        exists st2. split; [apply (reach_trans _ _ _ H1 H2) | exact Hbody].
      * exists st. split; [apply reach_refl | exact H].
  - rewrite m_Grp in H. apply IHa in H. destruct H as [st1 [H1 H]].
    eexists. split; [|exact H]. apply reach_caps. exact H1.
  - rewrite m_Bol in H. destruct (Nat.eqb (pos st) 0); [|discriminate].
    exists st. split; [apply reach_refl | exact H].
  - cbn [m] in H. exists st. split; [apply reach_refl|].
    destruct (after st) as [|c [|c' rest]]; [exact H | | discriminate].
    destruct (N.eqb c LF); [exact H | discriminate].
  - cbn [m] in H. destruct (xorb _ _); [|discriminate].
    exists st. split; [apply reach_refl | exact H].
  - cbn [m] in H. exists st. split; [apply reach_refl|].
    destruct (before st) as [|c rest]; [exact H|].
    destruct (p c); [discriminate | exact H].
  - cbn [m] in H. exists st. split; [apply reach_refl|].
    destruct (after st) as [|c rest]; [exact H|].
    destruct (p c); [discriminate | exact H].
  - cbn [m] in H. destruct (lookup n (caps st)) as [[a b]|]; [|discriminate].
    destruct (eat _ _ st) as [st'|] eqn:He; [|discriminate].
    exists st'. split; [apply (eat_reach _ _ _ _ He) | exact H].
Qed.

(** More fuel than characters left changes nothing in a repetition. *)
Lemma star_loop_fuel (s : str) (a : re) (k : mstate -> option mstate) :
  forall (n : nat) (st : mstate) (f1 f2 : nat),
    length (after st) <= n -> n < f1 -> n < f2 ->
    star_loop (m s a) k f1 st = star_loop (m s a) k f2 st.
Proof.
  induction n as [|n IH]; intros st f1 f2 Hlen H1 H2;
    (destruct f1 as [|f1]; [lia|]); (destruct f2 as [|f2]; [lia|]);
    cbn [star_loop];
    rewrite (m_ext s a st _ (fun st' => if pos st <? pos st'
                                        then star_loop (m s a) k f2 st' else None));
    try reflexivity;
    intros st' Hst'; destruct (pos st <? pos st') eqn:Hlt; try reflexivity;
    apply Nat.ltb_lt in Hlt; pose proof (reach_progress _ _ Hst' Hlt) as Hless.
  - lia.
  - apply IH; lia.
Qed.

Lemma m_Star_fuel (s : str) (a : re) (st : mstate) (k : mstate -> option mstate)
  (fuel : nat) :
  length (after st) < fuel ->
  m s (Star a) st k = star_loop (m s a) k fuel st.
Proof.
  intros H. rewrite m_Star. apply (star_loop_fuel s a k (length (after st))); lia.
Qed.

(** A match that started at position [i] of the subject ends between [i] and
    the end of the subject. *)
Lemma match_at_bounds (r : re) (s : str) (i : nat) (st : mstate) :
  match_at r s i = Some st -> i <= pos st /\ pos st <= i + (length s - i).
Proof.
  unfold match_at. intros H. apply m_reach in H. destruct H as [st' [Hr H]].
  injection H as ->. destruct Hr as [run [Ha Hp]]. unfold state_at in Ha, Hp.
  simpl in Ha, Hp. split; [lia|].
  assert (Hlen : length (skipn i s) = length run + length (after st))
    by (rewrite Ha, length_app; reflexivity).
  rewrite length_skipn in Hlen. lia.
Qed.

(** More fuel than characters left changes nothing in a substitution: the
    fuel of [re_sub] is enough. *)
Lemma sub_from_fuel (r : re) (repl : (nat -> str) -> str) (s : str) :
  forall (n i f1 f2 : nat),
    length s - i <= n -> n < f1 -> n < f2 ->
    sub_from r repl s f1 i = sub_from r repl s f2 i.
Proof.
  induction n as [|n IH]; intros i f1 f2 Hlen H1 H2;
    (destruct f1 as [|f1]; [lia|]); (destruct f2 as [|f2]; [lia|]);
    cbn [sub_from].
  - assert (Hnone : nth_error s i = None) by (apply nth_error_None; lia).
    rewrite Hnone. destruct (match_at r s i) as [st|] eqn:Hm; [|reflexivity].
    apply match_at_bounds in Hm.
    assert (Hlt : (i <? pos st) = false) by (apply Nat.ltb_ge; lia).
    rewrite Hlt. reflexivity.
  - assert (Hcopy : match nth_error s i with
                    | Some c => c :: sub_from r repl s f1 (S i)
                    | None => []
                    end
                    = match nth_error s i with
                      | Some c => c :: sub_from r repl s f2 (S i)
                      | None => []
                      end).
    { destruct (nth_error s i); [|reflexivity]. f_equal. apply IH; lia. }
    destruct (match_at r s i) as [st|] eqn:Hm; [|exact Hcopy].
    apply match_at_bounds in Hm.
    destruct (i <? pos st) eqn:Hlt; [|rewrite Hcopy; reflexivity].
    apply Nat.ltb_lt in Hlt. f_equal. apply IH; lia.
Qed.

Lemma re_sub_fuel (r : re) (repl : (nat -> str) -> str) (s : str) (fuel : nat) :
  length s < fuel -> re_sub r repl s = sub_from r repl s fuel 0.
Proof.
  intros H. unfold re_sub. apply (sub_from_fuel r repl s (length s)); lia.
Qed.

(** ** The rules add the characters of their replacement texts only *)

Section RulesPreserve.

Variable P : char -> bool.
Hypothesis P_templates : all_chars P template_chars.

Lemma lit_ok (s : str) :
  forallb (one_of template_chars) s = true -> all_chars P s.
Proof.
  intros H. apply all_chars_In. intros c Hc.
  apply (proj1 (forallb_forall _ _) H) in Hc.
  unfold one_of in Hc. apply existsb_exists in Hc. destruct Hc as [x [Hx Heq]].
  apply N.eqb_eq in Heq. subst x.
  apply (P_template P P_templates). exact Hx.
Qed.

Ltac keep_chars :=
  repeat first
    [ assumption
    | apply all_chars_nil
    | match goal with
      | Hg : forall n : nat, all_chars P (?g n) |- all_chars P (?g _) => apply Hg
      end
    | apply (proj2 (all_chars_app P _ _)); split
    | apply (proj2 (all_chars_cons P _ _)); split
    | apply (P_template P P_templates); vm_compute; tauto
    | apply lit_ok; reflexivity ].

Ltac keep_sub :=
  apply all_chars_re_sub; [assumption | intros ? ?; keep_chars].

Lemma normalize_headers_keeps (line : str) :
  all_chars P line -> all_chars P (normalize_headers line).
Proof.
  intros H. unfold normalize_headers.
  destruct (re_match header_re line) as [g|] eqn:Hm; [|exact H].
  pose proof (all_chars_re_match P header_re line g H Hm) as Hg. keep_chars.
Qed.

Lemma remove_checklists_keeps (line : str) :
  all_chars P line -> all_chars P (remove_checklists line).
Proof. intros H. unfold remove_checklists. keep_sub. Qed.

Lemma fix_bold_colon_in_lists_keeps (line : str) :
  all_chars P line -> all_chars P (fix_bold_colon_in_lists line).
Proof.
  intros H. unfold fix_bold_colon_in_lists.
  destruct (re_match bold_colon_inside_re line); [keep_sub|].
  destruct (re_match bold_colon_outside_re line); [keep_sub|exact H].
Qed.

Lemma fix_code_with_dash_in_lists_keeps (line : str) :
  all_chars P line -> all_chars P (fix_code_with_dash_in_lists line).
Proof.
  intros H. unfold fix_code_with_dash_in_lists.
  destruct (re_match pattern_dash line); [keep_sub|].
  destruct (re_match pattern_colon line); [keep_sub|].
  destruct (re_match pattern_hyphen line); [keep_sub|exact H].
Qed.

Lemma remove_bold_in_lists_keeps (line : str) :
  all_chars P line -> all_chars P (remove_bold_in_lists line).
Proof.
  intros H. unfold remove_bold_in_lists.
  destruct (is_list_item line); [keep_sub|exact H].
Qed.

Lemma remove_code_in_lists_keeps (line : str) :
  all_chars P line -> all_chars P (remove_code_in_lists line).
Proof.
  intros H. unfold remove_code_in_lists.
  destruct (is_list_item line); [keep_sub|exact H].
Qed.

Lemma fix_emoji_at_list_start_keeps (line : str) :
  all_chars P line -> all_chars P (fix_emoji_at_list_start line).
Proof.
  intros H. unfold fix_emoji_at_list_start.
  destruct (re_match emoji_pattern line) as [g|] eqn:Hm; [|exact H].
  pose proof (all_chars_re_match P emoji_pattern line g H Hm) as Hg. keep_chars.
Qed.

Lemma remove_html_tags_keeps (line : str) :
  all_chars P line -> all_chars P (remove_html_tags line).
Proof.
  intros H. unfold remove_html_tags.
  repeat (apply all_chars_re_sub; [|intros ? ?; keep_chars]). exact H.
Qed.

Lemma remove_blockquotes_keeps (line : str) :
  all_chars P line -> all_chars P (remove_blockquotes line).
Proof. intros H. unfold remove_blockquotes. keep_sub. Qed.

Lemma remove_bare_urls_keeps (line : str) :
  all_chars P line -> all_chars P (remove_bare_urls line).
Proof. intros H. unfold remove_bare_urls. keep_sub. Qed.

Lemma convert_markdown_links_keeps (line : str) :
  all_chars P line -> all_chars P (convert_markdown_links line).
Proof.
  intros H. unfold convert_markdown_links.
  apply all_chars_re_sub; [exact H|]. intros g Hg. unfold replace_link.
  destruct (_ || _); [apply Hg|].
  keep_chars. apply all_chars_re_sub; [apply Hg|]. intros ? ?. keep_chars.
Qed.

Lemma quote_operators_in_lists_keeps (line : str) :
  all_chars P line -> all_chars P (quote_operators_in_lists line).
Proof.
  intros H. unfold quote_operators_in_lists.
  destruct (startswith fence (strip line)); [exact H|].
  destruct (is_some (re_match quote_line_re line)); [exact H|].
  generalize operators. intros ops. revert line H.
  induction ops as [|op ops IH]; intros line H; simpl.
  - exact H.
  - apply IH. keep_sub.
Qed.

Lemma remove_inline_code_everywhere_keeps (line : str) :
  all_chars P line -> all_chars P (remove_inline_code_everywhere line).
Proof.
  intros H. unfold remove_inline_code_everywhere.
  destruct (startswith fence (strip line)); [exact H|keep_sub].
Qed.

Lemma wrap_technical_terms_in_italic_keeps (line : str) :
  all_chars P line -> all_chars P (wrap_technical_terms_in_italic line).
Proof.
  intros H. unfold wrap_technical_terms_in_italic.
  destruct (startswith fence (strip line)); [exact H|].
  destruct (_ || _); [exact H|].
  destruct (_ || _); [exact H|].
  destruct (is_list_item line); [exact H|].
  apply all_chars_re_sub.
  - keep_sub.
  - intros g Hg. unfold replace_tech_term.
    destruct (existsb _ _); keep_chars.
Qed.

Lemma wrap_technical_terms_in_italic_except_images_keeps (line : str) :
  all_chars P line -> all_chars P (wrap_technical_terms_in_italic_except_images line).
Proof.
  intros H. unfold wrap_technical_terms_in_italic_except_images.
  destruct (re_search image_re line).
  - apply all_chars_re_sub; [exact H|]. intros g Hg.
    keep_chars; apply wrap_technical_terms_in_italic_keeps; apply Hg.
  - apply wrap_technical_terms_in_italic_keeps. exact H.
Qed.

Lemma remove_italic_in_lists_keeps (line : str) :
  all_chars P line -> all_chars P (remove_italic_in_lists line).
Proof.
  intros H. unfold remove_italic_in_lists.
  destruct (is_some _); [keep_sub|exact H].
Qed.

Lemma late_rules_keep (line : str) :
  all_chars P line ->
  all_chars P
    (remove_italic_in_lists
       (wrap_technical_terms_in_italic_except_images
          (remove_inline_code_everywhere
             (quote_operators_in_lists
                (convert_markdown_links
                   (remove_bare_urls
                      (remove_blockquotes
                         (remove_html_tags
                            (fix_emoji_at_list_start line))))))))).
Proof.
  intros H.
  apply remove_italic_in_lists_keeps,
    wrap_technical_terms_in_italic_except_images_keeps,
    remove_inline_code_everywhere_keeps, quote_operators_in_lists_keeps,
    convert_markdown_links_keeps, remove_bare_urls_keeps, remove_blockquotes_keeps,
    remove_html_tags_keeps, fix_emoji_at_list_start_keeps.
  exact H.
Qed.

Lemma apply_rules_keeps (line : str) :
  all_chars P line -> all_chars P (apply_rules line).
Proof.
  intros H. unfold apply_rules.
  apply late_rules_keep, remove_code_in_lists_keeps, remove_bold_in_lists_keeps,
    fix_code_with_dash_in_lists_keeps, fix_bold_colon_in_lists_keeps,
    remove_checklists_keeps, normalize_headers_keeps.
  exact H.
Qed.

Lemma remove_show_answer_headers_same (line out : str) :
  remove_show_answer_headers line = Some out -> out = line.
Proof.
  unfold remove_show_answer_headers. destruct (strip line).
  - intros [= <-]. reflexivity.
  - destruct (is_some _); [discriminate|]. intros [= <-]. reflexivity.
Qed.

Lemma process_lines_cons (b : bool) (line : str) (rest : list str) :
  process_lines b (line :: rest) =
    if startswith fence (strip line) then line :: process_lines (negb b) rest
    else if b then line :: process_lines b rest
    else match remove_show_answer_headers line with
         | None => process_lines b rest
         | Some line => apply_rules line :: process_lines b rest
         end.
Proof. reflexivity. Qed.

Lemma process_lines_keep (lines : list str) :
  Forall (all_chars P) lines ->
  forall b, Forall (all_chars P) (process_lines b lines).
Proof.
  induction 1 as [|line rest Hline Hrest IH]; intros b.
  - constructor.
  - rewrite process_lines_cons. destruct (startswith fence (strip line)).
    + constructor; [exact Hline | apply IH].
    + destruct b.
      * constructor; [exact Hline | apply IH].
      * destruct (remove_show_answer_headers line) as [out|] eqn:Hout.
        -- apply remove_show_answer_headers_same in Hout. subst out.
           constructor; [apply apply_rules_keeps; exact Hline | apply IH].
        -- apply IH.
Qed.

Lemma unify_step_keeps (ctx : list_context) (line : str) :
  all_chars P line -> all_chars P (snd (unify_step ctx line)).
Proof.
  intros H. unfold unify_step.
  assert (Hs : all_chars P (lstrip line)).
  { apply (all_chars_incl P _ _ (incl_lstrip_with _ _) H). }
  destruct (negb _ && negb _); [exact H|].
  destruct (_ || _); [exact H|].
  destruct (parent_type ctx) as [[|]|]; simpl; [| |exact H].
  - keep_chars.
    + apply all_chars_repeat. apply (P_template P P_templates). vm_compute. tauto.
    + apply all_chars_uint. exact P_templates.
    + destruct (is_some _); keep_sub.
  - keep_chars.
    + apply all_chars_repeat. apply (P_template P P_templates). vm_compute. tauto.
    + destruct (is_some _); keep_sub.
Qed.

Lemma unify_from_keeps (lines : list str) :
  Forall (all_chars P) lines ->
  forall ctx, Forall (all_chars P) (unify_from ctx lines).
Proof.
  induction 1 as [|line rest Hline Hrest IH]; intros ctx; simpl.
  - constructor.
  - pose proof (unify_step_keeps ctx line Hline) as Hout.
    destruct (unify_step ctx line) as [ctx' out]. constructor; [exact Hout | apply IH].
Qed.

Lemma details_step_keeps (st : details_state) (line : str) :
  all_chars P line -> Forall (all_chars P) (snd (details_step st line)).
Proof.
  intros H. unfold details_step.
  destruct (contains _ _).
  - simpl. destruct (strip _); constructor; [keep_sub|constructor].
  - destruct (contains _ _); [constructor|].
    destruct (contains _ _); [constructor|].
    destruct (contains _ _); [constructor|].
    simpl. constructor; [exact H|constructor].
Qed.

Lemma details_from_keeps (lines : list str) :
  Forall (all_chars P) lines ->
  forall st, Forall (all_chars P) (details_from st lines).
Proof.
  induction 1 as [|line rest Hline Hrest IH]; intros st; simpl.
  - constructor.
  - pose proof (details_step_keeps st line Hline) as Hout.
    destruct (details_step st line) as [st' out]. apply Forall_app. split; [exact Hout | apply IH].
Qed.

Lemma simplify_lines_keep (lines : list str) :
  Forall (all_chars P) lines -> Forall (all_chars P) (simplify_lines lines).
Proof.
  intros H. unfold simplify_lines, unify_nested_list_types, process_details_blocks.
  apply process_lines_keep, unify_from_keeps, details_from_keeps. exact H.
Qed.

Lemma all_chars_concat (parts : list str) :
  Forall (all_chars P) parts -> all_chars P (concat parts).
Proof.
  induction 1 as [|p rest Hp Hrest IH]; simpl.
  - apply all_chars_nil.
  - apply all_chars_app. split; assumption.
Qed.

Lemma all_chars_join (sep : str) (parts : list str) :
  all_chars P sep -> Forall (all_chars P) parts -> all_chars P (join sep parts).
Proof.
  intros Hsep. induction 1 as [|p rest Hp Hrest IH]; simpl.
  - apply all_chars_nil.
  - destruct rest as [|q rest]; [exact Hp|].
    apply all_chars_app. split; [exact Hp|].
    apply all_chars_app. split; [exact Hsep | exact IH].
Qed.

Lemma adjust_relative_path_keeps (line : str) (levels_up : nat) :
  all_chars P line -> all_chars P (Split.adjust_relative_path line levels_up).
Proof.
  intros H. unfold Split.adjust_relative_path.
  destruct levels_up as [|n]; [exact H|].
  apply all_chars_re_sub; [exact H|]. intros g Hg. unfold Split.replace_link.
  assert (Hpath : all_chars P (strip (g 3))).
  { apply (all_chars_incl P _ _ (incl_strip _) (Hg 3)). }
  assert (Hparents : all_chars P (Split.parents (S n))).
  { unfold Split.parents. apply all_chars_concat. apply Forall_forall.
    intros x Hx. apply repeat_spec in Hx. subst x. apply lit_ok. reflexivity. }
  destruct (_ || _); [apply Hg|].
  destruct (startswith _ _); [apply Hg|].
  destruct (_ || _).
  - destruct (startswith _ _).
    + keep_chars. apply (all_chars_incl P _ _ (incl_skipn 2 _) Hpath).
    + destruct (startswith _ _); [apply Hg|]. keep_chars.
  - destruct (startswith _ _); [apply Hg|].
    destruct (startswith _ _); apply Hg.
Qed.

End RulesPreserve.

(** ** Line terminators *)



Lemma split_keepends_keeps (P : char -> bool) (s : str) :
  all_chars P s ->
  forall cur, all_chars P cur -> Forall (all_chars P) (split_keepends cur s).
Proof.
  induction s as [|c r IH]; intros Hs cur Hcur; simpl.
  - destruct cur; constructor; [|constructor].
    apply all_chars_rev. exact Hcur.
  - apply all_chars_cons in Hs. destruct Hs as [Hc Hr].
    assert (Hcc : all_chars P (c :: cur)) by (apply all_chars_cons; split; assumption).
    destruct (N.eqb c LF).
    + constructor.
      * apply (all_chars_rev P (c :: cur)). exact Hcc.
      * apply IH; [exact Hr | apply all_chars_nil].
    + apply IH; assumption.
Qed.


(** A line read from the file has its only newline at its end. *)
Lemma split_keepends_shape (s : str) :
  forall cur, all_chars (not_char LF) cur ->
    Forall (fun l => exists body, all_chars (not_char LF) body
                                  /\ (l = body ++ [LF] \/ l = body))
           (split_keepends cur s).
Proof.
  induction s as [|c r IH]; intros cur Hcur; simpl.
  - destruct cur as [|x cur']; constructor; [|constructor].
    exists (rev (x :: cur')). split; [apply all_chars_rev; exact Hcur | right; reflexivity].
  - destruct (N.eqb c LF) eqn:Hc.
    + constructor.
      * exists (rev cur). split; [apply all_chars_rev; exact Hcur|].
        left. simpl. apply N.eqb_eq in Hc. subst c. reflexivity.
      * apply IH. apply all_chars_nil.
    + apply IH. apply all_chars_cons. split; [|exact Hcur].
      unfold not_char. rewrite Hc. reflexivity.
Qed.

Lemma stripped_lines_no_LF (content : str) :
  Forall (all_chars (not_char LF))
         (map (rstrip_with (one_of [LF; CR])) (readlines content)).
Proof.
  apply Forall_map. unfold readlines.
  eapply Forall_impl; [|apply split_keepends_shape; apply all_chars_nil].
  intros l [body [Hbody [-> | ->]]].
  - rewrite rstrip_with_snoc by reflexivity.
    apply (all_chars_incl _ _ _ (incl_rstrip_with _ _) Hbody).
  - apply (all_chars_incl _ _ _ (incl_rstrip_with _ _) Hbody).
Qed.


(** The sections are made of lines of the file. *)
Lemma parse_step_keeps (P : char -> bool) (st : Split.parser_state) (line : str) :
  Forall (Forall (all_chars P)) (Split.sections st) ->
  Forall (all_chars P) (Split.current_section st) ->
  all_chars P line ->
  Forall (Forall (all_chars P)) (Split.sections (Split.parse_step st line))
  /\ Forall (all_chars P) (Split.current_section (Split.parse_step st line)).
Proof.
  intros Hs Hc Hl. unfold Split.parse_step.
  assert (Hsnoc : Forall (all_chars P) (Split.current_section st ++ [line])).
  { apply Forall_app. split; [exact Hc | constructor; [exact Hl | constructor]]. }
  destruct (Split.is_fence_line line); [split; assumption|].
  destruct (Split.in_code_block st); [split; assumption|].
  destruct (Split.is_section_heading line); [|split; assumption].
  simpl. split.
  - destruct (Split.has_content _); [|exact Hs].
    apply Forall_app. split; [exact Hs | constructor; [exact Hc | constructor]].
  - constructor; [exact Hl | constructor].
Qed.

Lemma parse_lines_keeps (P : char -> bool) (lines : list str) :
  Forall (all_chars P) lines ->
  Forall (Forall (all_chars P)) (Split.parse_lines lines).
Proof.
  intros Hlines. unfold Split.parse_lines.
  assert (Hfold : forall st,
             Forall (Forall (all_chars P)) (Split.sections st) ->
             Forall (all_chars P) (Split.current_section st) ->
             Forall (Forall (all_chars P))
                    (Split.sections (fold_left Split.parse_step lines st))
             /\ Forall (all_chars P)
                       (Split.current_section (fold_left Split.parse_step lines st))).
  { induction Hlines as [|line rest Hline Hrest IH]; intros st Hs Hc; simpl.
    - split; assumption.
    - destruct (parse_step_keeps P st line Hs Hc Hline) as [Hs' Hc'].
      apply IH; assumption. }
  destruct (Hfold (Split.ParserState [] [] false)) as [Hs Hc]; [constructor | constructor |].
  destruct (Split.has_content _); [|exact Hs].
  apply Forall_app. split; [exact Hs | constructor; [exact Hc | constructor]].
Qed.

Lemma save_from_keeps (P : char -> bool) (file_prefix : str) (levels_up : nat) :
  all_chars P template_chars ->
  forall sections idx,
    Forall (Forall (all_chars P)) sections ->
    Forall (fun f => all_chars P (snd f))
           (Split.save_from idx sections file_prefix levels_up).
Proof.
  intros HP sections. induction sections as [|section rest IH]; intros idx Hs; simpl.
  - constructor.
  - inversion Hs as [|? ? Hsec Hrest]; subst. constructor.
    + simpl. apply all_chars_concat. apply Forall_map.
      eapply Forall_impl; [|exact Hsec].
      intros l Hl. apply adjust_relative_path_keeps; assumption.
    + apply IH. exact Hrest.
Qed.



(** ** The end of the rewritten file *)

Lemma ends_with_newline_no_LF (s : str) :
  all_chars (not_char LF) s -> ~ ends_with_newline s.
Proof.
  intros H [s' ->]. apply (all_chars_not_In LF _ H).
  apply in_or_app. right. left. reflexivity.
Qed.

Lemma join_ends_with_newline (parts : list str) :
  Forall (all_chars (not_char LF)) parts ->
  (ends_with_newline (join [LF] parts) <-> 2 <= length parts /\ last parts [] = []).
Proof.
  intros Hparts.
  destruct (snoc_cases parts) as [-> | [ps [p ->]]].
  - simpl. split.
    + intros [s' Hs']. destruct s'; discriminate.
    + intros [Hlen _]. lia.
  - apply Forall_app in Hparts. destruct Hparts as [Hps Hp].
    inversion Hp as [|? ? Hp' _]; subst.
    rewrite last_last, length_app. simpl.
    destruct ps as [|q ps'].
    + simpl. split.
      * intros Hend. exfalso. exact (ends_with_newline_no_LF p Hp' Hend).
      * intros [Hlen _]. lia.
    + rewrite join_snoc by discriminate. split.
      * intros [s' Hs']. split; [simpl; lia|].
        destruct (snoc_cases p) as [-> | [p' [x ->]]]; [reflexivity|].
        exfalso. rewrite !app_assoc in Hs'. apply app_inj_tail in Hs'.
        destruct Hs' as [_ ->]. apply (all_chars_not_In LF _ Hp').
        apply in_or_app. right. left. reflexivity.
      * intros [_ ->]. exists (join [LF] (q :: ps')). rewrite app_nil_r. reflexivity.
Qed.

(** C10 (as stated): the output of the rewrite pipeline can end with a newline
    character; it does for an input that ends with a blank line. *)
Lemma output_can_end_with_newline :
  ends_with_newline (simplify_markdown_file (lit "a" ++ [LF; LF])).
Proof. exists (lit "a"). vm_compute. reflexivity. Qed.

(** C10 (amended): the lines are read without their terminators, none of the
    processed lines holds a newline, and the output is these lines with one
    newline between two of them and nothing after the last: it ends with a
    newline exactly when at least two lines are written and the last one is
    empty. *)
Theorem output_is_lines_joined_by_newline :
  forall content : str,
    simplify_markdown_file content = join [LF] (processed_lines content)
    /\ Forall (fun l => ~ In LF l) (processed_lines content)
    /\ (ends_with_newline (simplify_markdown_file content)
        <-> 2 <= length (processed_lines content)
            /\ last (processed_lines content) [] = []).
Proof.
  intros content.
  assert (Hlines : Forall (all_chars (not_char LF)) (processed_lines content)).
  { unfold processed_lines. apply simplify_lines_keep; [reflexivity|].
    apply stripped_lines_no_LF. }
  split; [reflexivity|]. split.
  - eapply Forall_impl; [|exact Hlines]. intros l. apply all_chars_not_In.
  - apply join_ends_with_newline. exact Hlines.
Qed.

(** ** The reveal-label rule and the other rules *)

Lemma process_lines_outside_fence (line : str) (rest : list str) :
  startswith fence (strip line) = false ->
  process_lines false (line :: rest) =
    match remove_show_answer_headers line with
    | Some _ => apply_rules line :: process_lines false rest
    | None => process_lines false rest
    end.
Proof.
  intros Hfence. rewrite process_lines_cons, Hfence.
  destruct (remove_show_answer_headers line) as [out|] eqn:Hout; [|reflexivity].
  apply remove_show_answer_headers_same in Hout. subst out. reflexivity.
Qed.

(** ** Fenced lines *)

(** Inside a fence the loop copies the lines up to the next fence line. *)
Lemma loop_copies_fenced_lines (body rest : list str) :
  Forall (fun l => startswith fence (strip l) = false) body ->
  process_lines true (body ++ rest) = body ++ process_lines true rest.
Proof.
  induction 1 as [|line body Hline Hbody IH]; [reflexivity|].
  cbn [app]. rewrite process_lines_cons, Hline, IH. reflexivity.
Qed.

(** X19: from outside a fence, the loop copies a fenced block and its two fence
    lines: no rule is applied to them. *)
Lemma loop_copies_fenced_block (opening closing : str) (body rest : list str) :
  startswith fence (strip opening) = true ->
  Forall (fun l => startswith fence (strip l) = false) body ->
  startswith fence (strip closing) = true ->
  process_lines false (opening :: body ++ closing :: rest)
  = opening :: body ++ closing :: process_lines false rest.
Proof.
  intros Ho Hbody Hc. rewrite process_lines_cons, Ho. cbn [negb].
  rewrite (loop_copies_fenced_lines body (closing :: rest) Hbody).
  rewrite process_lines_cons, Hc. reflexivity.
Qed.

(** C1: a line between two paired fence lines is removed by the expansion of
    collapsible blocks, and a nested list item between two paired fence lines
    is renumbered by the unification of nested lists; neither pass looks at
    fences. *)
Theorem fenced_lines_changed_by_document_passes :
  simplify_lines [fence; lit "<details>"; fence] = [fence; fence]
  /\ simplify_lines [fence; lit "1. a"; lit "  - b"; fence]
     = [fence; lit "1. a"; lit "  1. b"; fence].
Proof. split; vm_compute; reflexivity. Qed.

(** ** Markers in list items *)

Section Spans.

(** A pattern [r] that matches a span [d c d] whole, with [c] as its group 1,
    and matches nowhere else in a text with paired markers. *)
Variables (r : re) (d : str) (x : char).

Hypothesis no_match_at : forall s i bef c rest,
  none_of [x] c = true -> m s r (MState i bef (c :: rest) []) Some = None.

Hypothesis no_match_at_end : forall s i bef,
  m s r (MState i bef [] []) Some = None.

Hypothesis match_span : forall s i bef c rest,
  all_chars (none_of [x]) c -> c <> [] ->
  exists st,
    m s r (MState i bef (d ++ c ++ d ++ rest) []) Some = Some st
    /\ pos st = i + length d + length c + length d
    /\ caps st = [(1, (i + length d, i + length d + length c))].

Hypothesis marker_made_of_x : without x d = [].
Hypothesis marker_not_empty : d <> [].

Lemma sub_from_end (repl : (nat -> str) -> str) (s : str) (fuel : nat) :
  sub_from r repl s fuel (length s) = [].
Proof.
  destruct fuel as [|fuel]; simpl.
  - apply skipn_all.
  - unfold match_at. rewrite <- (app_nil_r s) at 1 2.
    rewrite state_at_app, no_match_at_end.
    rewrite (proj2 (nth_error_None s (length s))) by lia. reflexivity.
Qed.

Lemma sub_paired (suf : str) :
  paired d x suf ->
  forall (pre : str) (fuel : nat),
    length suf <= fuel ->
    sub_from r (fun g => g 1) (pre ++ suf) fuel (length pre) = without x suf.
Proof.
  induction 1 as [t Ht | t c rest Ht Hc Hne Hrest IH]; intros pre fuel Hfuel.
  - replace fuel with (length t + (fuel - length t)) by lia.
    rewrite <- (app_nil_r t) at 1.
    rewrite (sub_from_copy r (fun g => g 1) (none_of [x]) no_match_at t Ht).
    rewrite app_nil_r, sub_from_end, app_nil_r.
    symmetry. apply without_clean. exact Ht.
  - rewrite !length_app in Hfuel.
    assert (Hd : 0 < length d) by (destruct d; [contradiction | simpl; lia]).
    replace fuel with (length t + S (fuel - length t - 1)) by lia.
    rewrite (sub_from_copy r (fun g => g 1) (none_of [x]) no_match_at t Ht).
    cbn [sub_from]. unfold match_at.
    rewrite app_assoc, state_at_app.
    destruct (match_span ((pre ++ t) ++ d ++ c ++ d ++ rest) (length (pre ++ t))
                (rev (pre ++ t)) c rest Hc Hne) as [st [Hm [Hpos Hcaps]]].
    rewrite Hm.
    assert (Hlt : (length (pre ++ t) <? pos st) = true)
      by (apply Nat.ltb_lt; lia).
    rewrite Hlt. unfold group. rewrite Hcaps. cbn [lookup Nat.eqb].
    replace ((pre ++ t) ++ d ++ c ++ d ++ rest)
      with (((pre ++ t) ++ d) ++ c ++ (d ++ rest))
      by (rewrite <- !app_assoc; reflexivity).
    replace (length (pre ++ t) + length d) with (length ((pre ++ t) ++ d))
      by (rewrite (length_app (pre ++ t)); reflexivity).
    rewrite slice_middle.
    replace (((pre ++ t) ++ d) ++ c ++ d ++ rest)
      with ((((pre ++ t) ++ d) ++ c ++ d) ++ rest)
      by (rewrite <- !app_assoc; reflexivity).
    replace (pos st) with (length (((pre ++ t) ++ d) ++ c ++ d))
      by (rewrite Hpos, !length_app; lia).
    rewrite IH by lia.
    rewrite without_app, (without_clean _ _ Ht).
    rewrite without_app, marker_made_of_x.
    rewrite without_app, (without_clean _ _ Hc).
    rewrite without_app, marker_made_of_x. reflexivity.
Qed.

End Spans.

(** The pattern of inline code. *)
Lemma code_re_no_match (s : str) (i : nat) (bef : str) (c : char) (rest : str) :
  none_of [backtick] c = true ->
  m s code_re (MState i bef (c :: rest) []) Some = None.
Proof.
  intros Hc. unfold code_re, Chr. cbn [Cat]. mstep.
  rewrite (none_of_single _ _ Hc). reflexivity.
Qed.

Lemma code_re_no_match_end (s : str) (i : nat) (bef : str) :
  m s code_re (MState i bef [] []) Some = None.
Proof. reflexivity. Qed.

Lemma code_re_match (s : str) (i : nat) (bef c rest : str) :
  all_chars (none_of [backtick]) c -> c <> [] ->
  exists st,
    m s code_re (MState i bef ([backtick] ++ c ++ [backtick] ++ rest) []) Some = Some st
    /\ pos st = i + length [backtick] + length c + length [backtick]
    /\ caps st = [(1, (i + length [backtick], i + length [backtick] + length c))].
Proof.
  intros Hc Hne. destruct c as [|c1 ct]; [contradiction|].
  apply all_chars_cons in Hc. destruct Hc as [Hc1 Hct].
  eexists. split; [|split].
  - unfold code_re, Chr, Plus. cbn [Cat app]. mstep.
    rewrite Hc1.
    rewrite m_star_cls; [|exact Hct|reflexivity].
    apply greedy_all. mstep. reflexivity.
  - cbn [pos length]. lia.
  - cbn [caps length]. f_equal. f_equal. f_equal; lia.
Qed.

(** The pattern of bold text. *)
Lemma bold_re_no_match (s : str) (i : nat) (bef : str) (c : char) (rest : str) :
  none_of [star] c = true ->
  m s bold_re (MState i bef (c :: rest) []) Some = None.
Proof.
  intros Hc. unfold bold_re, Chr. change (lit "**") with [star; star].
  cbn [Cat Lit]. unfold Chr. mstep.
  rewrite (none_of_single _ _ Hc). reflexivity.
Qed.

Lemma bold_re_no_match_end (s : str) (i : nat) (bef : str) :
  m s bold_re (MState i bef [] []) Some = None.
Proof. reflexivity. Qed.

Lemma bold_re_match (s : str) (i : nat) (bef c rest : str) :
  all_chars (none_of [star]) c -> c <> [] ->
  exists st,
    m s bold_re (MState i bef ([star; star] ++ c ++ [star; star] ++ rest) []) Some = Some st
    /\ pos st = i + length [star; star] + length c + length [star; star]
    /\ caps st = [(1, (i + length [star; star], i + length [star; star] + length c))].
Proof.
  intros Hc Hne. destruct c as [|c1 ct]; [contradiction|].
  apply all_chars_cons in Hc. destruct Hc as [Hc1 Hct].
  eexists. split; [|split].
  - unfold bold_re, Plus. change (lit "**") with [star; star].
    cbn [Cat Lit app]. unfold Chr. mstep.
    rewrite Hc1.
    rewrite m_star_cls; [|exact Hct|reflexivity].
    apply greedy_all. mstep. reflexivity.
  - cbn [pos length]. lia.
  - cbn [caps length]. f_equal. f_equal. f_equal; lia.
Qed.

Lemma apply_rules_late_rules (line : str) :
  apply_rules line =
    late_rules
      (remove_code_in_lists
         (remove_bold_in_lists
            (fix_code_with_dash_in_lists
               (fix_bold_colon_in_lists
                  (remove_checklists (normalize_headers line)))))).
Proof. unfold apply_rules, late_rules. cbv zeta. reflexivity. Qed.

(** C3 (as stated): a list item with one backtick comes out of the pipeline as
    a list item that still holds the backtick. *)
Lemma unpaired_backtick_stays_in_list_item :
  process_lines false [lit "- a ` b"] = [lit "- a ` b"]
  /\ is_list_item (lit "- a ` b") = true
  /\ In backtick (lit "- a ` b").
Proof.
  split; [vm_compute; reflexivity|]. split; [vm_compute; reflexivity|].
  vm_compute. tauto.
Qed.

(** C3 (amended): in a list item whose inline-code markers are in well-formed
    pairs, the rule that removes code markers deletes every backtick, and no
    later rule adds one; in a list item whose bold markers are in well-formed
    pairs, the rule that removes bold markers deletes every asterisk of
    them. *)
Theorem paired_markers_removed_in_list_items :
  forall line : str,
    is_list_item line = true ->
    (code_paired line ->
       remove_code_in_lists line = without backtick line
       /\ ~ In backtick (late_rules (remove_code_in_lists line)))
    /\ (bold_paired line ->
          remove_bold_in_lists line = without star line
          /\ ~ In star (remove_bold_in_lists line)).
Proof.
  intros line Hitem. split.
  - intros Hpaired.
    assert (Heq : remove_code_in_lists line = without backtick line).
    { unfold remove_code_in_lists. rewrite Hitem. unfold re_sub.
      apply (sub_paired code_re [backtick] backtick code_re_no_match
               code_re_no_match_end code_re_match eq_refl ltac:(discriminate)
               line Hpaired [] (S (length line))).
      lia. }
    split; [exact Heq|].
    apply none_of_not_In. unfold late_rules.
    apply late_rules_keep; [reflexivity|].
    rewrite Heq. apply all_chars_without.
  - intros Hpaired.
    assert (Heq : remove_bold_in_lists line = without star line).
    { unfold remove_bold_in_lists. rewrite Hitem. unfold re_sub.
      apply (sub_paired bold_re [star; star] star bold_re_no_match
               bold_re_no_match_end bold_re_match eq_refl ltac:(discriminate)
               line Hpaired [] (S (length line))).
      lia. }
    split; [exact Heq|]. rewrite Heq. apply without_not_In.
Qed.

Lemma paired_markers_removed_in_list_items_witness :
  remove_code_in_lists (lit "- `a` b") = without backtick (lit "- `a` b")
  /\ remove_bold_in_lists (lit "- **a** b") = without star (lit "- **a** b").
Proof.
  split.
  - apply (proj1 (paired_markers_removed_in_list_items (lit "- `a` b") eq_refl)).
    apply (paired_span [backtick] backtick (lit "- ") (lit "a") (lit " b"));
      [reflexivity | reflexivity | discriminate |].
    apply paired_plain. reflexivity.
  - apply (proj2 (paired_markers_removed_in_list_items (lit "- **a** b") eq_refl)).
    apply (paired_span [star; star] star (lit "- ") (lit "a") (lit " b"));
      [reflexivity | reflexivity | discriminate |].
    apply paired_plain. reflexivity.
Defined.

(** ** Nested list items *)

Lemma numbered_re_match (s ds ws text : str) :
  ds <> [] -> all_chars is_digit ds ->
  ws <> [] -> all_chars is_space ws -> stops is_space text ->
  exists st,
    m s numbered_re (MState 0 [] (ds ++ [ch "."] ++ ws ++ text) []) Some = Some st
    /\ pos st = length (ds ++ [ch "."] ++ ws).
Proof.
  intros Hds Hd Hws Hw Htext.
  destruct ds as [|d1 dt]; [contradiction|]. destruct ws as [|w1 wt]; [contradiction|].
  apply all_chars_cons in Hd. destruct Hd as [Hd1 Hdt].
  apply all_chars_cons in Hw. destruct Hw as [Hw1 Hwt].
  eexists. split.
  - unfold numbered_re, digits, ws_plus, Plus, Chr. cbn [Cat app]. mstep.
    rewrite m_Bol. cbn [pos Nat.eqb]. mstep. rewrite Hd1.
    rewrite m_star_cls; [|exact Hdt|reflexivity].
    apply greedy_all. mstep. rewrite Hw1.
    rewrite m_star_cls; [|exact Hwt|exact Htext].
    apply greedy_all. reflexivity.
  - cbn [pos length app]. rewrite ?length_app. cbn [length]. rewrite ?length_app. cbn [length]. lia.
Qed.

Lemma bullet_re_match (s ws text : str) :
  ws <> [] -> all_chars is_space ws -> stops is_space text ->
  exists st,
    m s bullet_re (MState 0 [] ([ch "-"] ++ ws ++ text) []) Some = Some st
    /\ pos st = length ([ch "-"] ++ ws).
Proof.
  intros Hws Hw Htext.
  destruct ws as [|w1 wt]; [contradiction|].
  apply all_chars_cons in Hw. destruct Hw as [Hw1 Hwt].
  eexists. split.
  - unfold bullet_re, ws_plus, Plus, Chr. cbn [Cat app]. mstep.
    rewrite m_Bol. cbn [pos Nat.eqb]. mstep. rewrite Hw1.
    rewrite m_star_cls; [|exact Hwt|exact Htext].
    apply greedy_all. reflexivity.
  - cbn [pos]. cbn [length app]. lia.
Qed.

Lemma numbered_re_no_dash (s rest : str) :
  re_match numbered_re (ch "-" :: rest) = None.
Proof. reflexivity. Qed.

Lemma item_marker_stops (mk : str) (kind : list_type) (rest : str) :
  item_marker mk kind -> stops is_space (mk ++ rest).
Proof.
  intros [|ds Hne Hds].
  - reflexivity.
  - destruct ds as [|d ds]; [contradiction|]. simpl.
    apply all_chars_cons in Hds. apply digit_not_space. apply Hds.
Qed.

(** The text of a list item after its marker, as [unify_nested_list_types]
    computes it. *)
Lemma item_text (mk : str) (kind : list_type) (ws text : str) :
  item_marker mk kind ->
  ws <> [] -> all_chars is_space ws -> stops is_space text ->
  is_some (re_match numbered_re (mk ++ ws ++ text))
    = match kind with numbered => true | bullet => false end
  /\ is_some (re_match bullet_re (mk ++ ws ++ text))
    = match kind with numbered => false | bullet => true end
  /\ (if is_some (re_match numbered_re (mk ++ ws ++ text))
      then re_sub numbered_re (fun _ => []) (mk ++ ws ++ text)
      else re_sub bullet_re (fun _ => []) (mk ++ ws ++ text)) = text.
Proof.
  intros Hmk Hws Hw Htext. destruct Hmk as [|ds Hne Hds].
  - destruct (bullet_re_match ([ch "-"] ++ ws ++ text) ws text Hws Hw Htext)
      as [st [Hm Hpos]].
    split; [reflexivity|]. split; [apply (re_match_from_state _ _ _ Hm)|].
    change (is_some (re_match numbered_re ([ch "-"] ++ ws ++ text))) with false.
    cbv iota. change bullet_re with (Seq Bol (Cat [Chr (ch "-"); ws_plus])).
    rewrite (re_sub_anchored_prefix (Cat [Chr (ch "-"); ws_plus]) _ st Hm)
      by (rewrite Hpos; simpl; lia).
    rewrite Hpos, app_assoc, skipn_app, Nat.sub_diag, skipn_all. reflexivity.
  - destruct (numbered_re_match ((ds ++ [ch "."]) ++ ws ++ text) ds ws text
                Hne Hds Hws Hw Htext) as [st [Hm Hpos]].
    rewrite <- app_assoc in Hm.
    assert (Hnum : is_some (re_match numbered_re ((ds ++ [ch "."]) ++ ws ++ text)) = true).
    { apply (re_match_from_state _ _ st). rewrite <- app_assoc. exact Hm. }
    split; [exact Hnum|]. split.
    + destruct ds as [|d ds']; [contradiction|].
      apply all_chars_cons in Hds. destruct Hds as [Hd _].
      unfold re_match, match_at.
      change (state_at (((d :: ds') ++ [ch "."]) ++ ws ++ text) 0)
        with (MState 0 [] (d :: (ds' ++ [ch "."]) ++ ws ++ text) []).
      unfold bullet_re, Chr. cbn [Cat]. mstep. rewrite m_Bol. cbn [pos Nat.eqb]. mstep.
      destruct (N.eqb (ch "-") d) eqn:Heq; [|reflexivity].
      apply N.eqb_eq in Heq. subst d. discriminate Hd.
    + rewrite Hnum. change numbered_re with (Seq Bol (Cat [digits; Chr (ch "."); ws_plus])).
      rewrite (re_sub_anchored_prefix (Cat [digits; Chr (ch "."); ws_plus]) _ st).
      * rewrite Hpos, <- app_assoc.
        replace (ds ++ [ch "."] ++ ws ++ text) with ((ds ++ [ch "."] ++ ws) ++ text)
          by (rewrite <- !app_assoc; reflexivity).
        rewrite skipn_app, Nat.sub_diag, skipn_all. reflexivity.
      * rewrite <- app_assoc. exact Hm.
      * rewrite Hpos, !length_app. simpl. lia.
Qed.

(** One iteration of the loop on a list item, which is an indentation, a
    marker, blanks and a text.  When it is indented deeper than the current
    parent, it is written again as its indentation in spaces, the marker of
    the parent's kind and its text; with no parent it is left as it is.  When
    it is not deeper, it becomes the parent and the ordinal starts again at
    1. *)
Lemma unify_step_item :
  forall (ctx : list_context) (ind mk : str) (kind : list_type) (ws text : str),
    all_chars is_space ind ->
    item_marker mk kind ->
    ws <> [] -> all_chars is_space ws -> stops is_space text ->
    (parent_indent ctx < length ind ->
       unify_step ctx (ind ++ mk ++ ws ++ text) =
         match parent_type ctx with
         | Some numbered =>
             (ListContext (Some numbered) (parent_indent ctx) (S (nested_counter ctx)),
              repeat (ch " ") (length ind) ++ str_of_nat (nested_counter ctx)
                ++ lit ". " ++ text)
         | Some bullet =>
             (ctx, repeat (ch " ") (length ind) ++ lit "- " ++ text)
         | None => (ctx, ind ++ mk ++ ws ++ text)
         end)
    /\ (length ind <= parent_indent ctx ->
          unify_step ctx (ind ++ mk ++ ws ++ text) =
            (ListContext (Some kind) (length ind) 1, ind ++ mk ++ ws ++ text)).
Proof.
  intros ctx ind mk kind ws text Hind Hmk Hws Hw Htext.
  assert (Hstrip : lstrip (ind ++ mk ++ ws ++ text) = mk ++ ws ++ text).
  { apply lstrip_with_app; [exact Hind|]. apply (item_marker_stops _ kind). exact Hmk. }
  assert (Hlen : length (ind ++ mk ++ ws ++ text) - length (mk ++ ws ++ text) = length ind).
  { rewrite (length_app ind). lia. }
  destruct (item_text mk kind ws text Hmk Hws Hw Htext) as [Hnum [Hbul Htxt]].
  assert (Hitem : negb (is_some (re_match numbered_re (mk ++ ws ++ text)))
                  && negb (is_some (re_match bullet_re (mk ++ ws ++ text))) = false).
  { rewrite Hnum, Hbul. destruct kind; reflexivity. }
  split.
  - intros Hdeep. unfold unify_step. cbv zeta.
    rewrite Hstrip, Hlen, Hitem.
    assert (Hz : Nat.eqb (length ind) 0 = false) by (apply Nat.eqb_neq; lia).
    assert (Hle : (length ind <=? parent_indent ctx) = false) by (apply Nat.leb_gt; lia).
    rewrite Hz, Hle. cbn [orb].
    destruct (parent_type ctx) as [[|]|]; [| |reflexivity].
    + rewrite Htxt. reflexivity.
    + rewrite Htxt. destruct ctx; reflexivity.
  - intros Hshallow. unfold unify_step. cbv zeta.
    rewrite Hstrip, Hlen, Hitem.
    assert (Hle : (length ind <=? parent_indent ctx) = true) by (apply Nat.leb_le; lia).
    rewrite Hle, orb_true_r, Hnum. destruct kind; reflexivity.
Qed.

(** ** References and their paths *)

(** C5 (as stated): a reference written with the image marker is adjusted
    although its target has no image extension. *)
Lemma image_marker_adjusted_without_image_extension :
  Split.is_image_path (lit "notes.md") = false
  /\ Split.adjust_relative_path (lit "![d](notes.md)") 1 = lit "![d](../notes.md)".
Proof. split; vm_compute; reflexivity. Qed.

(** What [replace_link] returns for a match whose path is relative. *)
Lemma replace_link_cases (n : nat) (g : nat -> str) :
  startswith (lit "http://") (strip (g 3)) = false ->
  startswith (lit "https://") (strip (g 3)) = false ->
  startswith (lit "/") (strip (g 3)) = false ->
  (g 1 = lit "!" \/ Split.is_image_path (strip (g 3)) = true ->
     (startswith (lit "./") (strip (g 3)) = true ->
        Split.replace_link n g =
          reference (g 1) (g 2) (Split.parents n ++ skipn 2 (strip (g 3))))
     /\ (startswith (lit "../") (strip (g 3)) = true -> Split.replace_link n g = g 0)
     /\ (startswith (lit "./") (strip (g 3)) = false ->
         startswith (lit "../") (strip (g 3)) = false ->
         Split.replace_link n g = reference (g 1) (g 2) (Split.parents n ++ strip (g 3))))
  /\ (g 1 <> lit "!" -> Split.is_image_path (strip (g 3)) = false ->
      Split.replace_link n g = g 0).
Proof.
  intros Hhttp Hhttps Habs. unfold Split.replace_link. cbv zeta.
  rewrite Hhttp, Hhttps, Habs. cbn [orb]. split.
  - intros Himg.
    assert (Hor : str_eqb (g 1) (lit "!") || Split.is_image_path (strip (g 3)) = true).
    { destruct Himg as [Hbang | Hext].
      - apply (proj2 (str_eqb_eq _ _)) in Hbang. rewrite Hbang. reflexivity.
      - rewrite Hext. apply orb_true_r. }
    rewrite Hor. split; [|split].
    + intros Hcur. rewrite Hcur. reflexivity.
    + intros Hpar. rewrite (startswith_parent_not_current _ Hpar), Hpar. reflexivity.
    + intros Hcur Hpar. rewrite Hcur, Hpar. reflexivity.
  - intros Hbang Hext.
    assert (Hor : str_eqb (g 1) (lit "!") || Split.is_image_path (strip (g 3)) = false).
    { rewrite Hext, orb_false_r. destruct (str_eqb (g 1) (lit "!")) eqn:Heq; [|reflexivity].
      apply str_eqb_eq in Heq. contradiction. }
    rewrite Hor.
    destruct (startswith (lit "../") _); [reflexivity|].
    destruct (startswith (lit "./") _); reflexivity.
Qed.

Lemma replace_link_ext (n : nat) (g g' : nat -> str) :
  g 0 = g' 0 -> g 1 = g' 1 -> g 2 = g' 2 -> g 3 = g' 3 ->
  Split.replace_link n g = Split.replace_link n g'.
Proof.
  intros H0 H1 H2 H3. unfold Split.replace_link. rewrite H0, H1, H2, H3. reflexivity.
Qed.

Lemma link_pattern_no_match (s : str) (i : nat) (bef : str) (c : char) (rest : str) :
  none_of (lit "[!") c = true ->
  m s Split.markdown_link_pattern (MState i bef (c :: rest) []) Some = None.
Proof.
  intros Hc. unfold none_of, one_of in Hc.
  change (lit "[!") with [ch "["; ch "!"] in Hc. cbn [existsb] in Hc.
  rewrite orb_false_r in Hc. apply negb_true_iff in Hc.
  apply orb_false_iff in Hc. destruct Hc as [Hb He].
  rewrite N.eqb_sym in Hb. rewrite N.eqb_sym in He.
  unfold Split.markdown_link_pattern, Opt, Chr. cbn [Cat]. mstep.
  rewrite m_Alt. mstep. rewrite He. mstep. rewrite ?Hb. reflexivity.
Qed.

(** Where no opening bracket follows, the pattern matches nowhere. *)
Lemma link_pattern_no_bracket (s : str) (i : nat) (bef t : str) :
  all_chars (none_of [ch "["]) t ->
  m s Split.markdown_link_pattern (MState i bef t []) Some = None.
Proof.
  intros Ht. unfold Split.markdown_link_pattern, Opt, Chr. cbn [Cat]. mstep.
  rewrite m_Alt. destruct t as [|c t]; [reflexivity|].
  apply all_chars_cons in Ht. destruct Ht as [Hc Ht].
  apply none_of_single in Hc. mstep. rewrite Hc.
  destruct (N.eqb (ch "!") c); [|reflexivity].
  destruct t as [|c' t]; [reflexivity|].
  apply all_chars_cons in Ht. destruct Ht as [Hc' _].
  apply none_of_single in Hc'. mstep. rewrite Hc'. reflexivity.
Qed.

Lemma link_pattern_match (s : str) (i : nat) (bef bang text path rest : str) :
  bang = [] \/ bang = lit "!" ->
  all_chars (none_of [ch "]"]) text ->
  path <> [] -> all_chars (none_of [ch ")"]) path ->
  exists st,
    m s Split.markdown_link_pattern
      (MState i bef (reference bang text path ++ rest) []) Some = Some st
    /\ pos st = i + length (reference bang text path)
    /\ caps st =
         [(3, (i + length bang + 1 + length text + 2,
               i + length bang + 1 + length text + 2 + length path));
          (2, (i + length bang + 1, i + length bang + 1 + length text));
          (1, (i, i + length bang))].
Proof.
  intros Hbang Htext Hne Hpath.
  destruct path as [|p1 pt]; [contradiction|].
  apply all_chars_cons in Hpath. destruct Hpath as [Hp1 Hpt].
  unfold reference. change (lit "[") with [ch "["]. change (lit "](") with [ch "]"; ch "("].
  change (lit ")") with [ch ")"].
  destruct Hbang as [-> | ->]; [|change (lit "!") with [ch "!"]];
    eexists; (split; [|split]).
  - unfold Split.markdown_link_pattern, Opt, Plus, Chr. cbn [Cat app]. mstep.
    rewrite m_Alt. mstep. change (N.eqb (ch "!") (ch "[")) with false. cbv iota. mstep.
    rewrite <- app_assoc.
    rewrite m_star_cls; [|exact Htext|reflexivity].
    apply greedy_all. cbn [app]. mstep. rewrite Hp1.
    rewrite <- app_assoc.
    rewrite m_star_cls; [|exact Hpt|reflexivity].
    apply greedy_all. cbn [app]. mstep. reflexivity.
  - cbn [pos length app]. rewrite !length_app. cbn [length]. rewrite !length_app. cbn [length]. lia.
  - cbn [caps length]. repeat (f_equal; try lia).
  - unfold Split.markdown_link_pattern, Opt, Plus, Chr. cbn [Cat app]. mstep.
    rewrite m_Alt. mstep.
    rewrite <- app_assoc.
    rewrite m_star_cls; [|exact Htext|reflexivity].
    apply first_choice. apply greedy_all.
    cbn [app]. mstep. rewrite Hp1.
    rewrite <- app_assoc.
    rewrite m_star_cls; [|exact Hpt|reflexivity].
    apply greedy_all. cbn [app]. mstep. reflexivity.
  - cbn [pos length app]. rewrite !length_app. cbn [length]. rewrite !length_app. cbn [length]. lia.
  - cbn [caps length]. repeat (f_equal; try lia).
Qed.

Lemma replace_link_reference (n : nat) (bang text path : str) :
  Split.replace_link n (reference_groups bang text path)
  = adjusted_reference n bang text path.
Proof.
  unfold Split.replace_link, adjusted_reference. cbv zeta. cbn [reference_groups].
  destruct (startswith (lit "http://") _); [reflexivity|].
  destruct (startswith (lit "https://") _); [reflexivity|].
  destruct (startswith (lit "/") _); [reflexivity|]. cbn [orb].
  destruct (_ || _).
  - destruct (startswith (lit "./") _); [reflexivity|].
    destruct (startswith (lit "../") _); reflexivity.
  - destruct (startswith (lit "../") _); [reflexivity|].
    destruct (startswith (lit "./") _); reflexivity.
Qed.

(** The substitution of [adjust_relative_path] finds the references of a
    line one after the other and replaces each by its adjustment. *)
Lemma sub_adjusts (n : nat) (line out : str) :
  adjusts n line out ->
  forall (pre0 : str) (fuel : nat),
    length line <= fuel ->
    sub_from Split.markdown_link_pattern (Split.replace_link n) (pre0 ++ line) fuel
             (length pre0) = out.
Proof.
  induction 1 as [t Ht | pre bang text path rest rest' Hpre Hbang Htext Hne Hpath Hrest IH];
    intros pre0 fuel Hfuel.
  - apply (sub_from_copy_tail Split.markdown_link_pattern (Split.replace_link n)
             (none_of [ch "["]) link_pattern_no_bracket).
    exact Ht.
  - assert (Hlen : 0 < length (reference bang text path)).
    { unfold reference. rewrite !length_app. simpl. lia. }
    rewrite !length_app in Hfuel.
    replace fuel with (length pre + S (fuel - length pre - 1)) by lia.
    rewrite (sub_from_copy Split.markdown_link_pattern (Split.replace_link n)
               (none_of (lit "[!")) link_pattern_no_match pre Hpre pre0
               (reference bang text path ++ rest)).
    f_equal. cbn [sub_from]. unfold match_at. rewrite app_assoc, state_at_app.
    destruct (link_pattern_match ((pre0 ++ pre) ++ reference bang text path ++ rest)
                (length (pre0 ++ pre)) (rev (pre0 ++ pre)) bang text path rest
                Hbang Htext Hne Hpath)
      as [st [Hm [Hpos Hcaps]]].
    rewrite Hm.
    assert (Hlt : (length (pre0 ++ pre) <? pos st) = true) by (apply Nat.ltb_lt; lia).
    rewrite Hlt. f_equal.
    + rewrite <- replace_link_reference.
      apply replace_link_ext; unfold group; rewrite ?Hcaps;
        cbn [lookup Nat.eqb reference_groups].
      * apply (slice_at _ (pre0 ++ pre) (reference bang text path) rest);
          [reflexivity|reflexivity|lia].
      * apply (slice_at _ (pre0 ++ pre) bang
                 (lit "[" ++ text ++ lit "](" ++ path ++ lit ")" ++ rest));
          [unfold reference; rewrite <- !app_assoc; reflexivity | reflexivity | reflexivity].
      * apply (slice_at _ ((pre0 ++ pre) ++ bang ++ lit "[") text
                 (lit "](" ++ path ++ lit ")" ++ rest));
          [unfold reference; rewrite <- !app_assoc; reflexivity
          | rewrite !length_app; simpl; lia | rewrite !length_app; simpl; lia].
      * apply (slice_at _ ((pre0 ++ pre) ++ bang ++ lit "[" ++ text ++ lit "](") path
                 (lit ")" ++ rest));
          [unfold reference; rewrite <- !app_assoc; reflexivity
          | rewrite !length_app; simpl; lia | rewrite !length_app; simpl; lia].
    + rewrite app_assoc.
      replace (pos st) with (length ((pre0 ++ pre) ++ reference bang text path))
        by (rewrite Hpos, (length_app (pre0 ++ pre)); reflexivity).
      apply IH. lia.
Qed.

(** For every number [levels_up > 0] of levels and every line cut at its
    references, [adjust_relative_path] returns the line with every reference
    adjusted. *)
Lemma cut_line_adjusted :
  forall (levels_up : nat) (line out : str),
    0 < levels_up ->
    adjusts levels_up line out ->
    Split.adjust_relative_path line levels_up = out.
Proof.
  intros levels_up line out Hpos Hadj.
  destruct levels_up as [|n]; [lia|].
  unfold Split.adjust_relative_path, re_sub.
  apply (sub_adjusts (S n) line out Hadj []). lia.
Qed.

(** ** Running the pipeline twice *)

(** C2 (as stated): the second run changes the output of the first, with no
    operator and no blockquote in the line. *)
Lemma second_run_changes_output :
  process_lines false [lit "- http://http://x"] = [lit "- http://x"]
  /\ process_lines false (process_lines false [lit "- http://http://x"]) = [lit "- x"].
Proof. split; vm_compute; reflexivity. Qed.

(** The end of [header_re]: the text up to the end of the line, as group 2. *)
Lemma header_tail_empty (s : str) (i : nat) (bef : str) cps :
  m s (Seq (Grp 2 rest_of_line) Eol) (MState i bef [] cps) Some = None.
Proof. reflexivity. Qed.

Lemma header_tail_text (s : str) (i : nat) (bef a : str) cps :
  a <> [] -> all_chars (not_char LF) a ->
  m s (Seq (Grp 2 rest_of_line) Eol) (MState i bef a cps) Some
  = Some (MState (i + length a) (rev a ++ bef) [] ((2, (i, i + length a)) :: cps)).
Proof.
  intros Hne Ha. destruct a as [|a1 at_]; [contradiction|].
  apply all_chars_cons in Ha. destruct Ha as [Ha1 Hat].
  unfold rest_of_line, Plus, Dot. mstep.
  change (negb (N.eqb a1 LF)) with (not_char LF a1). rewrite Ha1.
  rewrite <- (app_nil_r at_) at 1.
  rewrite m_star_cls; [|exact Hat|exact I].
  apply greedy_all. mstep. rewrite m_Eol_nil.
  cbn [length rev]. rewrite <- app_assoc. cbn [app].
  rewrite !Nat.add_succ_r, !Nat.add_succ_l. reflexivity.
Qed.

(** Group 2 of [header_re] on a line without newline. *)
Lemma header_match (h r0 : str) :
  all_chars (N.eqb (ch "#")) h -> stops (N.eqb (ch "#")) r0 ->
  all_chars (not_char LF) r0 ->
  option_map (fun g : nat -> str => g 2) (re_match header_re (h ++ r0))
  = header_text (h ++ r0).
Proof.
  intros Hh Hr0 Hnl.
  unfold header_text. cbv zeta.
  rewrite (take_while_app _ h r0 Hh Hr0), (lstrip_with_app _ h r0 Hh Hr0).
  rewrite re_match_at_start.
  unfold header_re, Rep, ws_plus, Plus, Chr. cbn [Cat Times Nat.sub]. mstep.
  rewrite m_Bol. cbn [pos Nat.eqb]. mstep.
  destruct h as [|x h].
  - cbn [app length Nat.leb andb].
    destruct r0 as [|c r0]; [reflexivity|].
    cbn [stops] in Hr0. mstep. rewrite Hr0. reflexivity.
  - apply all_chars_cons in Hh. destruct Hh as [Hx Hh].
    cbn [app]. mstep. rewrite Hx. apply N.eqb_eq in Hx. subst x.
    fold (Chr (ch "#")).
    rewrite upto_chr; [|intros; reflexivity|exact Hh|exact Hr0].
    cbn [length Nat.leb andb].
    destruct (length h <=? 5); [|reflexivity].
    destruct r0 as [|c r1]; [reflexivity|].
    apply all_chars_cons in Hnl. destruct Hnl as [_ Hnl].
    mstep. destruct (is_space c); [|reflexivity].
    pose proof (take_while_lstrip is_space r1) as Hsplit.
    pose proof (take_while_all is_space r1) as Hrun.
    pose proof (lstrip_with_stops is_space r1) as Hrest.
    assert (Hnl' : all_chars (not_char LF) (lstrip_with is_space r1)).
    { apply (all_chars_incl _ _ _ (incl_lstrip_with _ _) Hnl). }
    assert (Hnlrun : all_chars (not_char LF) (take_while is_space r1)).
    { rewrite <- Hsplit in Hnl. apply all_chars_app in Hnl. apply Hnl. }
    revert Hsplit Hrun Hrest Hnl' Hnlrun.
    generalize (take_while is_space r1) as run.
    generalize (lstrip_with is_space r1) as rest.
    intros rest run Hsplit Hrun Hrest Hnl' Hnlrun. subst r1.
    rewrite m_star_cls; [|exact Hrun|exact Hrest].
    destruct rest as [|r rest].
    + destruct (snoc_cases run) as [-> | [run' [w ->]]].
      * reflexivity.
      * rewrite rev_app_distr. cbn [rev app].
        apply all_chars_app in Hnlrun. destruct Hnlrun as [_ Hw].
        rewrite (greedy_back1 _
                   (MState (S (1 + length h) + length run' + length [w])
                      (rev [w] ++ rev run' ++ c :: rev h ++ [ch "#"]) []
                      [(2, (S (1 + length h) + length run',
                            S (1 + length h) + length run' + length [w]));
                       (1, (0, 1 + length h))]) w run').
        -- cbn [option_map]. unfold group. cbn [lookup caps Nat.eqb]. f_equal.
           apply (slice_at _ (ch "#" :: h ++ c :: run') [w] []);
             [ rewrite app_nil_r; cbn [app]; rewrite <- !app_assoc; reflexivity
             | cbn [length]; rewrite length_app; cbn [length]; lia
             | cbn [length]; rewrite length_app; cbn [length]; lia ].
        -- apply header_tail_empty.
        -- cbv beta. rewrite header_tail_text; [reflexivity|discriminate|exact Hw].
    + rewrite (greedy_all _
                 (MState (S (1 + length h) + length run + length (r :: rest))
                    (rev (r :: rest) ++ rev run ++ c :: rev h ++ [ch "#"]) []
                    [(2, (S (1 + length h) + length run,
                          S (1 + length h) + length run + length (r :: rest)));
                     (1, (0, 1 + length h))])).
      * cbn [option_map]. unfold group. cbn [lookup caps Nat.eqb]. f_equal.
        apply (slice_at _ (ch "#" :: h ++ c :: run) (r :: rest) []);
          [ rewrite app_nil_r; cbn [app]; rewrite <- !app_assoc; reflexivity
          | cbn [length]; rewrite length_app; cbn [length]; lia
          | cbn [length]; rewrite length_app; cbn [length]; lia ].
      * cbv beta. rewrite header_tail_text; [reflexivity|discriminate|exact Hnl'].
Qed.

Lemma normalize_headers_text (line : str) :
  ~ In LF line ->
  normalize_headers line =
    match header_text line with
    | Some text => lit "### " ++ text
    | None => line
    end.
Proof.
  intros Hnl. apply not_char_of_all in Hnl.
  assert (Hm : option_map (fun g : nat -> str => g 2) (re_match header_re line)
               = header_text line).
  { rewrite <- (take_while_lstrip (N.eqb (ch "#")) line).
    apply header_match.
    - apply take_while_all.
    - apply lstrip_with_stops.
    - apply (all_chars_incl _ _ _ (incl_lstrip_with _ _) Hnl). }
  unfold normalize_headers. rewrite <- Hm.
  destruct (re_match header_re line); reflexivity.
Qed.

Lemma header_text_after_marker (x : str) :
  header_text (lit "### " ++ x) =
    match lstrip_with is_space x with
    | _ :: _ => Some (lstrip_with is_space x)
    | [] =>
        match rev (take_while is_space x) with
        | w :: _ => Some [w]
        | [] => None
        end
    end.
Proof. reflexivity. Qed.

(** The text of a heading is a blank, or starts with a character that is not
    a blank; it is made of characters of the line. *)
Lemma header_text_shape (line x : str) :
  header_text line = Some x ->
  incl x line
  /\ ((exists w, x = [w] /\ is_space w = true)
      \/ (exists c x', x = c :: x' /\ is_space c = false)).
Proof.
  unfold header_text. cbv zeta.
  destruct (_ && _); [|discriminate].
  pose proof (incl_lstrip_with (N.eqb (ch "#")) line) as Hincl.
  destruct (lstrip_with (N.eqb (ch "#")) line) as [|c r]; [discriminate|].
  destruct (is_space c); [|discriminate].
  assert (Hr : incl r line) by (intros a Ha; apply Hincl; right; exact Ha).
  pose proof (lstrip_with_stops is_space r) as Hstop.
  pose proof (incl_lstrip_with is_space r) as Hrest.
  destruct (lstrip_with is_space r) as [|c' x'].
  - pose proof (take_while_all is_space r) as Hall.
    assert (Htw : incl (take_while is_space r) r).
    { intros a Ha. rewrite <- (take_while_lstrip is_space r).
      apply in_or_app. left. exact Ha. }
    destruct (rev (take_while is_space r)) as [|w ws] eqn:Hrev; [discriminate|].
    intros [= <-].
    assert (Hw : In w (take_while is_space r)).
    { apply in_rev. rewrite Hrev. left. reflexivity. }
    split.
    + intros a [<- | []]. apply Hr, Htw, Hw.
    + left. exists w. split; [reflexivity|].
      apply (proj1 (all_chars_In _ _) Hall w Hw).
  - intros [= <-]. split.
    + intros a Ha. apply Hr, Hrest, Ha.
    + right. exists c', x'. split; [reflexivity | exact Hstop].
Qed.

Lemma header_text_normalized (line x : str) :
  header_text line = Some x -> header_text (lit "### " ++ x) = Some x.
Proof.
  intros H. apply header_text_shape in H.
  destruct H as [_ [[w [-> Hw]] | [c [x' [-> Hc]]]]];
    rewrite header_text_after_marker; cbn [lstrip_with take_while].
  - rewrite Hw. reflexivity.
  - rewrite Hc. reflexivity.
Qed.

(** C2 (amended): heading normalization is idempotent on every line of a
    document (a line holds no newline). *)
Theorem heading_normalization_idempotent :
  forall line : str,
    ~ In LF line ->
    normalize_headers (normalize_headers line) = normalize_headers line.
Proof.
  intros line Hnl. rewrite (normalize_headers_text line Hnl).
  destruct (header_text line) as [x|] eqn:Ht.
  - rewrite normalize_headers_text.
    + rewrite (header_text_normalized line x Ht). reflexivity.
    + intros Hin. apply in_app_or in Hin. destruct Hin as [Hin | Hin].
      * revert Hin. apply all_chars_not_In. reflexivity.
      * apply Hnl. apply (proj1 (header_text_shape line x Ht)). exact Hin.
  - rewrite (normalize_headers_text line Hnl), Ht. reflexivity.
Qed.

Lemma heading_normalization_idempotent_witness :
  normalize_headers (normalize_headers (lit "# Title")) = normalize_headers (lit "# Title").
Proof.
  apply heading_normalization_idempotent.
  apply all_chars_not_In. reflexivity.
Defined.

(** ** The splitter on the scenario document *)

(** C4 (as stated): the scenario document does not split into exactly two
    sections. *)
Lemma scenario_not_two_sections :
  length (Split.parse_markdown_file scenario_doc) <> 2.
Proof. vm_compute. discriminate. Qed.

(** C4 (amended): the scenario document splits into three sections, the text
    before the first second-level heading being a section of its own, and
    they are written to [01_01.md], [01_02.md] and [01_03.md], whatever the
    depth of the target directory. *)
Theorem scenario_three_sections :
  forall levels_up : nat,
    Split.parse_markdown_file scenario_doc =
      [ [nl "# Title"; nl ""; nl "Intro"; nl ""];
        [nl "## A"; nl "body A"; nl ""];
        [nl "## B"; nl "body B"] ]
    /\ Split.split_file (lit "01_course.md") scenario_doc levels_up =
      [ (lit "01_01.md", concat [nl "# Title"; nl ""; nl "Intro"; nl ""]);
        (lit "01_02.md", concat [nl "## A"; nl "body A"; nl ""]);
        (lit "01_03.md", concat [nl "## B"; nl "body B"]) ].
Proof.
  intros levels_up. split.
  - vm_compute. reflexivity.
  - destruct levels_up; vm_compute; reflexivity.
Qed.

(** ** The sections of a document *)

Lemma has_content_existsb (section : list str) :
  Split.has_content section
  = existsb (fun l => match strip l with [] => false | _ => true end) section.
Proof. destruct section; reflexivity. Qed.

Lemma has_content_false (section : list str) :
  Split.has_content section = false -> Forall blank section.
Proof.
  rewrite has_content_existsb. induction section as [|l section IH]; intros H.
  - constructor.
  - simpl in H. apply orb_false_iff in H. destruct H as [Hl Hs].
    constructor; [|apply IH; exact Hs].
    unfold blank. destruct (strip l); [reflexivity | discriminate].
Qed.

Lemma has_content_snoc (section : list str) (l : str) :
  Split.has_content (section ++ [l])
  = Split.has_content section || (match strip l with [] => false | _ => true end).
Proof.
  rewrite !has_content_existsb, existsb_app. simpl. rewrite orb_false_r. reflexivity.
Qed.

Lemma has_content_not_blank (section : list str) (l : str) :
  strip l <> [] -> Split.has_content (section ++ [l]) = true.
Proof.
  intros H. rewrite has_content_snoc. destruct (strip l); [contradiction|].
  apply orb_true_r.
Qed.

Lemma fence_line_not_blank (l : str) : Split.is_fence_line l = true -> strip l <> [].
Proof.
  unfold Split.is_fence_line. intros H Hs. rewrite Hs in H. discriminate H.
Qed.

Lemma section_heading_not_blank (l : str) :
  Split.is_section_heading l = true -> strip l <> [].
Proof.
  unfold Split.is_section_heading. intros H Hs. rewrite Hs in H. discriminate H.
Qed.

Lemma parsed_append (st : Split.parser_state) (consumed : list str) (l : str) (b : bool) :
  parsed st consumed ->
  parsed (Split.ParserState (Split.sections st) (Split.current_section st ++ [l]) b)
         (consumed ++ [l]).
Proof.
  intros [blanks [Hb [Hc Hn]]]. exists blanks. cbn [Split.sections Split.current_section].
  split; [exact Hb|]. split.
  - rewrite Hc, <- !app_assoc. reflexivity.
  - intros H. rewrite has_content_snoc in H. apply orb_false_iff in H.
    apply Hn. apply H.
Qed.

Lemma parsed_step (st : Split.parser_state) (consumed : list str) (l : str) :
  parsed st consumed -> parsed (Split.parse_step st l) (consumed ++ [l]).
Proof.
  intros Hp. unfold Split.parse_step.
  destruct (Split.is_fence_line l); [apply parsed_append; exact Hp|].
  destruct (Split.in_code_block st); [apply parsed_append; exact Hp|].
  destruct (Split.is_section_heading l) eqn:Hh; [|apply parsed_append; exact Hp].
  destruct Hp as [blanks [Hb [Hc Hn]]].
  assert (Hl : Split.has_content [l] = true)
    by (apply (has_content_not_blank [] l), section_heading_not_blank, Hh).
  destruct (Split.has_content (Split.current_section st)) eqn:Hcur.
  - exists blanks. cbn [Split.sections Split.current_section].
    split; [exact Hb|]. split.
    + rewrite Hc, concat_app. simpl. rewrite app_nil_r, <- !app_assoc. reflexivity.
    + rewrite Hl. discriminate.
  - destruct (Hn eq_refl) as [Hs Hbl]. exists (Split.current_section st).
    cbn [Split.sections Split.current_section].
    split; [apply has_content_false; exact Hcur|]. split.
    + rewrite Hc, Hs, Hbl. simpl. reflexivity.
    + rewrite Hl. discriminate.
Qed.

Lemma parsed_fold (lines : list str) :
  forall st consumed,
    parsed st consumed -> parsed (fold_left Split.parse_step lines st) (consumed ++ lines).
Proof.
  induction lines as [|l lines IH]; intros st consumed Hp.
  - rewrite app_nil_r. exact Hp.
  - simpl. replace (consumed ++ l :: lines) with ((consumed ++ [l]) ++ lines)
      by (rewrite <- app_assoc; reflexivity).
    apply IH, parsed_step, Hp.
Qed.

Lemma parse_lines_blanks (lines : list str) :
  exists blanks,
    Forall blank blanks /\ lines = blanks ++ concat (Split.parse_lines lines).
Proof.
  assert (H0 : parsed (Split.ParserState [] [] false) []).
  { exists []. split; [constructor|]. split; [reflexivity|]. intros _. split; reflexivity. }
  pose proof (parsed_fold lines _ _ H0) as [blanks [Hb [Hc Hn]]]. simpl in Hc.
  unfold Split.parse_lines.
  destruct (Split.has_content
              (Split.current_section
                 (fold_left Split.parse_step lines (Split.ParserState [] [] false)))) eqn:Hcur.
  - exists blanks. split; [exact Hb|].
    rewrite concat_app. simpl. rewrite app_nil_r. exact Hc.
  - destruct (Hn eq_refl) as [Hs Hbl]. exists lines. split.
    + rewrite Hc, Hs, Hbl. simpl. apply has_content_false. exact Hcur.
    + rewrite Hs. simpl. rewrite app_nil_r. reflexivity.
Qed.

(** X1: the splitter loses no line but blank lines at the head of the document:
    the lines of the file are blank lines followed by the lines of the
    sections, in order; when the first line is not blank, the sections put
    end to end are the file. *)
Theorem sections_partition_the_document :
  forall lines : list str,
    (exists blanks,
       Forall blank blanks /\ lines = blanks ++ concat (Split.parse_lines lines))
    /\ (forall l rest, lines = l :: rest -> strip l <> [] ->
          concat (Split.parse_lines lines) = lines).
Proof.
  intros lines. split; [apply parse_lines_blanks|].
  intros l rest Hl Hnb. destruct (parse_lines_blanks lines) as [blanks [Hb Heq]].
  destruct blanks as [|b blanks]; [symmetry; exact Heq|].
  rewrite Hl in Heq at 1. simpl in Heq. injection Heq as Hlb _.
  apply Forall_inv in Hb. unfold blank in Hb. rewrite <- Hlb in Hb. contradiction.
Qed.

Lemma sections_partition_the_document_witness :
  concat (Split.parse_lines [nl "intro"; nl "## A"; nl "a"])
  = [nl "intro"; nl "## A"; nl "a"].
Proof.
  apply (proj2 (sections_partition_the_document [nl "intro"; nl "## A"; nl "a"])
           (nl "intro") [nl "## A"; nl "a"] eq_refl).
  vm_compute. discriminate.
Defined.

Lemma headed_snoc (section : list str) (l : str) :
  headed section -> headed (section ++ [l]).
Proof. intros [h [t [-> Hh]]]. exists h, (t ++ [l]). split; [reflexivity | exact Hh]. Qed.

Lemma shaped_step (st : Split.parser_state) (l : str) :
  Forall (fun s => Split.has_content s = true) (Split.sections st)
  /\ Forall headed (tl (Split.sections st))
  /\ (Split.sections st <> [] -> headed (Split.current_section st)) ->
  Forall (fun s => Split.has_content s = true) (Split.sections (Split.parse_step st l))
  /\ Forall headed (tl (Split.sections (Split.parse_step st l)))
  /\ (Split.sections (Split.parse_step st l) <> [] ->
      headed (Split.current_section (Split.parse_step st l))).
Proof.
  intros [Hc [Ht Hcur]].
  assert (Happ : forall b,
    let st' := Split.ParserState (Split.sections st) (Split.current_section st ++ [l]) b in
    Forall (fun s => Split.has_content s = true) (Split.sections st')
    /\ Forall headed (tl (Split.sections st'))
    /\ (Split.sections st' <> [] -> headed (Split.current_section st'))).
  { intros b. cbn [Split.sections Split.current_section].
    split; [exact Hc|]. split; [exact Ht|].
    intros Hne. apply headed_snoc, Hcur, Hne. }
  unfold Split.parse_step.
  destruct (Split.is_fence_line l); [apply Happ|].
  destruct (Split.in_code_block st); [apply Happ|].
  destruct (Split.is_section_heading l) eqn:Hh; [|apply Happ].
  cbn [Split.sections Split.current_section].
  assert (Hl : headed [l]) by (exists l, []; split; [reflexivity | exact Hh]).
  destruct (Split.has_content (Split.current_section st)) eqn:Hcont.
  - split; [|split; [|intros _; exact Hl]].
    + apply Forall_app. split; [exact Hc|]. constructor; [exact Hcont | constructor].
    + destruct (Split.sections st) as [|s0 secs] eqn:Hs; [constructor|].
      cbn [app tl]. apply Forall_app. split; [exact Ht|].
      constructor; [|constructor]. apply Hcur. discriminate.
  - split; [exact Hc|]. split; [exact Ht|]. intros _. exact Hl.
Qed.

Lemma shaped_fold (lines : list str) :
  forall st,
    Forall (fun s => Split.has_content s = true) (Split.sections st)
    /\ Forall headed (tl (Split.sections st))
    /\ (Split.sections st <> [] -> headed (Split.current_section st)) ->
    let st' := fold_left Split.parse_step lines st in
    Forall (fun s => Split.has_content s = true) (Split.sections st')
    /\ Forall headed (tl (Split.sections st'))
    /\ (Split.sections st' <> [] -> headed (Split.current_section st')).
Proof.
  induction lines as [|l lines IH]; intros st H; [exact H|].
  simpl. apply IH, shaped_step, H.
Qed.

(** X2: every section has a line that is not blank, and every section after the
    first begins with a heading of the second level: only the first section
    can be text that comes before any such heading. *)
Theorem sections_have_content_and_headings :
  forall lines : list str,
    Forall (fun section => exists l, In l section /\ ~ blank l) (Split.parse_lines lines)
    /\ Forall headed (tl (Split.parse_lines lines)).
Proof.
  intros lines.
  assert (H0 : Forall (fun s => Split.has_content s = true) (@nil (list str))
               /\ Forall headed (tl (@nil (list str)))
               /\ (@nil (list str) <> [] -> headed [])).
  { split; [constructor|]. split; [constructor|]. intros H. contradiction. }
  pose proof (shaped_fold lines (Split.ParserState [] [] false) H0) as H.
  cbv zeta in H. destruct H as [Hc [Ht Hcur]].
  assert (Hgoal : Forall (fun s => Split.has_content s = true) (Split.parse_lines lines)
                  /\ Forall headed (tl (Split.parse_lines lines))).
  { unfold Split.parse_lines.
    destruct (Split.has_content (Split.current_section _)) eqn:Hcont; [|split; assumption].
    split.
    - apply Forall_app. split; [exact Hc|]. constructor; [exact Hcont | constructor].
    - destruct (Split.sections _) as [|s0 secs] eqn:Hs; [constructor|].
      cbn [app tl]. apply Forall_app. split; [exact Ht|].
      constructor; [|constructor]. apply Hcur. discriminate. }
  destruct Hgoal as [H1 H2]. split; [|exact H2].
  eapply Forall_impl; [|exact H1]. intros s Hs. cbv beta in Hs.
  rewrite has_content_existsb in Hs. apply existsb_exists in Hs.
  destruct Hs as [l [Hin Hl]]. exists l. split; [exact Hin|].
  unfold blank. intros Hb. rewrite Hb in Hl. discriminate.
Qed.

Lemma fold_outside_fence (lines : list str) :
  forall st,
    Forall (fun l => Split.is_fence_line l = false) lines ->
    Split.in_code_block (fold_left Split.parse_step lines st) = Split.in_code_block st.
Proof.
  induction lines as [|l lines IH]; intros st Hl; [reflexivity|].
  apply Forall_cons_iff in Hl. destruct Hl as [Hl Hrest].
  simpl. rewrite IH by exact Hrest.
  unfold Split.parse_step. rewrite Hl.
  destruct (Split.in_code_block st); [reflexivity|].
  destruct (Split.is_section_heading l); reflexivity.
Qed.

Lemma fold_inside_fence (lines : list str) :
  forall secs cur,
    Forall (fun l => Split.is_fence_line l = false) lines ->
    fold_left Split.parse_step lines (Split.ParserState secs cur true)
    = Split.ParserState secs (cur ++ lines) true.
Proof.
  induction lines as [|l lines IH]; intros secs cur Hl.
  - rewrite app_nil_r. reflexivity.
  - apply Forall_cons_iff in Hl. destruct Hl as [Hl Hrest].
    simpl. unfold Split.parse_step at 2. rewrite Hl.
    cbn [Split.in_code_block Split.sections Split.current_section].
    rewrite IH by exact Hrest. rewrite <- app_assoc. reflexivity.
Qed.

(** X3: a fence that is never closed keeps the rest of the document in the
    section of the fence: when a document has one fence line only, the lines
    after it are added to the section that holds the fence line, headings of
    the second level among them. *)
Theorem open_fence_takes_the_rest :
  forall (pre : list str) (opening : str) (rest : list str),
    Forall (fun l => Split.is_fence_line l = false) pre ->
    Split.is_fence_line opening = true ->
    Forall (fun l => Split.is_fence_line l = false) rest ->
    exists secs cur,
      Split.parse_lines (pre ++ [opening]) = secs ++ [cur]
      /\ Split.parse_lines (pre ++ opening :: rest) = secs ++ [cur ++ rest].
Proof.
  intros pre opening rest Hpre Hopen Hrest.
  pose (st := fold_left Split.parse_step pre (Split.ParserState [] [] false)).
  assert (Hst : Split.in_code_block st = false)
    by (unfold st; rewrite fold_outside_fence by exact Hpre; reflexivity).
  exists (Split.sections st), (Split.current_section st ++ [opening]).
  assert (Hstep : Split.parse_step st opening
                  = Split.ParserState (Split.sections st)
                      (Split.current_section st ++ [opening]) true).
  { unfold Split.parse_step. rewrite Hopen, Hst. reflexivity. }
  split.
  - unfold Split.parse_lines. rewrite fold_left_app. fold st. simpl. rewrite Hstep.
    cbn [Split.sections Split.current_section].
    rewrite has_content_not_blank by (apply fence_line_not_blank; exact Hopen).
    reflexivity.
  - unfold Split.parse_lines. rewrite fold_left_app. fold st. simpl. rewrite Hstep.
    rewrite fold_inside_fence by exact Hrest.
    cbn [Split.sections Split.current_section].
    assert (Hc : Split.has_content ((Split.current_section st ++ [opening]) ++ rest) = true).
    { rewrite has_content_existsb, existsb_app, <- has_content_existsb.
      rewrite has_content_not_blank by (apply fence_line_not_blank; exact Hopen).
      reflexivity. }
    rewrite Hc. reflexivity.
Qed.

Lemma open_fence_takes_the_rest_witness :
  exists secs cur,
    Split.parse_lines ([nl "## A"] ++ [nl "```"]) = secs ++ [cur]
    /\ Split.parse_lines ([nl "## A"] ++ nl "```" :: [nl "## B"]) = secs ++ [cur ++ [nl "## B"]].
Proof.
  apply (open_fence_takes_the_rest [nl "## A"] (nl "```") [nl "## B"]).
  - constructor; [vm_compute; reflexivity | constructor].
  - vm_compute. reflexivity.
  - constructor; [vm_compute; reflexivity | constructor].
Defined.

(** ** The files of the sections *)

Lemma uint_chars_inj (d d' : Decimal.uint) : uint_chars d = uint_chars d' -> d = d'.
Proof.
  revert d'. induction d as [|d IH|d IH|d IH|d IH|d IH|d IH|d IH|d IH|d IH|d IH];
    intros d' H; destruct d'; simpl in H; try discriminate H; try reflexivity;
    injection H as H; f_equal; apply IH; exact H.
Qed.

Lemma str_of_nat_inj (i j : nat) : str_of_nat i = str_of_nat j -> i = j.
Proof.
  unfold str_of_nat. intros H. apply uint_chars_inj in H.
  apply DecimalNat.Unsigned.to_uint_inj. exact H.
Qed.

Lemma to_uint_normal (n : nat) : Decimal.unorm (Nat.to_uint n) = Nat.to_uint n.
Proof.
  rewrite <- DecimalNat.Unsigned.to_of, DecimalNat.Unsigned.of_to. reflexivity.
Qed.

(** The decimal writing of a number is not empty and has no leading zero,
    unless the number is zero. *)
Lemma str_of_nat_head (n : nat) :
  exists c r, str_of_nat n = c :: r /\ (c = 48%N -> r = []).
Proof.
  unfold str_of_nat. pose proof (to_uint_normal n) as Hn.
  destruct (Nat.to_uint n) as [|d|d|d|d|d|d|d|d|d|d] eqn:Hd;
    try (eexists; eexists; split; [reflexivity | intros H; discriminate H]).
  - discriminate Hn.
  - exists 48%N, (uint_chars d). split; [reflexivity|]. intros _.
    unfold Decimal.unorm in Hn. rewrite DecimalFacts.nzhead_D0 in Hn.
    destruct (Decimal.nzhead d) eqn:Hz;
      try (exfalso; apply (DecimalFacts.nzhead_nonzero d d); rewrite Hz; exact Hn).
    injection Hn as <-. reflexivity.
Qed.

Lemma format_02d_inj (i j : nat) : format_02d i = format_02d j -> i = j.
Proof.
  unfold format_02d. cbv zeta. intros H. apply str_of_nat_inj.
  destruct (str_of_nat_head i) as [a [x [Hi Hzi]]].
  destruct (str_of_nat_head j) as [b [y [Hj Hzj]]].
  rewrite Hi, Hj in *.
  destruct x as [|a' x]; destruct y as [|b' y]; simpl in H.
  - injection H as ->. reflexivity.
  - injection H as <- -> <-. discriminate (Hzj eq_refl).
  - injection H as -> <- ->. discriminate (Hzi eq_refl).
  - exact H.
Qed.

Lemma section_file_name_inj (file_prefix : str) (i j : nat) :
  section_file_name file_prefix i = section_file_name file_prefix j -> i = j.
Proof.
  unfold section_file_name. intros H.
  apply app_inv_head in H. apply app_inv_head in H. apply app_inv_tail in H.
  apply format_02d_inj. exact H.
Qed.

Lemma save_from_names (file_prefix : str) (levels_up : nat) (sections : list (list str)) :
  forall idx,
    map fst (Split.save_from idx sections file_prefix levels_up)
    = map (section_file_name file_prefix) (seq idx (length sections)).
Proof.
  induction sections as [|section rest IH]; intros idx; simpl; [reflexivity|].
  rewrite IH. reflexivity.
Qed.

Lemma save_from_texts (file_prefix : str) (levels_up : nat) (sections : list (list str)) :
  forall idx,
    map snd (Split.save_from idx sections file_prefix levels_up)
    = map (fun section =>
             concat (map (fun line => Split.adjust_relative_path line levels_up) section))
          sections.
Proof.
  induction sections as [|section rest IH]; intros idx; simpl; [reflexivity|].
  rewrite IH. reflexivity.
Qed.

(** X4: the sections of a file are written to the files [PREFIX_01.md],
    [PREFIX_02.md], ..., one per section, in order, the number being written
    with two digits at least; no two sections of a file are written to the
    same name, however many they are. *)
Theorem section_files_are_numbered :
  forall (sections : list (list str)) (file_prefix : str) (levels_up : nat),
    map fst (Split.save_sections sections file_prefix levels_up)
    = map (section_file_name file_prefix) (seq 1 (length sections))
    /\ NoDup (map fst (Split.save_sections sections file_prefix levels_up)).
Proof.
  intros sections file_prefix levels_up. unfold Split.save_sections.
  rewrite save_from_names. split; [reflexivity|].
  apply Finite.Injective_map_NoDup; [|apply seq_NoDup].
  intros i j. apply section_file_name_inj.
Qed.

Lemma concat_split_keepends (s : str) :
  forall cur, concat (split_keepends cur s) = rev cur ++ s.
Proof.
  induction s as [|c r IH]; intros cur; simpl.
  - destruct cur; simpl; rewrite ?app_nil_r; reflexivity.
  - destruct (N.eqb c LF); simpl.
    + rewrite IH. simpl. rewrite <- app_assoc. reflexivity.
    + rewrite IH. simpl. rewrite <- app_assoc. reflexivity.
Qed.

Lemma concat_readlines (content : str) :
  concat (readlines content) = translate_newlines content.
Proof. unfold readlines. apply concat_split_keepends. Qed.

Lemma translate_newlines_keeps_upto (P : char -> bool) (n : nat) :
  P LF = true ->
  forall s, length s <= n -> all_chars P s -> all_chars P (translate_newlines s).
Proof.
  intros HLF. induction n as [|n IH]; intros s Hlen Hs.
  - destruct s; [reflexivity | simpl in Hlen; lia].
  - destruct s as [|c r]; [reflexivity|]. simpl in Hlen.
    apply all_chars_cons in Hs. destruct Hs as [Hc Hr]. simpl.
    destruct (N.eqb c CR).
    + destruct r as [|c' r'].
      * apply all_chars_cons. split; [exact HLF | reflexivity].
      * simpl in Hlen. destruct (N.eqb c' LF).
        -- apply all_chars_cons. split; [exact HLF|]. apply IH; [lia|].
           apply all_chars_cons in Hr. apply Hr.
        -- apply all_chars_cons. split; [exact HLF|]. apply IH; [simpl; lia | exact Hr].
    + apply all_chars_cons. split; [exact Hc|]. apply IH; [lia | exact Hr].
Qed.

Lemma concat_concat {A : Type} (ls : list (list (list A))) :
  concat (map (@concat A) ls) = concat (concat ls).
Proof.
  induction ls as [|l ls IH]; simpl; [reflexivity|].
  rewrite concat_app, IH. reflexivity.
Qed.

(** A line without opening bracket holds no reference: it is returned as it
    is. *)
Lemma adjust_no_bracket (line : str) (levels_up : nat) :
  all_chars (none_of [ch "["]) line -> Split.adjust_relative_path line levels_up = line.
Proof.
  intros H. destruct levels_up as [|n]; [reflexivity|].
  unfold Split.adjust_relative_path, re_sub.
  apply (sub_from_copy_tail Split.markdown_link_pattern (Split.replace_link (S n))
           (none_of [ch "["]) link_pattern_no_bracket (S (length line)) line []).
  exact H.
Qed.

Lemma not_In_none_of (x : char) (s : str) : ~ In x s -> all_chars (none_of [x]) s.
Proof.
  intros H. apply all_chars_In. intros c Hc. unfold none_of, one_of. simpl.
  rewrite orb_false_r. apply negb_true_iff. apply N.eqb_neq. intros ->. contradiction.
Qed.

(** X5: where no path is adjusted (the target directory is not below the source
    directory, or the file holds no opening bracket), the files written for a
    document, put end to end, are the text of the document as it was read,
    less blank lines at its head: splitting loses and changes nothing else. *)
Theorem section_files_hold_the_document :
  forall (filename content : str) (levels_up : nat),
    levels_up = 0 \/ ~ In (ch "[") content ->
    exists blanks,
      Forall blank blanks
      /\ translate_newlines content
         = concat blanks ++ concat (map snd (Split.split_file filename content levels_up)).
Proof.
  intros filename content levels_up Hcase.
  destruct (parse_lines_blanks (readlines content)) as [blanks [Hb Heq]].
  exists blanks. split; [exact Hb|].
  rewrite <- concat_readlines. rewrite Heq at 1. rewrite concat_app. f_equal.
  unfold Split.split_file, Split.parse_markdown_file.
  assert (Hsame : Forall (Forall (fun l => Split.adjust_relative_path l levels_up = l))
                         (Split.parse_lines (readlines content))).
  { destruct Hcase as [-> | Hno].
    - apply Forall_forall. intros sec _. apply Forall_forall. intros l _. reflexivity.
    - assert (Hlines : Forall (all_chars (none_of [ch "["])) (readlines content)).
      { unfold readlines. apply split_keepends_keeps; [|reflexivity].
        apply (translate_newlines_keeps_upto _ (length content)); [reflexivity | lia |].
        apply not_In_none_of. exact Hno. }
      pose proof (parse_lines_keeps _ _ Hlines) as Hsec.
      eapply Forall_impl; [|exact Hsec]. intros sec Hs.
      eapply Forall_impl; [|exact Hs]. intros l Hl. apply adjust_no_bracket. exact Hl. }
  destruct (Split.parse_lines (readlines content)) as [|s0 secs] eqn:Hp; [reflexivity|].
  unfold Split.save_sections.
  rewrite save_from_texts.
  transitivity (concat (map (@concat char) (s0 :: secs)));
    [symmetry; apply concat_concat|]. f_equal.
  apply map_ext_in. intros sec Hin. f_equal.
  transitivity (map (fun x : str => x) sec); [symmetry; apply map_id|].
  apply map_ext_in. intros l Hl. symmetry.
  apply (proj1 (Forall_forall _ _) (proj1 (Forall_forall _ _) Hsame sec Hin) l Hl).
Qed.

Lemma section_files_hold_the_document_witness :
  exists blanks,
    Forall blank blanks
    /\ translate_newlines (nl "" ++ nl "## A" ++ [ch "a"; CR; LF] ++ nl "## B")
       = concat blanks
         ++ concat (map snd (Split.split_file (lit "01_x.md")
                               (nl "" ++ nl "## A" ++ [ch "a"; CR; LF] ++ nl "## B") 0)).
Proof.
  apply (section_files_hold_the_document (lit "01_x.md")
           (nl "" ++ nl "## A" ++ [ch "a"; CR; LF] ++ nl "## B") 0).
  left. reflexivity.
Defined.

(** ** The depth of the target directory *)

Lemma parts_eqb_eq (a b : list str) : Split.parts_eqb a b = true <-> a = b.
Proof.
  revert b. induction a as [|x a IH]; intros [|y b]; simpl; split; intros H;
    try reflexivity; try discriminate H.
  - apply andb_true_iff in H. destruct H as [Hxy Hab].
    apply str_eqb_eq in Hxy. apply IH in Hab. subst. reflexivity.
  - injection H as -> ->. apply andb_true_iff. split; [apply str_eqb_eq | apply IH]; reflexivity.
Qed.

(** X6: the number of levels is the depth of the target directory below the
    source directory: the number of path parts that the target has after
    those of the source; it is 0 when the target is the source or is not
    below it. *)
Theorem levels_up_is_depth_below_source :
  forall source_parts target_parts : list str,
    (forall sub, target_parts = source_parts ++ sub ->
       Split.calculate_path_adjustment source_parts target_parts = length sub)
    /\ ((forall sub, target_parts <> source_parts ++ sub) ->
        Split.calculate_path_adjustment source_parts target_parts = 0).
Proof.
  intros src tgt. unfold Split.calculate_path_adjustment. split.
  - intros sub ->. rewrite length_app.
    rewrite firstn_app, Nat.sub_diag, firstn_all. simpl. rewrite app_nil_r.
    rewrite (proj2 (parts_eqb_eq src src) eq_refl), andb_true_r.
    destruct (length src <? length src + length sub) eqn:Hlt.
    + lia.
    + apply Nat.ltb_ge in Hlt. lia.
  - intros Hno. destruct (_ <? _); [|reflexivity]. cbn [andb].
    destruct (Split.parts_eqb _ _) eqn:Heq; [|reflexivity].
    apply parts_eqb_eq in Heq. exfalso. apply (Hno (skipn (length src) tgt)).
    pose proof (firstn_skipn (length src) tgt) as Hcut. rewrite Heq in Hcut.
    symmetry. exact Hcut.
Qed.

Lemma levels_up_is_depth_below_source_witness :
  Split.calculate_path_adjustment [lit "Src"; lit "Base"]
    [lit "Src"; lit "Base"; lit "detailed"; lit "sub"] = 2
  /\ Split.calculate_path_adjustment [lit "Src"; lit "Base"] [lit "Src"; lit "Other"] = 0.
Proof.
  split.
  - apply (proj1 (levels_up_is_depth_below_source [lit "Src"; lit "Base"]
                    [lit "Src"; lit "Base"; lit "detailed"; lit "sub"])
             [lit "detailed"; lit "sub"]).
    reflexivity.
  - apply (proj2 (levels_up_is_depth_below_source [lit "Src"; lit "Base"]
                    [lit "Src"; lit "Other"])).
    intros sub H. simpl in H. injection H as H. discriminate H.
Defined.

(** ** Image paths *)

Lemma startswith_app (x y : str) : startswith x (x ++ y) = true.
Proof. induction x as [|c x IH]; simpl; [reflexivity|]. rewrite N.eqb_refl. exact IH. Qed.

Lemma endswith_app (x suf : str) : endswith suf (x ++ suf) = true.
Proof. unfold endswith. rewrite rev_app_distr. apply startswith_app. Qed.

Lemma startswith_prefix (x s : str) :
  startswith x s = true -> exists y, s = x ++ y.
Proof.
  revert s. induction x as [|c x IH]; intros s H.
  - exists s. reflexivity.
  - destruct s as [|d s]; [discriminate H|]. simpl in H.
    apply andb_true_iff in H. destruct H as [Hc Hx]. apply N.eqb_eq in Hc. subst d.
    destruct (IH s Hx) as [y ->]. exists y. reflexivity.
Qed.

(** X7: a path is an image path exactly when its lower-case form ends with one of
    the seven extensions: the test is blind to the case of the extension and
    looks at the end of the path only. *)
Theorem image_path_by_lowercase_suffix :
  forall path : str,
    Split.is_image_path path = true
    <-> exists front ext,
          In ext (map lit [".png"; ".jpg"; ".jpeg"; ".gif"; ".svg"; ".webp"; ".bmp"]%string)
          /\ lower path = front ++ ext.
Proof.
  intros path. unfold Split.is_image_path. cbv zeta. rewrite existsb_exists. split.
  - intros [ext [Hin Hend]]. unfold endswith in Hend.
    apply startswith_prefix in Hend. destruct Hend as [y Hy].
    exists (rev y), ext. split; [exact Hin|].
    rewrite <- (rev_involutive (lower path)), Hy, rev_app_distr, rev_involutive.
    reflexivity.
  - intros [front [ext [Hin Heq]]]. exists ext. split; [exact Hin|].
    rewrite Heq. apply endswith_app.
Qed.

(** ** The prefix of the file names *)

Lemma rfind_from_none (c : char) (s : str) :
  forall i found, ~ In c s -> Split.rfind_from c s i found = found.
Proof.
  induction s as [|x s IH]; intros i found Hno; [reflexivity|].
  cbn [Split.rfind_from].
  destruct (N.eqb x c) eqn:Hx.
  - apply N.eqb_eq in Hx. subst x. exfalso. apply Hno. left. reflexivity.
  - apply IH. intros Hin. apply Hno. right. exact Hin.
Qed.

Lemma rfind_from_last (c : char) (base ext : str) :
  forall i found,
    ~ In c ext ->
    Split.rfind_from c (base ++ c :: ext) i found = Some (i + length base).
Proof.
  induction base as [|x base IH]; intros i found Hno.
  - cbn [app Split.rfind_from length]. rewrite N.eqb_refl, Nat.add_0_r.
    apply rfind_from_none. exact Hno.
  - cbn [app Split.rfind_from length]. rewrite IH by exact Hno. f_equal. lia.
Qed.

(** X8: for a bare file name, the stem is the name up to its last dot, when a
    text stands on both sides of that dot, and the whole name when it has no
    dot; the prefix of the section files is the run of digits at the head of
    the stem, and the first two characters of the stem when it begins with no
    digit. *)
Theorem file_prefix_is_leading_digits :
  forall filename : str,
    bare_name filename = true ->
    (forall base ext : str,
       filename = base ++ ch "." :: ext -> base <> [] -> ext <> [] ->
       ~ In (ch ".") ext -> Split.stem filename = base)
    /\ (~ In (ch ".") filename -> Split.stem filename = filename)
    /\ Split.extract_file_prefix filename
       = match take_while is_digit (Split.stem filename) with
         | [] => firstn 2 (Split.stem filename)
         | ds => ds
         end.
Proof.
  intros filename _. split; [|split].
  - intros base ext -> Hbase Hext Hno. unfold Split.stem.
    rewrite rfind_from_last by exact Hno. cbn [Nat.add].
    assert (H1 : (0 <? length base) = true).
    { apply Nat.ltb_lt. destruct base; [contradiction | simpl; lia]. }
    assert (H2 : (length base <? length (base ++ ch "." :: ext) - 1) = true).
    { apply Nat.ltb_lt. rewrite length_app. destruct ext; [contradiction | simpl; lia]. }
    rewrite H1, H2. cbn [andb].
    rewrite firstn_app, Nat.sub_diag, firstn_all. cbn [firstn]. apply app_nil_r.
  - intros Hno. unfold Split.stem. rewrite rfind_from_none by exact Hno. reflexivity.
  - unfold Split.extract_file_prefix. cbv zeta.
    generalize (Split.stem filename) as s. intros s.
    pose proof (take_while_lstrip is_digit s) as Hcut.
    pose proof (take_while_all is_digit s) as Hall.
    pose proof (lstrip_with_stops is_digit s) as Hstop.
    destruct (take_while is_digit s) as [|d ds].
    + simpl in Hcut. rewrite Hcut in Hstop.
      assert (Hno : re_match Split.prefix_re s = None).
      { rewrite re_match_at_start. unfold Split.prefix_re, digits, Plus.
        rewrite m_Seq, m_Bol. cbn [pos Nat.eqb]. mstep.
        destruct s as [|c s]; [reflexivity|]. simpl in Hstop. mstep. rewrite Hstop.
        reflexivity. }
      rewrite Hno. reflexivity.
    + apply all_chars_cons in Hall. destruct Hall as [Hd Hds].
      assert (Hm : m s Split.prefix_re (MState 0 [] s []) Some
                   = Some (MState (1 + length ds) (rev ds ++ [d]) (lstrip_with is_digit s)
                             [(1, (0, 1 + length ds))])).
      { rewrite <- Hcut at 1 2. unfold Split.prefix_re, digits, Plus.
        rewrite m_Seq, m_Bol. cbn [pos Nat.eqb app]. mstep. rewrite Hd.
        rewrite m_star_cls; [|exact Hds|exact Hstop].
        apply greedy_all. reflexivity. }
      rewrite re_match_at_start, Hm. cbn [option_map group lookup Nat.eqb].
      apply (slice_at s [] (d :: ds) (lstrip_with is_digit s)).
      * symmetry. exact Hcut.
      * reflexivity.
      * reflexivity.
Qed.

Lemma file_prefix_is_leading_digits_witness :
  Split.stem (lit "01_course.md") = lit "01_course"
  /\ Split.extract_file_prefix (lit "01_course.md") = lit "01".
Proof.
  destruct (file_prefix_is_leading_digits (lit "01_course.md") eq_refl) as [Hstem [_ Hpre]].
  split.
  - apply (Hstem (lit "01_course") (lit "md")); [reflexivity | discriminate | discriminate|].
    simpl. intros [H | [H | H]]; [discriminate H | discriminate H | exact H].
  - rewrite Hpre. reflexivity.
Defined.

(** ** Adjusting twice *)

Lemma lstrip_with_snoc_stop (p : char -> bool) (a : str) (c : char) :
  p c = false -> lstrip_with p (a ++ [c]) = lstrip_with p a ++ [c].
Proof.
  intros Hc. induction a as [|x a IH]; simpl.
  - rewrite Hc. reflexivity.
  - destruct (p x); [exact IH | reflexivity].
Qed.

Lemma rstrip_with_cons_stop (p : char -> bool) (c : char) (s : str) :
  p c = false -> rstrip_with p (c :: s) = c :: rstrip_with p s.
Proof.
  intros Hc. unfold rstrip_with. simpl.
  rewrite lstrip_with_snoc_stop by exact Hc. rewrite rev_app_distr. reflexivity.
Qed.

Lemma strip_parents (n : nat) (x : str) :
  exists y, strip (Split.parents (S n) ++ x) = lit "../" ++ y.
Proof.
  unfold Split.parents. cbn [repeat concat].
  change (lit "../") with [ch "."; ch "."; ch "/"]. cbn [app].
  unfold strip, lstrip, rstrip. cbn [lstrip_with].
  change (is_space (ch ".")) with false. cbv iota.
  rewrite !rstrip_with_cons_stop by reflexivity.
  eexists. reflexivity.
Qed.

Lemma adjusted_parent_path (n : nat) (bang text path y : str) :
  strip path = lit "../" ++ y ->
  adjusted_reference n bang text path = reference bang text path.
Proof.
  intros Hp. unfold adjusted_reference. cbv zeta. rewrite Hp.
  change (startswith (lit "http://") (lit "../" ++ y)) with false.
  change (startswith (lit "https://") (lit "../" ++ y)) with false.
  change (startswith (lit "/") (lit "../" ++ y)) with false.
  change (startswith (lit "./") (lit "../" ++ y)) with false.
  change (startswith (lit "../") (lit "../" ++ y)) with true.
  cbn [orb]. destruct (_ || _); reflexivity.
Qed.

Lemma parents_no_paren (n : nat) : all_chars (none_of [ch ")"]) (Split.parents n).
Proof.
  unfold Split.parents. induction n as [|n IH]; [reflexivity|].
  cbn [repeat concat]. apply all_chars_app. split; [reflexivity | exact IH].
Qed.

(** An adjusted reference is a reference that a second adjustment keeps. *)
Lemma adjusted_reference_fixed (n : nat) (bang text path : str) :
  path <> [] -> all_chars (none_of [ch ")"]) path ->
  exists path',
    adjusted_reference (S n) bang text path = reference bang text path'
    /\ path' <> [] /\ all_chars (none_of [ch ")"]) path'
    /\ adjusted_reference (S n) bang text path' = reference bang text path'.
Proof.
  intros Hne Hpath.
  assert (Hstrip : all_chars (none_of [ch ")"]) (strip path))
    by (apply (all_chars_incl _ _ _ (incl_strip _) Hpath)).
  assert (Hnew : forall x, all_chars (none_of [ch ")"]) x ->
            Split.parents (S n) ++ x <> []
            /\ all_chars (none_of [ch ")"]) (Split.parents (S n) ++ x)
            /\ adjusted_reference (S n) bang text (Split.parents (S n) ++ x)
               = reference bang text (Split.parents (S n) ++ x)).
  { intros x Hx. split; [discriminate|]. split.
    - apply all_chars_app. split; [apply parents_no_paren | exact Hx].
    - destruct (strip_parents n x) as [y Hy]. apply (adjusted_parent_path _ _ _ _ y Hy). }
  unfold adjusted_reference at 1. cbv zeta.
  destruct (_ || startswith (lit "/") _) eqn:H1.
  - exists path. split; [reflexivity|]. split; [exact Hne|]. split; [exact Hpath|].
    unfold adjusted_reference. cbv zeta. rewrite H1. reflexivity.
  - destruct (str_eqb bang (lit "!") || _) eqn:H2.
    + destruct (startswith (lit "./") _) eqn:H3.
      * eexists. split; [reflexivity|]. apply Hnew.
        apply (all_chars_incl _ _ _ (incl_skipn 2 _) Hstrip).
      * destruct (startswith (lit "../") _) eqn:H4.
        -- exists path. split; [reflexivity|]. split; [exact Hne|]. split; [exact Hpath|].
           unfold adjusted_reference. cbv zeta. rewrite H1, H2, H3, H4. reflexivity.
        -- eexists. split; [reflexivity|]. apply Hnew. exact Hstrip.
    + exists path. split; [reflexivity|]. split; [exact Hne|]. split; [exact Hpath|].
      unfold adjusted_reference. cbv zeta. rewrite H1, H2. reflexivity.
Qed.

Lemma adjusts_fixed (n : nat) (line out : str) :
  adjusts (S n) line out -> adjusts (S n) out out.
Proof.
  induction 1 as [t Ht | pre bang text path rest rest' Hpre Hbang Htext Hne Hpath Hrest IH].
  - apply adjusts_tail. exact Ht.
  - destruct (adjusted_reference_fixed n bang text path Hne Hpath)
      as [path' [Heq [Hne' [Hpath' Hfix]]]].
    rewrite Heq. rewrite <- Hfix at 2.
    apply adjusts_reference; assumption.
Qed.

(** X9: adjusting the paths of an adjusted line changes nothing: no path gains
    parent-directory prefixes twice. *)
Theorem adjustment_is_idempotent :
  forall (levels_up : nat) (line out : str),
    0 < levels_up ->
    adjusts levels_up line out ->
    Split.adjust_relative_path (Split.adjust_relative_path line levels_up) levels_up
    = Split.adjust_relative_path line levels_up.
Proof.
  intros levels_up line out Hpos Hadj.
  destruct levels_up as [|n]; [lia|].
  assert (Hout : Split.adjust_relative_path line (S n) = out).
  { unfold Split.adjust_relative_path, re_sub.
    apply (sub_adjusts (S n) line out Hadj []). lia. }
  rewrite Hout. unfold Split.adjust_relative_path, re_sub.
  apply (sub_adjusts (S n) out out (adjusts_fixed n line out Hadj) []). lia.
Qed.

Lemma adjustment_is_idempotent_witness :
  Split.adjust_relative_path (Split.adjust_relative_path (lit "![x](./img.png)") 2) 2
  = Split.adjust_relative_path (lit "![x](./img.png)") 2.
Proof.
  apply (adjustment_is_idempotent 2 (lit "![x](./img.png)") (lit "![x](../../img.png)"));
    [lia|].
  apply (adjusts_reference 2 [] (lit "!") (lit "x") (lit "./img.png") [] []);
    [reflexivity | right; reflexivity | reflexivity | discriminate | reflexivity |].
  apply adjusts_tail. reflexivity.
Defined.

(** ** Collapsible blocks, line by line *)

Lemma details_step_lines (st st' : details_state) (line : str) :
  snd (details_step st line) = snd (details_step st' line).
Proof.
  unfold details_step.
  destruct (contains (lit "<details>") _); [reflexivity|].
  destruct (contains (lit "<summary>") _); [reflexivity|].
  destruct (contains (lit "</summary>") _); [reflexivity|].
  destruct (contains (lit "</details>") _); reflexivity.
Qed.

Lemma details_from_cons (st : details_state) (line : str) (rest : list str) :
  details_from st (line :: rest)
  = snd (details_step st line) ++ details_from (fst (details_step st line)) rest.
Proof. simpl. destruct (details_step st line). reflexivity. Qed.

Lemma details_from_any (lines : list str) :
  forall st st', details_from st lines = details_from st' lines.
Proof.
  induction lines as [|l lines IH]; intros st st'; [reflexivity|].
  rewrite !details_from_cons. rewrite (details_step_lines st st' l).
  f_equal. apply IH.
Qed.

Lemma details_from_app (a b : list str) :
  forall st, details_from st (a ++ b) = details_from st a ++ details_from st b.
Proof.
  induction a as [|l a IH]; intros st; [reflexivity|].
  cbn [app]. rewrite !details_from_cons, IH, <- app_assoc. f_equal. f_equal.
  apply details_from_any.
Qed.

(** X10: the expansion of collapsible blocks treats each line on its own, whatever
    the lines before it: a line that mentions none of the four tags is kept;
    a line that mentions a summary tag or the closing tag of a block is
    dropped with all its text, also when no block was opened; a line that
    mentions the opening tag gives no line or one line, never a blank one. *)
Theorem collapsible_blocks_line_by_line :
  (forall a b : list str,
     process_details_blocks (a ++ b) = process_details_blocks a ++ process_details_blocks b)
  /\ (forall line : str,
        mentions "<details>" line = false -> mentions "<summary>" line = false ->
        mentions "</summary>" line = false -> mentions "</details>" line = false ->
        process_details_blocks [line] = [line])
  /\ (forall line : str,
        mentions "<details>" line = false ->
        mentions "<summary>" line || mentions "</summary>" line
          || mentions "</details>" line = true ->
        process_details_blocks [line] = [])
  /\ (forall line : str,
        mentions "<details>" line = true ->
        process_details_blocks [line] = []
        \/ exists clean, process_details_blocks [line] = [clean] /\ ~ blank clean).
Proof.
  unfold process_details_blocks, mentions. split; [|split; [|split]].
  - intros a b. apply details_from_app.
  - intros line H1 H2 H3 H4. cbn [details_from]. unfold details_step.
    rewrite H1, H2, H3, H4. reflexivity.
  - intros line H1 H. cbn [details_from]. unfold details_step. rewrite H1.
    destruct (contains (lit "<summary>") _); [reflexivity|].
    destruct (contains (lit "</summary>") _); [reflexivity|].
    cbn [orb] in H. rewrite H. reflexivity.
  - intros line H1. cbn [details_from]. unfold details_step. rewrite H1.
    cbv zeta. cbn [snd fst].
    destruct (strip (re_sub _ _ line)) eqn:Hs; [left; reflexivity|].
    right. eexists. split; [reflexivity|]. unfold blank. rewrite Hs. discriminate.
Qed.

Lemma collapsible_blocks_line_by_line_witness :
  process_details_blocks [lit "text"] = [lit "text"]
  /\ process_details_blocks [lit "answer </DETAILS> more"] = [].
Proof.
  split.
  - apply (proj1 (proj2 collapsible_blocks_line_by_line) (lit "text")); reflexivity.
  - apply (proj1 (proj2 (proj2 collapsible_blocks_line_by_line))
             (lit "answer </DETAILS> more")); reflexivity.
Defined.

(** ** Nested lists, line by line *)

Lemma unify_from_cons (ctx : list_context) (line : str) (rest : list str) :
  unify_from ctx (line :: rest)
  = snd (unify_step ctx line) :: unify_from (fst (unify_step ctx line)) rest.
Proof. simpl. destruct (unify_step ctx line). reflexivity. Qed.

Lemma not_item (line : str) :
  is_item line = false ->
  negb (is_some (re_match numbered_re (lstrip line)))
  && negb (is_some (re_match bullet_re (lstrip line))) = true.
Proof.
  unfold is_item. intros H. apply orb_false_iff in H. destruct H as [-> ->]. reflexivity.
Qed.

Lemma unify_step_not_item (ctx : list_context) (line : str) :
  is_item line = false -> snd (unify_step ctx line) = line.
Proof. intros H. unfold unify_step. cbv zeta. rewrite (not_item line H). reflexivity. Qed.

Lemma lstrip_not_indented (line : str) : stops is_space line -> lstrip line = line.
Proof.
  unfold lstrip. destruct line as [|c line]; [reflexivity|].
  simpl. intros ->. reflexivity.
Qed.

Lemma unify_step_not_indented (ctx : list_context) (line : str) :
  stops is_space line -> snd (unify_step ctx line) = line.
Proof.
  intros H. unfold unify_step. cbv zeta. rewrite (lstrip_not_indented line H).
  rewrite Nat.sub_diag. cbn [Nat.eqb orb Nat.leb].
  destruct (_ && _); reflexivity.
Qed.

(** X11: the unification of nested lists gives one line for each line, and
    rewrites indented list items only: a line that is not a list item, and a
    line that does not begin with white space, are returned as they are. *)
Theorem nested_lists_line_by_line :
  forall lines : list str,
    Forall2 (fun line out =>
               (is_item line = false -> out = line)
               /\ (stops is_space line -> out = line))
            lines (unify_nested_list_types lines).
Proof.
  intros lines. unfold unify_nested_list_types. generalize initial_context as ctx.
  induction lines as [|l lines IH]; intros ctx; [constructor|].
  rewrite unify_from_cons. constructor; [|apply IH]. split.
  - apply unify_step_not_item.
  - apply unify_step_not_indented.
Qed.

Lemma unify_step_ends_list (ctx : list_context) (line : str) :
  is_item line = false -> stops is_space line ->
  unify_step ctx line = (initial_context, line).
Proof.
  intros Hitem Hstop. unfold unify_step. cbv zeta.
  rewrite (not_item line Hitem), (lstrip_not_indented line Hstop), Nat.sub_diag.
  reflexivity.
Qed.

(** X12: a line that is not a list item and does not begin with white space (an
    empty line, a paragraph) ends every list: the lines after it are treated
    as a document of their own, so that an indented item that comes next has
    no parent and is kept as it is. *)
Theorem unindented_text_ends_the_lists :
  forall (pre : list str) (line : str) (rest : list str),
    is_item line = false -> stops is_space line ->
    unify_nested_list_types (pre ++ line :: rest)
    = unify_nested_list_types (pre ++ [line]) ++ unify_nested_list_types rest.
Proof.
  intros pre line rest Hitem Hstop. unfold unify_nested_list_types.
  generalize initial_context at 1 2 as ctx.
  induction pre as [|l pre IH]; intros ctx.
  - cbn [app]. rewrite !unify_from_cons, (unify_step_ends_list ctx line Hitem Hstop).
    reflexivity.
  - cbn [app]. rewrite !unify_from_cons, IH. reflexivity.
Qed.

Lemma unindented_text_ends_the_lists_witness :
  unify_nested_list_types ([lit "1. a"] ++ [] :: [lit "   - b"])
  = unify_nested_list_types ([lit "1. a"] ++ [[]]) ++ unify_nested_list_types [lit "   - b"].
Proof.
  apply (unindented_text_ends_the_lists [lit "1. a"] [] [lit "   - b"]); reflexivity.
Defined.

(** ** The number of lines *)

Lemma details_from_length (lines : list str) :
  forall st, length (details_from st lines) <= length lines.
Proof.
  induction lines as [|l lines IH]; intros st; [simpl; lia|].
  rewrite details_from_cons, length_app. cbn [length].
  specialize (IH (fst (details_step st l))).
  assert (Hone : length (snd (details_step st l)) <= 1).
  { unfold details_step.
    destruct (contains (lit "<details>") _).
    - cbv zeta. cbn [snd]. destruct (strip _); simpl; lia.
    - destruct (contains (lit "<summary>") _); [simpl; lia|].
      destruct (contains (lit "</summary>") _); [simpl; lia|].
      destruct (contains (lit "</details>") _); simpl; lia. }
  lia.
Qed.

Lemma unify_from_length (lines : list str) :
  forall ctx, length (unify_from ctx lines) = length lines.
Proof.
  induction lines as [|l lines IH]; intros ctx; [reflexivity|].
  rewrite unify_from_cons. cbn [length]. rewrite IH. reflexivity.
Qed.

Lemma process_lines_length (lines : list str) :
  forall b, length (process_lines b lines) <= length lines.
Proof.
  induction lines as [|l lines IH]; intros b; [simpl; lia|].
  rewrite process_lines_cons. cbn [length].
  destruct (startswith fence (strip l)); [cbn [length]; specialize (IH (negb b)); lia|].
  destruct b; [cbn [length]; specialize (IH true); lia|].
  specialize (IH false).
  destruct (remove_show_answer_headers l); cbn [length]; lia.
Qed.

(** X13: the rewrite pipeline never adds a line: it writes at most as many lines
    as it read. *)
Theorem pipeline_adds_no_line :
  forall lines : list str, length (simplify_lines lines) <= length lines.
Proof.
  intros lines. unfold simplify_lines, unify_nested_list_types, process_details_blocks.
  pose proof (process_lines_length
                (unify_from initial_context
                   (details_from (DetailsState false false []) lines)) false) as H1.
  rewrite unify_from_length in H1.
  pose proof (details_from_length lines (DetailsState false false [])) as H2.
  lia.
Qed.

(** ** Where the characters of the output come from *)

(** X14: the two scripts invent no text: every character of the text written by
    the rewrite pipeline, and of every section file written by the splitter,
    is a character of the input file, a newline, or one of the characters of
    the replacement texts. *)
Theorem output_characters_come_from_the_input :
  forall (content : str) (c : char),
    (In c (simplify_markdown_file content) ->
       In c content \/ In c template_chars \/ c = LF)
    /\ (forall (filename : str) (levels_up : nat) (name text : str),
          In (name, text) (Split.split_file filename content levels_up) ->
          In c text ->
          In c content \/ In c template_chars \/ c = LF).
Proof.
  intros content c.
  pose (P := one_of (content ++ template_chars ++ [LF])).
  assert (HP : forall x, P x = true -> In x content \/ In x template_chars \/ x = LF).
  { intros x Hx. unfold P, one_of in Hx. apply existsb_exists in Hx.
    destruct Hx as [y [Hin Hy]]. apply N.eqb_eq in Hy. subst y.
    apply in_app_or in Hin. destruct Hin as [H|H]; [left; exact H|].
    apply in_app_or in H. destruct H as [H|H]; [right; left; exact H|].
    right. right. destruct H as [H|[]]. symmetry. exact H. }
  assert (HPin : forall x, In x (content ++ template_chars ++ [LF]) -> P x = true).
  { intros x Hx. unfold P, one_of. apply existsb_exists. exists x.
    split; [exact Hx | apply N.eqb_refl]. }
  assert (Htmpl : all_chars P template_chars).
  { apply all_chars_In. intros x Hx. apply HPin.
    apply in_or_app. right. apply in_or_app. left. exact Hx. }
  assert (Hlines : Forall (all_chars P) (readlines content)).
  { unfold readlines. apply split_keepends_keeps; [|reflexivity].
    apply (translate_newlines_keeps_upto P (length content)); [|lia|].
    - apply HPin. apply in_or_app. right. apply in_or_app. right. left. reflexivity.
    - apply all_chars_In. intros x Hx. apply HPin. apply in_or_app. left. exact Hx. }
  split.
  - intros Hc. apply HP.
    assert (Hout : all_chars P (simplify_markdown_file content)).
    { unfold simplify_markdown_file. cbv zeta. apply all_chars_join.
      - apply all_chars_cons. split; [|reflexivity].
        apply HPin. apply in_or_app. right. apply in_or_app. right. left. reflexivity.
      - apply simplify_lines_keep; [exact Htmpl|].
        apply Forall_map. eapply Forall_impl; [|exact Hlines].
        intros l Hl. apply (all_chars_incl _ _ _ (incl_rstrip_with _ _) Hl). }
    unfold all_chars in Hout. apply (proj1 (forallb_forall _ _) Hout c Hc).
  - intros filename levels_up name text Hin Hc. apply HP.
    assert (Hout : Forall (fun f => all_chars P (snd f))
                          (Split.split_file filename content levels_up)).
    { unfold Split.split_file, Split.parse_markdown_file. cbv zeta.
      pose proof (parse_lines_keeps P _ Hlines) as Hsec.
      destruct (Split.parse_lines (readlines content)) as [|s0 secs]; [constructor|].
      unfold Split.save_sections. apply save_from_keeps; assumption. }
    pose proof (proj1 (Forall_forall _ _) Hout _ Hin) as Htext. cbn [snd] in Htext.
    unfold all_chars in Htext. apply (proj1 (forallb_forall _ _) Htext c Hc).
Qed.

Lemma output_characters_come_from_the_input_witness :
  In (ch "#") (lit "# a") \/ In (ch "#") template_chars \/ ch "#" = LF.
Proof.
  apply (proj1 (output_characters_come_from_the_input (lit "# a") (ch "#"))).
  vm_compute. tauto.
Defined.

(** ** What a substitution does to the subject as a whole

    A relation between texts that holds between a text and itself, is kept
    by concatenation, and holds between every match and its replacement,
    holds between the subject and the result of the substitution. *)

Section SubRel.

Variable R : str -> str -> Prop.
Hypothesis R_nil : R [] [].
Hypothesis R_cons : forall c x y, R x y -> R (c :: x) (c :: y).
Hypothesis R_app : forall x1 y1 x2 y2, R x1 y1 -> R x2 y2 -> R (x1 ++ x2) (y1 ++ y2).

Variables (r : re) (repl : (nat -> str) -> str) (s : str).
Hypothesis R_match : forall i st,
  match_at r s i = Some st -> R (slice s i (pos st)) (repl (group s i st)).

Lemma R_refl (x : str) : R x x.
Proof. induction x as [|c x IH]; [exact R_nil | apply R_cons, IH]. Qed.

Lemma skipn_slice (i j : nat) :
  i <= j -> skipn i s = slice s i j ++ skipn j s.
Proof.
  intros Hij. unfold slice.
  replace (skipn j s) with (skipn (j - i) (skipn i s))
    by (rewrite skipn_skipn; f_equal; lia).
  symmetry. apply firstn_skipn.
Qed.

Lemma sub_from_rel :
  forall fuel i, R (skipn i s) (sub_from r repl s fuel i).
Proof.
  induction fuel as [|fuel IH]; intros i; [apply R_refl|].
  cbn [sub_from].
  assert (Hcopy : R (skipn i s)
                    match nth_error s i with
                    | Some c => c :: sub_from r repl s fuel (S i)
                    | None => []
                    end).
  { destruct (nth_error s i) as [c|] eqn:Hc.
    - rewrite (skipn_nth_error s i c Hc). apply R_cons, IH.
    - rewrite skipn_all2 by (apply nth_error_None; exact Hc). exact R_nil. }
  destruct (match_at r s i) as [st|] eqn:Hm; [|exact Hcopy].
  pose proof (match_at_bounds r s i st Hm) as [Hlo _].
  rewrite (skipn_slice i (pos st) Hlo).
  apply R_app; [apply R_match; exact Hm|].
  destruct (i <? pos st) eqn:Hlt; [apply IH|].
  apply Nat.ltb_ge in Hlt. replace (pos st) with i by lia. exact Hcopy.
Qed.

Lemma re_sub_rel : R s (re_sub r repl s).
Proof. unfold re_sub. apply (sub_from_rel (S (length s)) 0). Qed.

End SubRel.

(** ** Deleting characters of a class *)

Lemma drops_refl (p : char -> bool) (s : str) : drops p s s.
Proof. induction s as [|c s IH]; [constructor | apply drops_keep, IH]. Qed.

Lemma drops_app (p : char -> bool) (x1 y1 x2 y2 : str) :
  drops p x1 y1 -> drops p x2 y2 -> drops p (x1 ++ x2) (y1 ++ y2).
Proof.
  intros H1 H2. induction H1 as [|c s t H IH|c s t Hc H IH]; simpl.
  - exact H2.
  - apply drops_keep, IH.
  - apply drops_drop; [exact Hc | exact IH].
Qed.

Lemma drops_all (p : char -> bool) (s : str) : all_chars p s -> drops p s [].
Proof.
  induction s as [|c s IH]; intros H; [constructor|].
  apply all_chars_cons in H. destruct H as [Hc Hs].
  apply drops_drop; [exact Hc | apply IH, Hs].
Qed.

Lemma drops_trans (p : char -> bool) (x y z : str) :
  drops p x y -> drops p y z -> drops p x z.
Proof.
  intros Hxy. revert z. induction Hxy as [|c s t H IH|c s t Hc H IH]; intros z Hyz.
  - exact Hyz.
  - inversion Hyz as [|c' s' t' H'|c' s' t' Hc' H']; subst.
    + apply drops_keep, IH, H'.
    + apply drops_drop; [exact Hc' | apply IH, H'].
  - apply drops_drop; [exact Hc | apply IH, Hyz].
Qed.

Lemma drops_weaken (p q : char -> bool) (x y : str) :
  (forall c, p c = true -> q c = true) -> drops p x y -> drops q x y.
Proof.
  intros Hpq H. induction H as [|c s t H IH|c s t Hc H IH].
  - constructor.
  - apply drops_keep, IH.
  - apply drops_drop; [apply Hpq, Hc | exact IH].
Qed.

(** ** The shape of a match *)

Lemma m_Cls_inv (s : str) (p : char -> bool) (st : mstate) (k : mstate -> option mstate)
  (res : mstate) :
  m s (Cls p) st k = Some res ->
  exists c rest,
    after st = c :: rest /\ p c = true
    /\ k (MState (S (pos st)) (c :: before st) rest (caps st)) = Some res.
Proof.
  cbn [m]. destruct (after st) as [|c rest]; [discriminate|].
  destruct (p c) eqn:Hc; [|discriminate].
  intros H. exists c, rest. repeat split; assumption.
Qed.

Lemma star_loop_cls_inv (s : str) (p : char -> bool) (k : mstate -> option mstate)
  (res : mstate) :
  forall fuel st,
    star_loop (m s (Cls p)) k fuel st = Some res ->
    exists run rest,
      after st = run ++ rest /\ all_chars p run
      /\ k (MState (pos st + length run) (rev run ++ before st) rest (caps st)) = Some res.
Proof.
  induction fuel as [|fuel IH]; intros st H.
  - exists [], (after st). simpl. rewrite Nat.add_0_r. destruct st. repeat split. exact H.
  - cbn [star_loop] in H.
    destruct (m s (Cls p) st _) as [res'|] eqn:Hbody.
    + injection H as ->. apply m_Cls_inv in Hbody.
      destruct Hbody as [c [rest [Ha [Hc Hk]]]]. cbn [pos] in Hk.
      destruct (pos st <? S (pos st)); [|discriminate].
      apply IH in Hk. destruct Hk as [run [rest' [Ha' [Hrun Hk]]]].
      cbn [pos before after caps] in Ha', Hk. subst rest.
      exists (c :: run), rest'. split; [exact Ha|]. split.
      * apply all_chars_cons. split; assumption.
      * cbn [length rev]. rewrite <- app_assoc. cbn [app].
        rewrite Nat.add_succ_r. exact Hk.
    + exists [], (after st). simpl. rewrite Nat.add_0_r. destruct st. repeat split. exact H.
Qed.

Lemma m_star_cls_inv (s : str) (p : char -> bool) (st : mstate)
  (k : mstate -> option mstate) (res : mstate) :
  m s (Star (Cls p)) st k = Some res ->
  exists run rest,
    after st = run ++ rest /\ all_chars p run
    /\ k (MState (pos st + length run) (rev run ++ before st) rest (caps st)) = Some res.
Proof. rewrite m_Star. apply star_loop_cls_inv. Qed.

Lemma m_plus_cls_inv (s : str) (p : char -> bool) (st : mstate)
  (k : mstate -> option mstate) (res : mstate) :
  m s (Plus (Cls p)) st k = Some res ->
  exists run rest,
    after st = run ++ rest /\ run <> [] /\ all_chars p run
    /\ k (MState (pos st + length run) (rev run ++ before st) rest (caps st)) = Some res.
Proof.
  unfold Plus. rewrite m_Seq. intros H. apply m_Cls_inv in H.
  destruct H as [c [rest [Ha [Hc H]]]]. apply m_star_cls_inv in H.
  destruct H as [run [rest' [Ha' [Hrun Hk]]]]. cbn [pos before after caps] in Ha', Hk.
  subst rest. exists (c :: run), rest'. split; [exact Ha|]. split; [discriminate|]. split.
  - apply all_chars_cons. split; assumption.
  - cbn [length rev]. rewrite <- app_assoc. cbn [app]. rewrite Nat.add_succ_r. exact Hk.
Qed.

Lemma m_Chr_inv (s : str) (x : char) (st : mstate) (k : mstate -> option mstate)
  (res : mstate) :
  m s (Chr x) st k = Some res ->
  exists rest,
    after st = x :: rest
    /\ k (MState (S (pos st)) (x :: before st) rest (caps st)) = Some res.
Proof.
  unfold Chr. intros H. apply m_Cls_inv in H. destruct H as [c [rest [Ha [Hc H]]]].
  apply N.eqb_eq in Hc. subst c. exists rest. split; assumption.
Qed.

Lemma m_NotAhead_inv (s : str) (p : char -> bool) (st : mstate)
  (k : mstate -> option mstate) (res : mstate) :
  m s (NotAhead p) st k = Some res -> k st = Some res.
Proof.
  cbn [m]. destruct (after st) as [|c rest]; [exact (fun H => H)|].
  destruct (p c); [discriminate | exact (fun H => H)].
Qed.

Lemma m_NotBehind_inv (s : str) (p : char -> bool) (st : mstate)
  (k : mstate -> option mstate) (res : mstate) :
  m s (NotBehind p) st k = Some res -> k st = Some res.
Proof.
  cbn [m]. destruct (before st) as [|c rest]; [exact (fun H => H)|].
  destruct (p c); [discriminate | exact (fun H => H)].
Qed.

(** The parts of the subject that a match and its groups cover, read off the
    text that follows the start of the match. *)
Lemma slice_of_skipn (s : str) (i : nat) (x y z : str) (a b : nat) :
  skipn i s = x ++ y ++ z -> a = i + length x -> b = i + length x + length y ->
  slice s a b = y.
Proof.
  intros Hs -> ->. unfold slice.
  replace (i + length x + length y - (i + length x)) with (length y) by lia.
  rewrite Nat.add_comm, <- skipn_skipn, Hs.
  rewrite skipn_app, Nat.sub_diag, skipn_all. simpl.
  rewrite firstn_app, Nat.sub_diag, firstn_all. simpl. apply app_nil_r.
Qed.

Lemma m_Lit_inv (s : str) (t : str) :
  forall (st : mstate) (k : mstate -> option mstate) (res : mstate),
    m s (Lit t) st k = Some res ->
    exists rest,
      after st = t ++ rest
      /\ k (MState (pos st + length t) (rev t ++ before st) rest (caps st)) = Some res.
Proof.
  induction t as [|c t IH]; intros st k res H.
  - exists (after st). simpl. rewrite Nat.add_0_r. destruct st. split; [reflexivity | exact H].
  - cbn [Lit] in H. rewrite m_Seq in H. apply m_Chr_inv in H.
    destruct H as [rest [Ha H]]. apply IH in H. destruct H as [rest' [Ha' H]].
    cbn [pos before after caps] in Ha', H. subst rest.
    exists rest'. split; [exact Ha|].
    cbn [length rev]. rewrite <- app_assoc. cbn [app]. rewrite Nat.add_succ_r. exact H.
Qed.

Ltac mnorm H :=
  cbv beta in H; cbn [pos before after caps] in H;
  repeat (rewrite ?m_Seq, ?m_Grp, ?m_Eps in H; cbv beta in H).

(** A match of the pattern of inline code is a backtick, the text of group
    1, and a backtick. *)
Lemma code_re_shape (s : str) (i : nat) (st : mstate) :
  match_at code_re s i = Some st ->
  exists c,
    slice s i (pos st) = [backtick] ++ c ++ [backtick] /\ group s i st 1 = c.
Proof.
  unfold match_at, code_re. cbn [Cat]. rewrite !m_Seq. intros H.
  apply m_Chr_inv in H. destruct H as [r1 [Ha H]]. mnorm H.
  apply m_plus_cls_inv in H.
  destruct H as [c [r2 [Ha2 [_ [_ H]]]]]. mnorm H. cbn [pos before after caps state_at] in *.
  apply m_Chr_inv in H. destruct H as [r3 [Ha3 H]]. mnorm H. cbn [pos before after caps] in *.
  injection H as <-. subst r1 r2. exists c. cbn [pos group caps lookup Nat.eqb]. split.
  - apply (slice_of_skipn s i [] ([backtick] ++ c ++ [backtick]) r3);
      [rewrite Ha, <- !app_assoc; reflexivity | simpl; lia
      | rewrite !length_app; simpl; lia].
  - apply (slice_of_skipn s i [backtick] c (backtick :: r3));
      [exact Ha | simpl; lia | simpl; lia].
Qed.

(** A match of the pattern of bold text is two asterisks, the text of group
    1, and two asterisks. *)
Lemma bold_re_shape (s : str) (i : nat) (st : mstate) :
  match_at bold_re s i = Some st ->
  exists c,
    slice s i (pos st) = [star; star] ++ c ++ [star; star] /\ group s i st 1 = c.
Proof.
  unfold match_at, bold_re. cbn [Cat]. rewrite !m_Seq. intros H.
  apply m_Lit_inv in H. destruct H as [r1 [Ha H]]. mnorm H.
  apply m_plus_cls_inv in H.
  destruct H as [c [r2 [Ha2 [_ [_ H]]]]]. mnorm H. cbn [pos before after caps state_at] in *.
  apply m_Lit_inv in H. destruct H as [r3 [Ha3 H]]. mnorm H. cbn [pos before after caps] in *.
  injection H as <-. subst r1 r2. exists c. cbn [pos group caps lookup Nat.eqb]. split.
  - apply (slice_of_skipn s i [] ([star; star] ++ c ++ [star; star]) r3);
      [rewrite Ha, <- !app_assoc; reflexivity | simpl; lia
      | rewrite !length_app; simpl; lia].
  - apply (slice_of_skipn s i [star; star] c (lit "**" ++ r3));
      [exact Ha | simpl; lia | simpl; lia].
Qed.

(** A match of the pattern of italic text is an asterisk, the text of group
    1, and an asterisk. *)
Lemma italic_re_shape (s : str) (i : nat) (st : mstate) :
  match_at italic_re s i = Some st ->
  exists c,
    slice s i (pos st) = [star] ++ c ++ [star] /\ group s i st 1 = c.
Proof.
  unfold match_at, italic_re. cbn [Cat]. rewrite !m_Seq. intros H.
  apply m_NotBehind_inv in H. mnorm H.
  apply m_Chr_inv in H. destruct H as [r1 [Ha H]]. mnorm H.
  apply m_NotAhead_inv in H. mnorm H.
  apply m_plus_cls_inv in H.
  destruct H as [c [r2 [Ha2 [_ [_ H]]]]]. mnorm H. cbn [pos before after caps state_at] in *.
  apply m_Chr_inv in H. destruct H as [r3 [Ha3 H]]. mnorm H. cbn [pos before after caps] in *.
  apply m_NotAhead_inv in H.
  injection H as <-. subst r1 r2. exists c. cbn [pos group caps lookup Nat.eqb]. split.
  - apply (slice_of_skipn s i [] ([star] ++ c ++ [star]) r3);
      [rewrite Ha, <- !app_assoc; reflexivity | simpl; lia
      | rewrite !length_app; simpl; lia].
  - apply (slice_of_skipn s i [star] c (star :: r3));
      [exact Ha | simpl; lia | simpl; lia].
Qed.

Lemma drops_span (x : char) (d c : str) :
  all_chars (N.eqb x) d -> drops (N.eqb x) (d ++ c ++ d) c.
Proof.
  intros Hd. rewrite <- (app_nil_l c) at 2. rewrite <- (app_nil_r c) at 2.
  apply drops_app; [apply drops_all; exact Hd|].
  apply drops_app; [apply drops_refl | apply drops_all; exact Hd].
Qed.

Lemma re_sub_drops (x : char) (r : re) (d : str) :
  all_chars (N.eqb x) d ->
  (forall s i st, match_at r s i = Some st ->
     exists c, slice s i (pos st) = d ++ c ++ d /\ group s i st 1 = c) ->
  forall s, drops (N.eqb x) s (re_sub r (fun g => g 1) s).
Proof.
  intros Hd Hshape s.
  apply (re_sub_rel (drops (N.eqb x)) (drops_nil _) (drops_keep _) (drops_app _)).
  intros i st Hm. destruct (Hshape s i st Hm) as [c [Hs Hg]].
  rewrite Hs, Hg. apply drops_span. exact Hd.
Qed.

(** X15: the three rules that remove markers in list items delete marker
    characters and nothing else: the result of the bold rule and of the
    italic rule is the line with some of its asterisks deleted, the result of
    the code rule is the line with some of its backticks deleted; no other
    character is removed, added or moved, whatever the line. *)
Theorem marker_rules_delete_markers_only :
  forall line : str,
    drops (N.eqb star) line (remove_bold_in_lists line)
    /\ drops (N.eqb backtick) line (remove_code_in_lists line)
    /\ drops (N.eqb star) line (remove_italic_in_lists line).
Proof.
  intros line. split; [|split].
  - unfold remove_bold_in_lists. destruct (is_list_item line); [|apply drops_refl].
    apply (re_sub_drops star bold_re [star; star] eq_refl bold_re_shape).
  - unfold remove_code_in_lists. destruct (is_list_item line); [|apply drops_refl].
    apply (re_sub_drops backtick code_re [backtick] eq_refl code_re_shape).
  - unfold remove_italic_in_lists. destruct (is_some _); [|apply drops_refl].
    apply (re_sub_drops star italic_re [star] eq_refl italic_re_shape).
Qed.

(** X16: the rule for mixed bold and italic text deletes asterisks and nothing
    else. *)
Theorem mixed_formatting_deletes_asterisks_only :
  forall line : str, drops (N.eqb star) line (simplify_mixed_formatting line).
Proof.
  intros line. unfold simplify_mixed_formatting. cbv zeta.
  destruct (_ && _); [|apply drops_refl].
  apply (drops_trans _ _ (re_sub bold_re (fun g => g 1) line)).
  - apply (re_sub_drops star bold_re [star; star] eq_refl bold_re_shape).
  - apply (re_sub_drops star italic_re [star] eq_refl italic_re_shape).
Qed.

Lemma backtick_to_star_refl (s : str) : Forall2 backtick_to_star s s.
Proof. induction s as [|c s IH]; constructor; [left; reflexivity | exact IH]. Qed.

(** X17: the rule for inline code changes backticks into asterisks, place by
    place, and nothing else: the result has the length of the line, and
    differs from it only where a backtick has become an asterisk. *)
Theorem inline_code_becomes_italic_in_place :
  forall line : str,
    Forall2 backtick_to_star line (remove_inline_code_everywhere line).
Proof.
  intros line. unfold remove_inline_code_everywhere.
  destruct (startswith fence (strip line)); [apply backtick_to_star_refl|].
  apply (re_sub_rel (Forall2 backtick_to_star)).
  - constructor.
  - intros c x y H. constructor; [left; reflexivity | exact H].
  - intros x1 y1 x2 y2 H1 H2. apply Forall2_app; assumption.
  - intros i st Hm. destruct (code_re_shape line i st Hm) as [c [Hs Hg]].
    rewrite Hs, Hg. apply Forall2_app; [constructor; [|constructor]|].
    + right. split; reflexivity.
    + apply Forall2_app; [apply backtick_to_star_refl|].
      constructor; [|constructor]. right. split; reflexivity.
Qed.

(** ** Bare URLs *)

Lemma cuts_refl (ts : list str) (s : str) : cuts ts s s.
Proof. induction s as [|c s IH]; [constructor | apply cuts_keep, IH]. Qed.

Lemma cuts_app (ts : list str) (x1 y1 x2 y2 : str) :
  cuts ts x1 y1 -> cuts ts x2 y2 -> cuts ts (x1 ++ x2) (y1 ++ y2).
Proof.
  intros H1 H2. induction H1 as [|c s t H IH|x s t Hx H IH].
  - exact H2.
  - cbn [app]. apply cuts_keep, IH.
  - rewrite <- app_assoc. apply cuts_cut; [exact Hx | exact IH].
Qed.

(** A match of the pattern of bare URLs is the protocol, with or without
    [s], and the text of group 1. *)
Lemma bare_url_re_shape (s : str) (i : nat) (st : mstate) :
  match_at bare_url_re s i = Some st ->
  exists proto u,
    In proto [lit "http://"; lit "https://"]
    /\ slice s i (pos st) = proto ++ u /\ group s i st 1 = u.
Proof.
  unfold match_at, bare_url_re, protocol. cbn [Cat]. rewrite !m_Seq. intros H.
  apply m_Lit_inv in H. destruct H as [r1 [Ha H]]. mnorm H.
  cbn [pos before after caps state_at] in *.
  unfold Opt in H. rewrite m_Alt in H.
  destruct (m s (Chr (ch "s")) _ _) as [res|] eqn:Hs.
  - injection H as ->. apply m_Chr_inv in Hs. destruct Hs as [r2 [Ha2 H]]. mnorm H.
    cbn [pos before after caps] in *.
    apply m_Lit_inv in H. destruct H as [r3 [Ha3 H]]. mnorm H. cbn [pos before after caps] in *.
    apply m_plus_cls_inv in H.
    destruct H as [u [r4 [Ha4 [_ [_ H]]]]]. mnorm H. cbn [pos before after caps] in *.
    injection H as <-. subst r1 r2 r3.
    exists (lit "https://"), u. split; [right; left; reflexivity|].
    cbn [pos group caps lookup Nat.eqb]. split.
    + apply (slice_of_skipn s i [] (lit "https://" ++ u) r4);
        [rewrite Ha, <- !app_assoc; reflexivity | simpl; lia
        | rewrite !length_app; simpl; lia].
    + apply (slice_of_skipn s i (lit "https://") u r4);
        [exact Ha | simpl; lia | simpl; lia].
  - mnorm H.
    apply m_Lit_inv in H. destruct H as [r3 [Ha3 H]]. mnorm H. cbn [pos before after caps] in *.
    apply m_plus_cls_inv in H.
    destruct H as [u [r4 [Ha4 [_ [_ H]]]]]. mnorm H. cbn [pos before after caps] in *.
    injection H as <-. subst r1 r3.
    exists (lit "http://"), u. split; [left; reflexivity|].
    cbn [pos group caps lookup Nat.eqb]. split.
    + apply (slice_of_skipn s i [] (lit "http://" ++ u) r4);
        [rewrite Ha, <- !app_assoc; reflexivity | simpl; lia
        | rewrite !length_app; simpl; lia].
    + apply (slice_of_skipn s i (lit "http://") u r4);
        [exact Ha | simpl; lia | simpl; lia].
Qed.

(** X18: the rule for bare URLs cuts occurrences of the two protocol prefixes out
    of the line and changes nothing else. *)
Theorem bare_urls_lose_the_protocol_only :
  forall line : str,
    cuts [lit "http://"; lit "https://"] line (remove_bare_urls line).
Proof.
  intros line. unfold remove_bare_urls.
  apply (re_sub_rel (cuts [lit "http://"; lit "https://"])
           (cuts_nil _) (cuts_keep _) (cuts_app _)).
  intros i st Hm. destruct (bare_url_re_shape line i st Hm) as [proto [u [Hin [Hs Hg]]]].
  rewrite Hs, Hg. apply cuts_cut; [exact Hin | apply cuts_refl].
Qed.

(** ** A fenced block in the loop *)

Lemma loop_copies_fenced_block_witness :
  process_lines false (fence :: [lit "# not a heading"] ++ fence :: [lit "# a"])
  = fence :: [lit "# not a heading"] ++ fence :: process_lines false [lit "# a"].
Proof.
  apply (loop_copies_fenced_block fence fence [lit "# not a heading"] [lit "# a"]);
    [reflexivity | constructor; [reflexivity | constructor] | reflexivity].
Defined.

(** ** Text in which a pattern has no match *)

Lemma m_fails (s : str) (r : re) :
  forall st, m s r st (fun _ => None) = None.
Proof.
  induction r as [|p|a IHa b IHb|a IHa b IHb|a IHa|n a IHa| | | |p|p|ic n]; intros st.
  - reflexivity.
  - cbn [m]. destruct (after st) as [|c rest]; [reflexivity|]. destruct (p c); reflexivity.
  - rewrite m_Seq. rewrite (m_ext s a st _ (fun _ => None)); [apply IHa|].
    intros st' _. apply IHb.
  - rewrite m_Alt, IHa, IHb. reflexivity.
  - rewrite m_Star. generalize (S (length (after st))) as fuel. intros fuel. revert st.
    induction fuel as [|fuel IHf]; intros st; [reflexivity|].
    cbn [star_loop]. rewrite (m_ext s a st _ (fun _ => None)); [rewrite IHa; reflexivity|].
    intros st' _. destruct (pos st <? pos st'); [apply IHf | reflexivity].
  - rewrite m_Grp. apply IHa.
  - rewrite m_Bol. destruct (Nat.eqb (pos st) 0); reflexivity.
  - cbn [m]. destruct (after st) as [|c [|c' rest]]; try reflexivity.
    destruct (N.eqb c LF); reflexivity.
  - cbn [m]. destruct (xorb _ _); reflexivity.
  - cbn [m]. destruct (before st) as [|c rest]; [reflexivity|]. destruct (p c); reflexivity.
  - cbn [m]. destruct (after st) as [|c rest]; [reflexivity|]. destruct (p c); reflexivity.
  - cbn [m]. destruct (lookup n (caps st)) as [[a b]|]; [|reflexivity].
    destruct (eat _ _ st); reflexivity.
Qed.

(** A pattern with a part that refuses the characters of [q] has no match in
    a text made of them. *)
Lemma refuses_fails (q : char -> bool) (s : str) (r : re) :
  refuses q r ->
  forall st k, all_chars q (after st) -> m s r st k = None.
Proof.
  induction r as [|p|a IHa b IHb|a IHa b IHb|a IHa|n a IHa| | | |p|p|ic n];
    cbn [refuses]; intros Hr st k Hq; try contradiction.
  - cbn [m]. destruct (after st) as [|c rest]; [reflexivity|].
    apply all_chars_cons in Hq. rewrite (Hr c (proj1 Hq)). reflexivity.
  - rewrite m_Seq. destruct Hr as [Hr|Hr]; [apply IHa; assumption|].
    rewrite (m_ext s a st _ (fun _ => None)); [apply m_fails|].
    intros st' [run [Ha _]]. apply IHb; [exact Hr|].
    rewrite Ha in Hq. apply all_chars_app in Hq. apply Hq.
  - rewrite m_Alt. destruct Hr as [Ha Hb]. rewrite IHa, IHb by assumption. reflexivity.
  - rewrite m_Grp. apply IHa; assumption.
Qed.

Lemma re_match_refused (q : char -> bool) (r : re) (s : str) :
  refuses q r -> all_chars q s -> re_match r s = None.
Proof.
  intros Hr Hs. unfold re_match, match_at.
  rewrite (refuses_fails q s r Hr); [reflexivity|]. exact Hs.
Qed.

Lemma re_sub_refused (q : char -> bool) (r : re) (repl : (nat -> str) -> str) (s : str) :
  refuses q r -> all_chars q s -> re_sub r repl s = s.
Proof.
  intros Hr Hs. unfold re_sub.
  apply (sub_from_copy_tail r repl q) with (pre := []); [|exact Hs].
  intros s0 i bef t Ht. apply (refuses_fails q s0 r Hr). exact Ht.
Qed.

Lemma refuses_Chr (q : char -> bool) (x : char) : q x = false -> refuses q (Chr x).
Proof.
  intros Hx c Hc. destruct (N.eqb x c) eqn:Heq; [|reflexivity].
  apply N.eqb_eq in Heq. subst c. congruence.
Qed.

Lemma refuses_Lit (q : char -> bool) (t : str) :
  existsb (fun x => negb (q x)) t = true -> refuses q (Lit t).
Proof.
  induction t as [|x t IH]; intros H; [discriminate H|].
  cbn [existsb] in H. cbn [Lit refuses].
  destruct (q x) eqn:Hx.
  - right. apply IH. exact H.
  - left. apply refuses_Chr. exact Hx.
Qed.

Lemma refuses_Cat (q : char -> bool) (rs : list re) :
  Exists (refuses q) rs -> refuses q (Cat rs).
Proof.
  induction 1 as [r rs Hr | r rs Hrs IH].
  - destruct rs; [exact Hr | left; exact Hr].
  - destruct rs as [|r' rs]; [inversion Hrs|]. right. exact IH.
Qed.

Lemma refuses_Plus (q : char -> bool) (a : re) : refuses q a -> refuses q (Plus a).
Proof. intros H. left. exact H. Qed.

(** The part of index [n] of a concatenation refuses. *)
Tactic Notation "part" integer(n) :=
  apply refuses_Cat; do n apply Exists_cons_tl; apply Exists_cons_hd.

Lemma plain_not_az (c : char) : plain c = true -> az c = false.
Proof.
  unfold plain. intros H. apply andb_true_iff in H. destruct H as [H _].
  apply andb_true_iff in H. destruct H as [_ H]. apply negb_true_iff. exact H.
Qed.

Lemma plain_not_emoji (c : char) : plain c = true -> is_emoji c = false.
Proof.
  unfold plain. intros H. apply andb_true_iff in H. destruct H as [_ H].
  apply negb_true_iff. exact H.
Qed.

Lemma space_is_plain (c : char) : is_space c = true -> plain c = true.
Proof.
  intros H. apply in_ranges_enum in H.
  assert (Hall : forallb plain (flat_map enum_range space_ranges) = true)
    by (vm_compute; reflexivity).
  apply (proj1 (forallb_forall _ _) Hall). exact H.
Qed.

(** ** Lines that no rule changes *)

Section Plain.

Variable line : str.
Hypothesis line_plain : all_chars plain line.

Lemma normalize_headers_plain : normalize_headers line = line.
Proof.
  unfold normalize_headers. rewrite (re_match_refused plain); [reflexivity| |exact line_plain].
  unfold header_re. part 1. left. left. apply refuses_Chr. reflexivity.
Qed.

Lemma remove_checklists_plain : remove_checklists line = line.
Proof.
  unfold remove_checklists. apply (re_sub_refused plain); [|exact line_plain].
  unfold checklist_re. part 3. apply refuses_Chr. reflexivity.
Qed.

Lemma fix_bold_colon_in_lists_plain : fix_bold_colon_in_lists line = line.
Proof.
  unfold fix_bold_colon_in_lists. cbv zeta.
  rewrite (re_match_refused plain bold_colon_inside_re); [| |exact line_plain].
  - rewrite (re_match_refused plain bold_colon_outside_re); [reflexivity| |exact line_plain].
    unfold bold_colon_outside_re. part 2. apply refuses_Lit. reflexivity.
  - unfold bold_colon_inside_re. part 2. apply refuses_Lit. reflexivity.
Qed.

Lemma code_sep_re_refuses (sep : char) : refuses plain (code_sep_re sep).
Proof. unfold code_sep_re. part 2. apply refuses_Chr. reflexivity. Qed.

Lemma fix_code_with_dash_in_lists_plain : fix_code_with_dash_in_lists line = line.
Proof.
  unfold fix_code_with_dash_in_lists, pattern_dash, pattern_colon, pattern_hyphen.
  rewrite !(re_match_refused plain (code_sep_re _) line (code_sep_re_refuses _) line_plain).
  reflexivity.
Qed.

Lemma bold_re_refuses : refuses plain bold_re.
Proof. unfold bold_re. part 0. apply refuses_Lit. reflexivity. Qed.

Lemma code_re_refuses : refuses plain code_re.
Proof. unfold code_re. part 0. apply refuses_Chr. reflexivity. Qed.

Lemma remove_bold_in_lists_plain : remove_bold_in_lists line = line.
Proof.
  unfold remove_bold_in_lists. destruct (is_list_item line); [|reflexivity].
  apply (re_sub_refused plain _ _ _ bold_re_refuses line_plain).
Qed.

Lemma remove_code_in_lists_plain : remove_code_in_lists line = line.
Proof.
  unfold remove_code_in_lists. destruct (is_list_item line); [|reflexivity].
  apply (re_sub_refused plain _ _ _ code_re_refuses line_plain).
Qed.

Lemma fix_emoji_at_list_start_plain : fix_emoji_at_list_start line = line.
Proof.
  unfold fix_emoji_at_list_start.
  rewrite (re_match_refused plain); [reflexivity| |exact line_plain].
  unfold emoji_pattern. part 2. left. exact plain_not_emoji.
Qed.

Lemma tag_re_refuses (tag : str) : refuses plain (tag_re tag).
Proof. unfold tag_re. part 0. apply refuses_Chr. reflexivity. Qed.

Lemma remove_html_tags_plain : remove_html_tags line = line.
Proof.
  unfold remove_html_tags. cbv zeta.
  rewrite !(re_sub_refused plain (tag_re _) _ line (tag_re_refuses _) line_plain).
  apply (re_sub_refused plain); [|exact line_plain].
  unfold any_tag_re. part 0. apply refuses_Chr. reflexivity.
Qed.

Lemma remove_blockquotes_plain : remove_blockquotes line = line.
Proof.
  unfold remove_blockquotes. apply (re_sub_refused plain); [|exact line_plain].
  unfold blockquote_re. right. left. cbn [refuses]. part 1. apply refuses_Chr. reflexivity.
Qed.

Lemma remove_bare_urls_plain : remove_bare_urls line = line.
Proof.
  unfold remove_bare_urls. apply (re_sub_refused plain); [|exact line_plain].
  unfold bare_url_re. left. unfold protocol. part 0. apply refuses_Lit. reflexivity.
Qed.

Lemma convert_markdown_links_plain : convert_markdown_links line = line.
Proof.
  unfold convert_markdown_links. apply (re_sub_refused plain); [|exact line_plain].
  unfold link_re. part 1. apply refuses_Chr. reflexivity.
Qed.

Lemma operator_re_refuses (op : str) :
  In op operators -> refuses plain (operator_re op).
Proof.
  intros Hop. unfold operator_re. part 1. cbn [refuses]. apply refuses_Lit.
  assert (Hall : forallb (fun op => existsb (fun x => negb (plain x)) op) operators = true)
    by (vm_compute; reflexivity).
  apply (proj1 (forallb_forall _ _) Hall). exact Hop.
Qed.

Lemma quote_operators_in_lists_plain : quote_operators_in_lists line = line.
Proof.
  unfold quote_operators_in_lists.
  destruct (startswith fence (strip line)); [reflexivity|].
  destruct (is_some _); [reflexivity|].
  assert (Hfold : forall ops, incl ops operators ->
            fold_left
              (fun line op =>
                 re_sub (operator_re op)
                   (fun g => g 1 ++ [dquote] ++ g 2 ++ [dquote] ++ g 3) line)
              ops line = line).
  { induction ops as [|op ops IH]; intros Hincl; [reflexivity|].
    cbn [fold_left].
    rewrite (re_sub_refused plain (operator_re op) _ line); [| |exact line_plain].
    - apply IH. intros x Hx. apply Hincl. right. exact Hx.
    - apply operator_re_refuses. apply Hincl. left. reflexivity. }
  apply Hfold. apply incl_refl.
Qed.

Lemma remove_inline_code_everywhere_plain : remove_inline_code_everywhere line = line.
Proof.
  unfold remove_inline_code_everywhere.
  destruct (startswith fence (strip line)); [reflexivity|].
  apply (re_sub_refused plain _ _ _ code_re_refuses line_plain).
Qed.

Lemma wrap_technical_terms_in_italic_plain : wrap_technical_terms_in_italic line = line.
Proof.
  unfold wrap_technical_terms_in_italic.
  destruct (startswith fence (strip line)); [reflexivity|].
  destruct (_ || _); [reflexivity|].
  destruct (_ || _); [reflexivity|].
  destruct (is_list_item line); [reflexivity|].
  cbv zeta. rewrite (re_sub_refused plain snake_case_re _ line); [| |exact line_plain].
  - apply (re_sub_refused plain); [|exact line_plain].
    unfold tech_term_re. part 2. cbn [refuses]. left. left. exact plain_not_az.
  - unfold snake_case_re. part 2. cbn [refuses]. part 0. exact plain_not_az.
Qed.

Lemma wrap_technical_terms_in_italic_except_images_plain :
  wrap_technical_terms_in_italic_except_images line = line.
Proof.
  unfold wrap_technical_terms_in_italic_except_images.
  destruct (re_search image_re line).
  - apply (re_sub_refused plain); [|exact line_plain].
    unfold image_re. part 0. cbn [refuses]. part 1. apply refuses_Chr. reflexivity.
  - apply wrap_technical_terms_in_italic_plain.
Qed.

Lemma remove_italic_in_lists_plain : remove_italic_in_lists line = line.
Proof.
  unfold remove_italic_in_lists. destruct (is_some _); [|reflexivity].
  apply (re_sub_refused plain); [|exact line_plain].
  unfold italic_re. part 1. apply refuses_Chr. reflexivity.
Qed.

End Plain.

Lemma apply_rules_plain (line : str) : all_chars plain line -> apply_rules line = line.
Proof.
  intros H. unfold apply_rules. cbv zeta.
  rewrite (normalize_headers_plain line H), (remove_checklists_plain line H),
    (fix_bold_colon_in_lists_plain line H), (fix_code_with_dash_in_lists_plain line H),
    (remove_bold_in_lists_plain line H), (remove_code_in_lists_plain line H),
    (fix_emoji_at_list_start_plain line H), (remove_html_tags_plain line H),
    (remove_blockquotes_plain line H), (remove_bare_urls_plain line H),
    (convert_markdown_links_plain line H), (quote_operators_in_lists_plain line H),
    (remove_inline_code_everywhere_plain line H),
    (wrap_technical_terms_in_italic_except_images_plain line H).
  apply remove_italic_in_lists_plain. exact H.
Qed.

(** X20: a line without any of the marks [# [ * ` < > ? =], without lower-case
    letter from [a] to [z] and without emoji goes through the fifteen rules of
    the loop unchanged, list item or not: each rule returns it as it is. *)
Theorem plain_lines_pass_unchanged :
  forall line : str,
    all_chars plain line ->
    apply_rules line = line
    /\ normalize_headers line = line /\ remove_checklists line = line
    /\ fix_bold_colon_in_lists line = line /\ fix_code_with_dash_in_lists line = line
    /\ remove_bold_in_lists line = line /\ remove_code_in_lists line = line
    /\ fix_emoji_at_list_start line = line /\ remove_html_tags line = line
    /\ remove_blockquotes line = line /\ remove_bare_urls line = line
    /\ convert_markdown_links line = line /\ quote_operators_in_lists line = line
    /\ remove_inline_code_everywhere line = line
    /\ wrap_technical_terms_in_italic_except_images line = line
    /\ remove_italic_in_lists line = line.
Proof.
  intros line H. split; [apply apply_rules_plain; exact H|].
  repeat split.
  - apply normalize_headers_plain; exact H.
  - apply remove_checklists_plain; exact H.
  - apply fix_bold_colon_in_lists_plain; exact H.
  - apply fix_code_with_dash_in_lists_plain; exact H.
  - apply remove_bold_in_lists_plain; exact H.
  - apply remove_code_in_lists_plain; exact H.
  - apply fix_emoji_at_list_start_plain; exact H.
  - apply remove_html_tags_plain; exact H.
  - apply remove_blockquotes_plain; exact H.
  - apply remove_bare_urls_plain; exact H.
  - apply convert_markdown_links_plain; exact H.
  - apply quote_operators_in_lists_plain; exact H.
  - apply remove_inline_code_everywhere_plain; exact H.
  - apply wrap_technical_terms_in_italic_except_images_plain; exact H.
  - apply remove_italic_in_lists_plain; exact H.
Qed.

Lemma plain_lines_pass_unchanged_witness :
  apply_rules (lit "- SELECT 1; (A, B)") = lit "- SELECT 1; (A, B)".
Proof.
  apply (proj1 (plain_lines_pass_unchanged (lit "- SELECT 1; (A, B)") eq_refl)).
Defined.

(** ** Blank lines *)

Lemma lstrip_with_nil (p : char -> bool) (s : str) :
  lstrip_with p s = [] -> all_chars p s.
Proof.
  induction s as [|c s IH]; intros H; [reflexivity|].
  simpl in H. destruct (p c) eqn:Hc; [|discriminate H].
  apply all_chars_cons. split; [exact Hc | apply IH, H].
Qed.

Lemma blank_all_space (line : str) : strip line = [] -> all_chars is_space line.
Proof.
  unfold strip, rstrip, rstrip_with, lstrip. intros H.
  assert (Hrev : lstrip_with is_space (rev (lstrip_with is_space line)) = []).
  { destruct (lstrip_with is_space (rev (lstrip_with is_space line))) as [|c r]; [reflexivity|].
    simpl in H. destruct (rev r); discriminate H. }
  apply lstrip_with_nil in Hrev. apply all_chars_rev in Hrev.
  rewrite rev_involutive in Hrev.
  apply lstrip_with_nil.
  pose proof (lstrip_with_stops is_space line) as Hstop.
  destruct (lstrip_with is_space line) as [|c r]; [reflexivity|].
  apply all_chars_cons in Hrev. simpl in Hstop. destruct Hrev as [Hc _]. congruence.
Qed.

Lemma lower_space (c : char) : is_space c = true -> lower_full c = [c].
Proof.
  intros H. apply in_ranges_enum in H.
  assert (Hall : forallb (fun x => str_eqb (lower_full x) [x])
                         (flat_map enum_range space_ranges) = true)
    by (vm_compute; reflexivity).
  apply str_eqb_eq. apply (proj1 (forallb_forall _ _) Hall). exact H.
Qed.

Lemma lower_blank (line : str) : all_chars is_space line -> lower line = line.
Proof.
  unfold lower. induction line as [|c line IH]; intros H; [reflexivity|].
  apply all_chars_cons in H. destruct H as [Hc Hl].
  cbn [flat_map]. rewrite (lower_space c Hc), IH by exact Hl. reflexivity.
Qed.

Lemma contains_none (q : char -> bool) (x : char) (t s : str) :
  q x = false -> all_chars q s -> contains (x :: t) s = false.
Proof.
  intros Hx. induction s as [|c s IH]; intros Hs; [reflexivity|].
  apply all_chars_cons in Hs. destruct Hs as [Hc Hs].
  cbn [contains startswith].
  destruct (N.eqb x c) eqn:Heq.
  - apply N.eqb_eq in Heq. subst c. congruence.
  - cbn [andb orb]. apply IH. exact Hs.
Qed.

Lemma details_step_blank (st : details_state) (line : str) :
  blankb line = true -> details_step st line = (st, [line]).
Proof.
  unfold blankb. intros H. destruct (strip line) eqn:Hs; [|discriminate H].
  apply blank_all_space in Hs. unfold details_step. rewrite (lower_blank line Hs).
  change (lit "<details>") with (ch "<" :: lit "details>").
  change (lit "<summary>") with (ch "<" :: lit "summary>").
  change (lit "</summary>") with (ch "<" :: lit "/summary>").
  change (lit "</details>") with (ch "<" :: lit "/details>").
  rewrite !(contains_none is_space (ch "<") _ line eq_refl Hs). reflexivity.
Qed.

Lemma blank_not_item (line : str) : blankb line = true -> is_item line = false.
Proof.
  unfold blankb. intros H. destruct (strip line) eqn:Hs; [|discriminate H].
  apply blank_all_space in Hs. unfold is_item, lstrip.
  rewrite <- (app_nil_r line). rewrite (lstrip_with_app is_space line [] Hs I).
  reflexivity.
Qed.

Lemma process_lines_blank (b : bool) (line : str) (rest : list str) :
  blankb line = true -> process_lines b (line :: rest) = line :: process_lines b rest.
Proof.
  unfold blankb. intros H. destruct (strip line) eqn:Hs; [|discriminate H].
  rewrite process_lines_cons, Hs. cbn [startswith fence].
  change (startswith fence []) with false. cbv iota.
  destruct b; [reflexivity|].
  unfold remove_show_answer_headers. rewrite Hs.
  rewrite apply_rules_plain; [reflexivity|].
  apply all_chars_In. intros c Hc. apply space_is_plain.
  apply blank_all_space in Hs. unfold all_chars in Hs.
  apply (proj1 (forallb_forall _ _) Hs c Hc).
Qed.

Lemma subseq_app_skip {A : Type} (x a b : list A) : subseq a b -> subseq a (x ++ b).
Proof. intros H. induction x as [|y x IH]; [exact H | apply subseq_skip, IH]. Qed.

Lemma subseq_trans {A : Type} (a b c : list A) :
  subseq a b -> subseq b c -> subseq a c.
Proof.
  intros Hab Hbc. revert a Hab.
  induction Hbc as [c | x b c Hbc IH | x b c Hbc IH]; intros a Hab.
  - inversion Hab; subst. constructor.
  - inversion Hab as [| y a' b' Hab' | y a' b' Hab']; subst.
    + constructor.
    + apply subseq_keep, IH, Hab'.
    + apply subseq_skip, IH, Hab'.
  - apply subseq_skip, IH, Hab.
Qed.

Lemma subseq_filter {A : Type} (f : A -> bool) (a b : list A) :
  subseq a b -> subseq (filter f a) (filter f b).
Proof.
  induction 1 as [b | x a b H IH | x a b H IH]; simpl.
  - constructor.
  - destruct (f x); [apply subseq_keep, IH | exact IH].
  - destruct (f x); [apply subseq_skip, IH | exact IH].
Qed.

Lemma filter_twice {A : Type} (f : A -> bool) (l : list A) :
  filter f (filter f l) = filter f l.
Proof.
  induction l as [|x l IH]; simpl; [reflexivity|].
  destruct (f x) eqn:Hx; simpl; rewrite ?Hx, IH; reflexivity.
Qed.

Lemma details_from_blank (lines : list str) :
  forall st, subseq (filter blankb lines) (details_from st lines).
Proof.
  induction lines as [|l lines IH]; intros st; [constructor|].
  rewrite details_from_cons. cbn [filter]. destruct (blankb l) eqn:Hl.
  - rewrite (details_step_blank st l Hl). cbn [fst snd app]. apply subseq_keep, IH.
  - apply subseq_app_skip, IH.
Qed.

Lemma unify_from_blank (lines : list str) :
  forall ctx, subseq (filter blankb lines) (unify_from ctx lines).
Proof.
  induction lines as [|l lines IH]; intros ctx; [constructor|].
  rewrite unify_from_cons. cbn [filter]. destruct (blankb l) eqn:Hl.
  - rewrite (unify_step_not_item ctx l (blank_not_item l Hl)). apply subseq_keep, IH.
  - apply subseq_skip, IH.
Qed.

Lemma process_lines_blanks (lines : list str) :
  forall b, subseq (filter blankb lines) (process_lines b lines).
Proof.
  induction lines as [|l lines IH]; intros b; [constructor|].
  cbn [filter]. destruct (blankb l) eqn:Hl.
  - rewrite (process_lines_blank b l lines Hl). apply subseq_keep, IH.
  - rewrite process_lines_cons.
    destruct (startswith fence (strip l)); [apply subseq_skip, IH|].
    destruct b; [apply subseq_skip, IH|].
    destruct (remove_show_answer_headers l); [apply subseq_skip, IH | apply IH].
Qed.

(** X21: blank lines are never lost and never changed: the blank lines of the
    document, in their order, are among the lines that the rewrite pipeline
    writes, wherever they stand (in a collapsible block, in a list, in a
    fenced block). *)
Theorem blank_lines_survive :
  forall lines : list str,
    subseq (filter blankb lines) (simplify_lines lines).
Proof.
  intros lines. unfold simplify_lines, unify_nested_list_types, process_details_blocks.
  set (d := details_from (DetailsState false false []) lines).
  set (u := unify_from initial_context d).
  assert (Hd : subseq (filter blankb lines) (filter blankb d)).
  { rewrite <- (filter_twice blankb lines). apply subseq_filter, details_from_blank. }
  assert (Hu : subseq (filter blankb d) (filter blankb u)).
  { rewrite <- (filter_twice blankb d). apply subseq_filter, unify_from_blank. }
  apply (subseq_trans _ _ _ Hd). apply (subseq_trans _ _ _ Hu).
  apply process_lines_blanks.
Qed.

(** ** Headings *)

Lemma hash_not_space (c : char) : is_space c = true -> N.eqb (ch "#") c = false.
Proof.
  intros H. destruct (N.eqb (ch "#") c) eqn:Heq; [|reflexivity].
  apply N.eqb_eq in Heq. subst c. discriminate H.
Qed.

(** X22: a line that begins with hash signs followed by white space is a heading
    when the hash signs are one to six: it becomes a heading of level 3 with
    the text that follows the white space, whatever the level was.  With no
    text after the white space, the last of two or more blanks is taken for
    the text, and a marker with one blank is not a heading.  With seven hash
    signs or more the line is kept. *)
Theorem headings_become_level_three :
  forall hashes ws text : str,
    all_chars (N.eqb (ch "#")) hashes ->
    ws <> [] -> all_chars is_space ws -> stops is_space text ->
    ~ In LF (ws ++ text) ->
    normalize_headers (hashes ++ ws ++ text)
    = if (1 <=? length hashes) && (length hashes <=? 6) then
        match text, ws with
        | _ :: _, _ => lit "### " ++ text
        | [], [_] => hashes ++ ws ++ text
        | [], _ => lit "### " ++ [last ws LF]
        end
      else hashes ++ ws ++ text.
Proof.
  intros hashes ws text Hh Hne Hws Htext Hnl.
  assert (Hstop : stops (N.eqb (ch "#")) (ws ++ text)).
  { destruct ws as [|w ws']; [contradiction|]. cbn [app stops].
    apply all_chars_cons in Hws. apply hash_not_space. apply Hws. }
  rewrite normalize_headers_text.
  - unfold header_text. cbv zeta.
    rewrite (take_while_app _ hashes (ws ++ text) Hh Hstop).
    rewrite (lstrip_with_app _ hashes (ws ++ text) Hh Hstop).
    destruct (_ && _); [|reflexivity].
    destruct ws as [|w ws']; [contradiction|]. cbn [app].
    apply all_chars_cons in Hws. destruct Hws as [Hw Hws']. rewrite Hw.
    rewrite (lstrip_with_app _ ws' text Hws' Htext).
    destruct text as [|c text']; [|reflexivity].
    rewrite app_nil_r. rewrite <- (app_nil_r ws') at 1.
    rewrite (take_while_app _ ws' [] Hws' I).
    destruct (snoc_cases ws') as [-> | [ws'' [x ->]]]; [reflexivity|].
    rewrite rev_app_distr. cbn [rev app].
    rewrite app_comm_cons, last_last.
    destruct ws''; reflexivity.
  - intros Hin. apply in_app_or in Hin. destruct Hin as [Hin | Hin]; [|exact (Hnl Hin)].
    unfold all_chars in Hh. apply (proj1 (forallb_forall _ _) Hh) in Hin. discriminate Hin.
Qed.

Lemma headings_become_level_three_witness :
  normalize_headers (lit "#####" ++ lit "  " ++ lit "Deep title")
  = lit "### " ++ lit "Deep title".
Proof.
  apply (headings_become_level_three (lit "#####") (lit "  ") (lit "Deep title"));
    [reflexivity | discriminate | reflexivity | reflexivity |].
  apply all_chars_not_In. reflexivity.
Defined.

(** ** Greedy repetitions that give characters back *)

Lemma greedy_none (k : mstate -> option mstate) :
  forall (run rest : str) (i : nat) (bef : str) cps,
    (forall run1 run2, run = run1 ++ run2 ->
       k (MState (i + length run1) (rev run1 ++ bef) (run2 ++ rest) cps) = None) ->
    greedy k i bef run rest cps = None.
Proof.
  induction run as [|c run IH]; intros rest i bef cps Hk.
  - cbn [greedy]. specialize (Hk [] [] eq_refl). simpl in Hk.
    rewrite Nat.add_0_r in Hk. exact Hk.
  - cbn [greedy]. rewrite IH.
    + specialize (Hk [] (c :: run) eq_refl). simpl in Hk.
      rewrite Nat.add_0_r in Hk. exact Hk.
    + intros run1 run2 Hrun. specialize (Hk (c :: run1) run2).
      cbn [length rev app] in Hk. rewrite <- app_assoc in Hk. cbn [app] in Hk.
      rewrite Nat.add_succ_r in Hk. apply Hk. rewrite Hrun. reflexivity.
Qed.

Lemma greedy_back (k : mstate -> option mstate) (res : mstate) :
  forall (run1 run2 rest : str) (i : nat) (bef : str) cps,
    (forall a b, run2 = a ++ b -> a <> [] ->
       k (MState (i + length (run1 ++ a)) (rev (run1 ++ a) ++ bef) (b ++ rest) cps) = None) ->
    k (MState (i + length run1) (rev run1 ++ bef) (run2 ++ rest) cps) = Some res ->
    greedy k i bef (run1 ++ run2) rest cps = Some res.
Proof.
  induction run1 as [|c run1 IH]; intros run2 rest i bef cps Hnone Hsome.
  - cbn [app length rev] in *. rewrite Nat.add_0_r in Hsome.
    destruct run2 as [|c run2]; [exact Hsome|].
    cbn [greedy]. rewrite greedy_none; [exact Hsome|].
    intros r1 r2 Hr. specialize (Hnone (c :: r1) r2).
    cbn [length rev app] in Hnone. rewrite <- app_assoc in Hnone. cbn [app] in Hnone.
    rewrite Nat.add_succ_r in Hnone. apply Hnone; [rewrite Hr; reflexivity | discriminate].
  - cbn [app greedy]. rewrite (IH run2 rest (S i) (c :: bef) cps); [reflexivity| |].
    + intros a b Hab Ha. specialize (Hnone a b Hab Ha).
      cbn [app length rev] in Hnone. rewrite <- app_assoc in Hnone. cbn [app] in Hnone.
      rewrite Nat.add_succ_r in Hnone. exact Hnone.
    + cbn [length rev] in Hsome. rewrite <- app_assoc in Hsome. cbn [app] in Hsome.
      rewrite Nat.add_succ_r in Hsome. exact Hsome.
Qed.

(** ** The prefix of a list item and the rest of a line *)

Lemma dash_not_digit (c : char) : is_digit c = true -> N.eqb (ch "-") c = false.
Proof.
  intros H. destruct (N.eqb (ch "-") c) eqn:Heq; [|reflexivity].
  apply N.eqb_eq in Heq. subst c. discriminate H.
Qed.

(** The prefix of a list item (indentation, marker, blanks) is matched as a
    whole when what follows it is accepted. *)
Lemma list_prefix_match (s : str) (k : mstate -> option mstate) (res : mstate)
  (ind mk : str) (kind : list_type) (ws rest : str) (i : nat) (bef : str) cps :
  all_chars is_space ind -> item_marker mk kind ->
  ws <> [] -> all_chars is_space ws -> stops is_space rest ->
  k (MState (i + length (ind ++ mk ++ ws)) (rev (ind ++ mk ++ ws) ++ bef) rest cps)
    = Some res ->
  m s list_prefix (MState i bef (ind ++ mk ++ ws ++ rest) cps) k = Some res.
Proof.
  intros Hind Hmk Hne Hws Hrest Hk.
  destruct ws as [|w1 wt]; [contradiction|].
  apply all_chars_cons in Hws. destruct Hws as [Hw1 Hwt].
  unfold list_prefix, ws_star, ws_plus, marker, digits, Plus, Chr. cbn [Cat]. mstep.
  rewrite m_star_cls; [|exact Hind|apply (item_marker_stops mk kind), Hmk].
  apply greedy_all. mstep. rewrite m_Alt.
  assert (Hend : forall (p : nat) (b : str),
            p + length (w1 :: wt) = i + length (ind ++ mk ++ w1 :: wt) ->
            rev (w1 :: wt) ++ b = rev (ind ++ mk ++ w1 :: wt) ++ bef ->
            m s (Seq (Cls is_space) (Star (Cls is_space)))
              (MState p b ((w1 :: wt) ++ rest) cps) k = Some res).
  { intros p b Hp Hb. cbn [app]. mstep. rewrite Hw1.
    rewrite m_star_cls; [|exact Hwt|exact Hrest].
    apply greedy_all.
    replace (S p + length wt) with (i + length (ind ++ mk ++ w1 :: wt))
      by (cbn [length] in Hp; lia).
    replace (rev wt ++ w1 :: b) with (rev (ind ++ mk ++ w1 :: wt) ++ bef)
      by (rewrite <- Hb; cbn [rev]; rewrite <- app_assoc; reflexivity).
    exact Hk. }
  destruct Hmk as [|ds Hds Hd].
  - cbn [app]. mstep. apply first_choice. apply Hend.
    + rewrite !length_app. cbn [length]. lia.
    + rewrite !rev_app_distr. cbn [rev app]. rewrite <- !app_assoc. reflexivity.
  - destruct ds as [|d1 dt]; [contradiction|].
    apply all_chars_cons in Hd. destruct Hd as [Hd1 Hdt].
    cbn [app]. mstep. rewrite (dash_not_digit d1 Hd1). mstep. rewrite Hd1.
    rewrite <- app_assoc. cbn [app].
    rewrite m_star_cls; [|exact Hdt|reflexivity].
    apply greedy_all. mstep. apply Hend.
    + rewrite ?length_app. cbn [length]. rewrite ?length_app. cbn [length]. lia.
    + rewrite ?rev_app_distr. cbn [rev app]. rewrite ?rev_app_distr. cbn [rev app].
      repeat (rewrite <- app_assoc; cbn [app]). reflexivity.
Qed.

(** The rest of a line, up to its end, as the group [n]. *)
Lemma rest_tail (n : nat) (s : str) (i : nat) (bef a : str) cps :
  a <> [] -> all_chars (not_char LF) a ->
  m s (Seq (Grp n rest_of_line) Eol) (MState i bef a cps) Some
  = Some (MState (i + length a) (rev a ++ bef) [] ((n, (i, i + length a)) :: cps)).
Proof.
  intros Hne Ha. destruct a as [|a1 at_]; [contradiction|].
  apply all_chars_cons in Ha. destruct Ha as [Ha1 Hat].
  unfold rest_of_line, Plus, Dot. mstep.
  change (negb (N.eqb a1 LF)) with (not_char LF a1). rewrite Ha1.
  rewrite <- (app_nil_r at_) at 1.
  rewrite m_star_cls; [|exact Hat|exact I].
  apply greedy_all. mstep. rewrite m_Eol_nil.
  cbn [length rev]. rewrite <- app_assoc. cbn [app].
  rewrite !Nat.add_succ_r, !Nat.add_succ_l. reflexivity.
Qed.

(** Blanks, then the rest of the line as the group [n]. *)
Lemma blanks_rest_tail (n : nat) (s : str) (i : nat) (bef ws a : str) cps :
  all_chars is_space ws -> a <> [] -> stops is_space a -> all_chars (not_char LF) a ->
  m s (Seq ws_star (Seq (Grp n rest_of_line) Eol)) (MState i bef (ws ++ a) cps) Some
  = Some (MState (i + length ws + length a) (rev a ++ rev ws ++ bef) []
            ((n, (i + length ws, i + length ws + length a)) :: cps)).
Proof.
  intros Hws Hne Hstop Ha. unfold ws_star. rewrite m_Seq.
  rewrite m_star_cls; [|exact Hws|exact Hstop].
  apply greedy_all. cbv beta. apply rest_tail; assumption.
Qed.

(** A substitution with a pattern that starts with [^]: the match at the
    start of the subject is replaced, the rest is copied. *)
Lemma re_sub_anchored (r : re) (repl : (nat -> str) -> str) (s : str) (st : mstate) :
  m s (Seq Bol r) (MState 0 [] s []) Some = Some st ->
  0 < pos st ->
  re_sub (Seq Bol r) repl s = repl (group s 0 st) ++ skipn (pos st) s.
Proof.
  intros Hm Hpos. unfold re_sub. cbn [sub_from]. unfold match_at.
  change (state_at s 0) with (MState 0 [] s []). rewrite Hm.
  assert (Hlt : (0 <? pos st) = true) by (apply Nat.ltb_lt; exact Hpos).
  rewrite Hlt. f_equal. apply sub_from_anchored. exact Hpos.
Qed.

(** ** Check boxes *)

Lemma bracket_not_space : stops is_space [ch "["].
Proof. reflexivity. Qed.

(** X23: a check box after the dash of a list item is removed, with the blanks
    around it: the item keeps its indentation and its dash, followed by one
    space and the text of the item. *)
Theorem checklist_boxes_removed :
  forall (ind ws1 : str) (box : char) (ws2 rest : str),
    all_chars is_space ind -> all_chars is_space ws1 ->
    one_of (lit " xX") box = true ->
    all_chars is_space ws2 -> stops is_space rest ->
    remove_checklists (ind ++ [ch "-"] ++ ws1 ++ [ch "["; box; ch "]"] ++ ws2 ++ rest)
    = ind ++ lit "- " ++ rest.
Proof.
  intros ind ws1 box ws2 rest Hind Hws1 Hbox Hws2 Hrest.
  set (line := ind ++ [ch "-"] ++ ws1 ++ [ch "["; box; ch "]"] ++ ws2 ++ rest).
  assert (Hm : exists st,
             m line checklist_re (MState 0 [] line []) Some = Some st
             /\ pos st = length (ind ++ [ch "-"] ++ ws1 ++ [ch "["; box; ch "]"] ++ ws2)
             /\ lookup 1 (caps st) = Some (0, length (ind ++ [ch "-"]))).
  { eexists. split; [|split].
    - unfold line at 2. unfold checklist_re, ws_star, Chr. cbn [Cat]. mstep.
      rewrite m_Bol. cbn [pos Nat.eqb]. mstep.
      rewrite m_star_cls; [|exact Hind|reflexivity].
      apply greedy_all. cbn [app]. mstep.
      rewrite m_star_cls; [|exact Hws1|reflexivity].
      apply greedy_all. cbn [app]. mstep. rewrite Hbox. mstep.
      rewrite m_star_cls; [|exact Hws2|exact Hrest].
      apply greedy_all. reflexivity.
    - cbn [pos]. rewrite !length_app. cbn [length]. rewrite Nat.add_0_l. lia.
    - cbn [caps lookup Nat.eqb]. rewrite length_app. cbn [length].
      rewrite Nat.add_0_l. do 2 f_equal. lia. }
  destruct Hm as [st [Hm [Hpos Hcap]]].
  unfold remove_checklists. change checklist_re with (Seq Bol
    (Cat [Grp 1 (Seq ws_star (Chr (ch "-"))); ws_star; Chr (ch "[");
          Grp 2 (Cls (one_of (lit " xX"))); Chr (ch "]"); ws_star])).
  change checklist_re with (Seq Bol
    (Cat [Grp 1 (Seq ws_star (Chr (ch "-"))); ws_star; Chr (ch "[");
          Grp 2 (Cls (one_of (lit " xX"))); Chr (ch "]"); ws_star])) in Hm.
  rewrite (re_sub_anchored _ _ line st Hm) by (rewrite Hpos, !length_app; simpl; lia).
  unfold group. rewrite Hcap, Hpos.
  replace line with ((ind ++ [ch "-"] ++ ws1 ++ [ch "["; box; ch "]"] ++ ws2) ++ rest)
    at 2 by (unfold line; rewrite <- !app_assoc; reflexivity).
  rewrite skipn_app, Nat.sub_diag, skipn_all. cbn [skipn app].
  rewrite (slice_at line [] (ind ++ [ch "-"]) (ws1 ++ [ch "["; box; ch "]"] ++ ws2 ++ rest));
    [|unfold line; rewrite <- !app_assoc; reflexivity | reflexivity | reflexivity].
  rewrite <- !app_assoc. reflexivity.
Qed.

Lemma checklist_boxes_removed_witness :
  remove_checklists (lit "  " ++ [ch "-"] ++ lit " " ++ [ch "["; ch "x"; ch "]"]
                     ++ lit " " ++ lit "done")
  = lit "  " ++ lit "- " ++ lit "done".
Proof.
  apply (checklist_boxes_removed (lit "  ") (lit " ") (ch "x") (lit " ") (lit "done"));
    reflexivity.
Defined.

(** ** Where the prefix of a list item lets nothing through *)

Lemma greedy_none_after (k : mstate -> option mstate) (run rest : str) cps :
  (forall p b run2, (exists run1, run = run1 ++ run2) ->
     k (MState p b (run2 ++ rest) cps) = None) ->
  forall i bef, greedy k i bef run rest cps = None.
Proof.
  intros Hk i bef. apply greedy_none. intros run1 run2 Hrun.
  apply Hk. exists run1. exact Hrun.
Qed.

Lemma not_that_char (p : char -> bool) (x c : char) :
  p x = false -> p c = true -> N.eqb x c = false.
Proof.
  intros Hx Hc. destruct (N.eqb x c) eqn:Heq; [|reflexivity].
  apply N.eqb_eq in Heq. subst c. congruence.
Qed.

(** One or more blanks before [rest], when what follows is refused after
    each number of blanks. *)
Lemma ws_plus_none (s : str) (k : mstate -> option mstate) (ws rest : str) cps :
  all_chars is_space ws -> stops is_space rest ->
  (forall p b ws1 ws2, ws = ws1 ++ ws2 -> ws1 <> [] ->
     k (MState p b (ws2 ++ rest) cps) = None) ->
  forall i bef, m s ws_plus (MState i bef (ws ++ rest) cps) k = None.
Proof.
  intros Hws Hrest Hk i bef. unfold ws_plus, Plus. rewrite m_Seq.
  destruct ws as [|w1 wt].
  - cbn [app]. destruct rest as [|c rest]; [reflexivity|].
    cbn [stops] in Hrest. rewrite m_Cls_cons, Hrest. reflexivity.
  - apply all_chars_cons in Hws. destruct Hws as [Hw1 Hwt].
    cbn [app]. rewrite m_Cls_cons, Hw1.
    rewrite m_star_cls; [|exact Hwt|exact Hrest].
    apply greedy_none_after. intros p b run2 [run1 Hrun].
    apply (Hk p b (w1 :: run1) run2); [rewrite Hrun; reflexivity | discriminate].
Qed.

Lemma list_prefix_none (s : str) (k : mstate -> option mstate)
  (ind mk : str) (kind : list_type) (ws rest : str) :
  all_chars is_space ind -> item_marker mk kind ->
  all_chars is_space ws -> stops is_space rest ->
  (forall p b cps ws1 ws2, ws = ws1 ++ ws2 -> ws1 <> [] ->
     k (MState p b (ws2 ++ rest) cps) = None) ->
  forall i bef cps,
    m s list_prefix (MState i bef (ind ++ mk ++ ws ++ rest) cps) k = None.
Proof.
  intros Hind Hmk Hws Hrest Hk i bef cps.
  unfold list_prefix, ws_star. cbn [Cat]. rewrite m_Seq.
  rewrite m_star_cls; [|exact Hind|apply (item_marker_stops mk kind), Hmk].
  apply greedy_none_after. intros p b run2 [run1 Hrun]. cbv beta.
  rewrite m_Seq. unfold marker, digits, Plus, Chr. rewrite m_Alt, !m_Seq.
  destruct run2 as [|c run2].
  - cbn [app]. destruct Hmk as [|ds Hds Hd].
    + cbn [app]. rewrite m_Cls_cons, N.eqb_refl.
      rewrite (ws_plus_none s k ws rest cps Hws Hrest (fun p b => Hk p b cps)).
      rewrite m_Cls_cons. reflexivity.
    + destruct ds as [|d1 dt]; [contradiction|].
      apply all_chars_cons in Hd. destruct Hd as [Hd1 Hdt].
      cbn [app]. rewrite !m_Cls_cons, (dash_not_digit d1 Hd1), Hd1.
      rewrite <- app_assoc. cbn [app].
      rewrite m_star_cls; [|exact Hdt|reflexivity].
      apply greedy_none_after. intros p' b' r2 [r1 Hr]. cbv beta.
      destruct r2 as [|c r2].
      * cbn [app]. rewrite m_Cls_cons, N.eqb_refl.
        apply (ws_plus_none s k ws rest cps Hws Hrest (fun p b => Hk p b cps)).
      * cbn [app]. rewrite m_Cls_cons.
        assert (Hc : is_digit c = true).
        { rewrite Hr in Hdt. apply all_chars_app in Hdt. destruct Hdt as [_ Hdt].
          apply all_chars_cons in Hdt. apply Hdt. }
        rewrite (not_that_char is_digit (ch ".") c eq_refl Hc). reflexivity.
  - assert (Hc : is_space c = true).
    { rewrite Hrun in Hind. apply all_chars_app in Hind. destruct Hind as [_ Hind].
      apply all_chars_cons in Hind. apply Hind. }
    cbn [app]. rewrite !m_Cls_cons.
    rewrite (not_that_char is_space (ch "-") c eq_refl Hc).
    rewrite (space_not_digit c Hc). reflexivity.
Qed.

(** ** Code and a separator at the head of a list item *)

Section CodeSep.

Variables (ind mk : str) (kind : list_type) (ws c ws2 : str) (sep' : char) (ws3 rest : str).
Hypothesis Hind : all_chars is_space ind.
Hypothesis Hmk : item_marker mk kind.
Hypothesis Hne : ws <> [].
Hypothesis Hws : all_chars is_space ws.
Hypothesis Hcne : c <> [].
Hypothesis Hc : all_chars (none_of [backtick]) c.
Hypothesis Hws2 : all_chars is_space ws2.
Hypothesis Hsep' : is_space sep' = false.
Hypothesis Hws3 : all_chars is_space ws3.
Hypothesis Hrne : rest <> [].
Hypothesis Hrest : stops is_space rest.
Hypothesis Hnl : all_chars (not_char LF) rest.

Let tail : str := [backtick] ++ c ++ [backtick] ++ ws2 ++ [sep'] ++ ws3 ++ rest.
Let line : str := ind ++ mk ++ ws ++ tail.

Lemma code_sep_match :
  exists st,
    m line (code_sep_re sep') (MState 0 [] line []) Some = Some st
    /\ pos st = length line
    /\ lookup 1 (caps st) = Some (0, length (ind ++ mk ++ ws))
    /\ lookup 2 (caps st)
       = Some (length (ind ++ mk ++ ws) + 1, length (ind ++ mk ++ ws) + 1 + length c)
    /\ lookup 3 (caps st) = Some (length line - length rest, length line).
Proof.
  destruct c as [|c1 ct] eqn:Ec; [contradiction|].
  apply all_chars_cons in Hc. destruct Hc as [Hc1 Hct].
  eexists. split; [|split; [|split; [|split]]].
  - unfold line at 2. unfold code_sep_re, Chr. cbn [Cat]. mstep.
    rewrite m_Bol. cbn [pos Nat.eqb]. mstep.
    apply (list_prefix_match line _ _ ind mk kind ws tail 0 [] [] Hind Hmk Hne Hws);
      [reflexivity|].
    unfold tail. cbn [app]. mstep. unfold Plus. mstep. rewrite Hc1.
    rewrite m_star_cls; [|exact Hct|reflexivity].
    apply greedy_all. mstep. unfold ws_star at 1.
    rewrite m_star_cls; [|exact Hws2|cbn [app stops]; exact Hsep'].
    apply greedy_all. cbn [app]. mstep.
    apply blanks_rest_tail; assumption.
  - cbn [pos]. unfold line, tail. rewrite !length_app. cbn [length]. lia.
  - cbn [caps lookup Nat.eqb]. reflexivity.
  - cbn [caps lookup Nat.eqb]. do 2 f_equal; cbn [length]; lia.
  - cbn [caps lookup Nat.eqb]. unfold line, tail. rewrite !length_app. cbn [length].
    do 2 f_equal; lia.
Qed.

Lemma code_sep_sub (x : str) :
  is_some (re_match (code_sep_re sep') line) = true
  /\ re_sub (code_sep_re sep') (fun g => g 1 ++ g 2 ++ x ++ g 3) line
     = ind ++ mk ++ ws ++ c ++ x ++ rest.
Proof.
  destruct code_sep_match as [st [Hm [Hpos [H1 [H2 H3]]]]].
  split; [apply (re_match_from_state _ _ st Hm)|].
  change (code_sep_re sep') with
    (Seq Bol (Cat [Grp 1 list_prefix; Chr backtick; Grp 2 (Plus (Cls (none_of [backtick])));
                   Chr backtick; ws_star; Chr sep'; ws_star; Grp 3 rest_of_line; Eol]))
    in Hm |- *.
  rewrite (re_sub_anchored _ _ line st Hm).
  - rewrite Hpos, skipn_all, app_nil_r. unfold group. rewrite H1, H2, H3.
    rewrite (slice_at line [] (ind ++ mk ++ ws) tail);
      [|unfold line; rewrite <- !app_assoc; reflexivity | reflexivity | reflexivity].
    rewrite (slice_at line ((ind ++ mk ++ ws) ++ [backtick]) c
               ([backtick] ++ ws2 ++ [sep'] ++ ws3 ++ rest));
      [|unfold line, tail; rewrite <- !app_assoc; reflexivity
       |rewrite (length_app (ind ++ mk ++ ws) [backtick]); reflexivity
       |rewrite (length_app (ind ++ mk ++ ws) [backtick]); reflexivity].
    rewrite (slice_at line (ind ++ mk ++ ws ++ [backtick] ++ c ++ [backtick] ++ ws2
                            ++ [sep'] ++ ws3) rest []);
      [|unfold line, tail; rewrite <- !app_assoc, app_nil_r; reflexivity
       |unfold line, tail; rewrite !length_app; cbn [length]; lia
       |unfold line, tail; rewrite !length_app; cbn [length]; lia].
    rewrite <- !app_assoc. reflexivity.
  - rewrite Hpos. unfold line, tail. rewrite !length_app. cbn [length]. lia.
Qed.

Lemma code_sep_fail (sep : char) :
  is_space sep = false -> sep <> sep' ->
  re_match (code_sep_re sep) line = None.
Proof.
  intros Hsep Hdiff. rewrite re_match_at_start.
  assert (Hnone : m line (code_sep_re sep) (MState 0 [] line []) Some = None);
    [|rewrite Hnone; reflexivity].
  unfold line at 2. unfold code_sep_re, Chr. cbn [Cat]. mstep.
  rewrite m_Bol. cbn [pos Nat.eqb]. mstep.
  apply (list_prefix_none line _ ind mk kind ws tail Hind Hmk Hws); [reflexivity|].
  intros p b cps ws1 ws2' Hsplit _. cbv beta.
  destruct ws2' as [|w ws2'].
  - unfold tail. cbn [app]. mstep. unfold Plus. mstep.
    destruct c as [|c1 ct] eqn:Ec; [contradiction|].
    apply all_chars_cons in Hc. destruct Hc as [Hc1 Hct].
    cbn [app]. mstep. rewrite Hc1.
    rewrite m_star_cls; [|exact Hct|reflexivity].
    apply greedy_none_after. intros p' b' r2 [r1 Hr]. cbv beta.
    destruct r2 as [|x r2].
    + cbn [app]. mstep. unfold ws_star at 1.
      rewrite m_star_cls; [|exact Hws2|cbn [app stops]; exact Hsep'].
      apply greedy_none_after. intros p'' b'' q2 [q1 Hq]. cbv beta.
      destruct q2 as [|y q2].
      * cbn [app]. mstep.
        destruct (N.eqb sep sep') eqn:Heq; [|reflexivity].
        apply N.eqb_eq in Heq. contradiction.
      * assert (Hy : is_space y = true).
        { rewrite Hq in Hws2. apply all_chars_app in Hws2. destruct Hws2 as [_ H].
          apply all_chars_cons in H. apply H. }
        cbn [app]. mstep. rewrite (not_that_char is_space sep y Hsep Hy). reflexivity.
    + assert (Hx : none_of [backtick] x = true).
      { rewrite Hr in Hct. apply all_chars_app in Hct. destruct Hct as [_ H].
        apply all_chars_cons in H. apply H. }
      cbn [app]. mstep. rewrite (none_of_single backtick x Hx). reflexivity.
  - assert (Hw : is_space w = true).
    { rewrite Hsplit in Hws. apply all_chars_app in Hws. destruct Hws as [_ H].
      apply all_chars_cons in H. apply H. }
    cbn [app]. mstep. rewrite (not_that_char is_space backtick w eq_refl Hw). reflexivity.
Qed.

End CodeSep.

(** X24: a list item that begins with inline code followed by an em dash, a colon
    or a hyphen loses the backticks of that code, and the separator is written
    in one fixed way, whatever the blanks around it were: [ - ] for the
    hyphen, [: ] for the colon, the em dash between two spaces. *)
Theorem code_before_separator_unwrapped :
  forall (ind mk : str) (kind : list_type) (ws c ws2 : str) (sep : char) (ws3 rest : str),
    all_chars is_space ind -> item_marker mk kind ->
    ws <> [] -> all_chars is_space ws ->
    c <> [] -> all_chars (none_of [backtick]) c ->
    all_chars is_space ws2 -> In sep [emdash; ch ":"; ch "-"] ->
    all_chars is_space ws3 ->
    rest <> [] -> stops is_space rest -> ~ In LF rest ->
    fix_code_with_dash_in_lists
      (ind ++ mk ++ ws ++ [backtick] ++ c ++ [backtick] ++ ws2 ++ [sep] ++ ws3 ++ rest)
    = ind ++ mk ++ ws ++ c ++ code_separator sep ++ rest.
Proof.
  intros ind mk kind ws c ws2 sep ws3 rest Hind Hmk Hne Hws Hcne Hc Hws2 Hsep Hws3
    Hrne Hrest Hnl.
  apply not_char_of_all in Hnl.
  assert (Hsp : is_space sep = false).
  { destruct Hsep as [<- | [<- | [<- | []]]]; reflexivity. }
  pose proof (fun x => code_sep_sub ind mk kind ws c ws2 sep ws3 rest Hind Hmk Hne Hws
                         Hcne Hc Hws2 Hsp Hws3 Hrne Hrest Hnl x) as Hsub.
  pose proof (fun s0 => code_sep_fail ind mk kind ws c ws2 sep ws3 rest Hind Hmk Hws
                          Hcne Hc Hws2 Hsp s0) as Hfail.
  cbv zeta in Hsub, Hfail.
  unfold fix_code_with_dash_in_lists, pattern_dash, pattern_colon, pattern_hyphen.
  destruct Hsep as [<- | [<- | [<- | []]]].
  - destruct (Hsub [ch " "; emdash; ch " "]) as [Hm Hs].
    destruct (re_match (code_sep_re emdash) _); [|discriminate Hm]. exact Hs.
  - rewrite (Hfail emdash eq_refl) by discriminate.
    destruct (Hsub (lit ": ")) as [Hm Hs].
    destruct (re_match (code_sep_re (ch ":")) _); [|discriminate Hm]. exact Hs.
  - rewrite (Hfail emdash eq_refl) by discriminate.
    rewrite (Hfail (ch ":") eq_refl) by discriminate.
    destruct (Hsub (lit " - ")) as [Hm Hs].
    destruct (re_match (code_sep_re (ch "-")) _); [|discriminate Hm]. exact Hs.
Qed.

Lemma code_before_separator_unwrapped_witness :
  fix_code_with_dash_in_lists
    (lit "" ++ lit "1." ++ lit " " ++ [backtick] ++ lit "PRIMARY KEY" ++ [backtick]
     ++ lit " " ++ [ch ":"] ++ lit " " ++ lit "unique")
  = lit "" ++ lit "1." ++ lit " " ++ lit "PRIMARY KEY" ++ code_separator (ch ":")
    ++ lit "unique".
Proof.
  apply (code_before_separator_unwrapped (lit "") (lit "1.") numbered (lit " ")
           (lit "PRIMARY KEY") (lit " ") (ch ":") (lit " ") (lit "unique"));
    try reflexivity; try discriminate.
  - apply (marker_numbered (lit "1")); [discriminate | reflexivity].
  - right. left. reflexivity.
  - apply all_chars_not_In. reflexivity.
Defined.

(** ** A bold label at the head of a list item *)

Section BoldColon.

Variables (ind mk : str) (kind : list_type) (ws t ws2 rest : str).
Hypothesis Hind : all_chars is_space ind.
Hypothesis Hmk : item_marker mk kind.
Hypothesis Hne : ws <> [].
Hypothesis Hws : all_chars is_space ws.
Hypothesis Htne : t <> [].
Hypothesis Ht : all_chars (none_of [star]) t.
Hypothesis Hws2 : all_chars is_space ws2.
Hypothesis Hrne : rest <> [].
Hypothesis Hrest : stops is_space rest.
Hypothesis Hnl : all_chars (not_char LF) rest.

Let inside : str := [star; star] ++ t ++ [ch ":"; star; star] ++ ws2 ++ rest.
Let outside : str := [star; star] ++ t ++ [star; star; ch ":"] ++ ws2 ++ rest.

Lemma bold_colon_inside_match :
  exists st,
    m (ind ++ mk ++ ws ++ inside) bold_colon_inside_re
      (MState 0 [] (ind ++ mk ++ ws ++ inside) []) Some = Some st
    /\ pos st = length (ind ++ mk ++ ws ++ inside)
    /\ lookup 1 (caps st) = Some (0, length (ind ++ mk ++ ws))
    /\ lookup 2 (caps st)
       = Some (length (ind ++ mk ++ ws) + 2, length (ind ++ mk ++ ws) + 2 + length t)
    /\ lookup 3 (caps st)
       = Some (length (ind ++ mk ++ ws ++ inside) - length rest,
               length (ind ++ mk ++ ws ++ inside)).
Proof.
  set (line := ind ++ mk ++ ws ++ inside).
  destruct t as [|t1 tt] eqn:Et; [contradiction|].
  apply all_chars_cons in Ht. destruct Ht as [Ht1 Htt].
  eexists. split; [|split; [|split; [|split]]].
  - unfold line at 2. unfold bold_colon_inside_re, Chr.
    change (lit "**") with [star; star]. cbn [Cat Lit]. unfold Chr. mstep.
    rewrite m_Bol. cbn [pos Nat.eqb]. mstep.
    apply (list_prefix_match line _ _ ind mk kind ws inside 0 [] [] Hind Hmk Hne Hws);
      [reflexivity|].
    unfold inside. cbn [app]. mstep. unfold Plus. mstep. rewrite Ht1.
    replace (tt ++ ch ":" :: star :: star :: ws2 ++ rest)
      with ((tt ++ [ch ":"]) ++ star :: star :: ws2 ++ rest)
      by (rewrite <- app_assoc; reflexivity).
    rewrite m_star_cls;
      [|apply all_chars_app; split; [exact Htt | reflexivity] | reflexivity].
    apply greedy_back.
    + intros a b Hab Ha. destruct a as [|a1 a]; [contradiction|].
      destruct a; [|destruct a; discriminate Hab]. injection Hab as <- <-.
      cbn [app]. mstep. reflexivity.
    + cbn [app]. mstep. apply blanks_rest_tail; assumption.
  - cbn [pos]. unfold line, inside. rewrite !length_app. cbn [length]. lia.
  - cbn [caps lookup Nat.eqb]. reflexivity.
  - cbn [caps lookup Nat.eqb]. do 2 f_equal; cbn [length]; lia.
  - cbn [caps lookup Nat.eqb]. unfold line, inside. rewrite !length_app. cbn [length].
    do 2 f_equal; lia.
Qed.

Lemma bold_colon_outside_match :
  exists st,
    m (ind ++ mk ++ ws ++ outside) bold_colon_outside_re
      (MState 0 [] (ind ++ mk ++ ws ++ outside) []) Some = Some st
    /\ pos st = length (ind ++ mk ++ ws ++ outside)
    /\ lookup 1 (caps st) = Some (0, length (ind ++ mk ++ ws))
    /\ lookup 2 (caps st)
       = Some (length (ind ++ mk ++ ws) + 2, length (ind ++ mk ++ ws) + 2 + length t)
    /\ lookup 3 (caps st)
       = Some (length (ind ++ mk ++ ws ++ outside) - length rest,
               length (ind ++ mk ++ ws ++ outside)).
Proof.
  set (line := ind ++ mk ++ ws ++ outside).
  destruct t as [|t1 tt] eqn:Et; [contradiction|].
  apply all_chars_cons in Ht. destruct Ht as [Ht1 Htt].
  eexists. split; [|split; [|split; [|split]]].
  - unfold line at 2. unfold bold_colon_outside_re, Chr.
    change (lit "**") with [star; star]. cbn [Cat Lit]. unfold Chr. mstep.
    rewrite m_Bol. cbn [pos Nat.eqb]. mstep.
    apply (list_prefix_match line _ _ ind mk kind ws outside 0 [] [] Hind Hmk Hne Hws);
      [reflexivity|].
    unfold outside. cbn [app]. mstep. unfold Plus. mstep. rewrite Ht1.
    rewrite m_star_cls; [|exact Htt|reflexivity].
    apply greedy_all. mstep. apply blanks_rest_tail; assumption.
  - cbn [pos]. unfold line, outside. rewrite !length_app. cbn [length]. lia.
  - cbn [caps lookup Nat.eqb]. reflexivity.
  - cbn [caps lookup Nat.eqb]. do 2 f_equal; cbn [length]; lia.
  - cbn [caps lookup Nat.eqb]. unfold line, outside. rewrite !length_app. cbn [length].
    do 2 f_equal; lia.
Qed.

Lemma bold_colon_inside_fail :
  all_chars (none_of [ch ":"]) t ->
  re_match bold_colon_inside_re (ind ++ mk ++ ws ++ outside) = None.
Proof.
  intros Hcolon. set (line := ind ++ mk ++ ws ++ outside). rewrite re_match_at_start.
  assert (Hnone : m line bold_colon_inside_re (MState 0 [] line []) Some = None);
    [|rewrite Hnone; reflexivity].
  unfold line at 2. unfold bold_colon_inside_re, Chr.
  change (lit "**") with [star; star]. cbn [Cat Lit]. unfold Chr. mstep.
  rewrite m_Bol. cbn [pos Nat.eqb]. mstep.
  apply (list_prefix_none line _ ind mk kind ws outside Hind Hmk Hws); [reflexivity|].
  intros p b cps ws1 ws2' Hsplit _. cbv beta.
  destruct ws2' as [|w ws2'].
  - unfold outside. cbn [app]. mstep. unfold Plus. mstep.
    destruct t as [|t1 tt] eqn:Et; [contradiction|].
    apply all_chars_cons in Ht. destruct Ht as [Ht1 Htt].
    apply all_chars_cons in Hcolon. destruct Hcolon as [_ Hcolon].
    cbn [app]. mstep. rewrite Ht1.
    rewrite m_star_cls; [|exact Htt|reflexivity].
    apply greedy_none_after. intros p' b' r2 [r1 Hr]. cbv beta.
    destruct r2 as [|x r2].
    + cbn [app]. mstep. reflexivity.
    + assert (Hx : none_of [ch ":"] x = true).
      { rewrite Hr in Hcolon. apply all_chars_app in Hcolon. destruct Hcolon as [_ H].
        apply all_chars_cons in H. apply H. }
      cbn [app]. mstep. rewrite (none_of_single (ch ":") x Hx). reflexivity.
  - assert (Hw : is_space w = true).
    { rewrite Hsplit in Hws. apply all_chars_app in Hws. destruct Hws as [_ H].
      apply all_chars_cons in H. apply H. }
    cbn [app]. mstep. rewrite (not_that_char is_space star w eq_refl Hw). reflexivity.
Qed.

Lemma bold_colon_sub (r : re) (tail : str) (st : mstate) :
  m (ind ++ mk ++ ws ++ [star; star] ++ t ++ tail ++ ws2 ++ rest) (Seq Bol r)
    (MState 0 [] (ind ++ mk ++ ws ++ [star; star] ++ t ++ tail ++ ws2 ++ rest) []) Some
  = Some st ->
  pos st = length (ind ++ mk ++ ws ++ [star; star] ++ t ++ tail ++ ws2 ++ rest) ->
  lookup 1 (caps st) = Some (0, length (ind ++ mk ++ ws)) ->
  lookup 2 (caps st)
  = Some (length (ind ++ mk ++ ws) + 2, length (ind ++ mk ++ ws) + 2 + length t) ->
  lookup 3 (caps st)
  = Some (length (ind ++ mk ++ ws ++ [star; star] ++ t ++ tail ++ ws2 ++ rest) - length rest,
          length (ind ++ mk ++ ws ++ [star; star] ++ t ++ tail ++ ws2 ++ rest)) ->
  re_sub (Seq Bol r) (fun g => g 1 ++ g 2 ++ lit ": " ++ g 3)
    (ind ++ mk ++ ws ++ [star; star] ++ t ++ tail ++ ws2 ++ rest)
  = ind ++ mk ++ ws ++ t ++ lit ": " ++ rest.
Proof.
  set (line := ind ++ mk ++ ws ++ [star; star] ++ t ++ tail ++ ws2 ++ rest).
  intros Hm Hpos H1 H2 H3.
  rewrite (re_sub_anchored _ _ line st Hm).
  - rewrite Hpos, skipn_all, app_nil_r. unfold group. rewrite H1, H2, H3.
    rewrite (slice_at line [] (ind ++ mk ++ ws) ([star; star] ++ t ++ tail ++ ws2 ++ rest));
      [|unfold line; rewrite <- !app_assoc; reflexivity | reflexivity | reflexivity].
    rewrite (slice_at line ((ind ++ mk ++ ws) ++ [star; star]) t (tail ++ ws2 ++ rest));
      [|unfold line; rewrite <- !app_assoc; reflexivity
       |rewrite (length_app (ind ++ mk ++ ws) [star; star]); reflexivity
       |rewrite (length_app (ind ++ mk ++ ws) [star; star]); reflexivity].
    rewrite (slice_at line (ind ++ mk ++ ws ++ [star; star] ++ t ++ tail ++ ws2) rest []);
      [|unfold line; rewrite <- !app_assoc, app_nil_r; reflexivity
       |unfold line; rewrite !length_app; cbn [length]; lia
       |unfold line; rewrite !length_app; cbn [length]; lia].
    rewrite <- !app_assoc. reflexivity.
  - rewrite Hpos. unfold line. rewrite !length_app. cbn [length]. lia.
Qed.

End BoldColon.

(** X25: a list item that begins with a bold label and a colon, the colon inside
    or outside the bold markers, loses the markers of the label: the item
    keeps its prefix, the label, a colon and one space, and the text that
    followed. *)
Theorem bold_label_unwrapped :
  forall (ind mk : str) (kind : list_type) (ws t ws2 rest : str),
    all_chars is_space ind -> item_marker mk kind ->
    ws <> [] -> all_chars is_space ws ->
    t <> [] -> all_chars (none_of [star]) t ->
    all_chars is_space ws2 ->
    rest <> [] -> stops is_space rest -> ~ In LF rest ->
    fix_bold_colon_in_lists
      (ind ++ mk ++ ws ++ [star; star] ++ t ++ [ch ":"; star; star] ++ ws2 ++ rest)
    = ind ++ mk ++ ws ++ t ++ lit ": " ++ rest
    /\ (~ In (ch ":") t ->
        fix_bold_colon_in_lists
          (ind ++ mk ++ ws ++ [star; star] ++ t ++ [star; star; ch ":"] ++ ws2 ++ rest)
        = ind ++ mk ++ ws ++ t ++ lit ": " ++ rest).
Proof.
  intros ind mk kind ws t ws2 rest Hind Hmk Hne Hws Htne Ht Hws2 Hrne Hrest Hnl.
  apply not_char_of_all in Hnl. unfold fix_bold_colon_in_lists. cbv zeta. split.
  - destruct (bold_colon_inside_match ind mk kind ws t ws2 rest Hind Hmk Hne Hws Htne Ht
                Hws2 Hrne Hrest Hnl) as [st [Hm [Hpos [H1 [H2 H3]]]]].
    cbv zeta in Hm, Hpos, H3.
    rewrite re_match_at_start, Hm. cbn [option_map].
    apply (bold_colon_sub ind mk ws t ws2 rest _ [ch ":"; star; star] st Hm Hpos H1 H2 H3).
  - intros Hcolon. apply not_In_none_of in Hcolon.
    pose proof (bold_colon_inside_fail ind mk kind ws t ws2 rest Hind Hmk Hws Htne Ht Hcolon)
      as Hfail.
    cbv zeta in Hfail. rewrite Hfail.
    destruct (bold_colon_outside_match ind mk kind ws t ws2 rest Hind Hmk Hne Hws Htne Ht
                Hws2 Hrne Hrest Hnl) as [st [Hm [Hpos [H1 [H2 H3]]]]].
    cbv zeta in Hm, Hpos, H3.
    rewrite re_match_at_start, Hm. cbn [option_map].
    apply (bold_colon_sub ind mk ws t ws2 rest _ [star; star; ch ":"] st Hm Hpos H1 H2 H3).
Qed.

Lemma bold_label_unwrapped_witness :
  fix_bold_colon_in_lists
    (lit "" ++ lit "-" ++ lit " " ++ [star; star] ++ lit "FUNCTION" ++ [ch ":"; star; star]
     ++ lit " " ++ lit "computes")
  = lit "" ++ lit "-" ++ lit " " ++ lit "FUNCTION" ++ lit ": " ++ lit "computes".
Proof.
  apply (proj1 (bold_label_unwrapped (lit "") (lit "-") bullet (lit " ") (lit "FUNCTION")
                  (lit " ") (lit "computes") eq_refl marker_bullet ltac:(discriminate)
                  eq_refl ltac:(discriminate) eq_refl eq_refl ltac:(discriminate) eq_refl
                  ltac:(apply all_chars_not_In; reflexivity))).
Defined.

(** ** An emoji at the head of a list item *)

Lemma emoji_not_space (c : char) : is_emoji c = true -> is_space c = false.
Proof.
  intros H. destruct (is_space c) eqn:Hs; [|reflexivity].
  apply in_ranges_enum in Hs.
  assert (Hall : forallb (fun x => negb (is_emoji x)) (flat_map enum_range space_ranges) = true)
    by (vm_compute; reflexivity).
  apply (proj1 (forallb_forall _ _) Hall) in Hs. rewrite H in Hs. discriminate Hs.
Qed.

(** X26: a list item that begins with an emoji, with or without variation
    selector, followed by blanks and a text, has the blanks replaced by a
    colon and one space. *)
Theorem emoji_at_list_start_gets_colon :
  forall (ind mk : str) (kind : list_type) (ws : str) (e : char) (vs ws2 rest : str),
    all_chars is_space ind -> item_marker mk kind ->
    ws <> [] -> all_chars is_space ws ->
    is_emoji e = true -> vs = [] \/ vs = [variation_selector] ->
    ws2 <> [] -> all_chars is_space ws2 ->
    rest <> [] -> stops is_space rest -> ~ In LF rest ->
    fix_emoji_at_list_start (ind ++ mk ++ ws ++ [e] ++ vs ++ ws2 ++ rest)
    = ind ++ mk ++ ws ++ [e] ++ vs ++ lit ": " ++ rest.
Proof.
  intros ind mk kind ws e vs ws2 rest Hind Hmk Hne Hws He Hvs Hne2 Hws2 Hrne Hrest Hnl.
  apply not_char_of_all in Hnl.
  set (tail := [e] ++ vs ++ ws2 ++ rest).
  set (line := ind ++ mk ++ ws ++ tail).
  assert (Hm : exists st,
             m line emoji_pattern (MState 0 [] line []) Some = Some st
             /\ lookup 1 (caps st) = Some (0, length (ind ++ mk ++ ws))
             /\ lookup 2 (caps st)
                = Some (length (ind ++ mk ++ ws), length (ind ++ mk ++ ws) + length ([e] ++ vs))
             /\ lookup 3 (caps st) = Some (length line - length rest, length line)).
  { destruct ws2 as [|w1 wt]; [contradiction|].
    apply all_chars_cons in Hws2. destruct Hws2 as [Hw1 Hwt].
    assert (Hw1' : N.eqb variation_selector w1 = false)
      by (apply (not_that_char is_space variation_selector w1 eq_refl Hw1)).
    assert (Hpre : forall k res,
              k (MState (0 + length (ind ++ mk ++ ws)) (rev (ind ++ mk ++ ws) ++ []) tail [])
                = Some res ->
              m line list_prefix (MState 0 [] line []) k = Some res).
    { intros k res Hk.
      apply (list_prefix_match line k res ind mk kind ws tail 0 [] [] Hind Hmk Hne Hws);
        [cbn [tail app stops]; apply emoji_not_space; exact He | exact Hk]. }
    destruct Hvs as [-> | ->].
    - eexists. split; [|split; [|split]].
      + unfold emoji_pattern, Opt, Chr. cbn [Cat]. mstep.
        rewrite m_Bol. cbn [pos Nat.eqb]. mstep. apply Hpre.
        unfold tail. cbn [app]. mstep. rewrite He. rewrite m_Alt.
        unfold ws_plus, Plus. mstep. fold variation_selector. rewrite Hw1'. mstep.
        rewrite Hw1. rewrite m_star_cls; [|exact Hwt|exact Hrest].
        apply greedy_all. cbv beta. apply rest_tail; assumption.
      + cbn [caps lookup Nat.eqb]. reflexivity.
      + cbn [caps lookup Nat.eqb]. do 2 f_equal; cbn [length app]; lia.
      + cbn [caps lookup Nat.eqb]. unfold line, tail.
        rewrite !length_app. cbn [length]. do 2 f_equal; lia.
    - eexists. split; [|split; [|split]].
      + unfold emoji_pattern, Opt, Chr. cbn [Cat]. mstep.
        rewrite m_Bol. cbn [pos Nat.eqb]. mstep. apply Hpre.
        unfold tail. cbn [app]. mstep. rewrite He. rewrite m_Alt.
        unfold ws_plus, Plus. mstep. apply first_choice. rewrite Hw1.
        rewrite m_star_cls; [|exact Hwt|exact Hrest].
        apply greedy_all. cbv beta. apply rest_tail; assumption.
      + cbn [caps lookup Nat.eqb]. reflexivity.
      + cbn [caps lookup Nat.eqb]. do 2 f_equal; cbn [length app]; lia.
      + cbn [caps lookup Nat.eqb]. unfold line, tail.
        rewrite !length_app. cbn [length]. do 2 f_equal; lia. }
  destruct Hm as [st [Hm [H1 [H2 H3]]]].
  unfold fix_emoji_at_list_start. rewrite re_match_at_start. fold line. rewrite Hm.
  cbn [option_map]. unfold group. rewrite H1, H2, H3.
  rewrite (slice_at line [] (ind ++ mk ++ ws) tail);
    [|unfold line; rewrite <- !app_assoc; reflexivity | reflexivity | reflexivity].
  rewrite (slice_at line (ind ++ mk ++ ws) ([e] ++ vs) (ws2 ++ rest));
    [|unfold line, tail; rewrite <- !app_assoc; reflexivity | reflexivity | reflexivity].
  rewrite (slice_at line (ind ++ mk ++ ws ++ [e] ++ vs ++ ws2) rest []);
    [|unfold line, tail; rewrite <- !app_assoc, app_nil_r; reflexivity
     |unfold line, tail; rewrite !length_app; cbn [length]; lia
     |unfold line, tail; rewrite !length_app; cbn [length]; lia].
  rewrite <- !app_assoc. reflexivity.
Qed.

Lemma emoji_at_list_start_gets_colon_witness :
  fix_emoji_at_list_start
    (lit "" ++ lit "-" ++ lit " " ++ [0x1F525%N] ++ [] ++ lit " " ++ lit "70%")
  = lit "" ++ lit "-" ++ lit " " ++ [0x1F525%N] ++ [] ++ lit ": " ++ lit "70%".
Proof.
  apply (emoji_at_list_start_gets_colon (lit "") (lit "-") bullet (lit " ") 0x1F525%N []
           (lit " ") (lit "70%") eq_refl marker_bullet ltac:(discriminate) eq_refl eq_refl
           (or_introl eq_refl) ltac:(discriminate) eq_refl ltac:(discriminate) eq_refl
           ltac:(apply all_chars_not_In; reflexivity)).
Defined.

(** ** Quote markers *)

Lemma quote_marker_match (s : str) (k : mstate -> option mstate) (res : mstate)
  (ind ws rest : str) (p : nat) (b : str) cps :
  all_chars is_space ind -> ws <> [] -> all_chars is_space ws -> stops is_space rest ->
  k (MState (p + length (ind ++ ch ">" :: ws)) (rev (ind ++ ch ">" :: ws) ++ b) rest
       ((1, (p, p + length (ind ++ ch ">" :: ws))) :: cps)) = Some res ->
  m s quote_marker_re (MState p b (ind ++ ch ">" :: ws ++ rest) cps) k = Some res.
Proof.
  intros Hind Hne Hws Hrest Hk. destruct ws as [|w1 wt]; [contradiction|].
  apply all_chars_cons in Hws. destruct Hws as [Hw1 Hwt].
  unfold quote_marker_re, ws_star, ws_plus, Plus, Chr. cbn [Cat]. mstep.
  rewrite m_star_cls; [|exact Hind|reflexivity].
  apply greedy_all. cbn [app]. mstep. rewrite Hw1.
  rewrite m_star_cls; [|exact Hwt|exact Hrest].
  apply greedy_all. cbn [pos before after caps].
  rewrite length_app in Hk. cbn [length] in Hk.
  rewrite rev_app_distr in Hk. cbn [rev] in Hk. rewrite <- !app_assoc in Hk. cbn [app] in Hk.
  replace (S (S (p + length ind)) + length wt) with (p + (length ind + S (S (length wt))))
    by lia.
  exact Hk.
Qed.

Lemma quote_marker_fail (s : str) (k : mstate -> option mstate) (rest : str)
  (p : nat) (b : str) cps :
  quote_free rest -> m s quote_marker_re (MState p b rest cps) k = None.
Proof.
  intros [Hstop Hnext].
  unfold quote_marker_re, ws_star, ws_plus, Plus, Chr. cbn [Cat]. mstep.
  rewrite <- (app_nil_l rest) at 1.
  rewrite m_star_cls; [|reflexivity|exact Hstop].
  cbn [greedy]. mstep. destruct rest as [|c r]; [reflexivity|].
  mstep. destruct (N.eqb (ch ">") c) eqn:Hc; [|reflexivity].
  apply N.eqb_eq in Hc. subst c. specialize (Hnext r eq_refl).
  destruct r as [|c' r]; [reflexivity|]. cbn [stops] in Hnext. mstep. rewrite Hnext.
  reflexivity.
Qed.

Lemma quote_markers_stop (wss : list str) (rest : str) :
  quote_free rest -> stops is_space (quote_markers wss ++ rest).
Proof.
  intros [Hstop _]. destruct wss as [|ws wss]; [exact Hstop | reflexivity].
Qed.

Lemma quote_markers_loop (s : str) (wss : list str) (rest : str) :
  Forall (fun ws => ws <> [] /\ all_chars is_space ws) wss -> quote_free rest ->
  forall fuel p b cps,
    length wss < fuel ->
    exists st,
      star_loop (m s quote_marker_re) Some fuel
        (MState p b (quote_markers wss ++ rest) cps) = Some st
      /\ pos st = p + length (quote_markers wss).
Proof.
  intros Hwss Hrest. induction Hwss as [|ws wss [Hne Hws] Hwss IH];
    intros fuel p b cps Hfuel.
  - destruct fuel as [|fuel]; [simpl in Hfuel; lia|].
    cbn [star_loop quote_markers map concat app].
    rewrite quote_marker_fail by exact Hrest.
    eexists. split; [reflexivity|]. cbn [pos length]. lia.
  - destruct fuel as [|fuel]; [simpl in Hfuel; lia|].
    cbn [length] in Hfuel.
    destruct (IH fuel (p + length ([] ++ ch ">" :: ws)) (rev ([] ++ ch ">" :: ws) ++ b)
                ((1, (p, p + length ([] ++ ch ">" :: ws))) :: cps)) as [st [Hst Hpos]];
      [lia|].
    exists st. split.
    + cbn [star_loop]. apply first_choice.
      replace (quote_markers (ws :: wss) ++ rest)
        with ([] ++ ch ">" :: ws ++ quote_markers wss ++ rest)
        by (unfold quote_markers; cbn [map concat app]; rewrite <- app_assoc; reflexivity).
      * apply quote_marker_match;
          [reflexivity | exact Hne | exact Hws | apply quote_markers_stop; exact Hrest |].
        cbn [pos].
        assert (Hlt : (p <? p + length ([] ++ ch ">" :: ws)) = true)
          by (apply Nat.ltb_lt; cbn [app length]; lia).
        rewrite Hlt. exact Hst.
    + rewrite Hpos. unfold quote_markers. cbn [map concat app length].
      rewrite length_app. cbn [length]. lia.
Qed.

(** X27: the quote markers at the head of a line, nested or not, are removed with
    the blanks around them: what is left is the text that follows the last
    marker. *)
Theorem quote_markers_removed :
  forall (ind ws : str) (wss : list str) (rest : str),
    all_chars is_space ind ->
    Forall (fun ws => ws <> [] /\ all_chars is_space ws) (ws :: wss) ->
    quote_free rest ->
    remove_blockquotes (ind ++ quote_markers (ws :: wss) ++ rest) = rest.
Proof.
  intros ind ws wss rest Hind Hall Hrest.
  apply Forall_cons_iff in Hall. destruct Hall as [[Hne Hws] Hwss].
  set (line := ind ++ quote_markers (ws :: wss) ++ rest).
  assert (Hline : line = ind ++ ch ">" :: ws ++ quote_markers wss ++ rest).
  { unfold line, quote_markers. cbn [map concat]. rewrite <- !app_assoc. reflexivity. }
  destruct (quote_markers_loop line wss rest Hwss Hrest
              (S (length (quote_markers wss ++ rest)))
              (0 + length (ind ++ ch ">" :: ws)) (rev (ind ++ ch ">" :: ws) ++ [])
              [(1, (0, 0 + length (ind ++ ch ">" :: ws)))]) as [st [Hst Hpos]].
  { rewrite length_app. unfold quote_markers.
    clear. induction wss as [|x wss IH]; cbn [map concat length]; [lia|].
    rewrite length_app. cbn [length]. lia. }
  assert (Hm : m line (Seq Bol (Plus quote_marker_re)) (MState 0 [] line []) Some = Some st).
  { rewrite m_Seq, m_Bol. cbn [pos Nat.eqb]. unfold Plus. rewrite m_Seq. rewrite Hline at 2.
    apply quote_marker_match;
      [exact Hind | exact Hne | exact Hws | apply quote_markers_stop; exact Hrest |].
    rewrite m_Star. cbn [after]. exact Hst. }
  unfold remove_blockquotes.
  change blockquote_re with (Seq Bol (Plus quote_marker_re)).
  rewrite (re_sub_anchored_prefix _ line st Hm).
  - replace line with (((ind ++ ch ">" :: ws) ++ quote_markers wss) ++ rest)
      by (rewrite Hline, <- !app_assoc; reflexivity).
    replace (pos st) with (length ((ind ++ ch ">" :: ws) ++ quote_markers wss))
      by (rewrite Hpos, (length_app (ind ++ ch ">" :: ws)); reflexivity).
    rewrite skipn_app, Nat.sub_diag, skipn_all. reflexivity.
  - rewrite Hpos, length_app. cbn [length]. lia.
Qed.

Lemma quote_markers_removed_witness :
  remove_blockquotes (lit " " ++ quote_markers [lit " "; lit "  "] ++ lit "**Note:** text")
  = lit "**Note:** text".
Proof.
  apply (quote_markers_removed (lit " ") (lit " ") [lit "  "] (lit "**Note:** text")).
  - reflexivity.
  - repeat constructor; discriminate.
  - split; [reflexivity|]. intros r H. discriminate H.
Defined.

(** ** Links *)

Lemma re_sub_anchored_none (r : re) (repl : (nat -> str) -> str) (s : str) :
  m s (Seq Bol r) (MState 0 [] s []) Some = None ->
  re_sub (Seq Bol r) repl s = s.
Proof.
  intros Hm. unfold re_sub. cbn [sub_from]. unfold match_at.
  change (state_at s 0) with (MState 0 [] s []). rewrite Hm.
  destruct s as [|c s]; [reflexivity|]. cbn [nth_error]. f_equal.
  apply (sub_from_anchored r repl (c :: s)). lia.
Qed.

(** The protocol at the head of a URL is removed, and nothing else. *)
Lemma protocol_removed (url : str) :
  re_sub (Seq Bol protocol) (fun _ => []) url = strip_protocol url.
Proof.
  unfold strip_protocol.
  destruct (startswith (lit "https://") url) eqn:Hs.
  - apply startswith_prefix in Hs. destruct Hs as [y ->].
    assert (Hm : m (lit "https://" ++ y) (Seq Bol protocol)
                   (MState 0 [] (lit "https://" ++ y) []) Some
                 = Some (MState 8 (rev (lit "https://")) y [])).
    { unfold protocol, Opt, Chr. change (lit "http") with [ch "h"; ch "t"; ch "t"; ch "p"].
      change (lit "://") with [ch ":"; ch "/"; ch "/"]. cbn [Cat Lit]. unfold Chr.
      rewrite m_Seq, m_Bol. cbn [pos Nat.eqb].
      change (lit "https://" ++ y)
        with (ch "h" :: ch "t" :: ch "t" :: ch "p" :: ch "s" :: ch ":" :: ch "/" :: ch "/" :: y)
        at 2.
      mstep. rewrite m_Alt. mstep. reflexivity. }
    rewrite (re_sub_anchored_prefix _ _ _ Hm) by (cbn [pos]; lia). reflexivity.
  - destruct (startswith (lit "http://") url) eqn:Hp.
    + apply startswith_prefix in Hp. destruct Hp as [y ->].
      assert (Hm : m (lit "http://" ++ y) (Seq Bol protocol)
                     (MState 0 [] (lit "http://" ++ y) []) Some
                   = Some (MState 7 (rev (lit "http://")) y [])).
      { unfold protocol, Opt, Chr. change (lit "http") with [ch "h"; ch "t"; ch "t"; ch "p"].
        change (lit "://") with [ch ":"; ch "/"; ch "/"]. cbn [Cat Lit]. unfold Chr.
        rewrite m_Seq, m_Bol. cbn [pos Nat.eqb].
        change (lit "http://" ++ y)
          with (ch "h" :: ch "t" :: ch "t" :: ch "p" :: ch ":" :: ch "/" :: ch "/" :: y)
          at 2.
        mstep. rewrite m_Alt. mstep.
        change (N.eqb (ch "s") (ch ":")) with false. cbv iota. mstep. reflexivity. }
      rewrite (re_sub_anchored_prefix _ _ _ Hm) by (cbn [pos]; lia). reflexivity.
    + apply re_sub_anchored_none.
      destruct (m url (Seq Bol protocol) (MState 0 [] url []) Some) as [st|] eqn:Hm;
        [exfalso|reflexivity].
      unfold protocol, Opt in Hm. cbn [Cat] in Hm. rewrite m_Seq, m_Bol in Hm.
      cbn [pos Nat.eqb] in Hm. rewrite m_Seq in Hm.
      apply m_Lit_inv in Hm. destruct Hm as [r1 [Ha Hm]]. mnorm Hm.
      cbn [after] in Ha. rewrite m_Alt in Hm.
      destruct (m url (Chr (ch "s")) _ _) as [res|] eqn:Hopt.
      * apply m_Chr_inv in Hopt. destruct Hopt as [r2 [Ha2 Hopt]]. mnorm Hopt.
        apply m_Lit_inv in Hopt. destruct Hopt as [r3 [Ha3 _]].
        cbn [after] in Ha2, Ha3. subst r1 r2. rewrite Ha in Hs.
        change (lit "http" ++ ch "s" :: lit "://" ++ r3) with (lit "https://" ++ r3) in Hs.
        rewrite startswith_app in Hs. discriminate Hs.
      * mnorm Hm. apply m_Lit_inv in Hm. destruct Hm as [r3 [Ha3 _]].
        cbn [after] in Ha3. subst r1. rewrite Ha in Hp.
        change (lit "http" ++ lit "://" ++ r3) with (lit "http://" ++ r3) in Hp.
        rewrite startswith_app in Hp. discriminate Hp.
Qed.

Lemma link_re_no_match (s : str) (i : nat) (bef : str) (c : char) (rest : str) :
  none_of (lit "[!") c = true ->
  m s link_re (MState i bef (c :: rest) []) Some = None.
Proof.
  intros Hc. unfold none_of, one_of in Hc.
  change (lit "[!") with [ch "["; ch "!"] in Hc. cbn [existsb] in Hc.
  rewrite orb_false_r in Hc. apply negb_true_iff in Hc.
  apply orb_false_iff in Hc. destruct Hc as [Hb He].
  rewrite N.eqb_sym in Hb. rewrite N.eqb_sym in He.
  unfold link_re, Opt, Chr. cbn [Cat]. mstep.
  rewrite m_Alt. mstep. rewrite He. mstep. rewrite ?Hb. reflexivity.
Qed.

Lemma link_re_no_bracket (s : str) (i : nat) (bef t : str) :
  all_chars (none_of [ch "["]) t ->
  m s link_re (MState i bef t []) Some = None.
Proof.
  intros Ht. unfold link_re, Opt, Chr. cbn [Cat]. mstep.
  rewrite m_Alt. destruct t as [|c t]; [reflexivity|].
  apply all_chars_cons in Ht. destruct Ht as [Hc Ht].
  apply none_of_single in Hc. mstep. rewrite Hc.
  destruct (N.eqb (ch "!") c); [|reflexivity].
  destruct t as [|c' t]; [reflexivity|].
  apply all_chars_cons in Ht. destruct Ht as [Hc' _].
  apply none_of_single in Hc'. mstep. rewrite Hc'. reflexivity.
Qed.

Lemma link_re_match (s : str) (i : nat) (bef bang text url rest : str) :
  bang = [] \/ bang = lit "!" ->
  text <> [] -> all_chars (none_of [ch "]"]) text ->
  url <> [] -> all_chars (none_of [ch ")"]) url ->
  exists st,
    m s link_re (MState i bef (reference bang text url ++ rest) []) Some = Some st
    /\ pos st = i + length (reference bang text url)
    /\ caps st =
         [(3, (i + length bang + 1 + length text + 2,
               i + length bang + 1 + length text + 2 + length url));
          (2, (i + length bang + 1, i + length bang + 1 + length text));
          (1, (i, i + length bang))].
Proof.
  intros Hbang Htne Htext Hne Hurl.
  destruct url as [|p1 pt]; [contradiction|].
  apply all_chars_cons in Hurl. destruct Hurl as [Hp1 Hpt].
  destruct text as [|t1 tt]; [contradiction|].
  apply all_chars_cons in Htext. destruct Htext as [Ht1 Htt].
  unfold reference. change (lit "[") with [ch "["]. change (lit "](") with [ch "]"; ch "("].
  change (lit ")") with [ch ")"].
  destruct Hbang as [-> | ->]; [|change (lit "!") with [ch "!"]];
    eexists; (split; [|split]).
  - unfold link_re, Opt, Plus, Chr. cbn [Cat app]. mstep.
    rewrite m_Alt. mstep. change (N.eqb (ch "!") (ch "[")) with false. cbv iota. mstep.
    rewrite Ht1. rewrite <- app_assoc.
    rewrite m_star_cls; [|exact Htt|reflexivity].
    apply greedy_all. cbn [app]. mstep. rewrite Hp1.
    rewrite <- app_assoc.
    rewrite m_star_cls; [|exact Hpt|reflexivity].
    apply greedy_all. cbn [app]. mstep. reflexivity.
  - cbn [pos length app]. rewrite !length_app. cbn [length]. rewrite !length_app. cbn [length]. lia.
  - cbn [caps length]. repeat (f_equal; try lia).
  - unfold link_re, Opt, Plus, Chr. cbn [Cat app]. mstep.
    rewrite m_Alt. mstep. rewrite Ht1.
    rewrite <- app_assoc.
    rewrite m_star_cls; [|exact Htt|reflexivity].
    apply first_choice. apply greedy_all.
    cbn [app]. mstep. rewrite Hp1.
    rewrite <- app_assoc.
    rewrite m_star_cls; [|exact Hpt|reflexivity].
    apply greedy_all. cbn [app]. mstep. reflexivity.
  - cbn [pos length app]. rewrite !length_app. cbn [length]. rewrite !length_app. cbn [length]. lia.
  - cbn [caps length]. repeat (f_equal; try lia).
Qed.

Lemma convert_link_reference (bang text url : str) :
  Simplify.replace_link (reference_groups bang text url)
  = converted_reference bang text url.
Proof.
  unfold Simplify.replace_link, converted_reference. cbv zeta. cbn [reference_groups].
  rewrite protocol_removed. reflexivity.
Qed.

Lemma convert_link_ext (g g' : nat -> str) :
  g 0 = g' 0 -> g 1 = g' 1 -> g 2 = g' 2 -> g 3 = g' 3 ->
  Simplify.replace_link g = Simplify.replace_link g'.
Proof.
  intros H0 H1 H2 H3. unfold Simplify.replace_link. rewrite H0, H1, H2, H3. reflexivity.
Qed.

Lemma sub_converts (line out : str) :
  converts line out ->
  forall (pre0 : str) (fuel : nat),
    length line <= fuel ->
    sub_from link_re Simplify.replace_link (pre0 ++ line) fuel (length pre0) = out.
Proof.
  induction 1 as [t Ht | pre bang text url rest rest' Hpre Hbang Htne Htext Hne Hurl Hrest IH];
    intros pre0 fuel Hfuel.
  - apply (sub_from_copy_tail link_re Simplify.replace_link
             (none_of [ch "["]) link_re_no_bracket).
    exact Ht.
  - assert (Hlen : 0 < length (reference bang text url)).
    { unfold reference. rewrite !length_app. simpl. lia. }
    rewrite !length_app in Hfuel.
    replace fuel with (length pre + S (fuel - length pre - 1)) by lia.
    rewrite (sub_from_copy link_re Simplify.replace_link
               (none_of (lit "[!")) link_re_no_match pre Hpre pre0
               (reference bang text url ++ rest)).
    f_equal. cbn [sub_from]. unfold match_at. rewrite app_assoc, state_at_app.
    destruct (link_re_match ((pre0 ++ pre) ++ reference bang text url ++ rest)
                (length (pre0 ++ pre)) (rev (pre0 ++ pre)) bang text url rest
                Hbang Htne Htext Hne Hurl)
      as [st [Hm [Hpos Hcaps]]].
    rewrite Hm.
    assert (Hlt : (length (pre0 ++ pre) <? pos st) = true) by (apply Nat.ltb_lt; lia).
    rewrite Hlt. f_equal.
    + rewrite <- convert_link_reference.
      apply convert_link_ext; unfold group; rewrite ?Hcaps;
        cbn [lookup Nat.eqb reference_groups].
      * apply (slice_at _ (pre0 ++ pre) (reference bang text url) rest);
          [reflexivity|reflexivity|lia].
      * apply (slice_at _ (pre0 ++ pre) bang
                 (lit "[" ++ text ++ lit "](" ++ url ++ lit ")" ++ rest));
          [unfold reference; rewrite <- !app_assoc; reflexivity | reflexivity | reflexivity].
      * apply (slice_at _ ((pre0 ++ pre) ++ bang ++ lit "[") text
                 (lit "](" ++ url ++ lit ")" ++ rest));
          [unfold reference; rewrite <- !app_assoc; reflexivity
          | rewrite !length_app; simpl; lia | rewrite !length_app; simpl; lia].
      * apply (slice_at _ ((pre0 ++ pre) ++ bang ++ lit "[" ++ text ++ lit "](") url
                 (lit ")" ++ rest));
          [unfold reference; rewrite <- !app_assoc; reflexivity
          | rewrite !length_app; simpl; lia | rewrite !length_app; simpl; lia].
    + rewrite app_assoc.
      replace (pos st) with (length ((pre0 ++ pre) ++ reference bang text url))
        by (rewrite Hpos, (length_app (pre0 ++ pre)); reflexivity).
      apply IH. lia.
Qed.

(** X28: on a line cut at its references, [convert_markdown_links] converts every
    reference and keeps the text between them: a link [[text](url)] becomes
    the text and, in brackets, the URL without its protocol, the whole between
    two asterisks; a reference with the image marker, or whose target has an
    image extension, is kept as it is. *)
Theorem links_become_italic_text :
  forall line out : str,
    converts line out -> convert_markdown_links line = out.
Proof.
  intros line out H. unfold convert_markdown_links, re_sub.
  apply (sub_converts line out H []). lia.
Qed.

Lemma links_become_italic_text_witness :
  convert_markdown_links (lit "see [Docs](https://postgresql.org) and ![x](./a.svg).")
  = lit "see *Docs (postgresql.org)* and ![x](./a.svg).".
Proof.
  apply links_become_italic_text.
  apply (converts_reference (lit "see ") [] (lit "Docs") (lit "https://postgresql.org")
           (lit " and ![x](./a.svg).") (lit " and ![x](./a.svg)."));
    [reflexivity | left; reflexivity | discriminate | reflexivity | discriminate
    | reflexivity |].
  apply (converts_reference (lit " and ") (lit "!") (lit "x") (lit "./a.svg")
           (lit ".") (lit "."));
    [reflexivity | right; reflexivity | discriminate | reflexivity | discriminate
    | reflexivity |].
  apply converts_tail. reflexivity.
Defined.

(** ** Reveal labels *)

Lemma m_LitI_match (s : str) (k : mstate -> option mstate) :
  forall (p t rest : str) (i : nat) (bef : str) cps,
    ci_text p t = true ->
    m s (LitI p) (MState i bef (t ++ rest) cps) k
    = k (MState (i + length t) (rev t ++ bef) rest cps).
Proof.
  induction p as [|a p IH]; intros t rest i bef cps Ht.
  - destruct t; [|discriminate Ht]. cbn [LitI app length rev]. rewrite m_Eps, Nat.add_0_r.
    reflexivity.
  - destruct t as [|c t]; [discriminate Ht|].
    cbn [ci_text] in Ht. apply andb_true_iff in Ht. destruct Ht as [Hc Ht].
    cbn [LitI app]. unfold ChrI. rewrite m_Seq, m_Cls_cons, Hc, (IH _ _ _ _ _ Ht).
    cbn [length rev]. rewrite <- app_assoc, Nat.add_succ_r. reflexivity.
Qed.

Lemma space_chars (c : char) :
  is_space c = true ->
  In c [9; 10; 11; 12; 13; 28; 29; 30; 31; 32; 133; 160; 5760; 8192; 8193; 8194; 8195;
        8196; 8197; 8198; 8199; 8200; 8201; 8202; 8232; 8233; 8239; 8287; 12288]%N.
Proof.
  unfold is_space, in_ranges, space_ranges. cbn [existsb fst snd].
  rewrite !orb_true_iff, !andb_true_iff, !N.leb_le. cbn [In]. lia.
Qed.

(** No blank is read as one of the Cyrillic letters that begin the words of
    a reveal label. *)
Lemma space_not_letter (c : char) :
  is_space c = true ->
  ci_lit 0x41F%N c = false /\ ci_lit 0x43E%N c = false /\ ci_lit 0x440%N c = false.
Proof.
  intros Hc. apply space_chars in Hc.
  repeat (destruct Hc as [<- | Hc]; [vm_compute; repeat split; reflexivity|]).
  destruct Hc.
Qed.

Lemma eye_not_letter (c : char) :
  eye_or_space c = true -> ci_lit 0x41F%N c = false.
Proof.
  unfold eye_or_space, one_of. cbn [existsb]. rewrite !orb_true_iff.
  intros [[Hc | [Hc | Hc]] | Hc].
  - apply N.eqb_eq in Hc. subst c. vm_compute. reflexivity.
  - apply N.eqb_eq in Hc. subst c. vm_compute. reflexivity.
  - discriminate Hc.
  - apply (space_not_letter c Hc).
Qed.

Lemma ci_text_head (a : char) (p t : str) :
  ci_text (a :: p) t = true -> exists c t', t = c :: t' /\ ci_lit a c = true.
Proof.
  destruct t as [|c t']; [discriminate|]. cbn [ci_text]. intros H.
  apply andb_true_iff in H. exists c, t'. split; [reflexivity | apply H].
Qed.

Lemma show_answer_match (eyes verb ws noun rest : str) :
  all_chars eye_or_space eyes ->
  ci_text show_verb verb = true ->
  ws <> [] -> all_chars is_space ws ->
  existsb (fun w => ci_text w noun) show_nouns = true ->
  is_some (re_match show_answer_re (eyes ++ verb ++ ws ++ noun ++ rest)) = true.
Proof.
  intros Heyes Hverb Hne Hws Hnoun.
  set (s := eyes ++ verb ++ ws ++ noun ++ rest).
  assert (Hstop_noun : stops is_space (noun ++ rest)).
  { unfold show_nouns in Hnoun. cbn [existsb] in Hnoun.
    rewrite orb_false_r in Hnoun.
    assert (Hh : exists c t', noun = c :: t'
                 /\ (ci_lit 0x43E%N c = true \/ ci_lit 0x440%N c = true)).
    { apply orb_true_iff in Hnoun. destruct Hnoun as [H | H];
        [|apply orb_true_iff in H; destruct H as [H | H]];
        apply ci_text_head in H; destruct H as [c [t' [-> Hc]]];
        exists c, t'; (split; [reflexivity|]); auto. }
    destruct Hh as [c [t' [-> Hc]]]. cbn [app stops].
    destruct (is_space c) eqn:Hsp; [|reflexivity].
    destruct (space_not_letter c Hsp) as [_ [H1 H2]].
    destruct Hc as [Hc | Hc]; congruence. }
  assert (Hstop_verb : stops eye_or_space (verb ++ ws ++ noun ++ rest)).
  { destruct (ci_text_head _ _ _ Hverb) as [c [t' [-> Hc]]]. cbn [app stops].
    destruct (eye_or_space c) eqn:He; [|reflexivity].
    rewrite (eye_not_letter c He) in Hc. discriminate Hc. }
  destruct ws as [|w ws]; [contradiction|].
  apply all_chars_cons in Hws. destruct Hws as [Hw Hws].
  assert (Htail : forall i bef cps,
            exists res, m s (Grp 1 (Alt (LitI (nth 0 show_nouns []))
                                     (Alt (LitI (nth 1 show_nouns []))
                                          (LitI (nth 2 show_nouns [])))))
                          (MState i bef (noun ++ rest) cps) Some = Some res).
  { intros i bef cps. rewrite m_Grp, m_Alt.
    unfold show_nouns in Hnoun. cbn [existsb] in Hnoun. rewrite orb_false_r in Hnoun.
    destruct (ci_text (nth 0 show_nouns []) noun) eqn:H0.
    - rewrite (m_LitI_match s _ _ _ _ _ _ _ H0). eexists. reflexivity.
    - destruct (m s (LitI (nth 0 show_nouns [])) _ _) as [r0|]; [eexists; reflexivity|].
      rewrite m_Alt.
      destruct (ci_text (nth 1 show_nouns []) noun) eqn:H1.
      + rewrite (m_LitI_match s _ _ _ _ _ _ _ H1). eexists. reflexivity.
      + destruct (m s (LitI (nth 1 show_nouns [])) _ _) as [r1|]; [eexists; reflexivity|].
        cbn [nth show_nouns] in H0, H1. unfold show_nouns in H0, H1. cbn [nth] in H0, H1.
        rewrite H0, H1 in Hnoun. cbn [orb] in Hnoun.
        rewrite (m_LitI_match s _ _ _ _ _ _ _ Hnoun). eexists. reflexivity. }
  destruct (Htail (0 + length eyes + length verb + S (length ws))
              (rev ws ++ w :: rev verb ++ rev eyes ++ []) [])
    as [res Hres].
  apply (re_match_from_state show_answer_re s res).
  unfold show_answer_re. cbn [Cat]. rewrite m_Seq, m_Bol. cbn [pos Nat.eqb].
  rewrite m_Seq. unfold s at 2.
  change (fun c => one_of [eye; variation_selector] c || is_space c) with eye_or_space.
  rewrite m_star_cls; [|exact Heyes|exact Hstop_verb].
  apply greedy_all. rewrite m_Seq.
  change [1055%N; 1086%N; 1082%N; 1072%N; 1079%N; 1072%N; 1090%N; 1100%N] with show_verb.
  rewrite (m_LitI_match s _ _ _ _ _ _ _ Hverb).
  unfold ws_plus, Plus. cbn [app]. rewrite !m_Seq, m_Cls_cons, Hw.
  rewrite m_star_cls; [|exact Hws|exact Hstop_noun].
  apply greedy_all.
  rewrite <- Hres. f_equal. f_equal; lia.
Qed.

(** X29: a line that reads, bold markers and surrounding blanks apart, as a
    reveal label is removed by [remove_show_answer_headers]: eye signs and
    blanks, the verb, blanks, one of the three nouns (letters of any case),
    then any text. *)
Theorem reveal_labels_removed :
  forall line eyes verb ws noun rest : str,
    bold_paired (strip line) ->
    without star (strip line) = eyes ++ verb ++ ws ++ noun ++ rest ->
    all_chars eye_or_space eyes ->
    ci_text show_verb verb = true ->
    ws <> [] -> all_chars is_space ws ->
    existsb (fun w => ci_text w noun) show_nouns = true ->
    remove_show_answer_headers line = None.
Proof.
  intros line eyes verb ws noun rest Hpaired Hclean Heyes Hverb Hne Hws Hnoun.
  unfold remove_show_answer_headers. cbv zeta.
  assert (Hsub : re_sub bold_re (fun g => g 1) (strip line) = without star (strip line)).
  { unfold re_sub.
    apply (sub_paired bold_re [star; star] star bold_re_no_match
             bold_re_no_match_end bold_re_match eq_refl ltac:(discriminate)
             (strip line) Hpaired [] (S (length (strip line)))).
    lia. }
  destruct (strip line) as [|c0 body] eqn:Hstrip.
  - exfalso. cbn in Hclean.
    destruct eyes; [|discriminate Hclean]. destruct verb; [discriminate Hverb|].
    discriminate Hclean.
  - rewrite Hsub, Hclean.
    rewrite (show_answer_match eyes verb ws noun rest Heyes Hverb Hne Hws Hnoun).
    reflexivity.
Qed.

Lemma reveal_labels_removed_witness :
  remove_show_answer_headers
    ([32; 42; 42; 0x1F441; 0xFE0F; 32; 0x41F; 0x43E; 0x43A; 0x410; 0x417; 0x430; 0x442; 0x44C;
      32; 32; 0x41E; 0x442; 0x432; 0x435; 0x442; 33; 42; 42]%N)
  = None.
Proof.
  apply (reveal_labels_removed _ [0x1F441; 0xFE0F; 32]%N
           [0x41F; 0x43E; 0x43A; 0x410; 0x417; 0x430; 0x442; 0x44C]%N [32; 32]%N
           [0x41E; 0x442; 0x432; 0x435; 0x442]%N [33]%N);
    [| reflexivity | reflexivity | reflexivity | discriminate | reflexivity | reflexivity].
  apply (paired_span [star; star] star []
           [0x1F441; 0xFE0F; 32; 0x41F; 0x43E; 0x43A; 0x410; 0x417; 0x430; 0x442; 0x44C;
            32; 32; 0x41E; 0x442; 0x432; 0x435; 0x442; 33]%N []);
    [reflexivity | reflexivity | discriminate |].
  apply paired_plain. reflexivity.
Defined.

(** ** Operators *)

Lemma consumes_Cls (s : str) (p : char -> bool) : consumes s (Cls p).
Proof.
  intros st k res H. apply m_Cls_inv in H. destruct H as [c [rest [Ha [_ H]]]].
  exists [c], rest. split; [exact Ha|]. cbn [length rev app].
  rewrite Nat.add_1_r. exact H.
Qed.

Lemma consumes_Star_Cls (s : str) (p : char -> bool) : consumes s (Star (Cls p)).
Proof.
  intros st k res H. apply m_star_cls_inv in H. destruct H as [run [rest [Ha [_ H]]]].
  exists run, rest. split; assumption.
Qed.

Lemma consumes_Bol (s : str) : consumes s Bol.
Proof.
  intros st k res H. rewrite m_Bol in H. destruct (Nat.eqb (pos st) 0); [|discriminate].
  exists [], (after st). split; [reflexivity|]. cbn [length rev app].
  rewrite Nat.add_0_r. destruct st. exact H.
Qed.

Lemma consumes_Seq (s : str) (a b : re) :
  consumes s a -> consumes s b -> consumes s (Seq a b).
Proof.
  intros Ha Hb st k res H. rewrite m_Seq in H.
  apply Ha in H. destruct H as [g1 [r1 [E1 H]]].
  apply Hb in H. destruct H as [g2 [r2 [E2 H]]]. cbn [pos before after caps] in E2, H.
  exists (g1 ++ g2), r2. split.
  - rewrite E1, E2, app_assoc. reflexivity.
  - rewrite length_app, rev_app_distr, <- app_assoc, Nat.add_assoc. exact H.
Qed.

Lemma consumes_Alt (s : str) (a b : re) :
  consumes s a -> consumes s b -> consumes s (Alt a b).
Proof.
  intros Ha Hb st k res H. rewrite m_Alt in H.
  destruct (m s a st k) as [res'|] eqn:Hm.
  - injection H as ->. apply Ha, Hm.
  - apply Hb, H.
Qed.

Lemma consumes_Lit (s : str) (t : str) : consumes s (Lit t).
Proof.
  intros st k res H. apply m_Lit_inv in H. destruct H as [rest [Ha H]].
  exists t, rest. split; assumption.
Qed.

(** A match of three groups one after the other is the text of the first,
    of the second and of the third. *)
Lemma three_groups_shape (a1 a2 a3 : re) (s : str) (i : nat) (st : mstate) :
  consumes s a1 -> consumes s a2 -> consumes s a3 ->
  match_at (Cat [Grp 1 a1; Grp 2 a2; Grp 3 a3]) s i = Some st ->
  slice s i (pos st) = group s i st 1 ++ group s i st 2 ++ group s i st 3.
Proof.
  intros H1 H2 H3. unfold match_at, state_at. cbn [Cat]. intros H.
  rewrite m_Seq, m_Grp in H.
  apply H1 in H. destruct H as [g1 [r1 [E1 H]]]. mnorm H.
  apply H2 in H. destruct H as [g2 [r2 [E2 H]]]. mnorm H.
  apply H3 in H. destruct H as [g3 [r3 [E3 H]]]. mnorm H.
  cbn [pos before after caps] in *. injection H as <-. subst r1 r2.
  cbn [pos group caps lookup Nat.eqb].
  rewrite (slice_of_skipn s i [] (g1 ++ g2 ++ g3) r3)
    by (rewrite ?length_app; cbn [app length]; rewrite ?E1, <- ?app_assoc; (reflexivity || lia)).
  rewrite (slice_of_skipn s i [] g1 (g2 ++ g3 ++ r3))
    by (cbn [app length]; rewrite ?E1; (reflexivity || lia)).
  rewrite (slice_of_skipn s i g1 g2 (g3 ++ r3))
    by (rewrite ?E1; (reflexivity || lia)).
  rewrite (slice_of_skipn s i (g1 ++ g2) g3 r3)
    by (rewrite ?length_app, ?E1, <- ?app_assoc; (reflexivity || lia)).
  reflexivity.
Qed.

Lemma operator_re_groups (op s : str) (i : nat) (st : mstate) :
  match_at (operator_re op) s i = Some st ->
  slice s i (pos st) = group s i st 1 ++ group s i st 2 ++ group s i st 3.
Proof.
  unfold operator_re. apply three_groups_shape.
  - apply consumes_Alt; [apply consumes_Cls | apply consumes_Bol].
  - apply consumes_Lit.
  - apply consumes_Alt.
    + cbn [Cat]. apply consumes_Seq; [apply consumes_Star_Cls|].
      apply consumes_Seq; [apply consumes_Cls | apply consumes_Star_Cls].
    + unfold ws_plus, Plus. apply consumes_Seq; [apply consumes_Cls | apply consumes_Star_Cls].
Qed.

Lemma quoted_operator_drops (g1 g2 g3 : str) :
  drops (N.eqb dquote) (g1 ++ [dquote] ++ g2 ++ [dquote] ++ g3) (g1 ++ g2 ++ g3).
Proof.
  apply drops_app; [apply drops_refl|]. cbn [app].
  apply drops_drop; [reflexivity|].
  apply drops_app; [apply drops_refl|].
  apply drops_drop; [reflexivity|]. apply drops_refl.
Qed.

(** X30: [quote_operators_in_lists] changes a line only by inserting double
    quotes: with some of its double quotes deleted, the result is the line. *)
Theorem operators_gain_quotes_only :
  forall line : str,
    drops (N.eqb dquote) (quote_operators_in_lists line) line.
Proof.
  intros line. unfold quote_operators_in_lists.
  destruct (startswith fence (strip line)); [apply drops_refl|].
  destruct (is_some (re_match quote_line_re line)); [apply drops_refl|].
  assert (Hstep : forall op x,
            drops (N.eqb dquote)
              (re_sub (operator_re op)
                 (fun g => g 1 ++ [dquote] ++ g 2 ++ [dquote] ++ g 3) x) x).
  { intros op x.
    apply (re_sub_rel (fun a b => drops (N.eqb dquote) b a)).
    - constructor.
    - intros c a b H. apply drops_keep, H.
    - intros x1 y1 x2 y2 Ha Hb. apply drops_app; assumption.
    - intros i st Hm. rewrite (operator_re_groups op x i st Hm).
      apply quoted_operator_drops. }
  assert (Hfold : forall ops x,
            drops (N.eqb dquote)
              (fold_left
                 (fun line op =>
                    re_sub (operator_re op)
                      (fun g => g 1 ++ [dquote] ++ g 2 ++ [dquote] ++ g 3) line)
                 ops x) x).
  { induction ops as [|op ops IH]; intros x; [apply drops_refl|].
    cbn [fold_left]. apply (drops_trans _ _ _ _ (IH _)). apply Hstep. }
  apply Hfold.
Qed.

(** ** References, in every line *)

(** A match of the pattern of references is a reference, and its groups
    are the parts of the reference. *)
Lemma link_pattern_shape (s : str) (i : nat) (st : mstate) :
  match_at Split.markdown_link_pattern s i = Some st ->
  exists bang text path rest,
    reference_parts bang text path
    /\ skipn i s = reference bang text path ++ rest
    /\ pos st = i + length (reference bang text path)
    /\ group s i st 0 = reference bang text path
    /\ group s i st 1 = bang /\ group s i st 2 = text /\ group s i st 3 = path.
Proof.
  unfold match_at, Split.markdown_link_pattern, Opt. cbn [Cat].
  rewrite m_Seq, m_Grp, m_Alt. intros H.
  assert (Hk : exists bang r0,
             (bang = [] \/ bang = lit "!")
             /\ skipn i s = bang ++ r0
             /\ m s (Cat [Chr (ch "["); Grp 2 (Star (Cls (none_of [ch "]"])));
                          Chr (ch "]"); Chr (ch "(");
                          Grp 3 (Plus (Cls (none_of [ch ")"]))); Chr (ch ")")])
                  (MState (i + length bang) (rev bang ++ rev (firstn i s)) r0
                     [(1, (i, i + length bang))]) Some = Some st).
  { destruct (m s (Chr (ch "!")) (state_at s i) _) as [res|] eqn:Hbang.
    - injection H as ->. apply m_Chr_inv in Hbang. destruct Hbang as [r0 [Ha Hb]].
      unfold state_at in Ha, Hb. cbn [pos before after caps] in Ha, Hb.
      exists (lit "!"), r0. split; [right; reflexivity|]. split; [exact Ha|].
      cbn [length rev app]. rewrite Nat.add_1_r. exact Hb.
    - rewrite m_Eps in H. unfold state_at in H. cbn [pos before after caps] in H.
      exists [], (skipn i s). split; [left; reflexivity|]. split; [reflexivity|].
      cbn [length rev app]. rewrite Nat.add_0_r. exact H. }
  clear H. destruct Hk as [bang [r0 [Hbang [Hs H]]]].
  cbn [Cat] in H. rewrite m_Seq in H.
  apply m_Chr_inv in H. destruct H as [r1 [Ha1 H]]. mnorm H.
  apply m_star_cls_inv in H. destruct H as [text [r2 [Ha2 [Htext H]]]]. mnorm H.
  apply m_Chr_inv in H. destruct H as [r3 [Ha3 H]]. mnorm H.
  apply m_Chr_inv in H. destruct H as [r4 [Ha4 H]]. mnorm H.
  apply m_plus_cls_inv in H. destruct H as [path [r5 [Ha5 [Hne [Hpath H]]]]]. mnorm H.
  apply m_Chr_inv in H. destruct H as [r6 [Ha6 H]]. mnorm H.
  cbn [pos before after caps] in *. injection H as <-.
  subst r0 r1 r2 r3 r4 r5.
  exists bang, text, path, r6.
  assert (Hskip : skipn i s = reference bang text path ++ r6).
  { rewrite Hs. unfold reference. rewrite <- !app_assoc. reflexivity. }
  split; [repeat split; assumption|]. split; [exact Hskip|].
  cbn [pos group caps lookup Nat.eqb]. split; [|split; [|split; [|split]]].
  - unfold reference. rewrite !length_app. simpl. lia.
  - apply (slice_of_skipn s i [] (reference bang text path) r6);
      [exact Hskip | simpl; lia
      | unfold reference; rewrite !length_app; simpl; lia].
  - apply (slice_of_skipn s i [] bang (lit "[" ++ text ++ lit "](" ++ path ++ lit ")" ++ r6));
      [rewrite Hskip; unfold reference; rewrite <- !app_assoc; reflexivity
      | simpl; lia | simpl; lia].
  - apply (slice_of_skipn s i (bang ++ lit "[") text (lit "](" ++ path ++ lit ")" ++ r6));
      [rewrite Hskip; unfold reference; rewrite <- !app_assoc; reflexivity
      | rewrite length_app; simpl; lia | rewrite length_app; simpl; lia].
  - apply (slice_of_skipn s i (bang ++ lit "[" ++ text ++ lit "](") path (lit ")" ++ r6));
      [rewrite Hskip; unfold reference; rewrite <- !app_assoc; reflexivity
      | rewrite !length_app; simpl; rewrite ?length_app; simpl; lia
      | rewrite !length_app; simpl; rewrite ?length_app; simpl; lia].
Qed.

Lemma skipn_app_length (pre suf : str) : skipn (length pre) (pre ++ suf) = suf.
Proof. rewrite skipn_app, Nat.sub_diag, skipn_all. reflexivity. Qed.

(** The substitution of [adjust_relative_path], from any position of the
    line on, reads what is left as [adjusted_line] does. *)
Lemma sub_adjusted_line (n : nat) (line out : str) :
  adjusted_line n line out ->
  forall (pre0 : str) (fuel : nat),
    length line < fuel ->
    sub_from Split.markdown_link_pattern (Split.replace_link n) (pre0 ++ line) fuel
             (length pre0) = out.
Proof.
  induction 1 as [| bang text path rest rest' Hparts Hrest IH | c s s' Hno Hs IH];
    intros pre0 fuel Hfuel.
  - destruct fuel as [|fuel]; [simpl in Hfuel; lia|].
    cbn [sub_from]. unfold match_at. rewrite state_at_app.
    rewrite (link_pattern_no_bracket _ _ _ []) by reflexivity.
    rewrite app_nil_r, (proj2 (nth_error_None pre0 (length pre0))) by lia. reflexivity.
  - destruct Hparts as [Hbang [Htext [Hne Hpath]]].
    assert (Hlen : 0 < length (reference bang text path)).
    { unfold reference. rewrite !length_app. simpl. lia. }
    rewrite length_app in Hfuel.
    destruct fuel as [|fuel]; [lia|].
    cbn [sub_from]. unfold match_at. rewrite state_at_app.
    destruct (link_pattern_match (pre0 ++ reference bang text path ++ rest)
                (length pre0) (rev pre0) bang text path rest Hbang Htext Hne Hpath)
      as [st [Hm [Hpos Hcaps]]].
    rewrite Hm.
    assert (Hlt : (length pre0 <? pos st) = true) by (apply Nat.ltb_lt; lia).
    rewrite Hlt. f_equal.
    + rewrite <- replace_link_reference.
      apply replace_link_ext; unfold group; rewrite ?Hcaps;
        cbn [lookup Nat.eqb reference_groups].
      * apply (slice_at _ pre0 (reference bang text path) rest);
          [reflexivity|reflexivity|lia].
      * apply (slice_at _ pre0 bang
                 (lit "[" ++ text ++ lit "](" ++ path ++ lit ")" ++ rest));
          [unfold reference; rewrite <- !app_assoc; reflexivity | reflexivity | reflexivity].
      * apply (slice_at _ (pre0 ++ bang ++ lit "[") text
                 (lit "](" ++ path ++ lit ")" ++ rest));
          [unfold reference; rewrite <- !app_assoc; reflexivity
          | rewrite !length_app; simpl; lia | rewrite !length_app; simpl; lia].
      * apply (slice_at _ (pre0 ++ bang ++ lit "[" ++ text ++ lit "](") path
                 (lit ")" ++ rest));
          [unfold reference; rewrite <- !app_assoc; reflexivity
          | rewrite !length_app; simpl; lia | rewrite !length_app; simpl; lia].
    + rewrite app_assoc.
      replace (pos st) with (length (pre0 ++ reference bang text path))
        by (rewrite Hpos, length_app; reflexivity).
      apply IH. lia.
  - cbn [length] in Hfuel. destruct fuel as [|fuel]; [lia|].
    cbn [sub_from].
    destruct (match_at Split.markdown_link_pattern (pre0 ++ c :: s) (length pre0))
      as [st|] eqn:Hm.
    + exfalso. apply Hno. apply link_pattern_shape in Hm.
      destruct Hm as [bang [text [path [rest [Hparts [Hskip _]]]]]].
      rewrite skipn_app_length in Hskip.
      exists bang, text, path, rest. split; assumption.
    + rewrite nth_error_middle. f_equal.
      replace (pre0 ++ c :: s) with ((pre0 ++ [c]) ++ s)
        by (rewrite <- app_assoc; reflexivity).
      replace (S (length pre0)) with (length (pre0 ++ [c]))
        by (rewrite length_app; simpl; lia).
      apply IH. lia.
Qed.

Lemma adjusted_line_total (n : nat) (s : str) :
  forall (fuel i : nat),
    length s - i < fuel ->
    adjusted_line n (skipn i s)
      (sub_from Split.markdown_link_pattern (Split.replace_link n) s fuel i).
Proof.
  induction fuel as [|fuel IH]; intros i Hfuel; [lia|].
  cbn [sub_from].
  destruct (match_at Split.markdown_link_pattern s i) as [st|] eqn:Hm.
  - destruct (link_pattern_shape s i st Hm)
      as [bang [text [path [rest [Hparts [Hskip [Hpos [H0 [H1 [H2 H3]]]]]]]]]].
    assert (Hlen : 0 < length (reference bang text path)).
    { unfold reference. rewrite !length_app. simpl. lia. }
    assert (Hlt : (i <? pos st) = true) by (apply Nat.ltb_lt; lia).
    assert (Hin : length (reference bang text path) <= length s - i).
    { rewrite <- length_skipn, Hskip, length_app. lia. }
    rewrite Hlt, Hskip.
    rewrite (replace_link_ext n _ (reference_groups bang text path) H0 H1 H2 H3).
    rewrite replace_link_reference.
    apply adjusted_reference_here; [exact Hparts|].
    replace rest with (skipn (pos st) s).
    + apply IH. lia.
    + rewrite Hpos, Nat.add_comm, <- skipn_skipn, Hskip. apply skipn_app_length.
  - destruct (nth_error s i) as [c|] eqn:Hc.
    + rewrite (skipn_nth_error s i c Hc). apply adjusted_character.
      * intros [bang [text [path [rest [[Hbang [Htext [Hne Hpath]]] Heq]]]]].
        destruct (link_pattern_match s i (rev (firstn i s)) bang text path rest
                    Hbang Htext Hne Hpath) as [st [Hst _]].
        unfold match_at, state_at in Hm.
        rewrite (skipn_nth_error s i c Hc), Heq, Hst in Hm. discriminate Hm.
      * apply IH. assert (i < length s) by (apply nth_error_Some; rewrite Hc; discriminate). lia.
    + rewrite skipn_all2 by (apply nth_error_None; exact Hc). apply adjusted_end.
Qed.

(** C5 (amended): for every number [levels_up > 0] of levels and every line,
    [adjust_relative_path] reads the line from left to right; where a
    reference begins (an exclamation mark or nothing, a text in square
    brackets, a path in round brackets) it writes the reference adjusted and
    goes on after it, and it copies every other character.  A reference is
    adjusted when it has the image marker or an image extension and its
    path, stripped of blanks, is relative: the current-directory prefix is
    replaced by [levels_up] parent-directory prefixes, a path without prefix
    gains them, a path with the parent-directory prefix is kept; a link
    without marker and without image extension is kept.  This determines the
    result. *)
Theorem references_adjusted_in_every_line :
  forall (levels_up : nat) (line out : str),
    0 < levels_up ->
    (adjusted_line levels_up line out <-> Split.adjust_relative_path line levels_up = out).
Proof.
  intros levels_up line out Hpos. destruct levels_up as [|n]; [lia|].
  unfold Split.adjust_relative_path, re_sub. split.
  - intros H. apply (sub_adjusted_line (S n) line out H []). simpl. lia.
  - intros <-. apply (adjusted_line_total (S n) line (S (length line)) 0). lia.
Qed.

(** No reference begins at a character that is neither an opening square
    bracket nor an exclamation mark, nor at an exclamation mark that no
    opening square bracket follows. *)
Lemma no_reference_plain (c : char) (s : str) :
  none_of (lit "[!") c = true -> ~ begins_with_reference (c :: s).
Proof.
  intros Hc [bang [text [path [rest [[Hbang _] Heq]]]]].
  unfold reference in Heq. destruct Hbang as [-> | ->]; injection Heq as -> _;
    discriminate Hc.
Qed.

Lemma no_reference_bang (c : char) (s : str) :
  none_of (lit "[") c = true -> ~ begins_with_reference (ch "!" :: c :: s).
Proof.
  intros Hc [bang [text [path [rest [[Hbang _] Heq]]]]].
  unfold reference in Heq. destruct Hbang as [-> | ->].
  - injection Heq as H _. discriminate H.
  - injection Heq as -> _. discriminate Hc.
Qed.

Lemma references_adjusted_in_every_line_witness :
  Split.adjust_relative_path
    (lit "No! ![x](./img.png) [text](notes.md) [![alt](./diagram)](http://link)") 1
  = lit "No! ![x](../img.png) [text](notes.md) [![alt](./diagram)](http://link)".
Proof.
  apply (proj1 (references_adjusted_in_every_line 1 _ _ (Nat.lt_0_succ 0))).
  do 2 (apply adjusted_character; [apply no_reference_plain; reflexivity|]).
  apply adjusted_character; [apply no_reference_bang; reflexivity|].
  apply adjusted_character; [apply no_reference_plain; reflexivity|].
  apply (adjusted_reference_here 1 (lit "!") (lit "x") (lit "./img.png")
           (lit " [text](notes.md) [![alt](./diagram)](http://link)")
           (lit " [text](notes.md) [![alt](./diagram)](http://link)"));
    [repeat split; try reflexivity; try discriminate; right; reflexivity|].
  apply adjusted_character; [apply no_reference_plain; reflexivity|].
  apply (adjusted_reference_here 1 [] (lit "text") (lit "notes.md")
           (lit " [![alt](./diagram)](http://link)")
           (lit " [![alt](./diagram)](http://link)"));
    [repeat split; try reflexivity; try discriminate; left; reflexivity|].
  apply adjusted_character; [apply no_reference_plain; reflexivity|].
  apply (adjusted_reference_here 1 [] (lit "![alt") (lit "./diagram")
           (lit "](http://link)") (lit "](http://link)"));
    [repeat split; try reflexivity; try discriminate; left; reflexivity|].
  do 14 (apply adjusted_character; [apply no_reference_plain; reflexivity|]).
  apply adjusted_end.
Defined.

(** ** Nested list items, in the document *)

Lemma unify_from_app (a b : list str) :
  forall ctx,
    unify_from ctx (a ++ b)
    = unify_from ctx a
      ++ unify_from (fold_left (fun c l => fst (unify_step c l)) a ctx) b.
Proof.
  induction a as [|l a IH]; intros ctx; [reflexivity|].
  cbn [app fold_left]. rewrite !unify_from_cons, IH. reflexivity.
Qed.

(** A line without indentation is treated in the same way whatever the
    list context is. *)
Lemma unify_step_unindented (ctx : list_context) (line : str) :
  stops is_space line -> unify_step ctx line = unify_step initial_context line.
Proof.
  intros H. unfold unify_step. cbv zeta. rewrite (lstrip_not_indented line H).
  rewrite Nat.sub_diag. cbn [Nat.eqb orb Nat.leb].
  destruct (_ && _); reflexivity.
Qed.

Lemma unify_from_unindented (ctx : list_context) (rest : list str) :
  starts_unindented rest -> unify_from ctx rest = unify_nested_list_types rest.
Proof.
  unfold unify_nested_list_types. destruct rest as [|l rest]; [reflexivity|].
  cbn [starts_unindented]. intros H.
  rewrite !unify_from_cons, (unify_step_unindented ctx l H). reflexivity.
Qed.

Lemma unify_step_top_item (ctx : list_context) (it : list_item) :
  top_item it ->
  unify_step ctx (item_line it) = (ListContext (Some (item_kind it)) 0 1, item_line it).
Proof.
  intros [[Hind [Hmk [Hne [Hws Htext]]]] Hzero]. unfold item_line.
  destruct (unify_step_item ctx (item_indent it) (item_mark it) (item_kind it)
              (item_blanks it) (item_content it) Hind Hmk Hne Hws Htext) as [_ H].
  rewrite H by (rewrite Hzero; simpl; lia). rewrite Hzero. reflexivity.
Qed.

Lemma unify_step_nested_item (pt : option list_type) (n : nat) (it : list_item) :
  well_formed_item it -> item_indent it <> [] ->
  unify_step (ListContext pt 0 n) (item_line it)
  = match pt with
    | Some numbered =>
        (ListContext pt 0 (S n),
         repeat (ch " ") (length (item_indent it)) ++ (str_of_nat n ++ lit ". ")
           ++ item_content it)
    | Some bullet =>
        (ListContext pt 0 n,
         repeat (ch " ") (length (item_indent it)) ++ lit "- " ++ item_content it)
    | None => (ListContext pt 0 n, item_line it)
    end.
Proof.
  intros [Hind [Hmk [Hne [Hws Htext]]]] Hdeep. unfold item_line.
  destruct (unify_step_item (ListContext pt 0 n) (item_indent it) (item_mark it)
              (item_kind it) (item_blanks it) (item_content it) Hind Hmk Hne Hws Htext)
    as [H _].
  rewrite H by (cbn [parent_indent]; destruct (item_indent it); [contradiction | simpl; lia]).
  cbn [parent_type parent_indent nested_counter].
  destruct pt as [[|]|]; rewrite <- ?app_assoc; reflexivity.
Qed.

Lemma lstrip_with_length (p : char -> bool) (s : str) :
  length (lstrip_with p s) <= length s.
Proof.
  induction s as [|c s IH]; [reflexivity|]. simpl. destruct (p c); simpl; lia.
Qed.

(** An indented line that is not a list item is kept, and so is the list
    context. *)
Lemma unify_step_indented_text (pt : option list_type) (n : nat) (line : str) :
  is_item line = false -> indented line ->
  unify_step (ListContext pt 0 n) line = (ListContext pt 0 n, line).
Proof.
  intros Hitem Hind. unfold unify_step. cbv zeta. rewrite (not_item line Hitem).
  destruct line as [|c r]; [contradiction|]. cbn [indented] in Hind.
  assert (Hlen : (length (c :: r) - length (lstrip (c :: r)) <=? parent_indent (ListContext pt 0 n))
                 = false).
  { apply Nat.leb_gt. unfold lstrip. cbn [lstrip_with parent_indent length]. rewrite Hind.
    pose proof (lstrip_with_length is_space r). lia. }
  rewrite Hlen. reflexivity.
Qed.

Lemma unify_from_under_parent (kind : list_type) (es : list indented_line) (rest : list str) :
  Forall well_indented es ->
  forall n,
    exists n',
      unify_from (ListContext (Some kind) 0 n) (map line_of es ++ rest)
      = renumbered kind n es ++ unify_from (ListContext (Some kind) 0 n') rest.
Proof.
  induction 1 as [|e es He Hes IH]; intros n.
  - exists n. reflexivity.
  - cbn [map app]. rewrite unify_from_cons. destruct e as [it | line].
    + destruct He as [Hwf Hdeep]. cbn [line_of renumbered].
      rewrite (unify_step_nested_item _ _ it Hwf Hdeep).
      destruct kind; cbn [fst snd].
      * destruct (IH (S n)) as [n' ->]. exists n'. reflexivity.
      * destruct (IH n) as [n' H]. exists n'.
        assert (Hsame : forall k l, renumbered bullet k l = renumbered bullet n l).
        { intros k l. revert k. generalize n as j.
          induction l as [|[x | x] l IHl]; intros j k; [reflexivity | |];
            cbn [renumbered]; f_equal; apply IHl. }
        rewrite H, (Hsame (S n)). reflexivity.
    + destruct He as [Hitem Hind]. cbn [line_of renumbered].
      rewrite (unify_step_indented_text _ _ line Hitem Hind). cbn [fst snd].
      destruct (IH n) as [n' ->]. exists n'. reflexivity.
Qed.

Lemma unify_from_without_parent (n : nat) (es : list indented_line) (rest : list str) :
  Forall well_indented es ->
  unify_from (ListContext None 0 n) (map line_of es ++ rest)
  = map line_of es ++ unify_from (ListContext None 0 n) rest.
Proof.
  induction 1 as [|e es He Hes IH]; [reflexivity|].
  cbn [map app]. rewrite unify_from_cons. destruct e as [it | line].
  - destruct He as [Hwf Hdeep]. cbn [line_of].
    rewrite (unify_step_nested_item _ _ it Hwf Hdeep). cbn [fst snd]. rewrite IH. reflexivity.
  - destruct He as [Hitem Hind]. cbn [line_of].
    rewrite (unify_step_indented_text _ _ line Hitem Hind). cbn [fst snd].
    rewrite IH. reflexivity.
Qed.

(** C6 (as stated): the indentation of a nested item is not preserved when
    it is not made of spaces: a tab becomes a space. *)
Lemma tab_indentation_becomes_a_space :
  unify_nested_list_types [lit "- p"; 9%N :: lit "- a"] = [lit "- p"; lit " - a"].
Proof. vm_compute. reflexivity. Qed.

(** C6 (amended): in a document, the indented list items that follow a list
    item without indentation (the parent) are written again as their
    indentation in spaces, the marker of the parent's kind and their text:
    under a numbered parent the ordinals 1, 2, ... and a dot, under a
    bulleted parent a dash; the indented lines between them that are not list
    items are kept and take no ordinal.  The lines before are treated as they
    are without what follows, and the lines after, when they begin without
    indentation, as a document of their own.  Indented lines at the head of
    the document, or after a line without indentation that is not a list
    item, have no parent and are left as they are. *)
Theorem nested_items_take_parent_marker :
  forall (pre : list str) (es : list indented_line) (rest : list str),
    Forall well_indented es ->
    (forall parent : list_item,
       top_item parent -> starts_unindented rest ->
       unify_nested_list_types (pre ++ item_line parent :: map line_of es ++ rest)
       = unify_nested_list_types pre
         ++ item_line parent :: renumbered (item_kind parent) 1 es
         ++ unify_nested_list_types rest)
    /\ unify_nested_list_types (map line_of es ++ rest)
       = map line_of es ++ unify_nested_list_types rest
    /\ (forall line : str,
          is_item line = false -> stops is_space line ->
          unify_nested_list_types (pre ++ line :: map line_of es ++ rest)
          = unify_nested_list_types pre
            ++ line :: map line_of es ++ unify_nested_list_types rest).
Proof.
  intros pre es rest Hes. split; [|split].
  - intros parent Hparent Hrest. unfold unify_nested_list_types at 1 2.
    rewrite unify_from_app. f_equal.
    rewrite unify_from_cons, (unify_step_top_item _ parent Hparent). cbn [fst snd].
    f_equal.
    destruct (unify_from_under_parent (item_kind parent) es rest Hes 1) as [n' ->].
    f_equal. apply unify_from_unindented. exact Hrest.
  - unfold unify_nested_list_types. apply unify_from_without_parent. exact Hes.
  - intros line Hitem Hstop. unfold unify_nested_list_types at 1 2.
    rewrite unify_from_app. f_equal.
    rewrite unify_from_cons, (unify_step_ends_list _ line Hitem Hstop). cbn [fst snd].
    f_equal. apply (unify_from_without_parent 1 es rest Hes).
Qed.

Lemma nested_items_take_parent_marker_witness :
  unify_nested_list_types
    [lit "intro"; lit "1. parent"; lit "  - a"; lit "    more"; 9%N :: lit "7.  b";
     lit "- next"; lit "  - c"]
  = [lit "intro"; lit "1. parent"; lit "  1. a"; lit "    more"; lit " 2. b";
     lit "- next"; lit "  - c"].
Proof.
  assert (Ha : well_indented
                 (Nested (ListItem (lit "  ") [ch "-"] bullet (lit " ") (lit "a")))).
  { repeat split; try reflexivity; try discriminate. apply marker_bullet. }
  assert (Hm : well_indented (Other (lit "    more"))).
  { split; reflexivity. }
  assert (Hb : well_indented
                 (Nested (ListItem [9%N] (lit "7" ++ [ch "."]) numbered (lit "  ") (lit "b")))).
  { repeat split; try reflexivity; try discriminate.
    apply (marker_numbered (lit "7")); [discriminate | reflexivity]. }
  assert (Hp : top_item (ListItem [] (lit "1" ++ [ch "."]) numbered (lit " ") (lit "parent"))).
  { repeat split; try reflexivity; try discriminate.
    apply (marker_numbered (lit "1")); [discriminate | reflexivity]. }
  refine (eq_trans
            (proj1 (nested_items_take_parent_marker [lit "intro"] [_; _; _]
                      [lit "- next"; lit "  - c"]
                      (Forall_cons _ Ha (Forall_cons _ Hm (Forall_cons _ Hb (Forall_nil _)))))
               _ Hp eq_refl) _).
  vm_compute. reflexivity.
Defined.

(** ** The fence tokens of the two scripts *)

Lemma odd_succ_negb (n : nat) : Nat.odd (S n) = negb (Nat.odd n).
Proof. rewrite Nat.odd_succ, <- Nat.negb_odd. reflexivity. Qed.

(** The flag of the splitter after some lines is the flag before, flipped
    when an odd number of the lines start with a fence token. *)
Lemma fold_fence_parity (lines : list str) :
  forall st,
    Split.in_code_block (fold_left Split.parse_step lines st)
    = xorb (Split.in_code_block st) (fence_open lines).
Proof.
  unfold fence_open. induction lines as [|l lines IH]; intros st.
  - simpl. rewrite xorb_false_r. reflexivity.
  - cbn [fold_left filter]. rewrite IH. unfold Split.parse_step.
    destruct (Split.is_fence_line l) eqn:Hl.
    + cbn [Split.in_code_block length]. rewrite odd_succ_negb.
      destruct (Split.in_code_block st), (Nat.odd _); reflexivity.
    + destruct (Split.in_code_block st) eqn:Hst; [cbn [Split.in_code_block]; reflexivity|].
      destruct (Split.is_section_heading l); cbn [Split.in_code_block]; rewrite ?Hst; reflexivity.
Qed.

(** Inside a fence the section that is being filled holds the line that
    opened the fence. *)
Lemma fold_fence_content (lines : list str) :
  forall st,
    (Split.in_code_block st = true -> Split.has_content (Split.current_section st) = true) ->
    Split.in_code_block (fold_left Split.parse_step lines st) = true ->
    Split.has_content (Split.current_section (fold_left Split.parse_step lines st)) = true.
Proof.
  induction lines as [|l lines IH]; intros st Hst; [exact Hst|].
  cbn [fold_left]. apply IH. unfold Split.parse_step.
  destruct (Split.is_fence_line l) eqn:Hl.
  - intros _. cbn [Split.current_section].
    apply has_content_not_blank, fence_line_not_blank, Hl.
  - destruct (Split.in_code_block st) eqn:Hin.
    + intros _. cbn [Split.current_section]. rewrite has_content_snoc, (Hst eq_refl).
      reflexivity.
    + destruct (Split.is_section_heading l); cbn [Split.in_code_block]; discriminate.
Qed.

(** The sections that are closed play no part in what follows. *)
Lemma fold_sections_prefix (p : list (list str)) (lines : list str) :
  forall secs cur b,
    fold_left Split.parse_step lines (Split.ParserState (p ++ secs) cur b)
    = Split.ParserState
        (p ++ Split.sections (fold_left Split.parse_step lines (Split.ParserState secs cur b)))
        (Split.current_section (fold_left Split.parse_step lines (Split.ParserState secs cur b)))
        (Split.in_code_block (fold_left Split.parse_step lines (Split.ParserState secs cur b))).
Proof.
  induction lines as [|l lines IH]; intros secs cur b; [reflexivity|].
  cbn [fold_left]. unfold Split.parse_step at 2 4 6 8.
  cbn [Split.sections Split.current_section Split.in_code_block].
  destruct (Split.is_fence_line l); [apply IH|].
  destruct b; [apply IH|].
  destruct (Split.is_section_heading l); [|apply IH].
  destruct (Split.has_content cur); [|apply IH].
  rewrite <- app_assoc. apply IH.
Qed.

Lemma fold_from_closed (closed : list (list str)) (lines : list str) (cur : list str)
  (b : bool) :
  fold_left Split.parse_step lines (Split.ParserState closed cur b)
  = Split.ParserState
      (closed ++ Split.sections (fold_left Split.parse_step lines (Split.ParserState [] cur b)))
      (Split.current_section (fold_left Split.parse_step lines (Split.ParserState [] cur b)))
      (Split.in_code_block (fold_left Split.parse_step lines (Split.ParserState [] cur b))).
Proof.
  rewrite <- (app_nil_r closed) at 1. apply fold_sections_prefix.
Qed.

Lemma fold_inside_fence_from (body : list str) (st : Split.parser_state) :
  Split.in_code_block st = true ->
  Forall (fun l => Split.is_fence_line l = false) body ->
  fold_left Split.parse_step body st
  = Split.ParserState (Split.sections st) (Split.current_section st ++ body) true.
Proof.
  destruct st as [secs cur b]. cbn [Split.in_code_block Split.sections Split.current_section].
  intros -> Hbody. apply fold_inside_fence. exact Hbody.
Qed.

Lemma heading_not_fence (l : str) :
  Split.is_section_heading l = true -> Split.is_fence_line l = false.
Proof.
  unfold Split.is_section_heading, Split.is_fence_line. intros H.
  apply andb_true_iff in H. destruct H as [H _].
  apply startswith_prefix in H. destruct H as [y ->]. reflexivity.
Qed.

(** The flag of the rewriting loop after some lines, and what the loop
    writes for the lines that follow. *)
Lemma process_lines_app (a rest : list str) :
  forall b,
    process_lines b (a ++ rest)
    = process_lines b a ++ process_lines (xorb b (backtick_fence_open a)) rest.
Proof.
  unfold backtick_fence_open. induction a as [|l a IH]; intros b.
  - simpl. rewrite xorb_false_r. reflexivity.
  - cbn [app filter]. rewrite !process_lines_cons.
    destruct (startswith fence (strip l)) eqn:Hl.
    + cbn [length app]. rewrite IH, odd_succ_negb. f_equal. f_equal.
      destruct b, (Nat.odd _); reflexivity.
    + destruct b.
      * cbn [app]. rewrite IH. reflexivity.
      * destruct (remove_show_answer_headers l); [cbn [app]|]; rewrite IH; reflexivity.
Qed.

(** A line that starts with triple tildes is no reveal label. *)
Lemma tildes_line_kept (line : str) :
  startswith tildes (strip line) = true -> remove_show_answer_headers line = Some line.
Proof.
  intros H. unfold remove_show_answer_headers. cbv zeta.
  apply startswith_prefix in H. destruct H as [y Hy]. rewrite Hy.
  change (tildes ++ y) with (ch "~" :: ch "~" :: ch "~" :: y).
  assert (Hsub : exists t, re_sub bold_re (fun g => g 1) (ch "~" :: ch "~" :: ch "~" :: y)
                           = ch "~" :: t).
  { unfold re_sub. cbn [sub_from length]. unfold match_at.
    change (state_at (ch "~" :: ch "~" :: ch "~" :: y) 0)
      with (MState 0 [] (ch "~" :: ch "~" :: ch "~" :: y) []).
    rewrite bold_re_no_match by reflexivity. cbn [nth_error]. eexists. reflexivity. }
  destruct Hsub as [t ->].
  assert (Hno : re_match show_answer_re (ch "~" :: t) = None).
  { rewrite re_match_at_start. unfold show_answer_re. cbn [Cat].
    rewrite m_Seq, m_Bol. cbn [pos Nat.eqb]. rewrite m_Seq.
    rewrite (m_star_cls _ _ _ [] (ch "~" :: t)); [|reflexivity|reflexivity].
    cbn [greedy LitI]. unfold ChrI. rewrite !m_Seq, m_Cls_cons.
    change (ci_lit 1055%N (ch "~")) with false. reflexivity. }
  rewrite Hno. reflexivity.
Qed.

(** C9: the splitter is inside a fence when an odd number of the lines read
    so far start with a triple backtick or a triple tilde, whichever of the
    two each of them is: outside a fence a heading of the second level cuts
    the document in two, inside a fence the lines that start with neither
    token, headings among them, are added to the section of the fence.  The
    rewriting loop counts triple backticks only: outside a fence the document
    can be cut anywhere, inside a fence the lines are copied up to the next
    line that starts with a triple backtick, and a line that starts with
    triple tildes outside a fence goes through the rules and opens nothing. *)
Theorem fence_tokens_of_the_two_scripts :
  forall (pre : list str) (line : str) (body rest : list str),
    (fence_open pre = false -> Split.is_section_heading line = true ->
       Split.parse_lines (pre ++ line :: rest)
       = Split.parse_lines pre ++ Split.parse_lines (line :: rest))
    /\ (fence_open pre = true ->
        Forall (fun l => Split.is_fence_line l = false) body ->
        exists secs cur,
          Split.parse_lines pre = secs ++ [cur]
          /\ Split.parse_lines (pre ++ body) = secs ++ [cur ++ body])
    /\ (backtick_fence_open pre = false ->
        process_lines false (pre ++ rest)
        = process_lines false pre ++ process_lines false rest)
    /\ (backtick_fence_open pre = true ->
        Forall (fun l => startswith fence (strip l) = false) body ->
        startswith fence (strip line) = true ->
        process_lines false (pre ++ body ++ line :: rest)
        = process_lines false pre ++ body ++ line :: process_lines false rest)
    /\ (startswith tildes (strip line) = true ->
        process_lines false (line :: rest) = apply_rules line :: process_lines false rest).
Proof.
  intros pre line body rest.
  pose (st := fold_left Split.parse_step pre (Split.ParserState [] [] false)).
  assert (Hflag : Split.in_code_block st = fence_open pre).
  { unfold st. rewrite fold_fence_parity. reflexivity. }
  split; [|split; [|split; [|split]]].
  - intros Hout Hhead. rewrite Hout in Hflag.
    assert (Hstep : forall s0,
              Split.in_code_block s0 = false ->
              Split.parse_step s0 line
              = Split.ParserState
                  (if Split.has_content (Split.current_section s0)
                   then Split.sections s0 ++ [Split.current_section s0]
                   else Split.sections s0) [line] false).
    { intros s0 H0. unfold Split.parse_step.
      rewrite (heading_not_fence line Hhead), H0, Hhead. reflexivity. }
    unfold Split.parse_lines. rewrite fold_left_app. fold st. cbn [fold_left].
    rewrite (Hstep st Hflag), (Hstep (Split.ParserState [] [] false) eq_refl).
    cbn [Split.has_content Split.current_section Split.sections].
    set (closed := if Split.has_content (Split.current_section st)
                   then Split.sections st ++ [Split.current_section st]
                   else Split.sections st).
    rewrite (fold_from_closed closed). cbn [Split.sections Split.current_section].
    set (st2 := fold_left Split.parse_step rest (Split.ParserState [] [line] false)).
    destruct (Split.has_content (Split.current_section st2));
      rewrite ?app_assoc; reflexivity.
  - intros Hin Hbody. rewrite Hin in Hflag.
    assert (Hcontent : Split.has_content (Split.current_section st) = true).
    { unfold st. apply fold_fence_content; [discriminate|]. fold st. exact Hflag. }
    exists (Split.sections st), (Split.current_section st). split.
    + unfold Split.parse_lines. fold st. rewrite Hcontent. reflexivity.
    + unfold Split.parse_lines. rewrite fold_left_app. fold st.
      rewrite (fold_inside_fence_from body st Hflag Hbody).
      cbn [Split.sections Split.current_section].
      assert (Hc : Split.has_content (Split.current_section st ++ body) = true).
      { rewrite has_content_existsb, existsb_app, <- has_content_existsb, Hcontent.
        reflexivity. }
      rewrite Hc. reflexivity.
  - intros Hout. rewrite process_lines_app, Hout. reflexivity.
  - intros Hin Hbody Hclose. rewrite process_lines_app, Hin. cbn [xorb]. f_equal.
    rewrite (loop_copies_fenced_lines body (line :: rest) Hbody).
    rewrite process_lines_cons, Hclose. reflexivity.
  - intros Ht. rewrite (process_lines_outside_fence line rest (tildes_not_fence line Ht)).
    rewrite (tildes_line_kept line Ht). reflexivity.
Qed.

Lemma fence_tokens_of_the_two_scripts_witness :
  Split.parse_lines [lit "```python"; lit "## inside"; lit "~~~"; lit "## B"; lit "b"]
  = [[lit "```python"; lit "## inside"; lit "~~~"]; [lit "## B"; lit "b"]]
  /\ process_lines false [lit "~~~"; lit "# inside"; lit "~~~"]
     = [lit "~~~"; lit "### inside"; lit "~~~"].
Proof.
  split.
  - refine (eq_trans
              (proj1 (fence_tokens_of_the_two_scripts
                        [lit "```python"; lit "## inside"; lit "~~~"] (lit "## B") []
                        [lit "b"]) eq_refl eq_refl) _).
    vm_compute. reflexivity.
  - refine (eq_trans
              (proj2 (proj2 (proj2 (proj2
                 (fence_tokens_of_the_two_scripts [] (lit "~~~") []
                    [lit "# inside"; lit "~~~"])))) eq_refl) _).
    vm_compute. reflexivity.
Defined.

(** ** Groups that every match sets *)

Lemma lookup_cons_set (n k : nat) (sp : nat * nat) (cs : list (nat * (nat * nat))) :
  lookup n cs <> None -> lookup n ((k, sp) :: cs) <> None.
Proof. intros H. cbn [lookup]. destruct (Nat.eqb k n); [discriminate | exact H]. Qed.

Lemma eat_caps (eq : char -> char -> bool) (text : str) :
  forall st st', eat eq text st = Some st' -> caps st' = caps st.
Proof.
  induction text as [|t text IH]; intros st st' H; simpl in H.
  - injection H as <-. reflexivity.
  - destruct (after st) as [|c rest]; [discriminate|].
    destruct (eq t c); [|discriminate]. apply IH in H. exact H.
Qed.

(** A group that is set stays set to the end of the match. *)
Lemma m_keeps (s : str) (n : nat) (r : re) :
  forall st k res,
    m s r st k = Some res ->
    exists st',
      (lookup n (caps st) <> None -> lookup n (caps st') <> None) /\ k st' = Some res.
Proof.
  induction r as [|p|a IHa b IHb|a IHa b IHb|a IHa|g a IHa| | | |p|p|ic g];
    intros st k res H.
  - exists st. split; [tauto | exact H].
  - cbn [m] in H. destruct (after st) as [|c rest]; [discriminate|].
    destruct (p c); [|discriminate]. eexists. split; [|exact H]. cbn [caps]. tauto.
  - rewrite m_Seq in H. apply IHa in H. destruct H as [st1 [H1 H]].
    apply IHb in H. destruct H as [st2 [H2 H]].
    exists st2. split; [tauto | exact H].
  - rewrite m_Alt in H. destruct (m s a st k) eqn:Ha.
    + injection H as ->. apply IHa. exact Ha.
    + apply IHb. exact H.
  - rewrite m_Star in H. revert H. generalize (S (length (after st))) as fuel.
    intros fuel. revert st. induction fuel as [|fuel IHf]; intros st H.
    + exists st. split; [tauto | exact H].
    + cbn [star_loop] in H.
      destruct (m s a st _) eqn:Hbody.
      * injection H as ->. apply IHa in Hbody. destruct Hbody as [st1 [H1 Hbody]].
        destruct (pos st <? pos st1); [|discriminate].
        apply IHf in Hbody. destruct Hbody as [st2 [H2 Hbody]].
        exists st2. split; [tauto | exact Hbody].
      * exists st. split; [tauto | exact H].
  - rewrite m_Grp in H. apply IHa in H. destruct H as [st1 [H1 H]].
    eexists. split; [|exact H]. cbn [caps]. intros Hset. apply lookup_cons_set. tauto.
  - rewrite m_Bol in H. destruct (Nat.eqb (pos st) 0); [|discriminate].
    exists st. split; [tauto | exact H].
  - cbn [m] in H. exists st. split; [tauto|].
    destruct (after st) as [|c [|c' rest]]; [exact H | | discriminate].
    destruct (N.eqb c LF); [exact H | discriminate].
  - cbn [m] in H. destruct (xorb _ _); [|discriminate].
    exists st. split; [tauto | exact H].
  - cbn [m] in H. exists st. split; [tauto|].
    destruct (before st) as [|c rest]; [exact H|].
    destruct (p c); [discriminate | exact H].
  - cbn [m] in H. exists st. split; [tauto|].
    destruct (after st) as [|c rest]; [exact H|].
    destruct (p c); [discriminate | exact H].
  - cbn [m] in H. destruct (lookup g (caps st)) as [[a b]|]; [|discriminate].
    destruct (eat _ _ st) as [st'|] eqn:He; [|discriminate].
    exists st'. split; [|exact H]. rewrite (eat_caps _ _ _ _ He). tauto.
Qed.

(** A group that the pattern goes through in every match is set at the end
    of the match. *)
Lemma m_binds (s : str) (n : nat) (r : re) :
  binds n r ->
  forall st k res,
    m s r st k = Some res ->
    exists st', lookup n (caps st') <> None /\ k st' = Some res.
Proof.
  induction r as [|p|a IHa b IHb|a IHa b IHb|a IHa|g a IHa| | | |p|p|ic g];
    cbn [binds]; try contradiction; intros Hb st k res H.
  - rewrite m_Seq in H. destruct Hb as [Hb | Hb].
    + apply (IHa Hb) in H. destruct H as [st1 [H1 H]].
      apply (m_keeps s n b) in H. destruct H as [st2 [H2 H]].
      exists st2. split; [tauto | exact H].
    + apply (m_keeps s n a) in H. destruct H as [st1 [_ H]].
      apply (IHb Hb) in H. exact H.
  - rewrite m_Alt in H. destruct Hb as [Ha Hb]. destruct (m s a st k) eqn:Hm.
    + injection H as ->. apply (IHa Ha _ _ _ Hm).
    + apply (IHb Hb _ _ _ H).
  - rewrite m_Grp in H. destruct Hb as [-> | Hb].
    + apply (m_keeps s n a) in H. destruct H as [st1 [_ H]].
      eexists. split; [|exact H]. cbn [caps lookup]. rewrite Nat.eqb_refl. discriminate.
    + apply (IHa Hb) in H. destruct H as [st1 [H1 H]].
      eexists. split; [|exact H]. cbn [caps]. apply lookup_cons_set. exact H1.
Qed.

Lemma group_opt_set (r : re) (s : str) (i : nat) (st : mstate) (n : nat) :
  binds n r -> match_at r s i = Some st ->
  group_opt s i st n = Some (group s i st n).
Proof.
  intros Hb Hm. unfold match_at in Hm. apply (m_binds s n r Hb) in Hm.
  destruct Hm as [st' [Hset Heq]]. injection Heq as ->.
  unfold group_opt, group. destruct n as [|n]; [reflexivity|].
  destruct (lookup (S n) (caps st)) as [[a b]|]; [reflexivity | contradiction].
Qed.

Ltac bound pat := unfold pat; cbv [binds Cat]; auto 20.

Lemma group_opt_whole (s : str) (i : nat) (st : mstate) :
  group_opt s i st 0 = Some (group s i st 0).
Proof. reflexivity. Qed.

(** A substitution whose replacement function does not raise at the matches
    of the pattern does not raise. *)
Lemma sub_from_checked_returns (r : re) (replc : (nat -> option str) -> outcome)
  (repl : (nat -> str) -> str) (s : str) :
  (forall i st, match_at r s i = Some st ->
                replc (group_opt s i st) = Line (repl (group s i st))) ->
  forall fuel i, sub_from_checked r replc s fuel i = Line (sub_from r repl s fuel i).
Proof.
  intros Hrepl. induction fuel as [|fuel IH]; intros i; [reflexivity|].
  cbn [sub_from_checked sub_from].
  assert (Hcopy : match nth_error s i with
                  | Some c => and_then (sub_from_checked r replc s fuel (S i))
                                       (fun t => Line (c :: t))
                  | None => Line []
                  end
                  = Line match nth_error s i with
                         | Some c => c :: sub_from r repl s fuel (S i)
                         | None => []
                         end).
  { destruct (nth_error s i); [rewrite IH|]; reflexivity. }
  destruct (match_at r s i) as [st|] eqn:Hm; [|exact Hcopy].
  rewrite (Hrepl i st Hm). cbn [and_then].
  destruct (i <? pos st); [rewrite IH | rewrite Hcopy]; reflexivity.
Qed.

Lemma re_sub_checked_returns (r : re) (replc : (nat -> option str) -> outcome)
  (repl : (nat -> str) -> str) (s : str) :
  (forall i st, match_at r s i = Some st ->
                replc (group_opt s i st) = Line (repl (group s i st))) ->
  re_sub_checked r replc s = Line (re_sub r repl s).
Proof. intros H. apply sub_from_checked_returns. exact H. Qed.

Lemma normalize_headers_returns (line : str) :
  normalize_headers_checked line = Line (normalize_headers line).
Proof.
  unfold normalize_headers_checked, normalize_headers, re_match.
  destruct (match_at header_re line 0) as [st|] eqn:Hm; [|reflexivity].
  cbn [option_map]. rewrite (group_opt_set header_re line 0 st 2); [reflexivity | | exact Hm].
  bound header_re.
Qed.

Lemma fix_emoji_at_list_start_returns (line : str) :
  fix_emoji_at_list_start_checked line = Line (fix_emoji_at_list_start line).
Proof.
  unfold fix_emoji_at_list_start_checked, fix_emoji_at_list_start, re_match.
  destruct (match_at emoji_pattern line 0) as [st|] eqn:Hm; [|reflexivity].
  cbn [option_map]. cbv zeta.
  rewrite (group_opt_set emoji_pattern line 0 st 1), (group_opt_set emoji_pattern line 0 st 2),
    (group_opt_set emoji_pattern line 0 st 3);
    [reflexivity | bound emoji_pattern | exact Hm | bound emoji_pattern | exact Hm
     | bound emoji_pattern | exact Hm].
Qed.

Lemma convert_markdown_links_returns (line : str) :
  convert_markdown_links_checked line = Line (convert_markdown_links line).
Proof.
  unfold convert_markdown_links_checked, convert_markdown_links.
  apply re_sub_checked_returns. intros i st Hm.
  unfold replace_link_checked, replace_link. cbv zeta.
  rewrite (group_opt_set link_re line i st 1), (group_opt_set link_re line i st 2),
    (group_opt_set link_re line i st 3), group_opt_whole;
    [| bound link_re | exact Hm | bound link_re | exact Hm | bound link_re | exact Hm].
  cbn [text_of and_then formatted returned].
  destruct (_ || _); reflexivity.
Qed.

Lemma wrap_technical_terms_in_italic_returns (line : str) :
  wrap_technical_terms_in_italic_checked line = Line (wrap_technical_terms_in_italic line).
Proof.
  unfold wrap_technical_terms_in_italic_checked, wrap_technical_terms_in_italic.
  destruct (startswith fence (strip line)); [reflexivity|].
  destruct (_ || _); [reflexivity|].
  destruct (_ || _); [reflexivity|].
  destruct (is_list_item line); [reflexivity|]. cbv zeta.
  rewrite (re_sub_checked_returns snake_case_re wrap_snake_case_checked
             (fun g => [star] ++ g 1 ++ [star])).
  - cbn [and_then]. apply re_sub_checked_returns. intros i st Hm.
    unfold replace_tech_term_checked, replace_tech_term. cbv zeta.
    rewrite (group_opt_set tech_term_re _ i st 1);
      [| bound tech_term_re | exact Hm].
    cbn [text_of and_then]. destruct (existsb _ _); reflexivity.
  - intros i st Hm. unfold wrap_snake_case_checked. cbv zeta.
    rewrite (group_opt_set snake_case_re _ i st 1);
      [reflexivity | bound snake_case_re | exact Hm].
Qed.

Lemma wrap_technical_terms_in_italic_except_images_returns (line : str) :
  wrap_technical_terms_in_italic_except_images_checked line
  = Line (wrap_technical_terms_in_italic_except_images line).
Proof.
  unfold wrap_technical_terms_in_italic_except_images_checked,
    wrap_technical_terms_in_italic_except_images.
  destruct (re_search image_re line); [|apply wrap_technical_terms_in_italic_returns].
  apply re_sub_checked_returns. intros i st Hm.
  unfold process_without_image_path_checked. cbv zeta.
  rewrite (group_opt_set image_re line i st 1), (group_opt_set image_re line i st 2),
    (group_opt_set image_re line i st 3);
    [| bound image_re | exact Hm | bound image_re | exact Hm | bound image_re | exact Hm].
  cbn [text_of and_then]. rewrite !wrap_technical_terms_in_italic_returns.
  reflexivity.
Qed.

(** C8: no rule of the loop raises an exception, and each of the fifteen
    rules that follow [remove_show_answer_headers] returns a line, the one
    that the rule without its failures gives: no group that a rule reads
    through a match object is [None].  These fifteen are the rules that the
    loop composes.  [remove_show_answer_headers] returns its argument or the
    removal signal, the signal for some lines and never for a blank line.
    The bounds of the loops of the substitution and of the repetitions are
    never reached: a larger bound gives the same result. *)
Theorem rules_return_a_line_or_the_removal_signal :
  forall line : str,
    Forall2 (fun checked rule => checked line = Line (rule line))
            later_rules_checked later_rules
    /\ apply_rules line = fold_left (fun l rule => rule l) later_rules line
    /\ (remove_show_answer_headers_checked line = Line line
        \/ remove_show_answer_headers_checked line = Removal)
    /\ (strip line = [] -> remove_show_answer_headers_checked line = Line line)
    /\ (exists label, remove_show_answer_headers_checked label = Removal)
    /\ (forall (r : re) (repl : (nat -> str) -> str) (fuel : nat),
          length line < fuel -> sub_from r repl line fuel 0 = re_sub r repl line)
    /\ (forall (a : re) (st : mstate) (k : mstate -> option mstate) (fuel : nat),
          length (after st) < fuel ->
          star_loop (m line a) k fuel st = m line (Star a) st k).
Proof.
  intros line. split; [|split; [|split; [|split; [|split; [|split]]]]].
  - unfold later_rules_checked, later_rules.
    repeat (apply Forall2_cons;
            [first [ apply normalize_headers_returns
                   | apply fix_emoji_at_list_start_returns
                   | apply convert_markdown_links_returns
                   | apply wrap_technical_terms_in_italic_except_images_returns
                   | unfold total; reflexivity ]|]).
    apply Forall2_nil.
  - unfold apply_rules, later_rules. cbv zeta. cbn [fold_left]. reflexivity.
  - unfold remove_show_answer_headers_checked, remove_show_answer_headers.
    destruct (strip line); [left; reflexivity|].
    destruct (is_some _); [right | left]; reflexivity.
  - intros Hblank. unfold remove_show_answer_headers_checked, remove_show_answer_headers.
    rewrite Hblank. reflexivity.
  - exists [0x41F; 0x43E; 0x43A; 0x430; 0x437; 0x430; 0x442; 0x44C; 32;
            0x43E; 0x442; 0x432; 0x435; 0x442]%N.
    vm_compute. reflexivity.
  - intros r repl fuel Hfuel. symmetry. apply re_sub_fuel. exact Hfuel.
  - intros a st k fuel Hfuel. symmetry. apply m_Star_fuel. exact Hfuel.
Qed.

Lemma rules_return_a_line_or_the_removal_signal_witness :
  remove_show_answer_headers_checked (lit "   ") = Line (lit "   ")
  /\ normalize_headers_checked (lit "## Title") = Line (lit "### Title").
Proof.
  split.
  - apply (proj1 (proj2 (proj2 (proj2
             (rules_return_a_line_or_the_removal_signal (lit "   ")))))).
    reflexivity.
  - pose proof (proj1 (rules_return_a_line_or_the_removal_signal (lit "## Title"))) as H.
    inversion H as [|checked rule cs rs Hhead Htail]. subst.
    rewrite Hhead. vm_compute. reflexivity.
Defined.
